(* ===== verification/_CoqProject ===== *)
-Q . S2P
Prelude.v
FdbApi.v
KeyOrder.v
FdbInstance.v
Util.v
Subspaces.v
SubspaceFacts.v
Transact.v
History.v
Samples.v
Write.v
WriteSpec.v
Read.v
Scan.v
ReadFacts.v
ListValues.v
ScanSpec.v
ReadSpec.v
RevScan.v
Compaction.v
CompactSpec.v
Counts.v
Watch.v
WatchSpec.v
CountSpec.v
Ttl.v
TtlSpec.v
Wal.v
WalSpec.v
KeySpace.v
Refine.v
TtlEvents.v
TtlEventsSpec.v
Start.v
Backend.v
Hints.v
EtcdModel.v
EtcdModelSpec.v
NonDeterministic.v
Replay.v
RobustnessWal.v
RobustnessSpec.v
Validate.v
ValidateSpec.v
PatchHistory.v
PatchSpec.v
Traces.v
CommandLine.v
