(* ===== verification/Prelude.v ===== *)
(** * kube-foundationdb: the FoundationDB driver for kine, verified

    The program is an etcd shim: kine calls a [server.Backend], and the driver
    under src/pkg/drivers/fdb implements it on FoundationDB.  This library
    models the driver and proves that it is one, and models the part of the
    tests under src/test/robustness that says what a correct driver is: the
    reference model of etcd, the replay of the driver's log and the checks of
    recorded histories.

    ** The program and how it is modelled

    Every write appends one record, a revision with a key-value or a tombstone.
    A record is stored under its revision (by-revision subspace, with its value
    in chunks of 10000 bytes), under its key and revision (by-key index), and
    the value of a live key once more in order of the keys (current values).
    Reads scan the by-key index, in several transactions when one has not time
    enough; a poll loop reads the by-revision subspace and publishes events;
    watches start with the past and go on with the loop; compaction removes
    superseded records; leases expire by a list and watch of their own.

    FoundationDB, its bindings and the tuple layer are not in the repository:
    FdbApi.v states what the driver calls as two type classes with the laws
    that their documentation gives, FdbInstance.v implements them (the published
    encoding over a finite map) so that every definition can be run.  So are
    the delaying work queue (Ttl.v, with an instance in TtlSpec.v), the size
    estimate (an argument of [DbSize]), the types and functions of etcd's own
    test packages (classes of EtcdModel.v, Replay.v and PatchHistory.v) and the
    linearizability checker (an argument of [ValidateAndReturnVisualize]).

    A fallible operation returns a [res]: [Ok], [Err] with an error value, or
    [Panic].  An operation on the database takes the store and returns it.  What
    the code cannot know in advance is an argument: for each attempt of each
    transaction, what other clients have committed before it, its read and
    commit versions, the answer to its commit (committed, refused, unknown and
    applied or not), a fault, and how many records its time is enough for
    ([Attempt], [TransactEnv], [BatchEnv] of Transact.v).  Loops that end only
    when the environment lets them ([retryable], [processRange], [poll], the
    pages of [ttlEvents]) recurse over these lists, and answer [None] when the
    list is used up: no theorem about a result holds vacuously for it, since the
    theorems state that a result is returned and say which lists are enough (an
    attempt that commits; a last batch with time for all records, or more
    batches than records).

    ** Files, by part of the program

    - Prelude.v: byte strings and their order, results and errors, 64-bit
      integers, sorted lists.  FdbApi.v, KeyOrder.v, FdbInstance.v: the client
      library, its key ranges, an instance.
    - Util.v (util.go), Subspaces.v (fdb_subspace_*.go), SubspaceFacts.v: records,
      versionstamps and what the subspaces store and read back.
    - Transact.v (fdb_util.go): [transact], [retryable], [processRange] and
      [processBatch] over any [Processor], the interface of the collectors.
    - History.v: the abstract state, a list of records in order of revisions, and
      [Repr], the relation between it and a store.  Samples.v: every well-formed
      history has a store; the inputs of the runs.
    - Write.v, WriteSpec.v (fdb_write.go): [Create], [Update], [Delete].
    - Read.v (fdb_read.go), Scan.v (the reference scan), ReadFacts.v, ListValues.v,
      ScanSpec.v, ReadSpec.v: collectors, [List], [Get], [CurrentRevision].  The
      record collector is proved against the interface [InnerSpec], which the
      list and count collectors implement.
    - RevScan.v: reading by revision.  Compaction.v, CompactSpec.v (fdb_compact.go).
    - Counts.v, CountSpec.v (fdb_count.go and [Count]); Watch.v, WatchSpec.v
      (fdb_watch.go): the tracker, the poll loop and the watches.
    - Ttl.v, TtlSpec.v, TtlEvents.v, TtlEventsSpec.v (fdb_ttl.go): the goroutines
      that expire leases as a step function with an [action] for each thing that
      can happen next, and the list and watch that feed them.
    - Wal.v, WalSpec.v (fdb_wal.go): the export of all records.
    - KeySpace.v: the specification, an etcd key space with a revision.  Refine.v:
      the driver refines it.
    - Start.v (fdb.go), Backend.v (fdb_logger.go): the start, the driver as a
      record of operations, and the logger around any such record.
    - Hints.v: how a batch reads ([streamingMode], [snapshotReads]).  Traces.v
      (fdb_log_util.go): copying the trace files.  CommandLine.v (fdb_config.go,
      cmd/kube-foundationdb): the settings, their flags and [main].
    - EtcdModel.v, EtcdModelSpec.v (model/deterministic.go), NonDeterministic.v
      (model/non_deterministic.go), Replay.v (model/replay.go), RobustnessWal.v
      (fdb/wal.go), RobustnessSpec.v: the reference model of the robustness tests,
      and what the driver and its log are to it.
    - Validate.v, ValidateSpec.v (validate/watch.go, operations.go),
      PatchHistory.v, PatchSpec.v (validate/validate.go, patch_history.go): the
      checks of what clients recorded.

    ** What the theorems show

    - Refinement: [driver_refines_key_space], a session of writes, gets of
      current values and lists of current keys, with failed and unknown commits
      and other writers, replies as the key space does, each call at one moment
      between its start and its end.  Other clients may write the key of a write
      until one of its attempts may have been applied; that they leave it alone
      from then on is needed ([Create_twice_after_concurrent_delete]).
    - Writes: each takes effect exactly once over retries, and fails without
      effect when it should ([Create_exactly_once] to [Delete_stale]); what is
      written reads back with all its fields and chunks ([append_reads_back]).
    - Reads: [List_snapshot], [Get_snapshot] and [Count_snapshot] are the keys
      that were live at one revision; [List_terminates]; errors below the
      compaction revision and in the future.
    - Events: [poll_exactly_once] and [poll_catches_up], each event once, in order,
      and in the end all; [startWatch_exactly_once], from the moment the loop
      starts; [Watch_complete], [Watch_compacted]; [ReadWAL_history].
    - Compaction keeps what is live, the newer records and all that other clients
      wrote meanwhile, and removes the rest ([Compact_keeps_live],
      [Compact_removes]); the counts of the tracker are exact
      ([poll_counts_exact], [Count_exact]).
    - Leases: a key is deleted only when a lease of it has run out, and every
      stored lease stays tracked, over every interleaving; [ttlEvents_complete].
    - [Start_serves]; [FdbLogger_transparent]; [snapshot_reads_only].
    - The reference model: [Step_well_formed] for every request;
      [nonDeterministic_exact], which observations it accepts.  The driver
      against it: [write_matches_model], a write does to the model what it does
      to the store; [writes_keep_linked]; [WAL_replays], the replay of the log is
      the history.  The checks are exact ([validateWatch_exact],
      [serializable_exact]), and patching a recorded history keeps every effect
      in its place ([patch_keeps_effects]).
    - Where the code does not do what it means to, a theorem shows it.  In
      general: a create that is applied twice
      ([Create_twice_after_concurrent_delete]), compaction that loses history
      ([Compact_loses_history]), leases that overflow ([ttl_lease_overflow]).
      On a concrete run: a limited list that returns a deleted key, compaction
      that goes back or resurrects a key, a count that is seeded too late, leases
      that are lost.

    Revisions are versionstamps, or consecutive numbers when the driver runs
    under the tests ([UseSequentialId]); the definitions have both modes.  The
    theorems on writes, the start, the deletion of expired keys, the export and
    the shape of the history hold in both.  Those on reads, events, counts,
    compaction and sessions are for versionstamps, and those that relate the
    driver to the reference model for consecutive numbers, as the tests run it.

    ** Not modelled

    Log arguments, TLS and the opening of the database beyond the options and
    errors of [Start], the parsing of flags and kine's own code, the
    broadcaster's buffers (a subscriber is given the batches that are sent from
    its subscription on), the shutdown of the goroutines, the reading of
    conflicting keys for the log, errors of futures that are read after a commit,
    and allocations that exceed the memory.  The reference model's revision is
    not bounded to 64 bits.  Of src/test: the search for a linearization,
    which is a library; describe.go, which formats reports; the generators of
    traffic, the start of servers and the benchmark, which only call them.
    Compaction is not an operation of the abstract key space: Refine.v keeps the
    compaction revision fixed during a session. *)
From stdpp Require Import base strings list gmap sorting.
From Stdlib Require Import Strings.Byte ZArith Lia.

#[global] Open Scope Z_scope.

(** * Bytes and byte strings

    Go's [string] and [[]byte] are sequences of octets; both are [bytes]. *)

Abbreviation byte := Byte.byte.
Abbreviation bytes := (list Byte.byte).

#[global] Instance byte_eq_dec : EqDecision byte := Byte.byte_eq_dec.

Definition byte_of_N (n : N) : byte := default Byte.x00 (Byte.of_N n).

Lemma byte_of_to_N b : byte_of_N (Byte.to_N b) = b.
Proof. unfold byte_of_N. by rewrite Byte.of_to_N. Qed.

#[global] Instance byte_countable : Countable byte :=
  inj_countable' Byte.to_N byte_of_N byte_of_to_N.

(** String literals of the source as byte strings. *)
Definition str (s : String.string) : bytes := String.list_byte_of_string s.
Arguments str s%_string_scope.

Definition byte_to_Z (b : byte) : Z := Z.of_N (Byte.to_N b).
Definition byte_of_Z (z : Z) : byte :=
  byte_of_N (Z.to_N (z mod 256)).

Lemma byte_to_Z_range b : 0 <= byte_to_Z b < 256.
Proof. unfold byte_to_Z. pose proof (Byte.to_N_bounded b). lia. Qed.

Lemma byte_to_of_Z z : byte_to_Z (byte_of_Z z) = z mod 256.
Proof.
  unfold byte_to_Z, byte_of_Z, byte_of_N.
  pose proof (Z.mod_pos_bound z 256 ltac:(lia)).
  destruct (Byte.of_N (Z.to_N (z mod 256))) as [b|] eqn:E; simpl.
  - apply Byte.to_of_N in E. lia.
  - apply Byte.of_N_None_iff in E. lia.
Qed.

Lemma byte_of_to_Z b : byte_of_Z (byte_to_Z b) = b.
Proof.
  unfold byte_of_Z. pose proof (byte_to_Z_range b).
  rewrite Z.mod_small by lia. unfold byte_to_Z.
  by rewrite N2Z.id, byte_of_to_N.
Qed.

#[global] Instance byte_to_Z_inj : Inj (=) (=) byte_to_Z.
Proof. intros a b H. by rewrite <-(byte_of_to_Z a), <-(byte_of_to_Z b), H. Qed.

(** ** The lexicographic order of FoundationDB keys and of Go strings *)

Fixpoint bcompare (a b : bytes) : comparison :=
  match a, b with
  | [], [] => Eq
  | [], _ :: _ => Lt
  | _ :: _, [] => Gt
  | x :: a', y :: b' =>
      match byte_to_Z x ?= byte_to_Z y with
      | Eq => bcompare a' b'
      | c => c
      end
  end.

Definition bltb (a b : bytes) : bool :=
  match bcompare a b with Lt => true | _ => false end.
Definition bleb (a b : bytes) : bool :=
  match bcompare a b with Gt => false | _ => true end.

Definition blt (a b : bytes) : Prop := bcompare a b = Lt.
Definition ble (a b : bytes) : Prop := bcompare a b <> Gt.

Declare Scope bytes_scope.
Delimit Scope bytes_scope with bytes.
Notation "a <b b" := (blt a b) (at level 70) : bytes_scope.
Notation "a <=b b" := (ble a b) (at level 70) : bytes_scope.
#[global] Open Scope bytes_scope.

Lemma bltb_spec a b : bltb a b = true <-> a <b b.
Proof. unfold bltb, blt. destruct (bcompare a b); simpl; intuition (try congruence). Qed.
Lemma bleb_spec a b : bleb a b = true <-> a <=b b.
Proof. unfold bleb, ble. destruct (bcompare a b); simpl; intuition (try congruence). Qed.

#[global] Instance blt_dec : RelDecision blt.
Proof. intros a b. unfold blt. apply _. Defined.
#[global] Instance ble_dec : RelDecision ble.
Proof. intros a b. unfold ble. apply _. Defined.

Lemma bcompare_refl a : bcompare a a = Eq.
Proof. induction a as [|x a IH]; simpl; [done|]. by rewrite Z.compare_refl. Qed.

Lemma bcompare_eq a b : bcompare a b = Eq <-> a = b.
Proof.
  split; [|intros ->; apply bcompare_refl].
  revert b; induction a as [|x a IH]; intros [|y b]; simpl; try done.
  destruct (Z.compare_spec (byte_to_Z x) (byte_to_Z y)) as [E| |]; try done.
  apply (inj byte_to_Z) in E as ->. intros H. f_equal. by apply IH.
Qed.

Lemma bcompare_antisym a b : bcompare b a = CompOpp (bcompare a b).
Proof.
  revert b; induction a as [|x a IH]; intros [|y b]; simpl; try done.
  rewrite (Z.compare_antisym (byte_to_Z x)).
  destruct (byte_to_Z x ?= byte_to_Z y); simpl; auto.
Qed.

Lemma blt_trans a b c : a <b b -> b <b c -> a <b c.
Proof.
  unfold blt. revert b c; induction a as [|x a IH]; intros [|y b] [|z c]; simpl; try done.
  destruct (Z.compare_spec (byte_to_Z x) (byte_to_Z y)) as [E|E|E]; try done;
  destruct (Z.compare_spec (byte_to_Z y) (byte_to_Z z)) as [F|F|F]; try done; intros H1 H2.
  - rewrite E, F, Z.compare_refl. by eapply IH.
  - rewrite E. by rewrite (proj2 (Z.compare_lt_iff _ _) F).
  - rewrite <-F. by rewrite (proj2 (Z.compare_lt_iff _ _) E).
  - rewrite (proj2 (Z.compare_lt_iff _ _)); [done|lia].
Qed.

Lemma blt_irrefl a : ~ a <b a.
Proof. unfold blt. by rewrite bcompare_refl. Qed.

Lemma ble_lteq a b : a <=b b <-> a <b b \/ a = b.
Proof.
  unfold ble, blt. rewrite <-bcompare_eq. destruct (bcompare a b); simpl; intuition (try congruence).
Qed.

Lemma ble_not_lt a b : a <=b b <-> ~ b <b a.
Proof.
  unfold ble, blt. rewrite (bcompare_antisym a b). destruct (bcompare a b); simpl; intuition (try congruence).
Qed.

Lemma blt_not_le a b : a <b b <-> ~ b <=b a.
Proof. rewrite ble_not_lt. destruct (decide (a <b b)); naive_solver. Qed.

Lemma blt_total a b : a <b b \/ a = b \/ b <b a.
Proof.
  unfold blt. rewrite (bcompare_antisym a b), <-(bcompare_eq a b).
  destruct (bcompare a b); simpl; intuition (try congruence).
Qed.

#[global] Instance blt_strict : StrictOrder blt.
Proof. split; [exact blt_irrefl|exact blt_trans]. Qed.

Lemma ble_refl a : a <=b a.
Proof. apply ble_lteq. auto. Qed.
Lemma blt_le a b : a <b b -> a <=b b.
Proof. intros. apply ble_lteq. auto. Qed.
Lemma ble_trans a b c : a <=b b -> b <=b c -> a <=b c.
Proof. rewrite !ble_lteq. intros [?| ->] [?| ->]; eauto using blt_trans. Qed.
Lemma ble_lt_trans a b c : a <=b b -> b <b c -> a <b c.
Proof. rewrite ble_lteq. intros [?| ->]; eauto using blt_trans. Qed.
Lemma blt_le_trans a b c : a <b b -> b <=b c -> a <b c.
Proof. rewrite ble_lteq. intros ? [?| <-]; eauto using blt_trans. Qed.

#[global] Instance ble_preorder : PreOrder ble.
Proof. split; [exact ble_refl|exact ble_trans]. Qed.
#[global] Instance ble_total : Total ble.
Proof. intros a b. rewrite !ble_lteq. destruct (blt_total a b) as [?|[?|?]]; auto. Qed.
#[global] Instance ble_antisymm : AntiSymm (=) ble.
Proof.
  intros a b. rewrite !ble_lteq. intros [H|?] [H2|?]; try done.
  destruct (blt_irrefl a). by eapply blt_trans.
Qed.

Create HintDb border discriminated.
#[export] Hint Resolve ble_refl blt_le blt_trans ble_lt_trans blt_le_trans : border.

Lemma bcompare_app_l p a b : bcompare (p ++ a) (p ++ b) = bcompare a b.
Proof. induction p as [|x p IH]; simpl; [done|]. by rewrite Z.compare_refl. Qed.

Lemma blt_app_l p a b : p ++ a <b p ++ b <-> a <b b.
Proof. unfold blt. by rewrite bcompare_app_l. Qed.

Lemma ble_app_l p a b : p ++ a <=b p ++ b <-> a <=b b.
Proof. unfold ble. by rewrite bcompare_app_l. Qed.

Lemma ble_nil a : [] <=b a.
Proof. by destruct a. Qed.

Lemma ble_prefix p k : p `prefix_of` k -> p <=b k.
Proof. intros [r ->]. rewrite <-(app_nil_r p) at 1. apply ble_app_l, ble_nil. Qed.

(** [bdiverge a b]: [a] is below [b] because of a byte both have, not because
    it is a prefix of [b]; the comparison is then decided whatever follows. *)
Definition bdiverge (a b : bytes) : Prop :=
  exists p x y a2 b2,
    a = p ++ x :: a2 /\ b = p ++ y :: b2 /\ byte_to_Z x < byte_to_Z y.

Lemma bdiverge_lt a b u v : bdiverge a b -> a ++ u <b b ++ v.
Proof.
  intros (p & x & y & a2 & b2 & -> & -> & Hlt).
  rewrite <-!app_assoc. apply blt_app_l. unfold blt; simpl.
  by rewrite (proj2 (Z.compare_lt_iff _ _) Hlt).
Qed.

Lemma bdiverge_app_l p a b : bdiverge a b -> bdiverge (p ++ a) (p ++ b).
Proof.
  intros (q & x & y & a2 & b2 & -> & -> & Hlt).
  exists (p ++ q), x, y, a2, b2. by rewrite !app_assoc.
Qed.

Lemma bdiverge_app_r a b u v : bdiverge a b -> bdiverge (a ++ u) (b ++ v).
Proof.
  intros (q & x & y & a2 & b2 & -> & -> & Hlt).
  exists q, x, y, (a2 ++ u), (b2 ++ v). by rewrite <-!app_assoc.
Qed.

Lemma bdiverge_no_prefix a b u v : bdiverge a b -> a ++ u <> b ++ v.
Proof. intros H E. apply (bdiverge_lt _ _ u v) in H. rewrite E in H. by apply blt_irrefl in H. Qed.

(** Equal-length strings that differ diverge. *)
Lemma blt_diverge a b : length a = length b -> a <b b -> bdiverge a b.
Proof.
  unfold blt. revert b; induction a as [|x a IH]; intros [|y b] Hlen; simpl in *; try done.
  destruct (Z.compare_spec (byte_to_Z x) (byte_to_Z y)) as [E|E|E]; try done; intros H.
  - apply (inj byte_to_Z) in E as ->. apply (bdiverge_app_l [y]), IH; [lia|done].
  - exists [], x, y, a, b. auto.
Qed.

(** The keys between [p ++ [0x00]] and [p ++ [0xff]]: FoundationDB's range of
    a subspace. *)
Lemma in_sub_range p k :
  (p ++ [Byte.x00] <=b k /\ k <b p ++ [Byte.xff]) <->
  exists b r, k = p ++ b :: r /\ b <> Byte.xff.
Proof.
  split.
  - revert k. induction p as [|x p IH]; intros k [H1 H2]; simpl in *.
    + destruct k as [|b r]; [done|]. exists b, r. split; [done|].
      intros ->. unfold blt in H2. simpl in H2. by destruct r.
    + destruct k as [|y k]; [done|]. unfold ble, blt in *. simpl in *.
      rewrite (Z.compare_antisym (byte_to_Z x) (byte_to_Z y)) in H2.
      destruct (Z.compare_spec (byte_to_Z x) (byte_to_Z y)) as [E|E|E]; simpl in *; try done.
      apply (inj byte_to_Z) in E as ->.
      destruct (IH k) as (b & r & -> & ?); [done|]. by exists b, r.
  - intros (b & r & -> & Hb). rewrite ble_app_l, blt_app_l. unfold ble, blt. cbn [bcompare].
    assert (byte_to_Z b <> 255) by (intros E; apply Hb, (inj byte_to_Z); done).
    pose proof (byte_to_Z_range b).
    change (byte_to_Z Byte.x00) with 0. change (byte_to_Z Byte.xff) with 255. split.
    + destruct (byte_to_Z b); [by destruct r|done|lia].
    + by rewrite (proj2 (Z.compare_lt_iff _ _)) by lia.
Qed.

(** Between two strings with a prefix, every string has it. *)
Lemma prefix_between s u w k : s ++ u <=b k -> k <b s ++ w -> s `prefix_of` k.
Proof.
  revert k; induction s as [|x s IH]; intros k Hle Hlt; [apply prefix_nil|].
  destruct k as [|y k]; [done|]. unfold ble, blt in *. cbn [app bcompare] in *.
  rewrite (Z.compare_antisym (byte_to_Z x)) in Hlt.
  destruct (Z.compare_spec (byte_to_Z x) (byte_to_Z y)) as [E|E|E]; try done.
  apply (inj byte_to_Z) in E as ->. by apply prefix_cons, IH.
Qed.

(** [p ++ [0x00]] is the next string after [p]. *)
Lemma ble_next p k : p ++ [Byte.x00] <=b k <-> p <b k.
Proof.
  revert k; induction p as [|x p IH]; intros k; simpl.
  - destruct k as [|b k]; [by split|]. unfold ble, blt. cbn [bcompare].
    change (byte_to_Z Byte.x00) with 0. pose proof (byte_to_Z_range b).
    destruct (Z.compare_spec 0 (byte_to_Z b)); [by destruct k|done|lia].
  - destruct k as [|b k]; [by split|]. unfold ble, blt in *. cbn [bcompare].
    destruct (byte_to_Z x ?= byte_to_Z b); [apply IH|done|by split].
Qed.

(** ** Big-endian integers (encoding/binary) *)

Fixpoint be (n : nat) (z : Z) : bytes :=
  match n with
  | O => []
  | S m => byte_of_Z (z / 256 ^ Z.of_nat m) :: be m z
  end.

Fixpoint unbe (l : bytes) : Z :=
  match l with
  | [] => 0
  | b :: l' => byte_to_Z b * 256 ^ Z.of_nat (length l') + unbe l'
  end.

Lemma length_be n z : length (be n z) = n.
Proof. induction n; simpl; congruence. Qed.

Lemma pow256_pos n : 0 < 256 ^ Z.of_nat n.
Proof. apply Z.pow_pos_nonneg; lia. Qed.

Lemma pow256_S n : 256 ^ Z.of_nat (S n) = 256 * 256 ^ Z.of_nat n.
Proof. rewrite Nat2Z.inj_succ, Z.pow_succ_r; lia. Qed.

Lemma unbe_be n z : unbe (be n z) = z mod 256 ^ Z.of_nat n.
Proof.
  induction n as [|n IH]; cbn [be unbe]; [by rewrite Z.mod_1_r|].
  rewrite length_be, IH, byte_to_of_Z, pow256_S.
  pose proof (pow256_pos n). rewrite (Z.mul_comm 256), Z.rem_mul_r by lia. lia.
Qed.

Lemma unbe_range l : 0 <= unbe l < 256 ^ Z.of_nat (length l).
Proof.
  induction l as [|b l IH]; cbn [unbe length]; [simpl; lia|].
  rewrite pow256_S. pose proof (byte_to_Z_range b). nia.
Qed.

Lemma be_mod n z : be n (z mod 256 ^ Z.of_nat n) = be n z.
Proof.
  enough (forall m, (n <= m)%nat -> be n (z mod 256 ^ Z.of_nat m) = be n z) as H by (apply H; lia).
  induction n as [|n IH]; intros m Hm; cbn [be]; [done|].
  rewrite IH by lia. f_equal. apply (inj byte_to_Z). rewrite !byte_to_of_Z.
  pose proof (pow256_pos n). pose proof (pow256_pos m).
  assert (E : 256 ^ Z.of_nat m = 256 ^ Z.of_nat (m - n - 1) * 256 * 256 ^ Z.of_nat n).
  { rewrite <-Z.mul_assoc, <-pow256_S, <-Z.pow_add_r by lia. f_equal. lia. }
  rewrite (Z.div_mod z (256 ^ Z.of_nat m)) at 2 by lia. rewrite E at 2.
  rewrite (Z.mul_comm _ (z / _)), !Z.mul_assoc, Z.div_add_l by lia.
  rewrite Z.add_comm, Z.mod_add by lia. done.
Qed.

Lemma be_unbe l : be (length l) (unbe l) = l.
Proof.
  induction l as [|b l IH]; cbn [be unbe length]; [done|].
  pose proof (unbe_range l). pose proof (pow256_pos (length l)).
  rewrite Z.div_add_l, (Z.div_small (unbe l)), Z.add_0_r, byte_of_to_Z by lia.
  f_equal. rewrite <-(be_mod (length l) (_ + _)).
  rewrite Z.add_comm, Z.mod_add, Z.mod_small by lia. done.
Qed.

Lemma bcompare_unbe a b : length a = length b -> bcompare a b = (unbe a ?= unbe b).
Proof.
  revert b; induction a as [|x a IH]; intros [|y b] Hlen; cbn [bcompare unbe length] in *; try done.
  assert (Hl : length a = length b) by lia.
  rewrite (IH b Hl). rewrite <-Hl. pose proof (unbe_range a). pose proof (unbe_range b) as Hb.
  rewrite <-Hl in Hb. pose proof (pow256_pos (length a)).
  destruct (Z.compare_spec (byte_to_Z x) (byte_to_Z y)) as [E|E|E].
  - rewrite E. destruct (Z.compare_spec (unbe a) (unbe b)); symmetry;
      [apply Z.compare_eq_iff|apply Z.compare_lt_iff|apply Z.compare_gt_iff]; lia.
  - symmetry. apply Z.compare_lt_iff. nia.
  - symmetry. apply Z.compare_gt_iff. nia.
Qed.

Lemma unbe_inj a b : length a = length b -> unbe a = unbe b -> a = b.
Proof. intros Hl H. by rewrite <-(be_unbe a), <-(be_unbe b), Hl, H. Qed.

(** * Machine integers

    Go's [int64] as a [Z] in range, with its conversions. *)

Definition int64_min : Z := - 2 ^ 63.
Definition int64_max : Z := 2 ^ 63 - 1.
Definition is_int64 (z : Z) : Prop := int64_min <= z <= int64_max.
#[global] Instance is_int64_dec z : Decision (is_int64 z).
Proof. unfold is_int64. apply _. Defined.

(** [uint64(z)] and [int64(z)]: the two's complement conversions. *)
Definition to_uint64 (z : Z) : Z := z mod 2 ^ 64.
Definition to_int64 (z : Z) : Z := (z + 2 ^ 63) mod 2 ^ 64 - 2 ^ 63.

Lemma to_int64_range z : is_int64 (to_int64 z).
Proof.
  unfold is_int64, to_int64, int64_min, int64_max.
  pose proof (Z.mod_pos_bound (z + 2 ^ 63) (2 ^ 64) ltac:(lia)). lia.
Qed.

Lemma to_int64_id z : is_int64 z -> to_int64 z = z.
Proof.
  unfold is_int64, to_int64, int64_min, int64_max. intros H.
  rewrite Z.mod_small; lia.
Qed.

(** Wrapping around is compatible with sums. *)
Lemma to_int64_add a b : to_int64 (to_int64 a + b) = to_int64 (a + b).
Proof.
  unfold to_int64. f_equal.
  replace ((a + 2 ^ 63) mod 2 ^ 64 - 2 ^ 63 + b + 2 ^ 63) with ((a + 2 ^ 63) mod 2 ^ 64 + b) by lia.
  rewrite Z.add_mod_idemp_l by done. f_equal. lia.
Qed.

Lemma to_int64_uint64 z : is_int64 z -> to_int64 (to_uint64 z) = z.
Proof.
  intros H. rewrite <-(to_int64_id z H) at 2. unfold to_int64, to_uint64.
  by rewrite Z.add_mod_idemp_l by lia.
Qed.

(** * Results of fallible code

    Go functions return a value and an [error]; a panic unwinds. *)

Inductive error : Type :=
| FDBError (code : Z)          (* fdb.Error{Code: code} *)
| ErrKeyExists                 (* server.ErrKeyExists *)
| ErrCompacted                 (* server.ErrCompacted *)
| ErrFutureRev                 (* server.ErrFutureRev *)
| ErrRequestTooLarge           (* rpctypes.ErrRequestTooLarge *)
| ErrMessage (msg : String.string).   (* fmt.Errorf and the libraries' own errors *)

#[global] Instance error_eq_dec : EqDecision error.
Proof. solve_decision. Defined.

Inductive res (A : Type) : Type :=
| Ok (a : A)
| Err (e : error)
| Panic.
Arguments Ok {A} a.
Arguments Err {A} e.
Arguments Panic {A}.

Definition rbind {A B} (m : res A) (k : A -> res B) : res B :=
  match m with Ok a => k a | Err e => Err e | Panic => Panic end.

Declare Scope res_scope.
Delimit Scope res_scope with res.
Notation "'let?' x ':=' m 'in' k" := (rbind m (fun x => k))
  (at level 10, x binder, m at level 100, k at level 200) : res_scope.
#[global] Open Scope res_scope.

Definition of_option {A} (e : error) (o : option A) : res A :=
  match o with Some a => Ok a | None => Err e end.

(** A failed type assertion [x.(T)] and an index out of range panic. *)
Definition assert_some {A} (o : option A) : res A :=
  match o with Some a => Ok a | None => Panic end.

Lemma rbind_Ok {A B} (m : res A) (k : A -> res B) b :
  rbind m k = Ok b <-> exists a, m = Ok a /\ k a = Ok b.
Proof. destruct m; simpl; [naive_solver|split; [done|by intros (?&?&?)]..]. Qed.

(** * Lists *)

(** [v[a:b]] *)
Definition slice {A} (v : list A) (a b : Z) : list A :=
  take (Z.to_nat (b - a)) (drop (Z.to_nat a) v).

Definition zlength {A} (l : list A) : Z := Z.of_nat (length l).

Lemma zlength_nonneg {A} (l : list A) : 0 <= zlength l.
Proof. unfold zlength. lia. Qed.

Lemma zlength_app {A} (l k : list A) : zlength (l ++ k) = zlength l + zlength k.
Proof. unfold zlength. rewrite length_app. lia. Qed.

Section sorted_lists.
Context {A : Type} (R : relation A) `{!StrictOrder R}.

Lemma ssorted_NoDup l : StronglySorted R l -> NoDup l.
Proof.
  induction 1 as [|x l Hs IH Hx]; constructor; [|done].
  intros Hin. rewrite Forall_forall in Hx. by apply (irreflexivity R x), Hx.
Qed.

(** Two strictly sorted lists with the same elements are equal. *)
Lemma ssorted_ext l k :
  StronglySorted R l -> StronglySorted R k ->
  (forall x, x ∈ l <-> x ∈ k) -> l = k.
Proof.
  intros Hl; revert k. induction Hl as [|x l Hs IH Hx]; intros k Hk Heq.
  - destruct k as [|y k]; [done|]. destruct (Heq y) as [_ H].
    specialize (H ltac:(left)). by apply not_elem_of_nil in H.
  - destruct Hk as [|y k Hk Hy].
    { destruct (Heq x) as [H _]. specialize (H ltac:(left)). by apply not_elem_of_nil in H. }
    rewrite Forall_forall in Hx, Hy.
    assert (x = y) as ->.
    { destruct (Heq x) as [H1 _]. specialize (H1 ltac:(left)).
      destruct (Heq y) as [_ H2]. specialize (H2 ltac:(left)).
      apply elem_of_cons in H1 as [->|H1]; [done|].
      apply elem_of_cons in H2 as [->|H2]; [done|].
      destruct (irreflexivity R x). etrans; [by apply Hx|by apply Hy]. }
    f_equal. apply IH; [done|]. intros z.
    assert (Hz := Heq z). rewrite !elem_of_cons in Hz.
    split; intros Hin.
    + destruct (proj1 Hz (or_intror Hin)) as [->|]; [|done].
      destruct (irreflexivity R y). by apply Hx.
    + destruct (proj2 Hz (or_intror Hin)) as [->|]; [|done].
      destruct (irreflexivity R y). by apply Hy.
Qed.

Lemma ssorted_filter (P : A -> Prop) `{!forall x, Decision (P x)} l :
  StronglySorted R l -> StronglySorted R (filter P l).
Proof.
  induction 1 as [|x l Hs IH Hx]; [constructor|].
  rewrite filter_cons. case_decide; [|done]. constructor; [done|].
  rewrite Forall_forall in *. intros y [_ Hy]%list_elem_of_filter. auto.
Qed.
End sorted_lists.

(** Mapping a sorted list by a function that keeps the order on it. *)
Lemma ssorted_fmap_on {A B} (R1 : relation A) (R2 : relation B) (f : A -> B) l :
  (forall x y, x ∈ l -> y ∈ l -> R1 x y -> R2 (f x) (f y)) ->
  StronglySorted R1 l -> StronglySorted R2 (f <$> l).
Proof.
  intros Hf. induction 1 as [|x l Hs IH Hx]; [constructor|].
  rewrite fmap_cons. constructor.
  - apply IH. intros; apply Hf; [by right..|done].
  - rewrite Forall_forall. rewrite Forall_forall in Hx. intros y (z & -> & Hz)%list_elem_of_fmap.
    apply Hf; [left|by right|auto].
Qed.

Lemma seqZ_sorted m n : StronglySorted Z.lt (seqZ m n).
Proof.
  destruct (Z.le_gt_cases n 0); [rewrite seqZ_nil by done; constructor|].
  revert m. pattern n. apply natlike_ind; [| |lia].
  - intros m. rewrite seqZ_nil by done. constructor.
  - intros k Hk IH m. rewrite seqZ_cons by lia. constructor.
    + rewrite Z.pred_succ. apply IH.
    + rewrite Forall_forall. intros y Hy%elem_of_seqZ. lia.
Qed.

(** Sorted lists one after the other. *)
Lemma ssorted_flat_map {A B} (R1 : relation A) (R2 : relation B) (f : A -> list B) l :
  (forall x, x ∈ l -> StronglySorted R2 (f x)) ->
  (forall x y u v, x ∈ l -> y ∈ l -> R1 x y -> u ∈ f x -> v ∈ f y -> R2 u v) ->
  StronglySorted R1 l -> StronglySorted R2 (l ≫= f).
Proof.
  intros Hf Hlt. induction 1 as [|x l Hs IH Hx]; [constructor|]. rewrite bind_cons.
  apply StronglySorted_app_2.
  - intros u v Hu (y & Hv & Hy)%list_elem_of_bind. rewrite Forall_forall in Hx.
    eapply (Hlt x y); [left|by right|auto..].
  - apply Hf. left.
  - apply IH; [intros; apply Hf; by right|]. intros y z u v ??; apply Hlt; by right.
Qed.

(** Case analysis on the booleans and options a definition branches on. *)
Ltac case_res :=
  repeat match goal with
  | H : context [match ?x with _ => _ end] |- _ =>
      lazymatch x with
      | context [match _ with _ => _ end] => fail
      | _ => destruct x eqn:?; simplify_eq/=
      end
  | |- context [match ?x with _ => _ end] =>
      lazymatch x with
      | context [match _ with _ => _ end] => fail
      | _ => destruct x eqn:?; simplify_eq/=
      end
  end.

(** * Counting loops

    [for i := start; i < limit; i += step { body }], with a step of at least
    one; the fuel is the largest number of iterations there can be. *)

Fixpoint for_fuel {T} (fuel : nat) (i limit step : Z) (body : Z -> T -> res T) (t : T) : res T :=
  match fuel with
  | O => Ok t
  | S n =>
      if i <? limit
      then let? t2 := body i t in for_fuel n (i + step) limit step body t2
      else Ok t
  end.

Definition for_loop {T} (start limit step : Z) (body : Z -> T -> res T) (t : T) : res T :=
  for_fuel (Z.to_nat (limit - start)) start limit step body t.

Lemma for_fuel_enough {T} n m i limit step (body : Z -> T -> res T) t :
  1 <= step -> (Z.to_nat (limit - i) <= n)%nat -> (Z.to_nat (limit - i) <= m)%nat ->
  for_fuel n i limit step body t = for_fuel m i limit step body t.
Proof.
  intros Hs. revert m i t; induction n as [|n IH]; intros [|m] i t Hn Hm; simpl; [done| | |].
  - by rewrite (proj2 (Z.ltb_ge _ _)) by lia.
  - by rewrite (proj2 (Z.ltb_ge _ _)) by lia.
  - destruct (Z.ltb_spec i limit); [|done].
    destruct (body i t); simpl; [|done..]. apply IH; lia.
Qed.

(** The loop unrolled once. *)
Lemma for_loop_eq {T} start limit step (body : Z -> T -> res T) t :
  1 <= step ->
  for_loop start limit step body t =
    if start <? limit
    then let? t2 := body start t in for_loop (start + step) limit step body t2
    else Ok t.
Proof.
  intros Hs. unfold for_loop.
  rewrite (for_fuel_enough _ (S (Z.to_nat (limit - start)))) by lia. simpl.
  destruct (Z.ltb_spec start limit); [|done].
  destruct (body start t); simpl; [|done..]. apply for_fuel_enough; lia.
Qed.

(** The iterations of a counting loop: their number and their indices. *)
Definition loop_count (limit step : Z) : Z := (limit + step - 1) / step.
Definition loop_indices (limit step : Z) : list Z :=
  (fun i => i * step) <$> seqZ 0 (loop_count limit step).

Fixpoint fold_res {T} (body : Z -> T -> res T) (l : list Z) (t : T) : res T :=
  match l with
  | [] => Ok t
  | i :: l' => let? t2 := body i t in fold_res body l' t2
  end.

Lemma loop_count_lt i limit step :
  1 <= step -> i < loop_count limit step <-> i * step < limit.
Proof.
  intros Hs. unfold loop_count. split; intros H.
  - pose proof (Z.mul_div_le (limit + step - 1) step). nia.
  - apply Z.lt_le_trans with (i + 1); [lia|]. apply Z.div_le_lower_bound; nia.
Qed.

Lemma loop_count_nonneg limit step : 1 <= step -> 0 <= limit -> 0 <= loop_count limit step.
Proof. intros. apply Z.div_pos; lia. Qed.

Lemma for_loop_fold {T} limit step (body : Z -> T -> res T) t :
  1 <= step ->
  for_loop 0 limit step body t = fold_res body (loop_indices limit step) t.
Proof.
  intros Hs. unfold loop_indices.
  enough (forall n j, 0 <= j -> Z.to_nat (loop_count limit step - j) = n ->
    forall t, for_loop (j * step) limit step body t =
    fold_res body ((fun i => i * step) <$> seqZ j (loop_count limit step - j)) t) as H.
  { specialize (H _ 0 ltac:(lia) eq_refl t). by rewrite Z.mul_0_l, Z.sub_0_r in H. }
  clear t. induction n as [|n IH]; intros j Hj Hn t.
  - rewrite for_loop_eq by done. rewrite seqZ_nil by lia. simpl.
    destruct (Z.ltb_spec (j * step) limit) as [Hl|Hl]; [|done].
    apply loop_count_lt in Hl; lia.
  - rewrite for_loop_eq by done. rewrite seqZ_cons by lia. simpl.
    destruct (Z.ltb_spec (j * step) limit) as [Hl|Hl].
    + destruct (body (j * step) t); simpl; [|done..].
      replace (j * step + step) with (Z.succ j * step) by lia. rewrite IH by lia.
      repeat f_equal. lia.
    + assert (j < loop_count limit step) as Hl2 by lia.
      apply loop_count_lt in Hl2; lia.
Qed.

(** A list cut in windows of [step] elements. *)
Definition window {A} (l : list A) (step start : Z) : list A :=
  slice l start (Z.min (start + step) (zlength l)).

Lemma concat_slices_from {A} (l : list A) step n j :
  1 <= step -> 0 <= j -> Z.to_nat (loop_count (zlength l) step - j) = n ->
  mjoin ((fun i => window l step (i * step)) <$> seqZ j (loop_count (zlength l) step - j)) =
  drop (Z.to_nat (j * step)) l.
Proof.
  intros Hs. revert j; induction n as [|n IH]; intros j Hj Hn.
  - assert (Hge : ~ j < loop_count (zlength l) step) by lia.
    rewrite loop_count_lt in Hge by done. unfold zlength in *.
    rewrite seqZ_nil by lia. rewrite drop_ge by lia. done.
  - assert (Hlt : j < loop_count (zlength l) step) by lia.
    rewrite loop_count_lt in Hlt by done.
    rewrite seqZ_cons by lia. rewrite fmap_cons.
    change (mjoin (?x :: ?k)) with (x ++ mjoin k).
    specialize (IH (Z.succ j) ltac:(lia) ltac:(lia)).
    replace (loop_count (zlength l) step - Z.succ j)
      with (Z.pred (loop_count (zlength l) step - j)) in IH by lia.
    rewrite IH. unfold window, slice, zlength in *.
    rewrite <-(take_drop (Z.to_nat (Z.min (j * step + step) (Z.of_nat (length l)) - j * step))
                 (drop (Z.to_nat (j * step)) l)) at 2.
    f_equal. rewrite drop_drop.
    destruct (Z.le_gt_cases (j * step + step) (Z.of_nat (length l))).
    + f_equal. lia.
    + rewrite !drop_ge by lia. done.
Qed.

Lemma concat_slices {A} (l : list A) step :
  1 <= step -> mjoin (window l step <$> loop_indices (zlength l) step) = l.
Proof.
  intros Hs. pose proof (concat_slices_from l step _ 0 Hs ltac:(lia) eq_refl) as H.
  rewrite Z.sub_0_r, Z.mul_0_l in H. unfold loop_indices. rewrite <-list_fmap_compose. exact H.
Qed.

Lemma ssorted_fmap_inv {A B} (R : B -> B -> Prop) (g : A -> B) l :
  StronglySorted R (g <$> l) -> StronglySorted (fun x y => R (g x) (g y)) l.
Proof.
  induction l as [|x l IH]; [constructor|]. rewrite fmap_cons.
  intros [H1 H2]%StronglySorted_cons. constructor; [by apply IH|]. by rewrite Forall_fmap in H1.
Qed.

Lemma Forall2_strengthen {A B} (P Q : A -> B -> Prop) (T : A -> Prop) l k :
  Forall2 P l k -> Forall T l -> (forall x y, T x -> P x y -> Q x y) -> Forall2 Q l k.
Proof.
  induction 1 as [|x y l k Hxy _ IH]; intros HT HQ; [constructor|].
  apply Forall_cons in HT as [? ?]. constructor; auto.
Qed.

#[global] Arguments be : simpl never.
#[global] Arguments unbe : simpl never.
#[global] Arguments for_loop : simpl never.
