(* ===== verification/FdbApi.v ===== *)
(** The FoundationDB client interface the driver is written against.

    FoundationDB, its Go bindings and its tuple layer are not part of the
    repository, so they are parameters: two type classes state the operations
    the driver calls and what their documentation promises of them.  The
    theorems of the other files hold for every instance; FdbInstance.v gives
    one (the published tuple encoding over a finite map read in key order). *)
From stdpp Require Import base strings list gmap sorting.
From Stdlib Require Import Strings.Byte ZArith Lia.
From S2P Require Import Prelude.

(** * Data of the tuple layer *)

(** [tuple.Versionstamp]: ten bytes assigned at commit, two of the user. *)
Record Versionstamp := mkVersionstamp {
  TransactionVersion : bytes;
  UserVersion : Z
}.
#[global] Instance Versionstamp_eq_dec : EqDecision Versionstamp.
Proof. solve_decision. Defined.

(** The element types the driver puts in tuples. *)
Inductive TupleElement : Type :=
| TString (s : bytes)
| TBool (b : bool)
| TInt (z : Z)
| TVersionstamp (v : Versionstamp)
| TUUID (u : bytes).
#[global] Instance TupleElement_eq_dec : EqDecision TupleElement.
Proof. solve_decision. Defined.

Abbreviation Tuple := (list TupleElement).

Definition versionstamp_ok (v : Versionstamp) : Prop :=
  length (TransactionVersion v) = 10%nat /\ 0 <= UserVersion v < 2 ^ 16.

Definition element_ok (e : TupleElement) : Prop :=
  match e with
  | TString _ | TBool _ => True
  | TInt z => is_int64 z
  | TVersionstamp v => versionstamp_ok v
  | TUUID u => length u = 16%nat
  end.

Definition tuple_ok (t : Tuple) : Prop := Forall element_ok t.

(** [tuple.IncompleteVersionstamp(user)]: the placeholder of a commit. *)
Definition IncompleteVersionstamp (user : Z) : Versionstamp :=
  mkVersionstamp (replicate 10 Byte.xff) user.

Definition is_incomplete (e : TupleElement) : bool :=
  match e with
  | TVersionstamp v => bool_decide (TransactionVersion v = replicate 10 Byte.xff)
  | _ => false
  end.

(** The tuple with its placeholder replaced by the commit's versionstamp. *)
Definition complete_with (stamp : bytes) (e : TupleElement) : TupleElement :=
  match e with
  | TVersionstamp v =>
      if is_incomplete e then TVersionstamp (mkVersionstamp stamp (UserVersion v)) else e
  | _ => e
  end.

(** NUL bytes of a string are escaped as [0x00 0xff]. *)
Definition escape_byte (b : byte) : bytes :=
  if decide (b = Byte.x00) then [Byte.x00; Byte.xff] else [b].
Arguments escape_byte : simpl never.
Fixpoint escape (s : bytes) : bytes :=
  match s with [] => [] | b :: s' => escape_byte b ++ escape s' end.

(** * The tuple and subspace layers

    A subspace is its raw prefix.  The laws are those of the tuple layer's
    specification: a tuple is packed by concatenating its elements, strings
    are [0x02], the escaped bytes and [0x00], versionstamps are [0x33] and
    twelve bytes, integers keep their order, no element starts with [0xff]. *)
Class FdbBindings := {
  tuple_pack : Tuple -> bytes;
  tuple_unpack : bytes -> option Tuple;
  Sub : bytes -> Tuple -> bytes;
  Pack : bytes -> Tuple -> bytes;
  Unpack : bytes -> bytes -> option Tuple;
  (** [subspace.PackWithVersionstamp]: the key as a function of the commit's
      ten bytes, or nothing when the tuple has not exactly one placeholder. *)
  PackWithVersionstamp : bytes -> Tuple -> option (bytes -> bytes);
  (** [subspace.FDBRangeKeys] *)
  FDBRangeKeys : bytes -> bytes * bytes;
  (** [fdb.Strinc]: an error on a key of only [0xff] bytes. *)
  Strinc : bytes -> option bytes;

  tuple_pack_app t u : tuple_pack (t ++ u) = tuple_pack t ++ tuple_pack u;
  tuple_unpack_pack t : tuple_ok t -> tuple_unpack (tuple_pack t) = Some t;
  tuple_pack_string s : tuple_pack [TString s] = Byte.x02 :: escape s ++ [Byte.x00];
  tuple_pack_versionstamp v :
    versionstamp_ok v ->
    tuple_pack [TVersionstamp v] = Byte.x33 :: TransactionVersion v ++ be 2 (UserVersion v);
  tuple_pack_int_order a b :
    is_int64 a -> is_int64 b -> a < b -> bdiverge (tuple_pack [TInt a]) (tuple_pack [TInt b]);
  tuple_pack_head e : exists b r, tuple_pack [e] = b :: r /\ b <> Byte.xff;

  Sub_spec s t : Sub s t = s ++ tuple_pack t;
  Pack_spec s t : Pack s t = s ++ tuple_pack t;
  Unpack_spec s k : Unpack s (s ++ k) = tuple_unpack k;
  PackWithVersionstamp_spec s t :
    length (filter (fun e => is_incomplete e = true) t) = 1%nat ->
    exists f, PackWithVersionstamp s t = Some f /\
      forall stamp, length stamp = 10%nat -> f stamp = Pack s (complete_with stamp <$> t);
  FDBRangeKeys_spec s : FDBRangeKeys s = (s ++ [Byte.x00], s ++ [Byte.xff]);
  Strinc_None p : Strinc p = None <-> Forall (fun b => b = Byte.xff) p;
  Strinc_Some p q : Strinc p = Some q -> forall k, (p <=b k /\ k <b q) <-> p `prefix_of` k
}.

(** * The ordered key-value store

    A state of the database as a transaction sees it.  [Add] is the atomic
    little-endian addition; the driver only adds one byte. *)
Class KVStore := {
  store : Type;
  sget : store -> bytes -> option bytes;
  sset : store -> bytes -> bytes -> store;
  sclear : store -> bytes -> store;
  sclear_range : store -> bytes -> bytes -> store;
  sadd : store -> bytes -> bytes -> store;
  srange : store -> bytes -> bytes -> list (bytes * bytes);

  sget_set s k v k2 : sget (sset s k v) k2 = if decide (k = k2) then Some v else sget s k2;
  sget_clear s k k2 : sget (sclear s k) k2 = if decide (k = k2) then None else sget s k2;
  sget_clear_range s b e k :
    sget (sclear_range s b e) k = if decide (b <=b k /\ k <b e) then None else sget s k;
  sget_add_ne s k p k2 : k <> k2 -> sget (sadd s k p) k2 = sget s k2;
  sget_add_byte s k p :
    sget (sadd s k [p]) k =
      Some [byte_of_Z (match sget s k with Some (b :: _) => byte_to_Z b | _ => 0 end + byte_to_Z p)];
  srange_sorted s b e : StronglySorted (fun x y => x.1 <b y.1) (srange s b e);
  srange_spec s b e k v : (k, v) ∈ srange s b e <-> sget s k = Some v /\ b <=b k /\ k <b e
}.

(** * Key selectors, ranges and iterators *)

Inductive KeySelector : Type :=
| FirstGreaterOrEqual (k : bytes)
| FirstGreaterThan (k : bytes).

(** The first key a selector can resolve to: [k ++ [0x00]] follows [k]. *)
Definition selector_key (s : KeySelector) : bytes :=
  match s with FirstGreaterOrEqual k => k | FirstGreaterThan k => k ++ [Byte.x00] end.

Record SelectorRange := mkSelectorRange { Begin : KeySelector; End : KeySelector }.

(** A key-value pair and a range iterator: the pairs it has still to return.
    [Advance] tells whether there is one, [Get] returns and consumes it. *)
Abbreviation FdbKeyValue := (bytes * bytes)%type.
Abbreviation RangeIterator := (list FdbKeyValue).

Definition Advance (it : RangeIterator) : bool :=
  match it with [] => false | _ => true end.
Definition IterGet (it : RangeIterator) : res (FdbKeyValue * RangeIterator) :=
  match it with [] => Panic | kv :: it' => Ok (kv, it') end.

(** * Transactions

    A transaction is the snapshot it reads at and the mutations it has made,
    in order.  Its reads see its own plain mutations; a versionstamped write
    takes effect at commit, when its key is known. *)
Inductive mutation : Type :=
| MSet (k v : bytes)
| MClear (k : bytes)
| MClearRange (b e : bytes)
| MAdd (k p : bytes)
| MSetVersionstampedKey (k : bytes -> bytes) (v : bytes).

Section Transactions.
Context `{KV : KVStore}.

Record Transaction := mkTransaction {
  tr_snapshot : store;
  tr_read_version : Z;
  tr_log : list mutation;
  tr_first_in_batch : bool
}.

Definition begin_tr (s : store) (read_version : Z) : Transaction :=
  mkTransaction s read_version [] false.

(** The effect of a mutation; [stamp] is the commit's versionstamp, absent
    while the transaction is still open. *)
Definition apply_mutation (stamp : option bytes) (s : store) (m : mutation) : store :=
  match m with
  | MSet k v => sset s k v
  | MClear k => sclear s k
  | MClearRange b e => sclear_range s b e
  | MAdd k p => sadd s k p
  | MSetVersionstampedKey k v =>
      match stamp with Some st => sset s (k st) v | None => s end
  end.

Definition apply_log (stamp : option bytes) (s : store) (l : list mutation) : store :=
  fold_left (apply_mutation stamp) l s.

(** What the transaction's reads see. *)
Definition tr_view (tr : Transaction) : store :=
  apply_log None (tr_snapshot tr) (tr_log tr).

Definition tr_mutate (tr : Transaction) (m : mutation) : Transaction :=
  mkTransaction (tr_snapshot tr) (tr_read_version tr) (tr_log tr ++ [m]) (tr_first_in_batch tr).

Definition tr_Get (tr : Transaction) (k : bytes) : option bytes := sget (tr_view tr) k.
Definition tr_Set (tr : Transaction) (k v : bytes) : Transaction := tr_mutate tr (MSet k v).
Definition tr_Clear (tr : Transaction) (k : bytes) : Transaction := tr_mutate tr (MClear k).
Definition tr_ClearRange (tr : Transaction) (b e : bytes) : Transaction :=
  tr_mutate tr (MClearRange b e).
Definition tr_Add (tr : Transaction) (k p : bytes) : Transaction := tr_mutate tr (MAdd k p).
Definition tr_SetVersionstampedKey (tr : Transaction) (k : bytes -> bytes) (v : bytes) : Transaction :=
  tr_mutate tr (MSetVersionstampedKey k v).
Definition tr_GetRange (tr : Transaction) (r : SelectorRange) : RangeIterator :=
  srange (tr_view tr) (selector_key (Begin r)) (selector_key (End r)).
(** [GetRange] with [RangeOptions{Limit: 1, Reverse: true}] *)
Definition tr_GetLastOfRange (tr : Transaction) (b e : bytes) : RangeIterator :=
  match last (srange (tr_view tr) b e) with Some kv => [kv] | None => [] end.

(** The ten bytes of a commit: its version and its index in the commit
    batch, which is zero for a transaction with the first-in-batch option. *)
Definition commit_stamp (tr : Transaction) (version batch : Z) : bytes :=
  be 8 version ++ be 2 (if tr_first_in_batch tr then 0 else batch).

(** The store a commit leaves, on the snapshot the transaction read: a
    transaction commits only if nothing it read has changed since. *)
Definition tr_commit (tr : Transaction) (version batch : Z) : store :=
  apply_log (Some (commit_stamp tr version batch)) (tr_snapshot tr) (tr_log tr).
End Transactions.
