(* ===== verification/KeyOrder.v ===== *)
(** Keys and ranges of the tuple layer: what the byte ranges the driver reads
    and clears contain, derived from the laws of [FdbBindings] and [KVStore]. *)
From stdpp Require Import base strings list gmap sorting.
From Stdlib Require Import Strings.Byte ZArith Lia.
From S2P Require Import Prelude FdbApi.

Section KeyOrder.
Context `{FB : FdbBindings}.

Lemma tuple_pack_nil : tuple_pack [] = [].
Proof.
  pose proof (tuple_pack_app [] []) as H. rewrite app_nil_r in H.
  apply (f_equal length) in H. rewrite length_app in H. apply nil_length_inv. lia.
Qed.

Lemma tuple_pack_cons e t : tuple_pack (e :: t) = tuple_pack [e] ++ tuple_pack t.
Proof. apply (tuple_pack_app [e]). Qed.

(** No packed tuple starts with [0xff]. *)
Definition no_ff_head (u : bytes) : Prop := forall r, u <> Byte.xff :: r.

Lemma tuple_pack_no_ff t : no_ff_head (tuple_pack t).
Proof.
  intros r. destruct t as [|e t]; [by rewrite tuple_pack_nil|].
  rewrite tuple_pack_cons. destruct (tuple_pack_head e) as (b & r2 & -> & Hb).
  simpl. congruence.
Qed.

Lemma tuple_pack_nonempty e t : tuple_pack (e :: t) <> [].
Proof.
  rewrite tuple_pack_cons. by destruct (tuple_pack_head e) as (b & r2 & -> & Hb).
Qed.

Lemma tuple_pack_inj t u : tuple_ok t -> tuple_ok u -> tuple_pack t = tuple_pack u -> t = u.
Proof.
  intros Ht Hu H. apply (f_equal tuple_unpack) in H.
  rewrite !tuple_unpack_pack in H by done. congruence.
Qed.

Lemma tuple_pack_string_cons s t :
  tuple_pack (TString s :: t) = Byte.x02 :: escape s ++ Byte.x00 :: tuple_pack t.
Proof. rewrite tuple_pack_cons, tuple_pack_string. simpl. by rewrite <-app_assoc. Qed.

(** ** Escaped strings *)

Lemma escape_byte_ne b : b <> Byte.x00 -> escape_byte b = [b].
Proof. intros H. unfold escape_byte. by rewrite decide_False. Qed.

Lemma byte_pos b : b <> Byte.x00 -> 0 < byte_to_Z b.
Proof.
  intros Hb. pose proof (byte_to_Z_range b).
  assert (byte_to_Z b <> 0) by (intros E; apply Hb, (inj byte_to_Z); done). lia.
Qed.

Lemma blt_cons x a y b :
  x :: a <b y :: b <-> byte_to_Z x < byte_to_Z y \/ x = y /\ a <b b.
Proof.
  unfold blt. simpl. destruct (Z.compare_spec (byte_to_Z x) (byte_to_Z y)) as [E|E|E].
  - apply (inj byte_to_Z) in E as ->. split; [auto|]. intros [?|[_ ?]]; [lia|done].
  - split; auto.
  - split; [done|]. intros [?|[-> ?]]; lia.
Qed.

(** The end of a string sorts before any continuation of it. *)
Lemma escape_end_lt c k u w :
  no_ff_head u -> Byte.x00 :: u <b (escape (c :: k) ++ w).
Proof.
  intros Hu. simpl. destruct (decide (c = Byte.x00)) as [->|Hc].
  - unfold escape_byte. rewrite decide_True by done. cbn [app]. rewrite blt_cons. right.
    split; [done|]. destruct u as [|b u]; [done|].
    rewrite blt_cons. left. pose proof (byte_to_Z_range b).
    assert (byte_to_Z b <> 255).
    { intros E. apply (Hu u). f_equal. apply (inj byte_to_Z). done. }
    change (byte_to_Z Byte.xff) with 255. lia.
  - rewrite escape_byte_ne by done. cbn [app]. rewrite blt_cons. left.
    change (byte_to_Z Byte.x00) with 0. by apply byte_pos.
Qed.

Lemma escape_lt k1 k2 u w :
  no_ff_head u -> k1 <b k2 -> (escape k1 ++ Byte.x00 :: u) <b (escape k2 ++ w).
Proof.
  intros Hu. revert k2; induction k1 as [|a k1 IH]; intros [|b k2] Hlt; try done.
  - by apply escape_end_lt.
  - rewrite blt_cons in Hlt. simpl. destruct Hlt as [Hlt|[-> Hlt]].
    + assert (Hb : b <> Byte.x00).
      { intros ->. pose proof (byte_to_Z_range a). change (byte_to_Z Byte.x00) with 0 in Hlt. lia. }
      rewrite (escape_byte_ne b) by done. unfold escape_byte.
      case_decide as Ha; cbn [app]; rewrite blt_cons; left; subst; done.
    + rewrite <-!app_assoc, blt_app_l. by apply IH.
Qed.

Lemma string_key_lt k1 k2 t1 t2 :
  k1 <b k2 -> tuple_pack (TString k1 :: t1) <b tuple_pack (TString k2 :: t2).
Proof.
  intros H. rewrite !tuple_pack_string_cons. apply (blt_app_l [Byte.x02]).
  apply escape_lt; [apply tuple_pack_no_ff|done].
Qed.

Lemma string_key_same k t1 t2 :
  tuple_pack (TString k :: t1) <b tuple_pack (TString k :: t2) <->
  tuple_pack t1 <b tuple_pack t2.
Proof. rewrite (tuple_pack_cons _ t1), (tuple_pack_cons _ t2). apply blt_app_l. Qed.

Lemma string_key_lt_iff k1 k2 t1 t2 :
  tuple_pack (TString k1 :: t1) <b tuple_pack (TString k2 :: t2) <->
  k1 <b k2 \/ k1 = k2 /\ tuple_pack t1 <b tuple_pack t2.
Proof.
  split.
  - intros H. destruct (blt_total k1 k2) as [?|[->|Hlt]]; [auto| |].
    + right. by rewrite <-string_key_same.
    + apply (string_key_lt _ _ t2 t1) in Hlt.
      destruct (blt_irrefl _ (blt_trans _ _ _ H Hlt)).
  - intros [?|[-> ?]]; [by apply string_key_lt|by apply string_key_same].
Qed.

(** An escaped string is a byte prefix of a packed key exactly when the
    string is a prefix of the key's. *)
Lemma escape_prefix p k u :
  no_ff_head u -> (escape p `prefix_of` escape k ++ Byte.x00 :: u) <-> p `prefix_of` k.
Proof.
  intros Hu. split.
  - revert k; induction p as [|c p IH]; intros k Hp; [apply prefix_nil|].
    destruct k as [|d k]; simpl in Hp.
    + exfalso. destruct Hp as [r Hr]. unfold escape_byte in Hr.
      case_decide as Hc; simplify_eq/=. by apply (Hu (escape p ++ r)).
    + assert (c = d) as ->.
      { destruct Hp as [r Hr]. unfold escape_byte in Hr.
        repeat case_decide; simplify_eq/=; congruence. }
      rewrite <-app_assoc in Hp. apply prefix_app_inv, IH in Hp as [r ->]. by exists r.
  - intros [r ->]. induction p as [|c p IH]; simpl; [apply prefix_nil|].
    rewrite <-app_assoc. by apply prefix_app.
Qed.

(** The packed string itself: its terminating zero is also the first byte
    of an escaped NUL, so longer keys that continue with NUL share it. *)
Lemma escape_zero_prefix p k u :
  no_ff_head u ->
  ((escape p ++ [Byte.x00]) `prefix_of` escape k ++ Byte.x00 :: u) <->
  k = p \/ (p ++ [Byte.x00]) `prefix_of` k.
Proof.
  intros Hu. split.
  - intros Hp. assert (Hk : p `prefix_of` k).
    { apply (escape_prefix p k u Hu). etrans; [|done]. by apply prefix_app_r. }
    destruct Hk as [r ->]. destruct r as [|c r]; [left; by rewrite app_nil_r|].
    right. apply prefix_app. enough (c = Byte.x00) as -> by (by apply (prefix_app [Byte.x00]), prefix_nil).
    assert (E : escape (p ++ c :: r) = escape p ++ escape (c :: r)).
    { clear. induction p as [|a p IH]; simpl; [done|]. by rewrite IH, app_assoc. }
    rewrite E, <-app_assoc in Hp. apply prefix_app_inv in Hp as [r2 Hr]. simpl in Hr.
    unfold escape_byte in Hr. case_decide; [done|]. simplify_eq/=.
  - intros [->|[r ->]].
    + apply prefix_app. by exists u.
    + rewrite <-app_assoc. simpl.
      assert (E : escape (p ++ Byte.x00 :: r) = escape p ++ escape (Byte.x00 :: r)).
      { clear. induction p as [|a p IH]; simpl; [done|]. by rewrite IH, app_assoc. }
      rewrite E, <-app_assoc. apply prefix_app. simpl. by eexists.
Qed.

(** Keys below and above the successor of a prefix. *)
Lemma Strinc_lt p q k : Strinc p = Some q -> k <b q <-> k <b p \/ p `prefix_of` k.
Proof.
  intros Hq. pose proof (Strinc_Some p q Hq k) as Hk.
  destruct (proj2 (Strinc_Some p q Hq p) ltac:(done)) as [_ Hpq]. split.
  - intros H. destruct (decide (k <b p)) as [|Hn]; [by left|]. right. apply Hk.
    split; [by apply ble_not_lt|done].
  - intros [H|H]; [by eapply blt_trans|by apply Hk].
Qed.

Lemma Strinc_le p q k : Strinc p = Some q -> q <=b k <-> p <=b k /\ ~ p `prefix_of` k.
Proof.
  intros Hq. rewrite (ble_not_lt q k), (Strinc_lt p q k Hq), (ble_not_lt p k). tauto.
Qed.
End KeyOrder.
