(* ===== verification/FdbInstance.v ===== *)
(** An instance of the FoundationDB interface: the tuple layer's published
    encoding, and a finite map read in key order.  It shows that the laws of
    FdbApi.v can hold together, and the concrete runs of the other files
    evaluate with it. *)
From stdpp Require Import base strings list gmap sorting.
From Stdlib Require Import Strings.Byte ZArith Lia.
From S2P Require Import Prelude FdbApi.

(** * Encoding *)

(** The number of bytes of a positive integer. *)
Definition nbytes (z : Z) : nat := Z.to_nat (Z.log2 z / 8 + 1).

Definition enc_int (z0 : Z) : bytes :=
  let z := to_int64 z0 in
  if z =? 0 then [Byte.x14]
  else if 0 <? z then
    byte_of_Z (20 + Z.of_nat (nbytes z)) :: be (nbytes z) z
  else
    byte_of_Z (20 - Z.of_nat (nbytes (- z))) ::
    be (nbytes (- z)) (z + 256 ^ Z.of_nat (nbytes (- z)) - 1).

Definition enc_element (e : TupleElement) : bytes :=
  match e with
  | TString s => Byte.x02 :: escape s ++ [Byte.x00]
  | TBool b => [if b then Byte.x27 else Byte.x26]
  | TInt z => enc_int z
  | TVersionstamp v => Byte.x33 :: TransactionVersion v ++ be 2 (UserVersion v)
  | TUUID u => Byte.x30 :: u
  end.

Definition enc_tuple (t : Tuple) : bytes := concat (map enc_element t).

(** * Decoding *)

Fixpoint unescape (bs : bytes) : option (bytes * bytes) :=
  match bs with
  | [] => None
  | b :: r =>
      if decide (b = Byte.x00) then
        match r with
        | c :: r2 =>
            if decide (c = Byte.xff)
            then match unescape r2 with Some (s, u) => Some (Byte.x00 :: s, u) | None => None end
            else Some ([], r)
        | [] => Some ([], r)
        end
      else match unescape r with Some (s, u) => Some (b :: s, u) | None => None end
  end.

Definition take_n (n : nat) (bs : bytes) : option (bytes * bytes) :=
  if (length bs <? n)%nat then None else Some (take n bs, drop n bs).

Definition dec_int (code : Z) (r : bytes) : option (TupleElement * bytes) :=
  let n := code - 20 in
  match take_n (Z.to_nat (Z.abs n)) r with
  | Some (d, u) =>
      Some (TInt (if 0 <=? n then unbe d else unbe d - 256 ^ Z.abs n + 1), u)
  | None => None
  end.

Definition dec_element (bs : bytes) : option (TupleElement * bytes) :=
  match bs with
  | [] => None
  | b :: r =>
      if decide (b = Byte.x02) then
        match unescape r with Some (s, u) => Some (TString s, u) | None => None end
      else if decide (b = Byte.x26) then Some (TBool false, r)
      else if decide (b = Byte.x27) then Some (TBool true, r)
      else if decide (b = Byte.x33) then
        match take_n 12 r with
        | Some (d, u) => Some (TVersionstamp (mkVersionstamp (take 10 d) (unbe (drop 10 d))), u)
        | None => None
        end
      else if decide (b = Byte.x30) then
        match take_n 16 r with Some (d, u) => Some (TUUID d, u) | None => None end
      else dec_int (byte_to_Z b) r
  end.

Fixpoint dec_tuple (fuel : nat) (bs : bytes) : option Tuple :=
  match bs, fuel with
  | [], _ => Some []
  | _, O => None
  | _, S f =>
      match dec_element bs with
      | Some (e, r) => match dec_tuple f r with Some t => Some (e :: t) | None => None end
      | None => None
      end
  end.

Fixpoint strinc (p : bytes) : option bytes :=
  match p with
  | [] => None
  | b :: r =>
      match strinc r with
      | Some q => Some (b :: q)
      | None => if decide (b = Byte.xff) then None else Some [byte_of_Z (byte_to_Z b + 1)]
      end
  end.

Definition drop_prefix (s k : bytes) : option bytes :=
  if decide (s `prefix_of` k) then Some (drop (length s) k) else None.

(** * Integers *)

Lemma nbytes_bound z : 0 < z -> 256 ^ Z.of_nat (nbytes z - 1) <= z < 256 ^ Z.of_nat (nbytes z).
Proof.
  intros Hz. pose proof (Z.log2_spec z Hz) as [H1 H2]. pose proof (Z.log2_nonneg z) as H0.
  unfold nbytes. pose proof (Z.div_mod (Z.log2 z) 8 ltac:(lia)).
  pose proof (Z.mod_pos_bound (Z.log2 z) 8 ltac:(lia)).
  pose proof (Z.div_pos (Z.log2 z) 8 H0 ltac:(lia)).
  rewrite Nat2Z.inj_sub by lia. rewrite Z2Nat.id by lia.
  change 256 with (2 ^ 8). rewrite <-!Z.pow_mul_r by lia. split.
  - eapply Z.le_trans; [|exact H1]. apply Z.pow_le_mono_r; lia.
  - eapply Z.lt_le_trans; [exact H2|]. apply Z.pow_le_mono_r; lia.
Qed.

Lemma nbytes_pos z : (1 <= nbytes z)%nat.
Proof.
  unfold nbytes. pose proof (Z.div_pos (Z.log2 z) 8 (Z.log2_nonneg z) ltac:(lia)). lia.
Qed.

Lemma nbytes_mono a b : 0 < a -> a <= b -> (nbytes a <= nbytes b)%nat.
Proof.
  intros Ha Hab. unfold nbytes. pose proof (Z.log2_le_mono a b Hab).
  pose proof (Z.div_le_mono (Z.log2 a) (Z.log2 b) 8 ltac:(lia) H). lia.
Qed.

Lemma nbytes_int64 z : 0 < z -> z <= 2 ^ 63 -> (nbytes z <= 8)%nat.
Proof.
  intros Hz Hle. unfold nbytes. pose proof (Z.log2_le_mono z (2 ^ 63) Hle) as H.
  rewrite Z.log2_pow2 in H by lia.
  pose proof (Z.div_le_mono (Z.log2 z) 63 8 ltac:(lia) H) as H2. change (63 / 8) with 7 in H2.
  lia.
Qed.

Lemma byte_small z : 0 <= z < 256 -> byte_to_Z (byte_of_Z z) = z.
Proof. intros. by rewrite byte_to_of_Z, Z.mod_small. Qed.

Lemma byte_of_Z_ne z b : 0 <= z < 256 -> byte_to_Z b <> z -> byte_of_Z z <> b.
Proof. intros Hz Hne <-. by rewrite byte_small in Hne. Qed.

(** The type code of an integer, and the integer's bytes. *)
Lemma enc_int_shape z :
  is_int64 z ->
  exists (n : Z) (d : bytes),
    enc_int z = byte_of_Z (20 + n) :: d /\ -8 <= n <= 8 /\ length d = Z.to_nat (Z.abs n) /\
    z = (if 0 <=? n then unbe d else unbe d - 256 ^ Z.abs n + 1) /\
    (0 < z -> n = Z.of_nat (nbytes z)) /\ (z < 0 -> n = - Z.of_nat (nbytes (- z))) /\
    (z = 0 -> n = 0).
Proof.
  intros Hz. unfold enc_int. rewrite (to_int64_id z Hz).
  unfold is_int64, int64_min, int64_max in Hz.
  destruct (Z.eqb_spec z 0) as [->|Hne].
  - exists 0, []. repeat split; try done; lia.
  - destruct (Z.ltb_spec 0 z) as [Hp|Hp].
    + pose proof (nbytes_int64 z Hp ltac:(lia)). pose proof (nbytes_bound z Hp).
      exists (Z.of_nat (nbytes z)), (be (nbytes z) z).
      rewrite length_be, unbe_be, Z.mod_small by lia.
      repeat split; try lia.
      rewrite (proj2 (Z.leb_le _ _)) by lia. done.
    + pose proof (nbytes_int64 (- z) ltac:(lia) ltac:(lia)).
      pose proof (nbytes_bound (- z) ltac:(lia)). pose proof (nbytes_pos (- z)).
      exists (- Z.of_nat (nbytes (- z))),
        (be (nbytes (- z)) (z + 256 ^ Z.of_nat (nbytes (- z)) - 1)).
      rewrite length_be, unbe_be, Z.mod_small by lia.
      rewrite Z.abs_opp, Z.abs_eq by lia.
      repeat split; try lia.
      rewrite (proj2 (Z.leb_gt _ _)) by lia. lia.
Qed.

Lemma enc_int_order a b :
  is_int64 a -> is_int64 b -> a < b -> bdiverge (enc_int a) (enc_int b).
Proof.
  intros Ha Hb Hlt.
  destruct (enc_int_shape a Ha) as (n & d & -> & Hn & Hd & Ea & Ha1 & Ha2 & Ha3).
  destruct (enc_int_shape b Hb) as (m & e & -> & Hm & He & Eb & Hb1 & Hb2 & Hb3).
  assert (Hnm : n <= m).
  { destruct (Z.lt_trichotomy a 0) as [?|[?|?]], (Z.lt_trichotomy b 0) as [?|[?|?]]; try lia.
    pose proof (nbytes_mono (- b) (- a) ltac:(lia) ltac:(lia)). lia.
    pose proof (nbytes_mono a b ltac:(lia) ltac:(lia)). lia. }
  destruct (Z.eq_dec n m) as [->|Hne].
  - apply (bdiverge_app_l [_]), blt_diverge; [lia|].
    unfold blt. rewrite bcompare_unbe by lia. apply Z.compare_lt_iff.
    destruct (0 <=? m); lia.
  - exists [], (byte_of_Z (20 + n)), (byte_of_Z (20 + m)), d, e.
    repeat split. rewrite !byte_small; lia.
Qed.

(** * Round trip *)

Lemma unescape_escape s u :
  (forall r, u <> Byte.xff :: r) -> unescape (escape s ++ Byte.x00 :: u) = Some (s, u).
Proof.
  intros Hu. induction s as [|b s IH].
  - cbn [escape app unescape]. rewrite decide_True by done. destruct u as [|c u]; [done|].
    rewrite decide_False; [done|]. intros ->. by apply (Hu u).
  - cbn [escape]. unfold escape_byte. case_decide as E.
    + subst. cbn [app unescape]. rewrite !decide_True by done. by rewrite IH.
    + cbn [app unescape]. rewrite decide_False by done. by rewrite IH.
Qed.

Lemma take_n_app n a b : length a = n -> take_n n (a ++ b) = Some (a, b).
Proof.
  intros <-. unfold take_n. rewrite length_app.
  destruct (Nat.ltb_spec (length a + length b) (length a)); [lia|].
  by rewrite take_app_length, drop_app_length.
Qed.

Lemma dec_int_enc z u :
  is_int64 z -> dec_element (enc_int z ++ u) = Some (TInt z, u).
Proof.
  intros Hz. destruct (enc_int_shape z Hz) as (n & d & -> & Hn & Hd & E & _).
  assert (Hne : forall b, byte_to_Z b < 12 \/ byte_to_Z b > 28 -> byte_of_Z (20 + n) <> b)
    by (intros; apply byte_of_Z_ne; lia).
  cbn [app dec_element].
  rewrite !decide_False by (apply Hne; solve [left; reflexivity|right; reflexivity]).
  unfold dec_int. rewrite byte_small by lia.
  replace (20 + n - 20) with n by lia. rewrite (take_n_app _ d u Hd). by rewrite <-E.
Qed.

Lemma dec_element_versionstamp r :
  dec_element (Byte.x33 :: r) =
    match take_n 12 r with
    | Some (d, u) => Some (TVersionstamp (mkVersionstamp (take 10 d) (unbe (drop 10 d))), u)
    | None => None
    end.
Proof. reflexivity. Qed.

Lemma dec_element_uuid r :
  dec_element (Byte.x30 :: r) =
    match take_n 16 r with Some (d, u) => Some (TUUID d, u) | None => None end.
Proof. reflexivity. Qed.

Lemma dec_element_enc e u :
  element_ok e -> (forall r, u <> Byte.xff :: r) ->
  dec_element (enc_element e ++ u) = Some (e, u).
Proof.
  intros He Hu. destruct e as [s|[]|z|v|d]; cbn [enc_element].
  - cbn [app dec_element]. rewrite decide_True by done.
    rewrite <-app_assoc. cbn [app]. by rewrite unescape_escape.
  - done.
  - done.
  - by apply dec_int_enc.
  - destruct He as [Hl Hu2]. rewrite <-app_comm_cons, dec_element_versionstamp.
    rewrite take_n_app by (by rewrite length_app, Hl, length_be).
    rewrite take_app_length', drop_app_length' by (symmetry; exact Hl).
    rewrite unbe_be, Z.mod_small by exact Hu2. destruct v; reflexivity.
  - rewrite <-app_comm_cons, dec_element_uuid. by rewrite take_n_app.
Qed.

Lemma enc_head e : exists b r, enc_element e = b :: r /\ b <> Byte.xff.
Proof.
  destruct e as [s|[]|z|v|d]; cbn [enc_element]; try (by eexists _, _).
  unfold enc_int. set (z2 := to_int64 z). pose proof (to_int64_range z) as Hz. fold z2 in Hz.
  unfold is_int64, int64_min, int64_max in Hz.
  destruct (z2 =? 0); [by eexists _, _|]. destruct (Z.ltb_spec 0 z2) as [H|H].
  - pose proof (nbytes_int64 z2 H ltac:(lia)). eexists _, _. split; [done|].
    apply byte_of_Z_ne; [lia|change (byte_to_Z Byte.xff) with 255; lia].
  - destruct (Z.eq_dec z2 0) as [E|E].
    + rewrite E. by eexists _, _.
    + pose proof (nbytes_int64 (- z2) ltac:(lia) ltac:(lia)). eexists _, _. split; [done|].
      apply byte_of_Z_ne; [lia|]. change (byte_to_Z Byte.xff) with 255. lia.
Qed.

Lemma enc_tuple_cons e t : enc_tuple (e :: t) = enc_element e ++ enc_tuple t.
Proof. reflexivity. Qed.

Lemma enc_tuple_no_ff t r : enc_tuple t <> Byte.xff :: r.
Proof.
  destruct t as [|e t]; [done|]. rewrite enc_tuple_cons.
  destruct (enc_head e) as (b & r2 & -> & Hb). simpl. congruence.
Qed.

Lemma dec_tuple_enc fuel t :
  Forall element_ok t -> (length (enc_tuple t) <= fuel)%nat -> dec_tuple fuel (enc_tuple t) = Some t.
Proof.
  intros Ht. revert fuel. induction Ht as [|e t He Ht IH]; intros fuel Hf.
  - by destruct fuel.
  - rewrite enc_tuple_cons in *. destruct (enc_head e) as (b & r & Eb & _).
    pose proof (dec_element_enc e (enc_tuple t) He (enc_tuple_no_ff t)) as Hdec.
    rewrite Eb in Hdec, Hf |- *. cbn [app] in *. destruct fuel as [|fuel]; [simpl in Hf; lia|].
    cbn [dec_tuple]. rewrite Hdec, IH; [done|]. simpl in Hf. rewrite length_app in Hf. lia.
Qed.

(** * Keys *)

Lemma all_ff_le_prefix r k :
  Forall (fun b => b = Byte.xff) r -> r <=b k <-> r `prefix_of` k.
Proof.
  intros Hr. split; [|apply ble_prefix].
  revert k; induction Hr as [|b r -> Hr IH]; intros k H; [apply prefix_nil|].
  destruct k as [|c k]; [done|]. unfold ble in H. cbn [bcompare] in H.
  destruct (Z.compare_spec (byte_to_Z Byte.xff) (byte_to_Z c)) as [E|E|E].
  - apply (inj byte_to_Z) in E as <-. by apply prefix_cons, IH.
  - pose proof (byte_to_Z_range c). change (byte_to_Z Byte.xff) with 255 in E. lia.
  - by destruct H.
Qed.

Lemma strinc_None p : strinc p = None <-> Forall (fun b => b = Byte.xff) p.
Proof.
  induction p as [|b r IH]; [by split|]. rewrite Forall_cons. cbn [strinc].
  destruct (strinc r) as [q|].
  - split; [done|]. intros [_ H]. by apply IH in H.
  - case_decide; split; naive_solver.
Qed.

Lemma ble_cons_iff x a y b :
  x :: a <=b y :: b <-> byte_to_Z x < byte_to_Z y \/ x = y /\ a <=b b.
Proof.
  unfold ble. simpl. destruct (Z.compare_spec (byte_to_Z x) (byte_to_Z y)) as [E|E|E].
  - apply (inj byte_to_Z) in E as ->. split; [auto|]. intros [?|[_ ?]]; [lia|done].
  - split; auto.
  - split; [done|]. intros [?|[-> ?]]; lia.
Qed.

Lemma blt_cons_iff x a y b :
  x :: a <b y :: b <-> byte_to_Z x < byte_to_Z y \/ x = y /\ a <b b.
Proof.
  unfold blt. simpl. destruct (Z.compare_spec (byte_to_Z x) (byte_to_Z y)) as [E|E|E].
  - apply (inj byte_to_Z) in E as ->. split; [auto|]. intros [?|[_ ?]]; [lia|done].
  - split; auto.
  - split; [done|]. intros [?|[-> ?]]; lia.
Qed.

Lemma prefix_cons_iff {A} (x y : A) a b :
  x :: a `prefix_of` y :: b <-> x = y /\ a `prefix_of` b.
Proof.
  split; [|intros [-> H]; by apply prefix_cons].
  intros H. split; [by eapply prefix_cons_inv_1|by eapply prefix_cons_inv_2].
Qed.

Lemma strinc_Some p q : strinc p = Some q -> forall k, (p <=b k /\ k <b q) <-> p `prefix_of` k.
Proof.
  revert q; induction p as [|b r IH]; intros q Hq k; [done|]. cbn [strinc] in Hq.
  destruct k as [|c k].
  { split; [by intros [? _]|]. intros H. by apply prefix_nil_not in H. }
  destruct (strinc r) as [q2|] eqn:Er.
  - injection Hq as <-. rewrite ble_cons_iff, blt_cons_iff, prefix_cons_iff.
    rewrite <-(IH q2 eq_refl k). split; [|naive_solver].
    intros [[?|[-> ?]] [?|[E ?]]]; try lia; try done. subst. lia.
  - apply strinc_None in Er. case_decide as Hb; [done|]. injection Hq as <-.
    rewrite ble_cons_iff, blt_cons_iff, prefix_cons_iff, (all_ff_le_prefix r k Er).
    pose proof (byte_to_Z_range b).
    assert (byte_to_Z b <> 255) by (intros E; apply Hb, (inj byte_to_Z); done).
    rewrite byte_to_of_Z, Z.mod_small by lia. split.
    + intros [[?|[-> ?]] [?|[_ ?]]]; try lia; try done.
      by apply ble_not_lt in H2; [|apply ble_nil].
    + intros [-> ?]. split; [by right|left; lia].
Qed.

#[global] Program Instance fdb_bindings : FdbBindings := {|
  tuple_pack := enc_tuple;
  tuple_unpack := fun bs => dec_tuple (length bs) bs;
  Sub := fun s t => s ++ enc_tuple t;
  Pack := fun s t => s ++ enc_tuple t;
  Unpack := fun s k =>
    match drop_prefix s k with Some r => dec_tuple (length r) r | None => None end;
  PackWithVersionstamp := fun s t =>
    if decide (length (filter (fun e => is_incomplete e = true) t) = 1%nat)
    then Some (fun stamp => s ++ enc_tuple (complete_with stamp <$> t)) else None;
  FDBRangeKeys := fun s => (s ++ [Byte.x00], s ++ [Byte.xff]);
  Strinc := strinc
|}.
Next Obligation. intros t u. unfold enc_tuple. by rewrite map_app, concat_app. Qed.
Next Obligation. intros t Ht. by apply dec_tuple_enc. Qed.
Next Obligation. intros s. unfold enc_tuple. simpl. by rewrite app_nil_r. Qed.
Next Obligation. intros v Hv. unfold enc_tuple. simpl. by rewrite app_nil_r. Qed.
Next Obligation.
  intros a b Ha Hb Hlt. unfold enc_tuple. simpl. rewrite !app_nil_r. by apply enc_int_order.
Qed.
Next Obligation. intros e. unfold enc_tuple. cbn [map concat]. rewrite app_nil_r. apply enc_head. Qed.
Next Obligation. done. Qed.
Next Obligation. done. Qed.
Next Obligation.
  intros s k. unfold drop_prefix. rewrite decide_True by (by apply prefix_app_r).
  by rewrite drop_app_length.
Qed.
Next Obligation.
  intros s t Ht. cbv beta. destruct (decide _) as [_|Hn]; [|by destruct Hn]. eexists. by split.
Qed.
Next Obligation. done. Qed.
Next Obligation. exact strinc_None. Qed.
Next Obligation. intros p q. exact (strinc_Some p q). Qed.

(** * The store *)

Definition key_le (x y : bytes * bytes) : Prop := x.1 <=b y.1.
#[global] Instance key_le_dec x y : Decision (key_le x y).
Proof. unfold key_le. apply _. Defined.
#[global] Instance key_le_trans : Transitive key_le.
Proof. intros x y z. apply ble_trans. Qed.
#[global] Instance key_le_total : Total key_le.
Proof. intros x y. apply (total ble). Qed.

Definition in_range (b e : bytes) (kv : bytes * bytes) : Prop := b <=b kv.1 /\ kv.1 <b e.

Definition map_range (m : gmap bytes bytes) (b e : bytes) : list (bytes * bytes) :=
  merge_sort key_le (filter (in_range b e) (map_to_list m)).

Lemma map_range_elem m b e k v :
  (k, v) ∈ map_range m b e <-> m !! k = Some v /\ b <=b k /\ k <b e.
Proof.
  unfold map_range. rewrite merge_sort_Permutation, list_elem_of_filter, elem_of_map_to_list.
  unfold in_range. simpl. tauto.
Qed.

Lemma map_range_sorted m b e : StronglySorted (fun x y => x.1 <b y.1) (map_range m b e).
Proof.
  assert (Hnd : NoDup (map_range m b e).*1).
  { unfold map_range. rewrite merge_sort_Permutation.
    apply (sublist_NoDup _ (map_to_list m).*1); [apply NoDup_fst_map_to_list|].
    apply fmap_sublist, sublist_filter. }
  assert (Hs : StronglySorted key_le (map_range m b e)) by apply (StronglySorted_merge_sort _ _).
  revert Hnd Hs. generalize (map_range m b e). intros l Hnd Hs.
  induction Hs as [|x l Hs IH Hx]; [constructor|].
  rewrite fmap_cons, NoDup_cons in Hnd. destruct Hnd as [Hnx Hnd].
  constructor; [by apply IH|]. rewrite Forall_forall in *. intros y Hy.
  specialize (Hx y Hy). unfold key_le in Hx. apply ble_lteq in Hx as [?|E]; [done|].
  exfalso. apply Hnx. rewrite E. apply list_elem_of_fmap. eauto.
Qed.

Definition add_byte (m : gmap bytes bytes) (k p : bytes) : gmap bytes bytes :=
  <[k := [byte_of_Z (match m !! k with Some (b :: _) => byte_to_Z b | _ => 0 end +
                     match p with b :: _ => byte_to_Z b | _ => 0 end)]]> m.

#[global] Program Instance map_store : KVStore := {|
  store := gmap bytes bytes;
  sget := fun m k => m !! k;
  sset := fun m k v => <[k := v]> m;
  sclear := fun m k => delete k m;
  sclear_range := fun m b e => filter (fun kv => ~ in_range b e kv) m;
  sadd := add_byte;
  srange := map_range
|}.
Next Obligation. intros m k v k2. apply lookup_insert. Qed.
Next Obligation. intros m k k2. apply lookup_delete. Qed.
Next Obligation.
  intros m b e k. simpl. rewrite map_lookup_filter. case_decide as Hr.
  - destruct (m !! k); simpl; [|done]. by rewrite option_guard_False by (intros Hn; by apply Hn).
  - destruct (m !! k); simpl; [|done]. by rewrite option_guard_True.
Qed.
Next Obligation. intros m k p k2 Hne. by apply lookup_insert_ne. Qed.
Next Obligation. intros m k p. apply lookup_insert_eq. Qed.
Next Obligation. intros m b e. apply map_range_sorted. Qed.
Next Obligation. intros m b e k v. apply map_range_elem. Qed.
