(* ===== verification/Util.v ===== *)
(** pkg/drivers/fdb/util.go: revisions and versionstamps, records and events.

    An etcd revision is the first eight bytes of a versionstamp; the two bytes
    after it number the transactions of one commit batch and must be unused. *)
From stdpp Require Import base strings list gmap.
From Stdlib Require Import Strings.Byte ZArith Lia.
From S2P Require Import Prelude FdbApi KeyOrder.

(** * Data *)

(** The package variables of fdb_config.go that change what is stored. *)
Class Config := {
  UseSequentialId : bool;
  APITest : bool
}.

(** kine's [server.KeyValue] and [server.Event]. *)
Record KeyValue := mkKeyValue {
  kv_Key : bytes;
  kv_CreateRevision : Z;
  kv_ModRevision : Z;
  kv_Value : bytes;
  kv_Lease : Z
}.
#[global] Instance KeyValue_eq_dec : EqDecision KeyValue.
Proof. solve_decision. Defined.

Record Event := mkEvent {
  ev_Delete : bool;
  ev_Create : bool;
  ev_KV : KeyValue;
  ev_PrevKV : option KeyValue
}.
#[global] Instance Event_eq_dec : EqDecision Event.
Proof. solve_decision. Defined.

(** [Record] of fdb_subspace_by_revision.go. *)
Record Rec := mkRec {
  Key : bytes;
  IsDelete : bool;
  IsCreate : bool;
  Lease : Z;
  CreateRevision : Versionstamp;
  PrevRevision : Versionstamp;
  ValueSize : Z;
  WriteUUID : bytes;
  Value : bytes;
  LatestForKey : bool
}.
#[global] Instance Rec_eq_dec : EqDecision Rec.
Proof. solve_decision. Defined.

(** [RevRecord] of fdb_subspace_by_revision.go. *)
Record RevRecord := mkRevRecord { rr_Rev : Versionstamp; rr_Record : Rec }.
#[global] Instance RevRecord_eq_dec : EqDecision RevRecord.
Proof. solve_decision. Defined.

Definition RevRecord_GetCreateRevision (r : RevRecord) : Versionstamp :=
  if IsCreate (rr_Record r) then rr_Rev r else CreateRevision (rr_Record r).

(** * Versionstamps *)

(** [int64(binary.BigEndian.Uint64(bytes[:8]))]: a shorter slice panics. *)
Definition versionstampBytesToInt64 (bs : bytes) : res Z :=
  if (length bs <? 8)%nat then Panic else Ok (to_int64 (unbe (take 8 bs))).

Definition VersionstampToInt64 (versionstamp : Versionstamp) : res Z :=
  let idInCommit := unbe (drop 8 (TransactionVersion versionstamp)) in
  if negb (idInCommit =? 0) && negb (idInCommit =? 65535)
  then Panic
  else versionstampBytesToInt64 (TransactionVersion versionstamp).

(** [PutUint64] fills the first eight of the ten zero bytes. *)
Definition int64ToVersionstamp (rev : Z) : Versionstamp :=
  mkVersionstamp (be 8 (to_uint64 rev) ++ replicate 2 Byte.x00) 0.

Definition createDummyVersionstamp : Versionstamp :=
  let versionstamp := IncompleteVersionstamp 123 in
  mkVersionstamp (replicate 8 Byte.x00 ++ drop 8 (TransactionVersion versionstamp))
                 (UserVersion versionstamp).

Definition dummyVersionstamp : Versionstamp := createDummyVersionstamp.

(** * Events *)

Definition revRecordToEvent `{Config} (revRecord : RevRecord) : res Event :=
  let record := rr_Record revRecord in
  let? createRevision := VersionstampToInt64 (RevRecord_GetCreateRevision revRecord) in
  let? modRevision := VersionstampToInt64 (rr_Rev revRecord) in
  let? prevKV :=
    if decide (PrevRevision record <> dummyVersionstamp)
    then let? prev := VersionstampToInt64 (PrevRevision record) in
         Ok (Some (mkKeyValue [] 0 prev [] 0))
    else Ok None in
  let value := if APITest && IsDelete record then [] else Value record in
  Ok (mkEvent (IsDelete record) (IsCreate record)
        (mkKeyValue (Key record) createRevision modRevision value (Lease record)) prevKV).

(** * Lemmas *)

Lemma length_int64ToVersionstamp r : length (TransactionVersion (int64ToVersionstamp r)) = 10%nat.
Proof. unfold int64ToVersionstamp. cbn [TransactionVersion]. by rewrite length_app, length_be. Qed.

Lemma int64ToVersionstamp_ok r : versionstamp_ok (int64ToVersionstamp r).
Proof. split; [apply length_int64ToVersionstamp|simpl; lia]. Qed.

Lemma dummyVersionstamp_ok : versionstamp_ok dummyVersionstamp.
Proof. split; [done|simpl; lia]. Qed.

Lemma unbe_revision r : unbe (be 8 (to_uint64 r)) = to_uint64 r.
Proof. rewrite unbe_be. apply Z.mod_mod. lia. Qed.

Lemma VersionstampToInt64_int64ToVersionstamp r :
  is_int64 r -> VersionstampToInt64 (int64ToVersionstamp r) = Ok r.
Proof.
  intros Hr. unfold VersionstampToInt64, int64ToVersionstamp, versionstampBytesToInt64.
  cbn [TransactionVersion]. rewrite drop_app_length' by (by rewrite length_be).
  rewrite take_app_length' by (by rewrite length_be).
  rewrite length_app, length_be. simpl. by rewrite unbe_revision, to_int64_uint64.
Qed.

Lemma VersionstampToInt64_dummy : VersionstampToInt64 dummyVersionstamp = Ok 0.
Proof. reflexivity. Qed.

Lemma int64ToVersionstamp_not_dummy r : int64ToVersionstamp r <> dummyVersionstamp.
Proof. intros H. by apply (f_equal UserVersion) in H. Qed.

Lemma int64ToVersionstamp_inj r1 r2 :
  is_int64 r1 -> is_int64 r2 -> int64ToVersionstamp r1 = int64ToVersionstamp r2 -> r1 = r2.
Proof.
  intros H1 H2 H. apply (f_equal VersionstampToInt64) in H.
  rewrite !VersionstampToInt64_int64ToVersionstamp in H by done. congruence.
Qed.

Lemma int64ToVersionstamp_complete r :
  is_incomplete (TVersionstamp (int64ToVersionstamp r)) = false.
Proof.
  apply bool_decide_eq_false. unfold int64ToVersionstamp. cbn [TransactionVersion].
  intros H. apply (f_equal last) in H. by rewrite last_app in H.
Qed.

(** The versionstamp a first-in-batch commit assigns is that of its version. *)
Lemma commit_stamp_first `{KV : KVStore} tr v b :
  tr_first_in_batch tr = true -> 0 <= v ->
  v < 2 ^ 63 -> commit_stamp tr v b = TransactionVersion (int64ToVersionstamp v).
Proof.
  intros Hf H0 Hv. unfold commit_stamp, int64ToVersionstamp, to_uint64.
  rewrite Hf. cbn [TransactionVersion].
  rewrite Z.mod_small by lia. done.
Qed.

(** Revisions and their keys are ordered alike. *)
Lemma pack_revision_lt `{FB : FdbBindings} r1 r2 :
  0 <= r1 -> r1 < r2 -> r2 <= int64_max ->
  bdiverge (tuple_pack [TVersionstamp (int64ToVersionstamp r1)])
           (tuple_pack [TVersionstamp (int64ToVersionstamp r2)]).
Proof.
  unfold int64_max. intros H0 Hlt Hmax.
  rewrite !tuple_pack_versionstamp by apply int64ToVersionstamp_ok.
  apply (bdiverge_app_l [Byte.x33]), bdiverge_app_r. unfold int64ToVersionstamp.
  cbn [TransactionVersion UserVersion].
  apply bdiverge_app_r, blt_diverge; [by rewrite !length_be|].
  unfold blt. rewrite bcompare_unbe by (by rewrite !length_be).
  rewrite !unbe_revision. unfold to_uint64. rewrite !Z.mod_small by lia.
  by apply Z.compare_lt_iff.
Qed.
