(* ===== verification/Subspaces.v ===== *)
(** The subspaces of the driver's directory and what is stored in them:
    fdb_subspace_rev.go, fdb_subspace_by_revision.go,
    fdb_subspace_by_key_revision.go, fdb_subspace_by_key_data.go,
    fdb_subspace_compact.go and fdb_subspace_watch.go. *)
From stdpp Require Import base strings list gmap.
From Stdlib Require Import Strings.Byte ZArith Lia.
From S2P Require Import Prelude FdbApi KeyOrder Util.

Definition chunkSize : Z := 10000.
(** [maxRecordSize] of fdb_write.go: 2 MiB. *)
Definition maxRecordSize : Z := 2 * 1024 * 1024.
Definition one : bytes := [Byte.x01].
Definition zeroUUID : bytes := replicate 16 Byte.x00.

(** * Type assertions on tuple elements *)

Definition as_string (o : option TupleElement) : res bytes :=
  match o with Some (TString s) => Ok s | _ => Panic end.
Definition as_bool (o : option TupleElement) : res bool :=
  match o with Some (TBool b) => Ok b | _ => Panic end.
Definition as_int64 (o : option TupleElement) : res Z :=
  match o with Some (TInt z) => Ok z | _ => Panic end.
Definition as_versionstamp (o : option TupleElement) : res Versionstamp :=
  match o with Some (TVersionstamp v) => Ok v | _ => Panic end.
Definition as_uuid (o : option TupleElement) : res bytes :=
  match o with Some (TUUID u) => Ok u | _ => Panic end.

Definition unpack_error : error := ErrMessage "unable to unpack".
Definition strinc_error : error := ErrMessage "unable to increment key".
Definition versionstamp_error : error := ErrMessage "no incomplete versionstamp in tuple".

(** The subspaces, each its prefix ([FDB] in fdb.go keeps them). *)
Record FDB := mkFDB {
  byRevision : bytes;
  byKeyAndRevision : bytes;
  byKeyCurrent : bytes;
  watch : bytes;
  compactRev : bytes;
  rev : bytes
}.

(** [ByKeyAndRevisionRecord] and its key. *)
Record KeyAndRevision := mkKeyAndRevision { kr_Key : bytes; kr_Rev : Versionstamp }.
Record ByKeyAndRevisionRecord := mkByKeyAndRevisionRecord {
  bk_Key : KeyAndRevision;
  bk_Value : Rec
}.

Definition ByKeyAndRevisionRecord_GetCreateRevision (r : ByKeyAndRevisionRecord) : Versionstamp :=
  if IsCreate (bk_Value r) then kr_Rev (bk_Key r) else CreateRevision (bk_Value r).

(** A key to write: known, or completed by the commit. *)
Inductive WriteKey : Type :=
| PlainKey (k : bytes)
| StampedKey (k : bytes -> bytes).

(** The future of a transaction's versionstamp, or a known one
    ([ConstKeyFuture] in util.go). *)
Inductive FutureKey : Type :=
| ConstKeyFuture (v : Versionstamp)
| GetVersionstamp.

Section Subspaces.
Context `{FB : FdbBindings, KV : KVStore, CF : Config}.

Definition CreateByRevisionSubspace (directory : bytes) : bytes :=
  Sub directory [TString (str "byRevision")].
Definition CreateByKeyRevisionSubspace (directory : bytes) : bytes :=
  Sub directory [TString (str "byKeyAndRevision")].
Definition CreateByKeyCurrentSubspace (directory : bytes) : bytes :=
  Sub directory [TString (str "byKeyCurrent")].
Definition CreateWatchSubspace (directory : bytes) : bytes :=
  Sub directory [TString (str "watch")].
Definition CreateCompactRevisionSubspace (directory : bytes) : bytes :=
  Sub directory [TString (str "compactRevision")].
Definition CreateRevisionSubspace (directory : bytes) : bytes :=
  if UseSequentialId then Sub directory [TString (str "latestRev")] else [].

Definition openSubspaces (dir : bytes) : FDB := {|
  byRevision := CreateByRevisionSubspace dir;
  byKeyAndRevision := CreateByKeyRevisionSubspace dir;
  byKeyCurrent := CreateByKeyCurrentSubspace dir;
  watch := CreateWatchSubspace dir;
  compactRev := CreateCompactRevisionSubspace dir;
  rev := CreateRevisionSubspace dir
|}.

(** [fdb.PrefixRange] *)
Definition PrefixRange (p : bytes) : res (bytes * bytes) :=
  let? e := of_option strinc_error (Strinc p) in Ok (p, e).

Definition prefix_selectors (r : bytes * bytes) : SelectorRange :=
  mkSelectorRange (FirstGreaterOrEqual r.1) (FirstGreaterOrEqual r.2).

(** ** fdb_subspace_rev.go *)

Definition packKey (subspace : bytes) (t : Tuple) : res WriteKey :=
  if UseSequentialId
  then Ok (PlainKey (Pack subspace t))
  else let? f := of_option versionstamp_error (PackWithVersionstamp subspace t) in
       Ok (StampedKey f).

Definition setValue (tr : Transaction) (k : WriteKey) (v : bytes) : Transaction :=
  match k with
  | PlainKey k => tr_Set tr k v
  | StampedKey f => tr_SetVersionstampedKey tr f v
  end.

Definition GetWriteOps (subspace : bytes) :
    (Tuple -> res WriteKey) * (Transaction -> WriteKey -> bytes -> Transaction) :=
  (packKey subspace, setValue).

Definition lastSequentialId (s : bytes) (tr : Transaction) : res Z :=
  match tr_Get tr s with
  | None => Ok 1
  | Some value =>
      let? t := of_option unpack_error (tuple_unpack value) in
      as_int64 (t !! 0%nat)
  end.

Definition IncrementAndGet (s : bytes) (tr : Transaction)
    : res (Versionstamp * FutureKey * Transaction) :=
  if UseSequentialId then
    let? id :=
      match tr_Get tr s with
      | None => Ok 1
      | Some value =>
          let? t := of_option unpack_error (tuple_unpack value) in
          as_int64 (t !! 0%nat)
      end in
    let id := to_int64 (id + 1) in
    let tr := tr_Set tr s (tuple_pack [TInt id]) in
    let versionstamp := int64ToVersionstamp id in
    Ok (versionstamp, ConstKeyFuture versionstamp, tr)
  else Ok (IncompleteVersionstamp 0, GetVersionstamp, tr).

Definition GetLatestRev (s : bytes) (tr : Transaction) : res Z :=
  if UseSequentialId then lastSequentialId s tr else Ok (tr_read_version tr).

(** ** fdb_subspace_by_revision.go *)

Definition ByRevision_recordToTuple (record : Rec) : Tuple :=
  [TString (Key record); TBool (IsDelete record); TBool (IsCreate record);
   TInt (Lease record); TVersionstamp (CreateRevision record);
   TVersionstamp (PrevRevision record); TInt (ValueSize record)].

Definition ByRevision_tupleToRecord (t : Tuple) : res Rec :=
  let? key := as_string (t !! 0%nat) in
  let? isDelete := as_bool (t !! 1%nat) in
  let? isCreate := as_bool (t !! 2%nat) in
  let? lease := as_int64 (t !! 3%nat) in
  let? createRevision := as_versionstamp (t !! 4%nat) in
  let? prevRevision := as_versionstamp (t !! 5%nat) in
  let? valueSize := as_int64 (t !! 6%nat) in
  Ok (mkRec key isDelete isCreate lease createRevision prevRevision valueSize
            zeroUUID [] false).

Definition writeBlob (s : bytes) (tr : Transaction) (rev : Versionstamp) (value : bytes)
    : res Transaction :=
  for_loop 0 (zlength value) chunkSize (fun offset tr =>
    let end_ := offset + chunkSize in
    let end_ := if zlength value <? end_ then zlength value else end_ in
    let '(packKey, setValue) := GetWriteOps s in
    let? chunkKey := packKey [TVersionstamp rev; TInt offset] in
    Ok (setValue tr chunkKey (slice value offset end_))) tr.

Definition ByRevision_Write (s : bytes) (tr : Transaction) (rev : Versionstamp) (record : Rec)
    : res Transaction :=
  let? tr := writeBlob s tr rev (Value record) in
  let '(packKey, setValue) := GetWriteOps s in
  let? revisionKey := packKey [TVersionstamp rev] in
  Ok (setValue tr revisionKey (tuple_pack (ByRevision_recordToTuple record))).

Definition ByRevision_ParseKV (s : bytes) (kv : FdbKeyValue) : res (Versionstamp * Rec) :=
  let? k := of_option unpack_error (Unpack s kv.1) in
  let? versionstamp := as_versionstamp (k !! 0%nat) in
  if (length k =? 1)%nat then
    let? unpackedTuple := of_option unpack_error (tuple_unpack kv.2) in
    let? record := ByRevision_tupleToRecord unpackedTuple in
    Ok (versionstamp, record)
  else Panic.

(** [copy(buf[offset:], chunk)]: slicing past the end panics. *)
Definition go_copy (buf : bytes) (offset : Z) (chunk : bytes) : res bytes :=
  if zlength buf <? offset then Panic
  else let o := Z.to_nat offset in
       let c := take (length buf - o) chunk in
       Ok (take o buf ++ c ++ drop (o + length c) buf).

(** One iteration consumes one pair, so the recursion follows the iterator. *)
Fixpoint getBlob (it : RangeIterator) (offset : Z) (buf : bytes) : res (bytes * RangeIterator) :=
  if offset =? zlength buf then Ok (buf, it)
  else match it with
       | [] => Ok (buf, [])
       | chunkKv :: it' =>
           let? buf := go_copy buf offset chunkKv.2 in
           getBlob it' (offset + zlength chunkKv.2) buf
       end.

(** [make([]byte, n)]: a negative length panics. *)
Definition make_bytes (n : Z) : res bytes :=
  if n <? 0 then Panic else Ok (replicate (Z.to_nat n) Byte.x00).

Definition with_Value (record : Rec) (v : bytes) : Rec :=
  mkRec (Key record) (IsDelete record) (IsCreate record) (Lease record)
        (CreateRevision record) (PrevRevision record) (ValueSize record)
        (WriteUUID record) v (LatestForKey record).

Definition ByRevision_GetFromIterator (s : bytes) (it : RangeIterator)
    : res (option (Versionstamp * Rec) * RangeIterator) :=
  if negb (Advance it) then Ok (None, it)
  else
    let? '(kv, it) := IterGet it in
    let? '(rev, record) := ByRevision_ParseKV s kv in
    let? buf := make_bytes (ValueSize record) in
    let? '(buf, it) := getBlob it 0 buf in
    Ok (Some (rev, with_Value record buf), it).

Definition ByRevision_GetIterator (s : bytes) (tr : Transaction) (rev : Versionstamp)
    : res RangeIterator :=
  let? selector := PrefixRange (Pack s [TVersionstamp rev]) in
  Ok (tr_GetRange tr (prefix_selectors selector)).

Definition ByRevision_Get (s : bytes) (tr : Transaction) (rev : Versionstamp)
    : res (option Rec) :=
  let? it := ByRevision_GetIterator s tr rev in
  let? '(r, _) := ByRevision_GetFromIterator s it in
  Ok (snd <$> r).

Definition ByRevision_Delete (s : bytes) (tr : Transaction) (rev : Versionstamp)
    : res Transaction :=
  let? selector := PrefixRange (Pack s [TVersionstamp rev]) in
  Ok (tr_ClearRange tr selector.1 selector.2).

(** ** fdb_subspace_by_key_revision.go *)

Definition ByKey_recordToTuple (record : Rec) : Tuple :=
  [TBool (IsDelete record); TBool (IsCreate record); TInt (Lease record);
   TVersionstamp (CreateRevision record); TVersionstamp (PrevRevision record);
   TInt (ValueSize record); TUUID (WriteUUID record)].

Definition ByKey_tupleToRecord (t : Tuple) : res Rec :=
  let? isDelete := as_bool (t !! 0%nat) in
  let? isCreate := as_bool (t !! 1%nat) in
  let? lease := as_int64 (t !! 2%nat) in
  let? createRevision := as_versionstamp (t !! 3%nat) in
  let? prevRevision := as_versionstamp (t !! 4%nat) in
  let? valueSize := as_int64 (t !! 5%nat) in
  let? writeUUID := as_uuid (t !! 6%nat) in
  Ok (mkRec [] isDelete isCreate lease createRevision prevRevision valueSize
            writeUUID [] false).

Definition ByKey_Write (s : bytes) (tr : Transaction) (key : KeyAndRevision) (record : Rec)
    : res Transaction :=
  let '(packKey, setValue) := GetWriteOps s in
  let? revisionKey := packKey [TString (kr_Key key); TVersionstamp (kr_Rev key)] in
  Ok (setValue tr revisionKey (tuple_pack (ByKey_recordToTuple record))).

Definition ByKey_Delete (s : bytes) (tr : Transaction) (key : KeyAndRevision) : Transaction :=
  tr_Clear tr (Pack s [TString (kr_Key key); TVersionstamp (kr_Rev key)]).

Definition with_Key (record : Rec) (key : bytes) : Rec :=
  mkRec key (IsDelete record) (IsCreate record) (Lease record)
        (CreateRevision record) (PrevRevision record) (ValueSize record)
        (WriteUUID record) (Value record) (LatestForKey record).

Definition ByKey_parseKV (s : bytes) (kv : FdbKeyValue) : res ByKeyAndRevisionRecord :=
  let? k := of_option unpack_error (Unpack s kv.1) in
  let? key := as_string (k !! 0%nat) in
  let? versionstamp := as_versionstamp (k !! 1%nat) in
  let? unpackedTuple := of_option unpack_error (tuple_unpack kv.2) in
  let? record := ByKey_tupleToRecord unpackedTuple in
  Ok (mkByKeyAndRevisionRecord (mkKeyAndRevision key versionstamp) (with_Key record key)).

Definition ByKey_GetFromIterator (s : bytes) (it : RangeIterator)
    : res (option ByKeyAndRevisionRecord * RangeIterator) :=
  if negb (Advance it) then Ok (None, it)
  else
    let? '(kv, it) := IterGet it in
    let? r := ByKey_parseKV s kv in
    Ok (Some r, it).

(** ** fdb_subspace_by_key_data.go *)

Definition numChunks (size : Z) : Z := Z.quot (size + chunkSize - 1) chunkSize.

Definition ByKeyCurrent_Clear (s : bytes) (tr : Transaction) (key : bytes) : res Transaction :=
  let? selector := PrefixRange (Pack s [TString key]) in
  Ok (tr_ClearRange tr selector.1 selector.2).

Definition ByKeyCurrent_Replace (s : bytes) (tr : Transaction) (key value : bytes) (prevSize : Z)
    : res Transaction :=
  let? tr :=
    if prevSize <? 0 then ByKeyCurrent_Clear s tr key
    else if numChunks (zlength value) <? numChunks prevSize then
      let begin := Pack s [TString key; TInt (numChunks (zlength value) * chunkSize)] in
      let? endPrefix := of_option strinc_error (Strinc (Pack s [TString key])) in
      Ok (tr_ClearRange tr begin endPrefix)
    else Ok tr in
  for_loop 0 (zlength value) chunkSize (fun offset tr =>
    let end_ := Z.min (offset + chunkSize) (zlength value) in
    Ok (tr_Set tr (Pack s [TString key; TInt offset]) (slice value offset end_))) tr.

Definition ByKeyCurrent_parseKV (s : bytes) (kv : FdbKeyValue) : res (bytes * bytes) :=
  let? t := of_option unpack_error (Unpack s kv.1) in
  let? key := as_string (t !! 0%nat) in
  Ok (key, kv.2).

Definition ByKeyCurrent_RangeForKeys (s firstKey lastKey : bytes) : res SelectorRange :=
  let begin := Pack s [TString firstKey] in
  let? endPrefix := of_option strinc_error (Strinc (Pack s [TString lastKey])) in
  Ok (mkSelectorRange (FirstGreaterOrEqual begin) (FirstGreaterOrEqual endPrefix)).

(** ** fdb_subspace_compact.go and fdb_subspace_watch.go *)

Definition CompactRev_Write (s : bytes) (tr : Transaction) (rev : Versionstamp) : Transaction :=
  tr_Set tr s (tuple_pack [TVersionstamp rev]).

Definition CompactRev_Get (s : bytes) (tr : Transaction) : res Versionstamp :=
  match tr_Get tr s with
  | None => Ok (int64ToVersionstamp 0)
  | Some value =>
      let? t := of_option unpack_error (tuple_unpack value) in
      as_versionstamp (t !! 0%nat)
  end.

Definition Watch_Write (s : bytes) (tr : Transaction) : Transaction := tr_Add tr s one.
End Subspaces.
