(* ===== verification/SubspaceFacts.v ===== *)
(** What the operations of Subspaces.v write and read back: each operation is
    a list of mutations, described by the key-value pairs it sets. *)
From stdpp Require Import base strings list gmap sorting.
From Stdlib Require Import Strings.Byte ZArith Lia.
From S2P Require Import Prelude FdbApi KeyOrder Util Subspaces.

(** Well-formed tuples, element by element. *)
Ltac solve_tuple_ok :=
  unfold tuple_ok; repeat first [apply Forall_nil_2 | apply Forall_cons_2]; cbn [element_ok]; auto.

(** * Chunked values *)

(** The chunk of [value] at [offset]. *)
Definition chunk_at (value : bytes) (offset : Z) : bytes :=
  slice value offset (Z.min (offset + chunkSize) (zlength value)).

(** The chunks of a value with their offsets. *)
Definition chunks (value : bytes) : list (Z * bytes) :=
  (fun offset => (offset, chunk_at value offset)) <$> loop_indices (zlength value) chunkSize.

Lemma chunkSize_pos : 1 <= chunkSize.
Proof. unfold chunkSize. lia. Qed.

Lemma loop_count_chunks_numChunks n : 0 <= n -> loop_count n chunkSize = numChunks n.
Proof.
  intros. unfold loop_count, numChunks. rewrite Z.quot_div_nonneg; unfold chunkSize; lia.
Qed.

Lemma chunk_at_length v j :
  0 <= j -> j * chunkSize < zlength v ->
  zlength (chunk_at v (j * chunkSize)) = Z.min chunkSize (zlength v - j * chunkSize).
Proof.
  intros Hj Hlt. pose proof chunkSize_pos. unfold chunk_at, slice, zlength in *.
  rewrite length_take, length_drop. lia.
Qed.

Lemma copy_chunk v j :
  0 <= j -> j * chunkSize < zlength v ->
  go_copy (take (Z.to_nat (j * chunkSize)) v ++
           replicate (length v - Z.to_nat (j * chunkSize)) Byte.x00)
          (j * chunkSize) (chunk_at v (j * chunkSize)) =
  Ok (take (Z.to_nat ((j + 1) * chunkSize)) v ++
      replicate (length v - Z.to_nat ((j + 1) * chunkSize)) Byte.x00).
Proof.
  intros Hj Hlt. pose proof chunkSize_pos. unfold zlength in *.
  set (o := Z.to_nat (j * chunkSize)).
  set (c := Z.to_nat chunkSize).
  assert (Ho : (o < length v)%nat) by lia.
  assert (Hlo : length (take o v) = o) by (rewrite length_take; lia).
  unfold go_copy, zlength. rewrite length_app, length_replicate, Hlo.
  destruct (Z.ltb_spec (Z.of_nat (o + (length v - o))) (j * chunkSize)); [lia|]. fold o.
  assert (Hc : chunk_at v (j * chunkSize) = take c (drop o v)).
  { unfold chunk_at, slice, zlength. fold o.
    destruct (Z.le_gt_cases (j * chunkSize + chunkSize) (Z.of_nat (length v))).
    - f_equal. lia.
    - rewrite (take_ge (drop o v) c), (take_ge (drop o v)); [done|..];
        rewrite length_drop; lia. }
  rewrite Hc.
  rewrite (take_ge (take c (drop o v))) by (rewrite length_take, length_drop; lia).
  rewrite take_app_le by lia. rewrite (take_ge (take o v)) by lia.
  replace (Z.to_nat ((j + 1) * chunkSize)) with (o + c)%nat by lia.
  rewrite <-take_take_drop, <-app_assoc. f_equal. f_equal. f_equal.
  rewrite drop_app_ge by lia. rewrite drop_replicate. f_equal.
  rewrite Hlo, length_take, length_drop. lia.
Qed.

Lemma getBlob_from {A} (key : Z -> A) (f : A -> bytes) v it n j :
  0 <= j -> Z.to_nat (loop_count (zlength v) chunkSize - j) = n ->
  getBlob (((fun i => (f (key i), chunk_at v (i * chunkSize))) <$>
             seqZ j (loop_count (zlength v) chunkSize - j)) ++ it)
          (Z.min (j * chunkSize) (zlength v))
          (take (Z.to_nat (j * chunkSize)) v ++
           replicate (length v - Z.to_nat (j * chunkSize)) Byte.x00) = Ok (v, it).
Proof.
  pose proof chunkSize_pos. revert j; induction n as [|n IH]; intros j Hj Hn.
  - assert (Hge : ~ j < loop_count (zlength v) chunkSize) by lia.
    rewrite loop_count_lt in Hge by done. unfold zlength in *.
    rewrite seqZ_nil by lia. rewrite take_ge by lia.
    replace (length v - Z.to_nat (j * chunkSize))%nat with 0%nat by lia.
    cbn [replicate fmap list_fmap app]. rewrite app_nil_r.
    assert (E : (Z.min (j * chunkSize) (Z.of_nat (length v)) =? zlength v) = true)
      by (apply Z.eqb_eq; unfold zlength; lia).
    destruct it as [|x it]; cbn [getBlob]; by rewrite E.
  - assert (Hlt : j < loop_count (zlength v) chunkSize) by lia.
    pose proof Hlt as Hlt2. rewrite loop_count_lt in Hlt2 by done.
    rewrite seqZ_cons by lia. cbn [fmap list_fmap app getBlob snd].
    rewrite Z.min_l by lia.
    set (buf := take (Z.to_nat (j * chunkSize)) v ++ _).
    assert (Hbuf : zlength buf = zlength v).
    { unfold buf, zlength in *. rewrite length_app, length_take, length_replicate. lia. }
    destruct (Z.eqb_spec (j * chunkSize) (zlength buf)); [lia|].
    unfold buf. rewrite copy_chunk by done. cbn [rbind].
    rewrite chunk_at_length by done.
    specialize (IH (Z.succ j) ltac:(lia) ltac:(lia)).
    replace (loop_count (zlength v) chunkSize - Z.succ j)
      with (Z.pred (loop_count (zlength v) chunkSize - j)) in IH by lia.
    replace (j * chunkSize + Z.min chunkSize (zlength v - j * chunkSize))
      with (Z.min (Z.succ j * chunkSize) (zlength v)) by lia.
    replace (j + 1) with (Z.succ j) by lia. exact IH.
Qed.

(** Reading the chunks back, in order, gives the value. *)
Lemma getBlob_chunks (f : Z -> bytes) v it :
  getBlob (((fun oc => (f oc.1, oc.2)) <$> chunks v) ++ it) 0 (replicate (length v) Byte.x00) =
  Ok (v, it).
Proof.
  pose proof (getBlob_from (fun i => i * chunkSize) f v it _ 0 ltac:(lia) eq_refl) as H.
  rewrite Z.sub_0_r, Z.mul_0_l, Nat.sub_0_r, Z.min_l in H by apply zlength_nonneg.
  unfold chunks, loop_indices. rewrite <-!list_fmap_compose. exact H.
Qed.

Lemma concat_chunks v : mjoin (snd <$> chunks v) = v.
Proof.
  unfold chunks. rewrite <-list_fmap_compose. apply (concat_slices v chunkSize), chunkSize_pos.
Qed.

Lemma elem_of_chunks v o c :
  (o, c) ∈ chunks v <->
  exists i, 0 <= i < numChunks (zlength v) /\ o = i * chunkSize /\ c = chunk_at v o.
Proof.
  unfold chunks, loop_indices. rewrite list_elem_of_fmap. setoid_rewrite list_elem_of_fmap.
  rewrite loop_count_chunks_numChunks by apply zlength_nonneg.
  split.
  - intros (x & ? & i & -> & Hi%elem_of_seqZ). exists i. simplify_eq. split; [lia|done].
  - intros (i & Hi & -> & ->). exists (i * chunkSize). split; [done|].
    exists i. split; [done|]. apply elem_of_seqZ. lia.
Qed.

Lemma chunks_offset_int64 v o c :
  zlength v <= maxRecordSize -> (o, c) ∈ chunks v -> 0 <= o < int64_max /\ is_int64 o.
Proof.
  intros Hv (i & Hi & -> & _)%elem_of_chunks. pose proof chunkSize_pos.
  pose proof (zlength_nonneg v). rewrite <-loop_count_chunks_numChunks in Hi by done.
  destruct Hi as [Hi1 Hi2]. apply loop_count_lt in Hi2; [|done].
  unfold is_int64, int64_min, int64_max, maxRecordSize in *. lia.
Qed.

Lemma NoDup_chunks v : NoDup (chunks v).*1.
Proof.
  unfold chunks, loop_indices. rewrite <-!list_fmap_compose.
  apply NoDup_fmap_2_strong; [|apply NoDup_seqZ].
  intros x y _ _. simpl. unfold chunkSize. lia.
Qed.

Lemma chunks_sorted v : StronglySorted (fun x y => x.1 < y.1) (chunks v).
Proof.
  unfold chunks, loop_indices. rewrite <-!list_fmap_compose.
  apply (ssorted_fmap_on Z.lt); [|apply seqZ_sorted].
  intros x y _ _ H. simpl. unfold chunkSize. lia.
Qed.

Lemma chunks_nil : chunks [] = [].
Proof. reflexivity. Qed.

(** * Mutations *)

Section Mutations.
Context `{KV : KVStore}.

Definition tr_mutates (tr : Transaction) (l : list mutation) : Transaction :=
  mkTransaction (tr_snapshot tr) (tr_read_version tr) (tr_log tr ++ l) (tr_first_in_batch tr).

Lemma tr_mutates_nil tr : tr_mutates tr [] = tr.
Proof. destruct tr. unfold tr_mutates. simpl. by rewrite app_nil_r. Qed.

Lemma tr_mutates_app tr l k : tr_mutates (tr_mutates tr l) k = tr_mutates tr (l ++ k).
Proof. unfold tr_mutates. simpl. by rewrite app_assoc. Qed.

Lemma fold_res_mutates (body : Z -> Transaction -> res Transaction) (m : Z -> mutation) idx tr :
  (forall i tr, i ∈ idx -> body i tr = Ok (tr_mutate tr (m i))) ->
  fold_res body idx tr = Ok (tr_mutates tr (m <$> idx)).
Proof.
  revert tr; induction idx as [|i idx IH]; intros tr H; simpl.
  - by rewrite tr_mutates_nil.
  - rewrite H by left. simpl. rewrite IH by (intros; apply H; by right).
    by rewrite (tr_mutates_app tr [m i]).
Qed.

Lemma apply_log_app st s l k : apply_log st s (l ++ k) = apply_log st (apply_log st s l) k.
Proof. apply fold_left_app. Qed.

(** Setting a list of pairs. *)
Definition set_all (s : store) (l : list (bytes * bytes)) : store :=
  fold_left (fun s kv => sset s kv.1 kv.2) l s.

Lemma sget_set_all s l k :
  NoDup l.*1 -> sget (set_all s l) k = ((list_to_map l : gmap bytes bytes) !! k) ∪ sget s k.
Proof.
  revert s; induction l as [|[k2 v2] l IH]; intros s Hnd; simpl.
  - rewrite lookup_empty. by destruct (sget s k).
  - apply NoDup_cons in Hnd as [Hk Hnd]. rewrite IH by done. rewrite sget_set.
    rewrite lookup_insert. case_decide as E.
    + subst. rewrite (not_elem_of_list_to_map_1 _ _ Hk). by destruct (sget s k).
    + done.
Qed.

Lemma set_all_app s l k : set_all s (l ++ k) = set_all (set_all s l) k.
Proof. apply fold_left_app. Qed.

(** Mutations that each set one pair. *)
Lemma apply_log_sets {A} stamp s (m : A -> mutation) (kv : A -> bytes * bytes) l :
  (forall x s, x ∈ l -> apply_mutation (Some stamp) s (m x) = sset s (kv x).1 (kv x).2) ->
  apply_log (Some stamp) s (m <$> l) = set_all s (kv <$> l).
Proof.
  revert s; induction l as [|x l IH]; intros s H; [done|].
  unfold apply_log, set_all. simpl. rewrite H by left. apply IH. intros; apply H. by right.
Qed.

(** The pairs of a store after a list of them is set. *)
Lemma sget_set_all_iff s l k v :
  NoDup l.*1 ->
  sget (set_all s l) k = Some v <-> ((k, v) ∈ l \/ (k ∉ l.*1) /\ sget s k = Some v).
Proof.
  intros Hnd. rewrite sget_set_all by done. rewrite union_Some.
  rewrite <-(elem_of_list_to_map (M := gmap bytes)) by done.
  by rewrite <-(not_elem_of_list_to_map (M := gmap bytes)).
Qed.

Lemma sget_set_all_outside s l k : k ∉ l.*1 -> sget (set_all s l) k = sget s k.
Proof.
  revert s; induction l as [|[k2 v2] l IH]; intros s Hk; [done|].
  rewrite fmap_cons, not_elem_of_cons in Hk. destruct Hk as [Hne Hk]. cbn [fst] in Hne.
  change (set_all s ((k2, v2) :: l)) with (set_all (sset s k2 v2) l).
  rewrite IH by done. by rewrite sget_set, decide_False.
Qed.

(** A log that changes only keys of [P]. *)
Definition log_only (stamp : bytes) (P : bytes -> Prop) (l : list mutation) : Prop :=
  forall s k, ~ P k -> sget (apply_log (Some stamp) s l) k = sget s k.

Lemma list_to_map_pair_None (l : list (bytes * bytes)) k :
  (forall kv, kv ∈ l -> kv.1 <> k) -> (list_to_map l : gmap bytes bytes) !! k = None.
Proof.
  intros H. apply not_elem_of_list_to_map_1. intros ([k2 v] & -> & Hin)%list_elem_of_fmap.
  by apply (H _ Hin).
Qed.
End Mutations.

Section WriteOps.
Context `{FB : FdbBindings, KV : KVStore, CF : Config}.

(** The revision a write uses before it commits: assigned now with
    sequential ids, a placeholder otherwise; and what it becomes. *)
Definition pending_rev (v : Versionstamp) : Prop :=
  if UseSequentialId then is_incomplete (TVersionstamp v) = false
  else v = IncompleteVersionstamp 0.

Definition resolve_rev (stamp : bytes) (v : Versionstamp) : Versionstamp :=
  if UseSequentialId then v else mkVersionstamp stamp 0.

Definition write_mutation (s : bytes) (t : Tuple) (v : bytes) : mutation :=
  match packKey s t with
  | Ok (PlainKey k) => MSet k v
  | Ok (StampedKey f) => MSetVersionstampedKey f v
  | _ => MClear []
  end.

Lemma complete_with_id stamp t :
  filter (fun e => is_incomplete e = true) t = [] -> complete_with stamp <$> t = t.
Proof.
  induction t as [|e t IH]; [done|]. rewrite filter_cons. case_decide as E; [done|].
  intros H. rewrite fmap_cons, (IH H). f_equal.
  destruct e; try done. cbn [complete_with]. by destruct (is_incomplete _).
Qed.

(** A tuple with one pending revision among complete elements. *)
Lemma packKey_pending s t1 v t2 :
  pending_rev v ->
  filter (fun e => is_incomplete e = true) t1 = [] ->
  filter (fun e => is_incomplete e = true) t2 = [] ->
  let t := t1 ++ TVersionstamp v :: t2 in
  exists wk, packKey s t = Ok wk /\
    (forall tr x, setValue tr wk x = tr_mutate tr (write_mutation s t x)) /\
    (forall stamp st x, length stamp = 10%nat ->
      apply_mutation (Some stamp) st (write_mutation s t x) =
      sset st (Pack s (t1 ++ TVersionstamp (resolve_rev stamp v) :: t2)) x).
Proof.
  intros Hv H1 H2 t. unfold write_mutation, packKey, pending_rev, resolve_rev in *.
  destruct UseSequentialId.
  - exists (PlainKey (Pack s t)). done.
  - destruct (PackWithVersionstamp_spec s t) as (f & Hf & Hfs).
    { unfold t. rewrite filter_app, H1, filter_cons, decide_True by (by subst). simpl. by rewrite H2. }
    exists (StampedKey f). rewrite Hf. split; [done|]. split; [done|].
    intros stamp st x Hl. simpl. rewrite Hfs by done. unfold t.
    rewrite fmap_app, fmap_cons, !complete_with_id by done. by subst.
Qed.

(** ** The pairs of a record in the by-revision subspace *)

Definition chunk_entry (s : bytes) (r : Versionstamp) (oc : Z * bytes) : bytes * bytes :=
  (Pack s [TVersionstamp r; TInt oc.1], oc.2).

Definition byRevision_main (s : bytes) (r : Versionstamp) (record : Rec) : bytes * bytes :=
  (Pack s [TVersionstamp r], tuple_pack (ByRevision_recordToTuple record)).

Definition byRevision_entries (s : bytes) (r : Versionstamp) (record : Rec) : list (bytes * bytes) :=
  byRevision_main s r record :: (chunk_entry s r <$> chunks (Value record)).

Definition byRevision_mutations (s : bytes) (v : Versionstamp) (record : Rec) : list mutation :=
  ((fun oc => write_mutation s [TVersionstamp v; TInt oc.1] oc.2) <$> chunks (Value record)) ++
  [write_mutation s [TVersionstamp v] (tuple_pack (ByRevision_recordToTuple record))].

Lemma writeBlob_mutates s tr v value :
  pending_rev v ->
  writeBlob s tr v value =
  Ok (tr_mutates tr ((fun oc => write_mutation s [TVersionstamp v; TInt oc.1] oc.2) <$> chunks value)).
Proof.
  intros Hv. unfold writeBlob. rewrite for_loop_fold by apply chunkSize_pos.
  rewrite (fold_res_mutates _
    (fun o => write_mutation s [TVersionstamp v; TInt o] (chunk_at value o))).
  - unfold chunks. by rewrite <-list_fmap_compose.
  - intros o tr2 _. cbn [GetWriteOps].
    destruct (packKey_pending s [] v [TInt o] Hv eq_refl eq_refl) as (wk & Hk & Hset & _).
    cbn [app] in Hk, Hset. rewrite Hk. cbn [rbind]. rewrite Hset. unfold chunk_at.
    repeat f_equal. destruct (Z.ltb_spec (zlength value) (o + chunkSize)); lia.
Qed.

Lemma ByRevision_Write_mutates s tr v record :
  pending_rev v ->
  ByRevision_Write s tr v record = Ok (tr_mutates tr (byRevision_mutations s v record)).
Proof.
  intros Hv. unfold ByRevision_Write, byRevision_mutations.
  rewrite writeBlob_mutates by done. cbn [rbind GetWriteOps].
  destruct (packKey_pending s [] v [] Hv eq_refl eq_refl) as (wk & Hk & Hset & _).
  cbn [app] in Hk, Hset. rewrite Hk. cbn [rbind]. rewrite Hset, <-tr_mutates_app. done.
Qed.

Lemma byRevision_mutations_apply s v record stamp st :
  pending_rev v -> length stamp = 10%nat ->
  apply_log (Some stamp) st (byRevision_mutations s v record) =
  set_all st ((chunk_entry s (resolve_rev stamp v) <$> chunks (Value record)) ++
              [byRevision_main s (resolve_rev stamp v) record]).
Proof.
  intros Hv Hl. unfold byRevision_mutations. rewrite apply_log_app, set_all_app.
  rewrite (apply_log_sets _ _ _ (chunk_entry s (resolve_rev stamp v))).
  - destruct (packKey_pending s [] v [] Hv eq_refl eq_refl) as (_ & _ & _ & Hap).
    by apply Hap.
  - intros [o c] st2 _.
    destruct (packKey_pending s [] v [TInt o] Hv eq_refl eq_refl) as (_ & _ & _ & Hap).
    by apply Hap.
Qed.
End WriteOps.

(** * Reading records back *)

Definition rec_ok (record : Rec) : Prop :=
  is_int64 (Lease record) /\ versionstamp_ok (CreateRevision record) /\
  versionstamp_ok (PrevRevision record) /\ ValueSize record = zlength (Value record) /\
  zlength (Value record) <= maxRecordSize /\ length (WriteUUID record) = 16%nat.

(** What a record looks like read from each subspace: by revision without
    the write's UUID, by key without the value. *)
Definition byRevision_view (record : Rec) : Rec :=
  mkRec (Key record) (IsDelete record) (IsCreate record) (Lease record)
        (CreateRevision record) (PrevRevision record) (ValueSize record)
        zeroUUID (Value record) false.
Definition byKey_view (record : Rec) : Rec :=
  mkRec (Key record) (IsDelete record) (IsCreate record) (Lease record)
        (CreateRevision record) (PrevRevision record) (ValueSize record)
        (WriteUUID record) [] false.

Section Records.
Context `{FB : FdbBindings, KV : KVStore, CF : Config}.

Lemma Unpack_Pack s t : tuple_ok t -> Unpack s (Pack s t) = Some t.
Proof. intros. rewrite Pack_spec, Unpack_spec. by apply tuple_unpack_pack. Qed.

Lemma int64_valueSize record : rec_ok record -> is_int64 (ValueSize record).
Proof.
  intros (_ & _ & _ & -> & H & _). pose proof (zlength_nonneg (Value record)).
  unfold is_int64, int64_min, int64_max, maxRecordSize in *. lia.
Qed.

Lemma byRevision_tuple_ok record : rec_ok record -> tuple_ok (ByRevision_recordToTuple record).
Proof.
  intros H. pose proof (int64_valueSize _ H). destruct H as (? & ? & ? & ? & ? & ?).
  solve_tuple_ok.
Qed.

Lemma byKey_tuple_ok record : rec_ok record -> tuple_ok (ByKey_recordToTuple record).
Proof.
  intros H. pose proof (int64_valueSize _ H). destruct H as (? & ? & ? & ? & ? & ?).
  solve_tuple_ok.
Qed.

Lemma ByRevision_ParseKV_main s r record :
  versionstamp_ok r -> rec_ok record ->
  ByRevision_ParseKV s (byRevision_main s r record) =
  Ok (r, with_Value (byRevision_view record) []).
Proof.
  intros Hr Hrec. unfold ByRevision_ParseKV, byRevision_main. cbn [fst snd].
  rewrite Unpack_Pack by solve_tuple_ok. simpl.
  rewrite tuple_unpack_pack by (by apply byRevision_tuple_ok). done.
Qed.

Lemma ByRevision_GetFromIterator_entries s r record it :
  versionstamp_ok r -> rec_ok record ->
  ByRevision_GetFromIterator s (byRevision_entries s r record ++ it) =
  Ok (Some (r, byRevision_view record), it).
Proof.
  intros Hr Hrec. unfold ByRevision_GetFromIterator, byRevision_entries.
  cbn [app Advance negb IterGet rbind].
  rewrite ByRevision_ParseKV_main by done. cbn [rbind].
  destruct Hrec as (_ & _ & _ & Hsz & Hmax & _).
  change (ValueSize (with_Value (byRevision_view record) [])) with (ValueSize record).
  rewrite Hsz. unfold make_bytes.
  pose proof (zlength_nonneg (Value record)).
  destruct (Z.ltb_spec (zlength (Value record)) 0); [lia|]. cbn [rbind].
  unfold zlength. rewrite Nat2Z.id.
  pose proof (getBlob_chunks (fun o => Pack s [TVersionstamp r; TInt o]) (Value record) it) as Hb.
  unfold chunk_entry. by rewrite Hb.
Qed.

Definition byKey_entry (s : bytes) (r : Versionstamp) (record : Rec) : bytes * bytes :=
  (Pack s [TString (Key record); TVersionstamp r], tuple_pack (ByKey_recordToTuple record)).

Lemma ByKey_parseKV_entry s r record :
  versionstamp_ok r -> rec_ok record ->
  ByKey_parseKV s (byKey_entry s r record) =
  Ok (mkByKeyAndRevisionRecord (mkKeyAndRevision (Key record) r) (byKey_view record)).
Proof.
  intros Hr Hrec. unfold ByKey_parseKV, byKey_entry. cbn [fst snd].
  rewrite Unpack_Pack by solve_tuple_ok. simpl.
  rewrite tuple_unpack_pack by (by apply byKey_tuple_ok). done.
Qed.

Lemma ByKey_GetFromIterator_entry s r record it :
  versionstamp_ok r -> rec_ok record ->
  ByKey_GetFromIterator s (byKey_entry s r record :: it) =
  Ok (Some (mkByKeyAndRevisionRecord (mkKeyAndRevision (Key record) r) (byKey_view record)), it).
Proof.
  intros Hr Hrec. unfold ByKey_GetFromIterator. cbn [Advance negb IterGet rbind].
  by rewrite ByKey_parseKV_entry.
Qed.

Definition byKey_mutation (s : bytes) (v : Versionstamp) (key : bytes) (record : Rec) : mutation :=
  write_mutation s [TString key; TVersionstamp v] (tuple_pack (ByKey_recordToTuple record)).

Lemma ByKey_Write_mutates s tr v key record :
  pending_rev v ->
  ByKey_Write s tr (mkKeyAndRevision key v) record = Ok (tr_mutate tr (byKey_mutation s v key record)).
Proof.
  intros Hv. unfold ByKey_Write. cbn [GetWriteOps kr_Key kr_Rev].
  destruct (packKey_pending s [TString key] v [] Hv eq_refl eq_refl) as (wk & Hk & Hset & _).
  cbn [app] in Hk, Hset. rewrite Hk. cbn [rbind]. by rewrite Hset.
Qed.

Lemma byKey_mutation_apply s v record stamp st :
  pending_rev v -> length stamp = 10%nat ->
  apply_mutation (Some stamp) st (byKey_mutation s v (Key record) record) =
  sset st (byKey_entry s (resolve_rev stamp v) record).1 (byKey_entry s (resolve_rev stamp v) record).2.
Proof.
  intros Hv Hl.
  destruct (packKey_pending s [TString (Key record)] v [] Hv eq_refl eq_refl) as (_ & _ & _ & Hap).
  by apply Hap.
Qed.
End Records.

(** * The current-value subspace *)

Definition chunk_map (value : bytes) : gmap Z bytes := list_to_map (chunks value).

Lemma chunk_map_Some v o c : chunk_map v !! o = Some c <-> (o, c) ∈ chunks v.
Proof. symmetry. apply elem_of_list_to_map. apply NoDup_chunks. Qed.

Lemma chunk_map_is_Some v o :
  is_Some (chunk_map v !! o) <-> exists i, 0 <= i < numChunks (zlength v) /\ o = i * chunkSize.
Proof.
  split.
  - intros [c (i & Hi & -> & _)%chunk_map_Some%elem_of_chunks]. eauto.
  - intros (i & Hi & ->). eexists. apply chunk_map_Some, elem_of_chunks. eauto.
Qed.

Lemma chunk_map_nil : chunk_map [] = ∅.
Proof. reflexivity. Qed.

Section Current.
Context `{FB : FdbBindings, KV : KVStore}.

Lemma Strinc_key s t : t <> [] -> exists q, Strinc (Pack s t) = Some q.
Proof.
  intros Ht. destruct (Strinc (Pack s t)) as [q|] eqn:E; [eauto|].
  apply Strinc_None in E. rewrite Pack_spec in E. apply Forall_app in E as [_ E].
  destruct t as [|e t]; [done|]. exfalso.
  destruct (tuple_pack (e :: t)) as [|b r] eqn:Ep; [by apply tuple_pack_nonempty in Ep|].
  apply Forall_cons in E as [-> _]. by apply (tuple_pack_no_ff (e :: t) r).
Qed.

Lemma pack_int_le s key a b :
  is_int64 a -> is_int64 b ->
  Pack s [TString key; TInt a] <=b Pack s [TString key; TInt b] <-> a <= b.
Proof.
  intros Ha Hb. rewrite !Pack_spec, ble_app_l.
  assert (Hlt : forall x y, is_int64 x -> is_int64 y -> x < y ->
    tuple_pack [TString key; TInt x] <b tuple_pack [TString key; TInt y]).
  { intros x y Hx Hy Hxy. apply string_key_same.
    pose proof (bdiverge_lt _ _ [] [] (tuple_pack_int_order x y Hx Hy Hxy)) as H.
    by rewrite !app_nil_r in H. }
  split.
  - intros H. destruct (Z.le_gt_cases a b) as [|Hgt]; [done|]. exfalso.
    apply ble_not_lt in H. by apply H, Hlt.
  - intros H. apply ble_lteq. destruct (Z.eq_dec a b) as [->|]; [auto|].
    left. apply Hlt; [done..|lia].
Qed.

Lemma pack_key_int_inj s k1 k2 a b :
  is_int64 a -> is_int64 b ->
  Pack s [TString k1; TInt a] = Pack s [TString k2; TInt b] -> k1 = k2 /\ a = b.
Proof.
  intros Ha Hb H. rewrite !Pack_spec in H. apply (inj (app s)), tuple_pack_inj in H.
  - naive_solver.
  - solve_tuple_ok.
  - solve_tuple_ok.
Qed.

Lemma pack_key_prefix s key t : Pack s [TString key] `prefix_of` Pack s (TString key :: t).
Proof. rewrite !Pack_spec. apply prefix_app. rewrite (tuple_pack_cons _ t). by apply prefix_app_r. Qed.

(** The packed key is a prefix of the chunks of that key, and of keys that
    continue it with a NUL byte. *)
Lemma pack_key_prefix_iff s key k2 t :
  Pack s [TString key] `prefix_of` Pack s (TString k2 :: t) <->
  k2 = key \/ (key ++ [Byte.x00]) `prefix_of` k2.
Proof.
  rewrite !Pack_spec, !tuple_pack_string_cons, tuple_pack_nil.
  rewrite <-(escape_zero_prefix key k2 (tuple_pack t)) by apply tuple_pack_no_ff.
  split.
  - intros H. by apply prefix_app_inv, prefix_cons_inv_2 in H.
  - intros H. by apply prefix_app, prefix_cons.
Qed.

(** [st] holds exactly the chunks of [value] under [key]. *)
Definition holds (s : bytes) (st : store) (key value : bytes) : Prop :=
  forall o, is_int64 o -> sget st (Pack s [TString key; TInt o]) = chunk_map value !! o.

Definition current_entry (s key : bytes) (oc : Z * bytes) : bytes * bytes :=
  (Pack s [TString key; TInt oc.1], oc.2).

Definition clear_mutations (s key value : bytes) (prevSize : Z) : list mutation :=
  match Strinc (Pack s [TString key]) with
  | Some q =>
      if prevSize <? 0 then [MClearRange (Pack s [TString key]) q]
      else if numChunks (zlength value) <? numChunks prevSize
      then [MClearRange (Pack s [TString key; TInt (numChunks (zlength value) * chunkSize)]) q]
      else []
  | None => []
  end.

Definition replace_mutations (s key value : bytes) (prevSize : Z) : list mutation :=
  clear_mutations s key value prevSize ++
  ((fun oc => MSet (current_entry s key oc).1 (current_entry s key oc).2) <$> chunks value).

Lemma ByKeyCurrent_Clear_mutates s tr key :
  ByKeyCurrent_Clear s tr key = Ok (tr_mutates tr (clear_mutations s key [] (-1))).
Proof.
  unfold ByKeyCurrent_Clear, PrefixRange, clear_mutations.
  by destruct (Strinc_key s [TString key]) as [q ->].
Qed.

Lemma ByKeyCurrent_Replace_mutates s tr key value prevSize :
  ByKeyCurrent_Replace s tr key value prevSize =
  Ok (tr_mutates tr (replace_mutations s key value prevSize)).
Proof.
  unfold ByKeyCurrent_Replace, ByKeyCurrent_Clear, PrefixRange, replace_mutations, clear_mutations.
  destruct (Strinc_key s [TString key]) as [q ->]; [done|].
  rewrite <-(tr_mutates_app tr).
  transitivity (let? tr2 := Ok (tr_mutates tr
     (if prevSize <? 0 then [MClearRange (Pack s [TString key]) q]
      else if numChunks (zlength value) <? numChunks prevSize
      then [MClearRange (Pack s [TString key; TInt (numChunks (zlength value) * chunkSize)]) q]
      else [])) in
    for_loop 0 (zlength value) chunkSize (fun offset tr =>
      Ok (tr_Set tr (Pack s [TString key; TInt offset]) (chunk_at value offset))) tr2).
  { destruct (prevSize <? 0); [done|]. destruct (_ <? _); [done|].
    cbn [rbind]. by rewrite tr_mutates_nil. }
  cbn [rbind]. rewrite for_loop_fold by apply chunkSize_pos.
  rewrite (fold_res_mutates _ (fun o => MSet (Pack s [TString key; TInt o]) (chunk_at value o))) by done.
  unfold chunks. by rewrite <-list_fmap_compose.
Qed.

(** ** Effects on the store *)

Lemma sget_replace s key value prevSize stamp st k :
  zlength value <= maxRecordSize ->
  sget (apply_log (Some stamp) st (replace_mutations s key value prevSize)) k =
  ((list_to_map (current_entry s key <$> chunks value) : gmap bytes bytes) !! k) ∪
  sget (apply_log (Some stamp) st (clear_mutations s key value prevSize)) k.
Proof.
  intros Hmax. unfold replace_mutations. rewrite apply_log_app.
  rewrite (apply_log_sets _ _ _ (current_entry s key)) by done.
  apply sget_set_all. rewrite <-list_fmap_compose.
  apply NoDup_fmap_2_strong; [|exact (NoDup_fmap_1 _ _ (NoDup_chunks value))].
  intros [o1 c1] [o2 c2] H1 H2 E. cbn in E.
  destruct (chunks_offset_int64 _ _ _ Hmax H1), (chunks_offset_int64 _ _ _ Hmax H2).
  apply pack_key_int_inj in E as [_ ->]; [|done..].
  apply chunk_map_Some in H1, H2. congruence.
Qed.

Lemma entries_lookup s key value key2 o :
  zlength value <= maxRecordSize -> is_int64 o ->
  (list_to_map (current_entry s key <$> chunks value) : gmap bytes bytes)
    !! Pack s [TString key2; TInt o] =
  if decide (key = key2) then chunk_map value !! o else None.
Proof.
  intros Hmax Ho. unfold chunk_map.
  assert (Hall : Forall (fun oc => is_int64 oc.1) (chunks value)).
  { apply Forall_forall. intros [o2 c2] Hin. by eapply chunks_offset_int64. }
  induction Hall as [|[o2 c2] l Ho2 Hall IH].
  - by case_decide.
  - rewrite fmap_cons. change (current_entry s key (o2, c2)) with (Pack s [TString key; TInt o2], c2).
    rewrite !list_to_map_cons, !lookup_insert, IH. cbn [fst] in Ho2.
    destruct (decide (Pack s [TString key; TInt o2] = Pack s [TString key2; TInt o])) as [E|E].
    + apply pack_key_int_inj in E as [-> ->]; [|done..]. by rewrite !decide_True.
    + destruct (decide (key = key2)) as [->|]; [|done].
      rewrite decide_False; [done|congruence].
Qed.

(** Clearing touches only keys that extend the packed key. *)
Lemma sget_clear_outside s key value prevSize stamp st k :
  ~ Pack s [TString key] `prefix_of` k ->
  sget (apply_log (Some stamp) st (clear_mutations s key value prevSize)) k = sget st k.
Proof.
  intros Hk. unfold clear_mutations.
  destruct (Strinc (Pack s [TString key])) as [q|] eqn:Hq; [|done].
  assert (Hout : forall b, Pack s [TString key] <=b b -> ~ (b <=b k /\ k <b q)).
  { intros b Hb [H1 H2]. apply Hk, (Strinc_Some _ _ Hq). eauto using ble_trans. }
  destruct (prevSize <? 0); [|destruct (_ <? _); [|done]];
    unfold apply_log; simpl; rewrite sget_clear_range, decide_False; try done; apply Hout.
  - apply ble_refl.
  - apply ble_prefix, pack_key_prefix.
Qed.

Lemma sget_clear_Some s key value prevSize stamp st k v :
  sget (apply_log (Some stamp) st (clear_mutations s key value prevSize)) k = Some v ->
  sget st k = Some v.
Proof.
  unfold clear_mutations. destruct (Strinc (Pack s [TString key])); [|done].
  destruct (prevSize <? 0); [|destruct (_ <? _); [|done]];
    unfold apply_log; simpl; rewrite sget_clear_range; by case_decide.
Qed.

(** The chunks of one key after a clear: those below the new chunk count
    stay, the others are gone. *)
Lemma sget_clear_key s key value prevSize stamp st o :
  zlength value <= maxRecordSize -> is_int64 o ->
  is_int64 (numChunks (zlength value) * chunkSize) ->
  sget (apply_log (Some stamp) st (clear_mutations s key value prevSize))
       (Pack s [TString key; TInt o]) =
  if decide (prevSize < 0 \/ numChunks (zlength value) < numChunks prevSize /\
             numChunks (zlength value) * chunkSize <= o)
  then None else sget st (Pack s [TString key; TInt o]).
Proof.
  intros Hmax Ho Hn. unfold clear_mutations.
  destruct (Strinc_key s [TString key]) as [q Hq]; [done|]. rewrite Hq.
  destruct (proj2 (Strinc_Some _ _ Hq _) (pack_key_prefix s key [TInt o])) as [H1 H2].
  destruct (Z.ltb_spec prevSize 0); [|destruct (Z.ltb_spec (numChunks (zlength value)) (numChunks prevSize))].
  - unfold apply_log; simpl. rewrite sget_clear_range, !decide_True by auto. done.
  - unfold apply_log; simpl. rewrite sget_clear_range. destruct (decide (numChunks (zlength value) * chunkSize <= o)).
    + rewrite !decide_True; [done|auto|]. split; [by apply pack_int_le|done].
    + rewrite !decide_False; [done|lia|]. rewrite pack_int_le by done. intros [? _]; lia.
  - by rewrite decide_False by lia.
Qed.

Lemma numChunks_offset (v : bytes) :
  zlength v <= maxRecordSize -> is_int64 (numChunks (zlength v) * chunkSize).
Proof.
  intros H. pose proof (zlength_nonneg v).
  rewrite <-loop_count_chunks_numChunks by done. unfold loop_count.
  pose proof (Z.mul_div_le (zlength v + chunkSize - 1) chunkSize ltac:(unfold chunkSize; lia)).
  pose proof (Z.div_pos (zlength v + chunkSize - 1) chunkSize).
  unfold is_int64, int64_min, int64_max, chunkSize, maxRecordSize in *. lia.
Qed.

(** Replacing a value: afterwards exactly the new chunks are there, whether
    the old value was stored (all its chunks) or not (none of them). *)
Lemma replace_holds s key value prevSize stamp st :
  zlength value <= maxRecordSize -> 0 <= prevSize ->
  (forall o, is_int64 o -> is_Some (sget st (Pack s [TString key; TInt o])) ->
     exists i, 0 <= i < numChunks prevSize /\ o = i * chunkSize) ->
  holds s (apply_log (Some stamp) st (replace_mutations s key value prevSize)) key value.
Proof.
  intros Hmax Hprev Hold o Ho. pose proof chunkSize_pos.
  rewrite sget_replace, entries_lookup, decide_True by done.
  destruct (chunk_map value !! o) as [c|] eqn:Ec; [by destruct (sget _ _)|].
  rewrite (left_id_L None (∪)). rewrite sget_clear_key by auto using numChunks_offset.
  case_decide as Hd; [done|]. destruct (sget st _) as [x|] eqn:Ex; [exfalso|done].
  destruct (Hold o Ho) as (i & Hi & ->); [by eexists|].
  assert (is_Some (chunk_map value !! (i * chunkSize))) as [? ?]; [|congruence].
  apply chunk_map_is_Some. exists i. split; [|done]. nia.
Qed.

(** A key that does not continue [key] with a NUL byte is not touched. *)
Lemma replace_other s key value prevSize stamp st key2 o :
  zlength value <= maxRecordSize -> is_int64 o -> key2 <> key ->
  ~ (key ++ [Byte.x00]) `prefix_of` key2 ->
  sget (apply_log (Some stamp) st (replace_mutations s key value prevSize))
       (Pack s [TString key2; TInt o]) = sget st (Pack s [TString key2; TInt o]).
Proof.
  intros Hmax Ho Hne Hnul.
  rewrite sget_replace, entries_lookup, decide_False, (left_id_L None (∪)) by done.
  apply sget_clear_outside. rewrite pack_key_prefix_iff. naive_solver.
Qed.

(** A key that does loses its chunks whenever something is cleared. *)
Lemma replace_nul_key s key value prevSize stamp st key2 o :
  zlength value <= maxRecordSize -> is_int64 o -> (key ++ [Byte.x00]) `prefix_of` key2 ->
  sget (apply_log (Some stamp) st (replace_mutations s key value prevSize))
       (Pack s [TString key2; TInt o]) =
  match clear_mutations s key value prevSize with
  | [] => sget st (Pack s [TString key2; TInt o])
  | _ => None
  end.
Proof.
  intros Hmax Ho Hnul.
  assert (Hlt : key <b key2).
  { destruct Hnul as [r ->]. rewrite <-(app_nil_r key) at 1. rewrite <-app_assoc. by apply blt_app_l. }
  rewrite sget_replace, entries_lookup, decide_False, (left_id_L None (∪));
    [|by intros ->; apply blt_irrefl in Hlt|done..].
  unfold clear_mutations. destruct (Strinc_key s [TString key]) as [q Hq]; [done|]. rewrite Hq.
  assert (Hin : Pack s [TString key] <=b Pack s [TString key2; TInt o] /\
                Pack s [TString key2; TInt o] <b q).
  { apply (Strinc_Some _ _ Hq), pack_key_prefix_iff. auto. }
  assert (Hb : forall t, Pack s (TString key :: t) <=b Pack s [TString key2; TInt o]).
  { intros t. rewrite !Pack_spec. by apply ble_app_l, blt_le, string_key_lt. }
  destruct (prevSize <? 0); [|destruct (_ <? _); [|done]];
    unfold apply_log; simpl; rewrite sget_clear_range, decide_True; auto; naive_solver.
Qed.

(** Deleting a key is replacing its value by nothing, with a clear. *)
Lemma replace_nil s key prevSize :
  replace_mutations s key [] prevSize = clear_mutations s key [] prevSize.
Proof. unfold replace_mutations. by rewrite chunks_nil, app_nil_r. Qed.

Lemma clear_holds s key stamp st :
  holds s (apply_log (Some stamp) st (replace_mutations s key [] (-1))) key [].
Proof.
  intros o Ho. assert (zlength (@nil byte) <= maxRecordSize) by (vm_compute; congruence).
  rewrite replace_nil, sget_clear_key by auto using numChunks_offset.
  by rewrite decide_True by (left; lia).
Qed.

(** Whatever happens to a key, the others keep all their chunks or lose
    all of them. *)
Lemma replace_others s key value prevSize stamp st key2 v :
  zlength value <= maxRecordSize -> key2 <> key -> holds s st key2 v ->
  let st' := apply_log (Some stamp) st (replace_mutations s key value prevSize) in
  holds s st' key2 v \/ holds s st' key2 [].
Proof.
  intros Hmax Hne Hv st'. destruct (decide ((key ++ [Byte.x00]) `prefix_of` key2)) as [Hnul|Hnul].
  - destruct (clear_mutations s key value prevSize) eqn:Ec.
    + left. intros o Ho. unfold st'. rewrite replace_nul_key, Ec by done. by apply Hv.
    + right. intros o Ho. unfold st'. by rewrite replace_nul_key, Ec by done.
  - left. intros o Ho. unfold st'. rewrite replace_other by done. by apply Hv.
Qed.

Lemma replace_only s key value prevSize stamp :
  log_only stamp (fun k => s `prefix_of` k) (replace_mutations s key value prevSize).
Proof.
  intros st k Hk. unfold replace_mutations. rewrite apply_log_app.
  rewrite (apply_log_sets _ _ _ (current_entry s key)) by done.
  rewrite sget_set_all_outside.
  - apply sget_clear_outside. intros H. apply Hk. etrans; [|exact H].
    rewrite Pack_spec. by apply prefix_app_r.
  - intros (kv & -> & (oc & -> & _)%list_elem_of_fmap)%list_elem_of_fmap. apply Hk. cbn.
    rewrite Pack_spec. by apply prefix_app_r.
Qed.

Lemma replace_keys s key value prevSize stamp st k :
  zlength value <= maxRecordSize ->
  is_Some (sget (apply_log (Some stamp) st (replace_mutations s key value prevSize)) k) ->
  is_Some (sget st k) \/ exists o, is_int64 o /\ k = Pack s [TString key; TInt o].
Proof.
  intros Hmax [v Hv]. rewrite sget_replace in Hv by done. apply union_Some in Hv as [Hv|[_ Hv]].
  - apply elem_of_list_to_map_2, list_elem_of_fmap in Hv as ([o c] & E & Hin).
    injection E as -> ->. right. exists o. split; [|done]. by eapply chunks_offset_int64.
  - left. eexists. by eapply sget_clear_Some.
Qed.
End Current.
