(* ===== verification/Transact.v ===== *)
(** pkg/drivers/fdb/fdb_util.go: transactions with retries, and range scans
    split over several transactions.

    What the code cannot know in advance is an input: every attempt of a
    transaction says what other clients committed before it, what the client
    library answered to the commit, and how long the attempt had. *)
From stdpp Require Import base strings list gmap.
From Stdlib Require Import Strings.Byte ZArith Lia.
From S2P Require Import Prelude FdbApi Util Subspaces.

Definition notCommittedErrorCode : Z := 1020.
Definition commitUnknownResultCode : Z := 1021.

(** The answer to a commit.  After [commit_unknown_result] the transaction
    may or may not have been applied. *)
Inductive CommitOutcome : Type :=
| Committed
| NotCommitted (code : Z)
| CommitUnknown (applied : bool).

Section Transact.
Context `{KV : KVStore}.

(** One pass of the retry loop.  [at_fault] is an error of the client
    library before the body changes anything outside its transaction. *)
Record Attempt (E : Type) := mkAttempt {
  at_others : store -> store;
  at_env : E;
  at_fault : option Z;
  at_read_version : Z;
  at_commit : CommitOutcome;
  at_version : Z;
  at_batch : Z;
  at_force_retry : bool;
  at_on_error : option error
}.
Arguments mkAttempt {E}.
Arguments at_others {E}.
Arguments at_env {E}.
Arguments at_fault {E}.
Arguments at_read_version {E}.
Arguments at_commit {E}.
Arguments at_version {E}.
Arguments at_batch {E}.
Arguments at_force_retry {E}.
Arguments at_on_error {E}.

Record TransactEnv (E : Type) := mkTransactEnv {
  te_create : option error;
  te_attempts : list (Attempt E)
}.
Arguments mkTransactEnv {E}.
Arguments te_create {E}.
Arguments te_attempts {E}.

Section Retry.
Context {E C T : Type}.

(** The transaction's body: it reads and extends the transaction, and
    may change variables [C] it shares with its caller. *)
Variable f : E -> Transaction -> C -> res (T * Transaction) * C.

(** [wrapped] of [transact]: the body and its commit.  The result carries
    the versionstamp that the transaction's futures resolve to. *)
Definition wrapped (a : Attempt E) (s : store) (c : C)
    : res (T * bytes) * store * C :=
  match at_fault a with
  | Some code => (Err (FDBError code), s, c)
  | None =>
      let '(r, c) := f (at_env a) (begin_tr s (at_read_version a)) c in
      match r with
      | Ok (ret, tr) =>
          let applied := tr_commit tr (at_version a) (at_batch a) in
          let stamp := commit_stamp tr (at_version a) (at_batch a) in
          match at_commit a with
          | Committed => (Ok (ret, stamp), applied, c)
          | NotCommitted code => (Err (FDBError code), s, c)
          | CommitUnknown true => (Err (FDBError commitUnknownResultCode), applied, c)
          | CommitUnknown false => (Err (FDBError commitUnknownResultCode), s, c)
          end
      | Err e => (Err e, s, c)
      | Panic => (Panic, s, c)
      end
  end.

(** What [retryable] does with the result of a pass: return it, or go on. *)
Definition retry_decision (a : Attempt E) (r : res (T * bytes)) : option (res (T * bytes)) :=
  let r :=
    match r with
    | Panic => Panic
    | _ => if at_force_retry a then Err (FDBError commitUnknownResultCode) else r
    end in
  match r with
  | Ok x => Some (Ok x)
  | Err (FDBError code) =>
      match at_on_error a with Some e => Some (Err e) | None => None end
  | Err e => Some (Err e)
  | Panic => Some Panic
  end.

(** The retry loop, over the attempts there are; no result while it is
    still retrying after the last of them. *)
Fixpoint retryable (attempts : list (Attempt E)) (s : store) (c : C)
    : option (res (T * bytes)) * store * C :=
  match attempts with
  | [] => (None, s, c)
  | a :: rest =>
      let '(r, s, c) := wrapped a (at_others a s) c in
      match retry_decision a r with
      | Some r => (Some r, s, c)
      | None => retryable rest s c
      end
  end.

Definition transact (te : TransactEnv E) (s : store) (c : C)
    : option (res (T * bytes)) * store * C :=
  match te_create te with
  | Some _ => (Some (Err (ErrMessage "failed to create a transaction")), s, c)
  | None => retryable (te_attempts te) s c
  end.

(** The attempts that the loop and a transaction run. *)
Fixpoint attempts_run (attempts : list (Attempt E)) (s : store) (c : C) : list (Attempt E) :=
  match attempts with
  | [] => []
  | a :: rest =>
      let '(r, s, c) := wrapped a (at_others a s) c in
      a :: match retry_decision a r with Some _ => [] | None => attempts_run rest s c end
  end.

Definition transact_run (te : TransactEnv E) (s : store) (c : C) : list (Attempt E) :=
  match te_create te with Some _ => [] | None => attempts_run (te_attempts te) s c end.

(** Reasoning by an invariant of the passes. *)
Lemma retryable_inv (I : store -> C -> Prop)
    (Q : res (T * bytes) -> store -> C -> Prop) (P : Attempt E -> Prop) attempts s c :
  (forall a s c, P a -> I s c ->
     match wrapped a (at_others a s) c with
     | (r, s', c') =>
         match retry_decision a r with Some r' => Q r' s' c' | None => I s' c' end
     end) ->
  Forall P attempts -> I s c ->
  match retryable attempts s c with
  | (Some r, s', c') => Q r s' c'
  | (None, s', c') => I s' c'
  end.
Proof.
  intros Hstep HP. revert s c. induction HP as [|a rest Ha _ IH]; intros s c HI; [done|].
  cbn [retryable]. specialize (Hstep a s c Ha HI).
  destruct (wrapped a (at_others a s) c) as [[r s'] c'].
  destruct (retry_decision a r); [done|]. by apply IH.
Qed.

(** The loop only goes on while the client library says the error can be
    retried. *)
Lemma retryable_running attempts s c s' c' :
  retryable attempts s c = (None, s', c') ->
  Forall (fun a => at_on_error a = None) attempts.
Proof.
  revert s c; induction attempts as [|a rest IH]; intros s c H; [constructor|].
  cbn [retryable] in H. destruct (wrapped a (at_others a s) c) as [[r s2] c2].
  destruct (retry_decision a r) eqn:Hd; [done|]. constructor; [|by eapply IH].
  unfold retry_decision in Hd. destruct (at_force_retry a), r as [|[]|], (at_on_error a); simplify_eq; done.
Qed.

(** A transaction whose body succeeds, or fails with an error to retry, does
    commit.  [I] holds between attempts, over those still to come, also after
    a commit whose outcome is not known; [J] of an attempt's own store. *)
Section Commits.
Context (I : list (Attempt E) -> store -> C -> Prop)
        (J : Attempt E -> list (Attempt E) -> store -> C -> Prop)
        (Q : list (Attempt E) -> T -> store -> C -> Prop) (may_fail : Attempt E -> Prop).

Definition commits_to (b : Attempt E) (rest : list (Attempt E)) (s : store)
    (result : res (T * Transaction) * C) : Prop :=
  match result with
  | (Ok (ret, tr), c) =>
      let s2 := tr_commit tr (at_version b) (at_batch b) in I rest s c /\ I rest s2 c /\ Q rest ret s2 c
  | (Err (FDBError _), c) => may_fail b /\ I rest s c
  | _ => False
  end.

Context (HIJ : forall b rest s c, I (b :: rest) s c -> J b rest (at_others b s) c)
        (HJI : forall b rest s c, J b rest s c -> I rest s c)
        (Hbody : forall b rest s c, J b rest s c ->
           commits_to b rest s (f (at_env b) (begin_tr s (at_read_version b)) c)).

Lemma retryable_commits pre a s c :
  Forall (fun b => at_on_error b = None) pre ->
  at_fault a = None -> at_commit a = Committed -> at_force_retry a = false -> ~ may_fail a ->
  I (pre ++ [a]) s c ->
  exists rest ret stamp s2 c2,
    retryable (pre ++ [a]) s c = (Some (Ok (ret, stamp)), s2, c2) /\ Q rest ret s2 c2 /\
    attempts_run (pre ++ [a]) s c ++ rest = pre ++ [a].
Proof.
  intros Hre Hfault Hcom Hforce Hno. revert s c.
  induction pre as [|b pre IH]; intros s c HI; cbn [app retryable attempts_run] in *; unfold wrapped.
  - rewrite Hfault. pose proof (Hbody a [] _ c (HIJ _ _ _ _ HI)) as Hb.
    destruct (f (at_env a) _ c) as [[[ret tr]|[]|] c2]; cbn in Hb; try done; [|tauto].
    rewrite Hcom. unfold retry_decision. rewrite Hforce. eexists [], _, _, _, _. split; [done|]. split; [apply Hb|done].
  - apply Forall_cons in Hre as [Hb Hre].
    assert (Hretry : forall code, retry_decision b (Err (FDBError code)) = None).
    { intros code. unfold retry_decision. rewrite Hb. by destruct (at_force_retry b). }
    assert (Hnext : forall s1 c1, I (pre ++ [a]) s1 c1 -> exists rest ret stamp s2 c2,
      retryable (pre ++ [a]) s1 c1 = (Some (Ok (ret, stamp)), s2, c2) /\ Q rest ret s2 c2 /\
      (b :: attempts_run (pre ++ [a]) s1 c1) ++ rest = b :: pre ++ [a]).
    { intros s1 c1 HI1. destruct (IH Hre s1 c1 HI1) as (rest & ret & stamp & s2 & c2 & Hr & HQ & Hrun).
      exists rest, ret, stamp, s2, c2. cbn. by rewrite Hrun. }
    pose proof (HIJ _ _ _ _ HI) as HJ. destruct (at_fault b) as [code|].
    { rewrite Hretry. apply Hnext. by eapply HJI. }
    pose proof (Hbody b (pre ++ [a]) _ c HJ) as Hb2.
    destruct (f (at_env b) _ c) as [[[ret tr]|[]|] c2]; cbn in Hb2; try done.
    + destruct Hb2 as (H1 & H2 & H3).
      destruct (at_commit b) as [|code|[]]; rewrite ?Hretry; try (by apply Hnext).
      unfold retry_decision. destruct (at_force_retry b); [rewrite Hb; by apply Hnext|].
      eexists (pre ++ [a]), _, _, _, _. by split_and!.
    + rewrite Hretry. apply Hnext, Hb2.
Qed.
End Commits.
End Retry.

(** * Range scans *)

(** [Processor[T]]: a collector with state [C]. *)
Class Processor (R C : Type) := {
  startBatch : C -> C;
  next : Transaction -> R -> C -> res (option bytes * bool * Transaction * R) * C;
  endBatch : Transaction -> bool -> C -> res Transaction * C;
  postBatch : C -> C
}.

Record batchResult := mkBatchResult {
  lastReadKey : option bytes;
  collectorNeedsMore : bool
}.

(** How one pass over a batch goes: after [b_budget] more calls of [next]
    the time is over; [b_fault] is a call whose read fails. *)
Record BatchEnv := mkBatchEnv {
  b_budget : nat;
  b_fault : option (nat * Z)
}.

Section Batch.
Context {C : Type} `{!Processor RangeIterator C}.

Fixpoint batch_loop (budget : nat) (fault : option (nat * Z))
    (tr : Transaction) (it : RangeIterator) (c : C)
    : res (batchResult * Transaction) * C :=
  match fault with
  | Some (O, code) => (Err (FDBError code), c)
  | _ =>
      match next tr it c with
      | (Ok (lastKey, more, tr, it), c) =>
          let res := mkBatchResult lastKey (more && bool_decide (lastKey <> None)) in
          match budget with
          | O => (Ok (res, tr), c)
          | S budget =>
              if collectorNeedsMore res
              then batch_loop budget (prod_map pred id <$> fault) tr it c
              else (Ok (res, tr), c)
          end
      | (Err e, c) => (Err e, c)
      | (Panic, c) => (Panic, c)
      end
  end.

Definition batch_body (selector : SelectorRange) (env : BatchEnv) (tr : Transaction) (c : C)
    : res (batchResult * Transaction) * C :=
  let it := tr_GetRange tr selector in
  let c := startBatch c in
  match batch_loop (b_budget env) (b_fault env) tr it c with
  | (Ok (res, tr), c) =>
      match endBatch tr (negb (collectorNeedsMore res)) c with
      | (Ok tr, c) => (Ok (res, tr), c)
      | (Err e, c) => (Err e, c)
      | (Panic, c) => (Panic, c)
      end
  | r => r
  end.

(** [processBatch]; [postBatch] runs whatever the transaction returned. *)
Definition processBatch (te : TransactEnv BatchEnv) (selector : SelectorRange)
    (s : store) (c : C) : option (res batchResult) * store * C :=
  match transact (batch_body selector) te s c with
  | (Some (Ok (res, _)), s, c) => (Some (Ok res), s, postBatch c)
  | (Some (Err e), s, c) => (Some (Err e), s, postBatch c)
  | (Some Panic, s, c) => (Some Panic, s, c)
  | (None, s, c) => (None, s, c)
  end.

(** [processRange]: the batches there are, each with its environment. *)
Fixpoint processRange (envs : list (TransactEnv BatchEnv)) (beginSelector endSelector : KeySelector)
    (s : store) (c : C) : option (res unit) * store * C :=
  match envs with
  | [] => (None, s, c)
  | te :: rest =>
      match processBatch te (mkSelectorRange beginSelector endSelector) s c with
      | (Some (Ok res), s, c) =>
          if collectorNeedsMore res
          then match lastReadKey res with
               | Some k => processRange rest (FirstGreaterThan k) endSelector s c
               | None => (Some Panic, s, c)
               end
          else (Some (Ok tt), s, c)
      | (Some (Err e), s, c) => (Some (Err e), s, c)
      | (Some Panic, s, c) => (Some Panic, s, c)
      | (None, s, c) => (None, s, c)
      end
  end.

(** The attempts that a scan runs. *)
Fixpoint processRange_run (envs : list (TransactEnv BatchEnv)) (beginSelector endSelector : KeySelector)
    (s : store) (c : C) : list (Attempt BatchEnv) :=
  match envs with
  | [] => []
  | te :: rest =>
      let selector := mkSelectorRange beginSelector endSelector in
      transact_run (batch_body selector) te s c ++
      match processBatch te selector s c with
      | (Some (Ok res), s, c) =>
          if collectorNeedsMore res
          then match lastReadKey res with
               | Some k => processRange_run rest (FirstGreaterThan k) endSelector s c
               | None => []
               end
          else []
      | _ => []
      end
  end.

(** ** What a collector promises to the scan *)

(** A batch that is run again starts from the same state: whatever [next] and
    [endBatch] did, [startBatch] undoes. *)
Class BatchLaws (R D : Type) `{!Processor R D} : Prop := {
  start_start c : startBatch (startBatch c) = startBatch c;
  start_next tr r c : startBatch (next tr r c).2 = startBatch c;
  start_end tr b c : startBatch (endBatch tr b c).2 = startBatch c
}.

(** The collector does not write. *)
Class ReadOnly (R D : Type) `{!Processor R D} : Prop := {
  ro_next tr r c k more tr2 r2 c2 : next tr r c = (Ok (k, more, tr2, r2), c2) -> tr2 = tr;
  ro_end tr b c tr2 c2 : endBatch tr b c = (Ok tr2, c2) -> tr2 = tr
}.

Section Laws.
Context `{!BatchLaws RangeIterator C}.

Lemma batch_loop_start budget fault tr it c :
  startBatch (batch_loop budget fault tr it c).2 = startBatch c.
Proof.
  revert fault tr it c; induction budget as [|budget IH]; intros fault tr it c; cbn [batch_loop];
    (destruct fault as [[[|n] code]|]; [done|..]);
    pose proof (start_next tr it c) as Hn;
    (destruct (next tr it c) as [[[[[k more] tr2] it2]|e|] c2]; cbn [snd] in Hn; try done);
    (destruct (collectorNeedsMore _); [by rewrite IH|done]).
Qed.

Lemma batch_body_start sel env tr c : startBatch (batch_body sel env tr c).2 = startBatch c.
Proof.
  unfold batch_body.
  pose proof (batch_loop_start (b_budget env) (b_fault env) tr (tr_GetRange tr sel) (startBatch c)) as H.
  rewrite start_start in H.
  destruct (batch_loop _ _ _ _ _) as [[[res tr2]|e|] c2]; cbn [snd] in *; [|done..].
  pose proof (start_end tr2 (negb (collectorNeedsMore res)) c2) as He.
  destruct (endBatch _ _ _) as [[]]; cbn [snd] in *; congruence.
Qed.

Lemma batch_body_congr sel env tr c c2 :
  startBatch c = startBatch c2 -> batch_body sel env tr c = batch_body sel env tr c2.
Proof. intros H. unfold batch_body. by rewrite H. Qed.

(** A failing read ends the attempt, or never happens. *)
Lemma batch_loop_fault budget fault tr it c :
  (exists code, (batch_loop budget fault tr it c).1 = Err (FDBError code)) \/
  batch_loop budget fault tr it c = batch_loop budget None tr it c.
Proof.
  revert fault tr it c; induction budget as [|budget IH]; intros fault tr it c; cbn [batch_loop];
    (destruct fault as [[[|n] code]|]; [by left; eexists| |by right]);
    (destruct (next tr it c) as [[[[[k more] tr2] it2]|e|] c2]; [|by right..]); [by right|].
  destruct (collectorNeedsMore _); [apply IH|by right].
Qed.

Definition no_fault (env : BatchEnv) : BatchEnv := mkBatchEnv (b_budget env) None.

Lemma batch_body_fault sel env tr c :
  (exists code, (batch_body sel env tr c).1 = Err (FDBError code)) \/
  batch_body sel env tr c = batch_body sel (no_fault env) tr c.
Proof.
  unfold batch_body. cbn [no_fault b_budget b_fault].
  destruct (batch_loop_fault (b_budget env) (b_fault env) tr (tr_GetRange tr sel) (startBatch c))
    as [[code H]|H].
  - left. exists code. destruct (batch_loop _ (b_fault env) _ _ _) as [r c2]. cbn in H. by subst.
  - right. by rewrite H.
Qed.

Section ReadBatch.
Context `{!ReadOnly RangeIterator C}.

Lemma batch_loop_ro budget fault tr it c res tr2 c2 :
  batch_loop budget fault tr it c = (Ok (res, tr2), c2) -> tr2 = tr.
Proof.
  revert fault tr it c; induction budget as [|budget IH]; intros fault tr it c; cbn [batch_loop];
    (destruct fault as [[[|n] code]|]; [done|..]);
    (destruct (next tr it c) as [[[[[k more] tr3] it2]|e|] c3] eqn:En; [|done..]);
    apply ro_next in En as ->; try (by intros [= _ <- _]);
    (destruct (collectorNeedsMore _); [apply IH|by intros [= _ <- _]]).
Qed.

Lemma batch_body_ro sel env tr c res tr2 c2 :
  batch_body sel env tr c = (Ok (res, tr2), c2) -> tr2 = tr.
Proof.
  unfold batch_body. destruct (batch_loop _ _ _ _ _) as [[[res3 tr3]|e|] c3] eqn:El; [|done..].
  apply batch_loop_ro in El as ->.
  destruct (endBatch _ _ _) as [[tr4|e|] c4] eqn:Ee; [|done..].
  apply ro_end in Ee as ->. by intros [= _ <- _].
Qed.

(** The attempts of a batch: failures that are retried, then one that
    succeeds. *)
Definition batch_ok (te : TransactEnv BatchEnv) : Prop :=
  te_create te = None /\
  exists pre a, te_attempts te = pre ++ [a] /\ Forall (fun b => at_on_error b = None) pre /\
    at_fault a = None /\ b_fault (at_env a) = None /\ at_commit a = Committed /\
    at_force_retry a = false.

(** A result that is not an error of the client library. *)
Definition settled {T} (r : res T) : Prop :=
  match r with Ok _ => True | Err (FDBError _) => False | Err _ => True | Panic => False end.

Definition res_map {T U} (g : T -> U) (r : res T) : res U :=
  match r with Ok x => Ok (g x) | Err e => Err e | Panic => Panic end.

(** The result of a batch is that of one of its attempts, run on the store as
    it was then.  [I] holds between attempts, over those still to come; [Q]
    of an attempt's own store. *)
Section Attempts.
Context (I : list (Attempt BatchEnv) -> store -> Prop)
        (Q : Attempt BatchEnv -> list (Attempt BatchEnv) -> store -> Prop).
Context (sel : SelectorRange) (c : C).
Context (HIQ : forall b rest s, I (b :: rest) s -> Q b rest (at_others b s))
        (HQI : forall b rest s, Q b rest s -> I rest s)
        (Hset : forall b rest s, Q b rest s ->
           settled (batch_body sel (no_fault (at_env b)) (begin_tr s (at_read_version b)) c).1).

(** The loop returns the result of some attempt's body. *)
Definition returns_attempt (result : option (res (batchResult * bytes)) * store * C) : Prop :=
  exists b rest s2, Q b rest s2 /\
    let '(r, c2) := batch_body sel (no_fault (at_env b)) (begin_tr s2 (at_read_version b)) c in
    exists stamp, result = (Some (res_map (fun x => (x.1, stamp)) r), s2, c2) /\ settled r.

(** An attempt ends the loop with its body's result, or leaves the collector
    as it was for the next one. *)
Lemma attempt_step b rest s c1 :
  startBatch c1 = startBatch c -> Q b rest s ->
  match wrapped (batch_body sel) b s c1 with
  | (r, s2, c2) =>
      (s2 = s /\ startBatch c2 = startBatch c /\ (exists code, r = Err (FDBError code)) /\
       (at_fault b = None -> b_fault (at_env b) = None -> at_commit b <> Committed)) \/
      (s2 = s /\ startBatch c2 = startBatch c /\ returns_attempt (Some r, s2, c2))
  end.
Proof.
  intros Hc1 HQ. unfold wrapped. destruct (at_fault b) as [code|]; [left; split_and!; eauto; done|].
  pose proof (batch_body_start sel (at_env b) (begin_tr s (at_read_version b)) c1) as Hst.
  destruct (batch_body_fault sel (at_env b) (begin_tr s (at_read_version b)) c1)
    as [[code Hfault]|Hsame].
  { assert (Hne : b_fault (at_env b) <> None).
    { intros Hn. specialize (Hset b rest s HQ).
      rewrite <-(batch_body_congr sel _ _ c1 c Hc1) in Hset.
      assert (E : no_fault (at_env b) = at_env b) by (unfold no_fault; rewrite <-Hn; by destruct (at_env b)).
      rewrite E, Hfault in Hset. done. }
    destruct (batch_body sel (at_env b) _ c1) as [r c2]. cbn [fst snd] in Hfault, Hst. subst r.
    left. split_and!; [done|congruence|eauto|done]. }
  pose proof (Hset b rest s HQ) as Hs.
  rewrite <-(batch_body_congr sel _ _ c1 c Hc1), <-Hsame in Hs.
  assert (Hret : forall stamp, returns_attempt
    (Some (res_map (fun x => (x.1, stamp)) (batch_body sel (at_env b) (begin_tr s (at_read_version b)) c1).1),
     s, (batch_body sel (at_env b) (begin_tr s (at_read_version b)) c1).2)).
  { intros stamp. exists b, rest, s. split; [done|].
    rewrite <-(batch_body_congr sel _ _ c1 c Hc1), <-Hsame.
    destruct (batch_body sel (at_env b) (begin_tr s (at_read_version b)) c1). exists stamp. by split. }
  destruct (batch_body sel (at_env b) (begin_tr s (at_read_version b)) c1)
    as [[[res tr]|e|] c2] eqn:Eb; cbn [fst snd settled] in Hs, Hst, Hret; [| |done].
  - pose proof (batch_body_ro _ _ _ _ _ _ _ Eb) as ->.
    destruct (at_commit b) as [|code|[]];
      [right; split_and!; [done|congruence|apply Hret]|left..]; split_and!; eauto; congruence.
  - right. split_and!; [done|congruence|apply (Hret [])].
Qed.

Lemma retryable_attempt pre a s c1 :
  Forall (fun b => at_on_error b = None) pre ->
  at_fault a = None -> b_fault (at_env a) = None -> at_commit a = Committed -> at_force_retry a = false ->
  startBatch c1 = startBatch c -> I (pre ++ [a]) s ->
  returns_attempt (retryable (batch_body sel) (pre ++ [a]) s c1).
Proof.
  intros Hre Hf Hbf Hcom Hforce. revert s c1.
  assert (Hkeep : forall b : Attempt BatchEnv, at_force_retry b = false -> forall r s2 c2,
    returns_attempt (Some r, s2, c2) -> retry_decision b r = Some r).
  { intros b Eb r s2 c2 (b0 & rest0 & s3 & _ & Hr).
    destruct (batch_body _ _ _ _) as [r0 c0]. destruct Hr as (stamp & [= -> _ _] & Hs).
    unfold retry_decision. destruct r0 as [|e|]; [by rewrite Eb| |done]. rewrite Eb. by destruct e. }
  induction pre as [|b pre IH]; intros s c1 Hc1 HI; cbn [app retryable] in *.
  - pose proof (attempt_step a [] _ c1 Hc1 (HIQ _ _ _ HI)) as H.
    destruct (wrapped _ a _ c1) as [[r s2] c2]. destruct H as [(_ & _ & _ & H)|(-> & Hc2 & H)]; [by destruct H|].
    by rewrite (Hkeep a Hforce r _ _ H).
  - apply Forall_cons in Hre as [Hreb Hre].
    pose proof (HIQ _ _ _ HI) as HQ. pose proof (attempt_step b _ _ c1 Hc1 HQ) as H.
    destruct (wrapped _ b _ c1) as [[r s2] c2].
    destruct H as [(-> & Hc2 & [code ->] & _)|(-> & Hc2 & H)].
    + unfold retry_decision. rewrite Hreb. destruct (at_force_retry b); apply IH; eauto.
    + destruct (at_force_retry b) eqn:Eb.
      * assert (Hd : retry_decision b r = None).
        { unfold retry_decision. rewrite Eb, Hreb. destruct r; [done..|].
          destruct H as (b0 & rest0 & s3 & _ & Hr). destruct (batch_body _ _ _ _) as [r0 c0].
          destruct Hr as (stamp & [= E _ _] & Hs). by destruct r0. }
        rewrite Hd. apply IH; eauto.
      * by rewrite (Hkeep b Eb r _ _ H).
Qed.

Lemma processBatch_attempt te s :
  batch_ok te -> I (te_attempts te) s ->
  exists b rest s2, Q b rest s2 /\
    let '(r, c2) := batch_body sel (no_fault (at_env b)) (begin_tr s2 (at_read_version b)) c in
    processBatch te sel s c = (Some (res_map fst r), s2, postBatch c2).
Proof.
  intros (Hcreate & pre & a & Hatt & Hre & Hf & Hbf & Hcom & Hforce) HI.
  unfold processBatch, transact. rewrite Hcreate. rewrite Hatt in HI |- *.
  destruct (retryable_attempt pre a s c Hre Hf Hbf Hcom Hforce eq_refl HI) as (b & rest & s2 & HQ & Hr).
  exists b, rest, s2. split; [done|]. destruct (batch_body _ _ _ _) as [r c2].
  destruct Hr as (stamp & -> & Hs). by destruct r as [[]|[]|].
Qed.
End Attempts.
End ReadBatch.
End Laws.
End Batch.
End Transact.

Arguments mkAttempt {KV E}.
Arguments at_others {KV E}.
Arguments at_env {KV E}.
Arguments at_fault {KV E}.
Arguments at_read_version {KV E}.
Arguments at_commit {KV E}.
Arguments at_version {KV E}.
Arguments at_batch {KV E}.
Arguments at_force_retry {KV E}.
Arguments at_on_error {KV E}.
Arguments mkTransactEnv {KV E}.
Arguments te_create {KV E}.
Arguments te_attempts {KV E}.

(** [setFirstInBatch] *)
Definition setFirstInBatch `{KVStore} (tr : Transaction) : Transaction :=
  mkTransaction (tr_snapshot tr) (tr_read_version tr) (tr_log tr) true.
