(* ===== verification/History.v ===== *)
(** The abstract history and how the store represents it.

    The driver's data is a list of records in the order of their revisions.
    [Repr] relates a store to it: every record is in the by-revision and the
    by-key subspaces, and the current-value subspace holds, for each key, the
    value of its live record or nothing (values written before that subspace
    existed). *)
From stdpp Require Import base strings list gmap sorting.
From Stdlib Require Import Strings.Byte ZArith Lia.
From S2P Require Import Prelude FdbApi KeyOrder Util Subspaces SubspaceFacts Transact.

(** * The abstract history *)

Abbreviation entry := (Z * Rec)%type.
Abbreviation history := (list (Z * Rec)).

Definition rev_lt (a b : entry) : Prop := a.1 < b.1.
#[global] Instance rev_lt_strict : StrictOrder rev_lt.
Proof. split; [intros x; unfold complement, rev_lt; lia|intros x y z; unfold rev_lt; lia]. Qed.

Definition of_key (key : bytes) (e : entry) : Prop := Key e.2 = key.
#[global] Instance of_key_dec key e : Decision (of_key key e).
Proof. unfold of_key. apply _. Defined.

(** The last record of a key, and the last one at a revision. *)
Definition latest (h : history) (key : bytes) : option entry := last (filter (of_key key) h).
Definition upto (R : Z) (h : history) : history := filter (fun e => e.1 <= R) h.

(** The record of a live key. *)
Definition live (o : option entry) : option entry :=
  match o with Some e => if IsDelete e.2 then None else Some e | None => None end.

Definition to_bk (e : entry) : ByKeyAndRevisionRecord :=
  mkByKeyAndRevisionRecord (mkKeyAndRevision (Key e.2) (int64ToVersionstamp e.1)) (byKey_view e.2).

Lemma latest_app h e key :
  latest (h ++ [e]) key = if decide (Key e.2 = key) then Some e else latest h key.
Proof.
  unfold latest. rewrite filter_app, filter_cons, filter_nil. unfold of_key at 2.
  case_decide; [by rewrite last_snoc|by rewrite app_nil_r].
Qed.

Lemma latest_Some h key e : latest h key = Some e -> e ∈ h /\ Key e.2 = key.
Proof.
  intros H. apply last_Some_elem_of, list_elem_of_filter in H. destruct H. by split.
Qed.

(** Revisions identify records. *)
Lemma ssorted_rev_inj (h : history) a b :
  StronglySorted rev_lt h -> a ∈ h -> b ∈ h -> a.1 = b.1 -> a = b.
Proof.
  induction 1 as [|x h Hs IH Hx]; [by intros ?%not_elem_of_nil|].
  rewrite Forall_forall in Hx. unfold rev_lt in Hx.
  intros [->|Ha]%elem_of_cons [->|Hb]%elem_of_cons E; auto.
  - specialize (Hx b Hb). lia.
  - specialize (Hx a Ha). lia.
Qed.

(** * Regions of the key space *)

#[global] Instance pair_lt_strict : StrictOrder (fun x y : bytes * bytes => x.1 <b y.1).
Proof. split; [intros x; apply blt_irrefl|intros x y z; apply blt_trans]. Qed.

Section Regions.
Context `{FB : FdbBindings}.

(** The packed name of a directory entry. *)
Definition pname (n : bytes) : bytes := Byte.x02 :: escape n ++ [Byte.x00].

Definition apart (n m : bytes) : bool :=
  negb (bool_decide (pname n `prefix_of` pname m)) && negb (bool_decide (pname m `prefix_of` pname n)).

Lemma regions_apart dir n m k :
  apart n m = true ->
  Sub dir [TString n] `prefix_of` k -> Sub dir [TString m] `prefix_of` k -> False.
Proof.
  unfold apart. rewrite andb_true_iff, !negb_true_iff, !bool_decide_eq_false.
  rewrite !Sub_spec, !tuple_pack_string. fold (pname n) (pname m). intros [H1 H2] Hn Hm.
  destruct (prefix_weak_total _ _ _ Hn Hm) as [H|H]; apply prefix_app_inv in H; auto.
Qed.

Lemma Pack_region s t : s `prefix_of` Pack s t.
Proof. rewrite Pack_spec. by apply prefix_app_r. Qed.

(** Versionstamps have one length, so a packed one is a prefix only of
    itself. *)
Lemma pack_stamp_prefix s v v2 t :
  versionstamp_ok v -> versionstamp_ok v2 ->
  Pack s [TVersionstamp v] `prefix_of` Pack s (TVersionstamp v2 :: t) <-> v = v2.
Proof.
  intros Hv Hv2. rewrite !Pack_spec, (tuple_pack_cons _ t). split.
  - intros H. apply prefix_app_inv in H.
    rewrite !tuple_pack_versionstamp in H by done.
    destruct H as [r H]. rewrite <-!app_comm_cons in H. injection H as H.
    destruct Hv as [Hl Hu], Hv2 as [Hl2 Hu2]. rewrite <-!app_assoc in H.
    apply app_inj_1 in H as [E1 H]; [|congruence].
    apply app_inj_1 in H as [E2 _]; [|by rewrite !length_be].
    apply (f_equal unbe) in E2. rewrite !unbe_be, !Z.mod_small in E2 by assumption.
    destruct v, v2. simpl in *. congruence.
  - intros ->. apply prefix_app. by apply prefix_app_r.
Qed.

Lemma pack_stamp_inj s v v2 :
  versionstamp_ok v -> versionstamp_ok v2 ->
  Pack s [TVersionstamp v] = Pack s [TVersionstamp v2] -> v = v2.
Proof. intros Hv Hv2 H. apply (pack_stamp_prefix s v v2 []); [done..|]. by rewrite H. Qed.
End Regions.

(** A key in two regions. *)
Ltac region_clash :=
  exfalso;
  match goal with
  | H1 : _ `prefix_of` ?k, H2 : _ `prefix_of` ?k |- _ =>
      refine (regions_apart _ _ _ k _ H1 H2); reflexivity
  end.

(** * Events of records *)

(** A link to another revision, or the placeholder for none. *)
Definition link_ok (v : Versionstamp) : Prop :=
  v = dummyVersionstamp \/ exists x, 0 < x <= int64_max /\ v = int64ToVersionstamp x.

(** The revision of a link: 0 for none. *)
Definition link_rev (v : Versionstamp) : Z :=
  match VersionstampToInt64 v with Ok z => z | _ => 0 end.

(** The revision that created the key of a record. *)
Definition create_rev (e : entry) : Z :=
  if IsCreate e.2 then e.1 else link_rev (CreateRevision e.2).

Definition event_of `{Config} (e : entry) : Event :=
  mkEvent (IsDelete e.2) (IsCreate e.2)
    (mkKeyValue (Key e.2) (create_rev e) e.1
       (if APITest && IsDelete e.2 then [] else Value e.2) (Lease e.2))
    (if decide (PrevRevision e.2 <> dummyVersionstamp)
     then Some (mkKeyValue [] 0 (link_rev (PrevRevision e.2)) [] 0) else None).

Lemma link_rev_Ok v : link_ok v -> VersionstampToInt64 v = Ok (link_rev v).
Proof.
  intros [->|(x & Hx & ->)]; [done|]. unfold link_rev.
  by rewrite VersionstampToInt64_int64ToVersionstamp by (unfold is_int64, int64_min; lia).
Qed.

Lemma link_rev_stamp x : is_int64 x -> link_rev (int64ToVersionstamp x) = x.
Proof. intros Hx. unfold link_rev. by rewrite VersionstampToInt64_int64ToVersionstamp. Qed.

Lemma revRecordToEvent_spec `{Config} (e : entry) :
  is_int64 e.1 -> link_ok (CreateRevision e.2) -> link_ok (PrevRevision e.2) ->
  revRecordToEvent (mkRevRecord (int64ToVersionstamp e.1) e.2) = Ok (event_of e).
Proof.
  intros Hr Hc Hp. unfold revRecordToEvent, RevRecord_GetCreateRevision, event_of, create_rev.
  cbn [rr_Record rr_Rev]. rewrite (link_rev_Ok _ Hp).
  rewrite (VersionstampToInt64_int64ToVersionstamp _ Hr).
  destruct (IsCreate e.2); [rewrite (VersionstampToInt64_int64ToVersionstamp _ Hr)
                           |rewrite (link_rev_Ok _ Hc)];
    cbn [rbind]; by case_decide.
Qed.

(** * The representation *)

Section Repr.
Context `{FB : FdbBindings, KV : KVStore, CF : Config}.
Context (dir : bytes).
Abbreviation f := (openSubspaces dir).

Definition entry_ok (e : entry) : Prop :=
  0 < e.1 <= int64_max /\ rec_ok e.2 /\ LatestForKey e.2 = false /\
  (IsDelete e.2 && IsCreate e.2 = false) /\
  link_ok (CreateRevision e.2) /\ link_ok (PrevRevision e.2).

(** The sequential revision counter. *)
Definition counter (st : store) (n : Z) : Prop :=
  1 <= n <= int64_max /\
  (sget st (rev f) = None /\ n = 1 \/ sget st (rev f) = Some (tuple_pack [TInt n])).

(** With sequential ids the records are numbered from 2. *)
Definition numbered (h : history) : Prop := h.*1 = seqZ 2 (Z.of_nat (length h)).

Lemma numbered_snoc h r record :
  numbered (h ++ [(r, record)]) <-> numbered h /\ r = 2 + Z.of_nat (length h).
Proof.
  unfold numbered. rewrite fmap_app, length_app. cbn [length fmap list_fmap fst].
  rewrite Nat2Z.inj_add, seqZ_app by lia. cbn [Z.of_nat]. change (seqZ ?n (Z.pos 1)) with [0 + n]. split.
  - intros [Hh [= Hr]]%app_inj_2; [|done]. split; [done|lia].
  - intros [-> ->]. done.
Qed.

Lemma numbered_prefix h l : numbered (h ++ l) -> numbered h.
Proof.
  induction l as [|[r record] l IH] using rev_ind; [by rewrite app_nil_r|].
  rewrite app_assoc. by intros [? _]%numbered_snoc; auto.
Qed.

(** The compaction revision. *)
Definition compacted (st : store) (c : Z) : Prop :=
  0 <= c <= int64_max /\
  (sget st (compactRev f) = None /\ c = 0 \/
   sget st (compactRev f) = Some (tuple_pack [TVersionstamp (int64ToVersionstamp c)])).

(** What the current-value subspace holds for a key. *)
Definition current_ok (st : store) (h : history) (key : bytes) : Prop :=
  holds (byKeyCurrent f) st key [] \/
  exists e, live (latest h key) = Some e /\ holds (byKeyCurrent f) st key (Value e.2).

Record Repr (st : store) (h : history) (c : Z) : Prop := mkRepr {
  R_sorted : StronglySorted rev_lt h;
  R_ok : Forall entry_ok h;
  R_byRev k v : byRevision f `prefix_of` k ->
    (sget st k = Some v <-> exists e, e ∈ h /\
       (k, v) ∈ byRevision_entries (byRevision f) (int64ToVersionstamp e.1) e.2);
  R_byKey k v : byKeyAndRevision f `prefix_of` k ->
    (sget st k = Some v <-> exists e, e ∈ h /\
       (k, v) = byKey_entry (byKeyAndRevision f) (int64ToVersionstamp e.1) e.2);
  R_current key : current_ok st h key;
  R_current_keys k : byKeyCurrent f `prefix_of` k -> is_Some (sget st k) ->
    exists key o, is_int64 o /\ k = Pack (byKeyCurrent f) [TString key; TInt o];
  R_compact : compacted st c;
  R_seq : UseSequentialId = true -> counter st (1 + Z.of_nat (length h)) /\ numbered h
}.

(** ** Entries in key order *)

Lemma entry_ok_stamp (e : entry) : entry_ok e -> 0 <= e.1 <= int64_max /\ is_int64 e.1.
Proof. intros [H _]. unfold is_int64, int64_min. lia. Qed.

Lemma pack_revision_key_lt s t (a b : entry) :
  entry_ok a -> entry_ok b -> a.1 < b.1 ->
  Pack s (t ++ [TVersionstamp (int64ToVersionstamp a.1)]) <b
  Pack s (t ++ [TVersionstamp (int64ToVersionstamp b.1)]).
Proof.
  intros Ha Hb Hlt. rewrite !Pack_spec, !tuple_pack_app. do 2 apply blt_app_l.
  apply entry_ok_stamp in Ha as [Ha _], Hb as [Hb _].
  pose proof (bdiverge_lt _ _ [] [] (pack_revision_lt a.1 b.1 ltac:(lia) Hlt ltac:(lia))) as H.
  by rewrite !app_nil_r in H.
Qed.

Lemma byKey_sorted_same s key h :
  Forall entry_ok h -> StronglySorted rev_lt h ->
  StronglySorted (fun x y => x.1 <b y.1)
    ((fun e => byKey_entry s (int64ToVersionstamp e.1) e.2) <$> filter (of_key key) h).
Proof.
  intros Hok. induction 1 as [|e h Hs IH He]; [constructor|].
  apply Forall_cons in Hok as [Hoke Hok]. rewrite filter_cons. case_decide as Hk; [|by apply IH].
  rewrite fmap_cons. constructor; [by apply IH|].
  rewrite Forall_forall. intros [k v] ([r2 rec2] & E & [Hk2 Hin]%list_elem_of_filter)%list_elem_of_fmap.
  rewrite E. unfold byKey_entry. unfold of_key in *. cbn [fst snd] in *. rewrite Hk, Hk2.
  rewrite Forall_forall in Hok, He.
  apply (pack_revision_key_lt s [TString key] e (r2, rec2)); auto.
  by apply (He (r2, rec2)).
Qed.

(** A by-key entry is in the subrange of its key. *)
Lemma byKey_in_sub s key v rec :
  (Sub s [TString key] ++ [Byte.x00] <=b (byKey_entry s v rec).1 /\
   (byKey_entry s v rec).1 <b Sub s [TString key] ++ [Byte.xff]) <-> Key rec = key.
Proof.
  rewrite in_sub_range. unfold byKey_entry. cbn [fst].
  rewrite Sub_spec, Pack_spec, tuple_pack_string_cons, tuple_pack_string. split.
  - intros (b & r & E & Hb). rewrite <-app_assoc in E. apply (inj (app s)) in E.
    rewrite <-app_comm_cons in E. injection E as E.
    assert (Hp : (escape key ++ [Byte.x00]) `prefix_of`
                 escape (Key rec) ++ Byte.x00 :: tuple_pack [TVersionstamp v])
      by (exists (b :: r); by rewrite <-E).
    apply escape_zero_prefix in Hp; [|apply tuple_pack_no_ff].
    destruct Hp as [?|[k2 Hk]]; [done|]. exfalso.
    (* the key continues with an escaped NUL: the next byte is 0xff *)
    rewrite Hk in E. clear -E Hb. rewrite <-!app_assoc in E.
    revert E. induction key as [|c key IH]; cbn [escape app].
    + unfold escape_byte. rewrite decide_True by done. simpl. congruence.
    + intros E. rewrite <-!app_assoc in E. by apply (inj (app _)) in E.
  - intros <-. destruct (tuple_pack_head (TVersionstamp v)) as (b & r & E & Hb).
    exists b, r. split; [|done]. rewrite E. rewrite <-!app_assoc. simpl. by rewrite <-!app_assoc.
Qed.

Lemma srange_key st h c key :
  Repr st h c ->
  srange st (Sub (byKeyAndRevision f) [TString key] ++ [Byte.x00])
            (Sub (byKeyAndRevision f) [TString key] ++ [Byte.xff]) =
  (fun e => byKey_entry (byKeyAndRevision f) (int64ToVersionstamp e.1) e.2) <$> filter (of_key key) h.
Proof.
  intros HR. destruct HR as [Hs Hok _ HbyKey _ _ _ _].
  apply (ssorted_ext (fun x y => x.1 <b y.1)).
  - apply srange_sorted.
  - by apply byKey_sorted_same.
  - intros [k v]. rewrite srange_spec, list_elem_of_fmap. split.
    + intros (Hget & Hr1 & Hr2).
      assert (Hpre : byKeyAndRevision f `prefix_of` k).
      { destruct (proj1 (in_sub_range _ _) (conj Hr1 Hr2)) as (b & r & -> & _).
        rewrite Sub_spec, <-app_assoc. by apply prefix_app_r. }
      apply (HbyKey _ _ Hpre) in Hget as (e & Hin & E). exists e. split; [done|].
      apply list_elem_of_filter. split; [|done].
      apply (byKey_in_sub (byKeyAndRevision f) key (int64ToVersionstamp e.1)). by rewrite <-E.
    + intros (e & E & [Hk Hin]%list_elem_of_filter). pose proof (f_equal fst E) as E1.
      cbn [fst] in E1. split.
      * apply HbyKey; [|eauto]. rewrite E1. apply Pack_region.
      * rewrite E1. by apply byKey_in_sub.
Qed.

(** ** Entries in revision order *)

Definition rev_entries (s : bytes) (e : entry) : list (bytes * bytes) :=
  byRevision_entries s (int64ToVersionstamp e.1) e.2.

Lemma rev_entries_key s e kv :
  kv ∈ rev_entries s e -> exists t, kv.1 = Pack s (TVersionstamp (int64ToVersionstamp e.1) :: t).
Proof.
  unfold rev_entries, byRevision_entries. rewrite elem_of_cons, list_elem_of_fmap.
  intros [->|(oc & -> & _)]; eexists; reflexivity.
Qed.

Lemma rev_entries_sorted s e :
  entry_ok e -> StronglySorted (fun x y => x.1 <b y.1) (rev_entries s e).
Proof.
  intros (_ & Hrec & _). unfold rev_entries, byRevision_entries. constructor.
  - apply (ssorted_fmap_on (fun x y => x.1 < y.1)); [|apply chunks_sorted].
    intros [o1 c1] [o2 c2] H1 H2 Hlt. unfold chunk_entry. cbn [fst snd] in *.
    destruct Hrec as (_ & _ & _ & _ & Hmax & _).
    destruct (chunks_offset_int64 _ _ _ Hmax H1), (chunks_offset_int64 _ _ _ Hmax H2).
    rewrite !Pack_spec, !(tuple_pack_cons _ [TInt _]). do 2 apply blt_app_l.
    pose proof (bdiverge_lt _ _ [] [] (tuple_pack_int_order o1 o2 ltac:(done) ltac:(done) Hlt)) as H'.
    by rewrite !app_nil_r in H'.
  - rewrite Forall_forall. intros kv (oc & -> & _)%list_elem_of_fmap. cbn.
    rewrite !Pack_spec, (tuple_pack_cons _ [TInt _]). apply blt_app_l.
    rewrite <-(app_nil_r (tuple_pack [_])) at 1. apply blt_app_l.
    destruct (tuple_pack [TInt oc.1]) eqn:E; [by apply tuple_pack_nonempty in E|done].
Qed.

Lemma rev_entries_lt s a b u v :
  entry_ok a -> entry_ok b -> rev_lt a b -> u ∈ rev_entries s a -> v ∈ rev_entries s b ->
  u.1 <b v.1.
Proof.
  intros Ha%entry_ok_stamp Hb%entry_ok_stamp Hlt [t ->]%rev_entries_key [t2 ->]%rev_entries_key.
  unfold rev_lt in Hlt.
  rewrite !Pack_spec, (tuple_pack_cons _ t), (tuple_pack_cons _ t2).
  apply blt_app_l, bdiverge_lt, pack_revision_lt; lia.
Qed.

Lemma all_rev_entries_sorted s h :
  Forall entry_ok h -> StronglySorted rev_lt h ->
  StronglySorted (fun x y => x.1 <b y.1) (h ≫= rev_entries s).
Proof.
  intros Hok Hs. rewrite Forall_forall in Hok. eapply ssorted_flat_map; [| |exact Hs].
  - auto using rev_entries_sorted.
  - intros x y u v Hx Hy. by apply rev_entries_lt; apply Hok.
Qed.

(** A range of the by-revision subspace. *)
Lemma srange_byRev st h c b e :
  Repr st h c ->
  (forall k, b <=b k -> k <b e -> byRevision f `prefix_of` k) ->
  srange st b e =
  filter (fun kv => b <=b kv.1 /\ kv.1 <b e) (h ≫= rev_entries (byRevision f)).
Proof.
  intros HR Hin. destruct HR as [Hs Hok HbyRev _ _ _ _ _].
  apply (ssorted_ext (fun x y => x.1 <b y.1)).
  - apply srange_sorted.
  - by apply ssorted_filter, all_rev_entries_sorted.
  - intros [k v]. rewrite srange_spec, list_elem_of_filter, list_elem_of_bind. cbn [fst]. split.
    + intros (Hget & H1 & H2). split; [done|].
      apply HbyRev in Hget as (e0 & ? & ?); [|by apply Hin]. eauto.
    + intros ([H1 H2] & e0 & ? & ?). split; [|done]. apply HbyRev; [by apply Hin|eauto].
Qed.

(** The entries of one revision. *)
Lemma srange_revision st h c e q :
  Repr st h c -> e ∈ h ->
  Strinc (Pack (byRevision f) [TVersionstamp (int64ToVersionstamp e.1)]) = Some q ->
  srange st (Pack (byRevision f) [TVersionstamp (int64ToVersionstamp e.1)]) q =
  rev_entries (byRevision f) e.
Proof.
  intros HR Hin Hq. pose proof HR as [Hs Hok HbyRev _ _ _ _ _].
  rewrite Forall_forall in Hok. pose proof (Hok e Hin) as Hoke.
  apply (ssorted_ext (fun x y => x.1 <b y.1)).
  - apply srange_sorted.
  - by apply rev_entries_sorted.
  - intros [k v]. rewrite srange_spec, (Strinc_Some _ _ Hq k). split.
    + intros [Hget Hpre]. apply HbyRev in Hget as (e2 & Hin2 & Hkv).
      2:{ etrans; [|exact Hpre]. apply Pack_region. }
      assert (e2 = e) as ->; [|done].
      destruct (rev_entries_key _ _ _ Hkv) as [t Et]. cbn [fst] in Et. subst k.
      apply pack_stamp_prefix in Hpre; [|apply int64ToVersionstamp_ok..].
      apply int64ToVersionstamp_inj in Hpre; [|apply entry_ok_stamp; auto..].
      destruct (decide (e2 = e)) as [->|Hne]; [done|exfalso].
      destruct (ssorted_rev_inj h e2 e Hs Hin2 Hin); auto.
    + intros Hkv. destruct (rev_entries_key _ _ _ Hkv) as [t Et]. cbn [fst] in Et. subst k.
      split; [|by apply pack_stamp_prefix; auto using int64ToVersionstamp_ok].
      apply HbyRev; [apply Pack_region|]. eauto.
Qed.

Lemma ByRevision_Get_Repr tr h c e :
  Repr (tr_view tr) h c -> e ∈ h ->
  ByRevision_Get (byRevision f) tr (int64ToVersionstamp e.1) = Ok (Some (byRevision_view e.2)).
Proof.
  intros HR Hin. unfold ByRevision_Get, ByRevision_GetIterator, PrefixRange.
  destruct (Strinc_key (byRevision f) [TVersionstamp (int64ToVersionstamp e.1)]) as [q Hq]; [done|].
  rewrite Hq. cbn [of_option rbind]. unfold tr_GetRange, prefix_selectors.
  cbn [Begin End selector_key fst snd]. rewrite (srange_revision _ _ _ _ _ HR Hin Hq).
  pose proof (R_ok _ _ _ HR) as Hok. rewrite Forall_forall in Hok.
  destruct (Hok e Hin) as (_ & Hrec & _).
  rewrite <-(app_nil_r (rev_entries _ _)). unfold rev_entries.
  by rewrite ByRevision_GetFromIterator_entries by auto using int64ToVersionstamp_ok.
Qed.

(** ** Appending a record *)

Definition current_log (record : Rec) (prevSize : Z) : list mutation :=
  if IsDelete record then replace_mutations (byKeyCurrent f) (Key record) [] (-1)
  else replace_mutations (byKeyCurrent f) (Key record) (Value record) prevSize.

(** The mutations of a write: the counter with sequential ids, the two
    indexes, the current value and the watch key. *)
Definition append_log (seq : list mutation) (v : Versionstamp) (record : Rec) (prevSize : Z)
    : list mutation :=
  seq ++ byRevision_mutations (byRevision f) v record ++
  [byKey_mutation (byKeyAndRevision f) v (Key record) record] ++
  current_log record prevSize ++ [MAdd (watch f) one].

(** The size a write passes for the key's previous value. *)
Definition prev_ok (h : history) (record : Rec) (prevSize : Z) : Prop :=
  IsDelete record = true \/
  match live (latest h (Key record)) with
  | Some e => prevSize = ValueSize e.2
  | None => 0 <= prevSize
  end.

Lemma keys_NoDup (l : list (bytes * bytes)) :
  StronglySorted (fun x y => x.1 <b y.1) l -> NoDup l.*1.
Proof.
  intros H. apply (ssorted_NoDup blt). by apply (ssorted_fmap_on (fun x y => x.1 <b y.1)).
Qed.

Section Append.
Context (st : store) (h : history) (c : Z) (HR : Repr st h c).
Context (seq : list mutation) (v : Versionstamp) (record : Rec) (prevSize r : Z) (stamp : bytes).
Context (Hstamp : length stamp = 10%nat) (Hpend : pending_rev v)
        (Hres : resolve_rev stamp v = int64ToVersionstamp r)
        (Hok : entry_ok (r, record)) (Hfresh : Forall (fun e => e.1 < r) h)
        (Hprev : prev_ok h record prevSize)
        (Hseq : if UseSequentialId
                then r = 2 + Z.of_nat (length h) /\ seq = [MSet (rev f) (tuple_pack [TInt r])]
                else seq = []).

Definition after_seq : store := apply_log (Some stamp) st seq.
Definition after_rev : store :=
  apply_log (Some stamp) after_seq (byRevision_mutations (byRevision f) v record).
Definition after_key : store :=
  apply_log (Some stamp) after_rev [byKey_mutation (byKeyAndRevision f) v (Key record) record].
Definition after_current : store := apply_log (Some stamp) after_key (current_log record prevSize).
Definition after_append : store := apply_log (Some stamp) after_current [MAdd (watch f) one].

Lemma apply_append_log :
  apply_log (Some stamp) st (append_log seq v record prevSize) = after_append.
Proof. unfold append_log. by rewrite !apply_log_app. Qed.

Lemma sget_after_seq k : ~ (UseSequentialId = true /\ k = rev f) -> sget after_seq k = sget st k.
Proof.
  intros Hk. unfold after_seq. destruct UseSequentialId eqn:E; [destruct Hseq as [_ ->]|by rewrite Hseq].
  unfold apply_log. simpl. rewrite sget_set, decide_False; naive_solver.
Qed.

Definition new_rev_pairs : list (bytes * bytes) :=
  (chunk_entry (byRevision f) (int64ToVersionstamp r) <$> chunks (Value record)) ++
  [byRevision_main (byRevision f) (int64ToVersionstamp r) record].

Lemma after_rev_eq : after_rev = set_all after_seq new_rev_pairs.
Proof. unfold after_rev. by rewrite byRevision_mutations_apply, Hres. Qed.

Lemma new_rev_pairs_perm : new_rev_pairs ≡ₚ rev_entries (byRevision f) (r, record).
Proof. unfold new_rev_pairs, rev_entries, byRevision_entries. by rewrite Permutation_app_comm. Qed.

Lemma new_rev_pairs_region k : k ∈ new_rev_pairs.*1 -> byRevision f `prefix_of` k.
Proof.
  rewrite new_rev_pairs_perm.
  intros (kv & -> & [t ->]%rev_entries_key)%list_elem_of_fmap. apply Pack_region.
Qed.

Lemma sget_after_rev k : ~ byRevision f `prefix_of` k -> sget after_rev k = sget after_seq k.
Proof.
  intros Hk. rewrite after_rev_eq. apply sget_set_all_outside.
  intros H. by apply Hk, new_rev_pairs_region.
Qed.

Definition new_key_pair : bytes * bytes :=
  byKey_entry (byKeyAndRevision f) (int64ToVersionstamp r) record.

Lemma after_key_eq : after_key = sset after_rev new_key_pair.1 new_key_pair.2.
Proof. unfold after_key, apply_log. simpl. by rewrite byKey_mutation_apply, Hres. Qed.

Lemma sget_after_key k : k <> new_key_pair.1 -> sget after_key k = sget after_rev k.
Proof. intros Hk. rewrite after_key_eq, sget_set, decide_False; [done|congruence]. Qed.

Lemma sget_after_current k : ~ byKeyCurrent f `prefix_of` k -> sget after_current k = sget after_key k.
Proof. intros Hk. unfold after_current, current_log. by destruct (IsDelete record); apply replace_only. Qed.

Lemma sget_after_append k : ~ watch f `prefix_of` k -> sget after_append k = sget after_current k.
Proof.
  intros Hk. unfold after_append, apply_log. simpl. apply sget_add_ne.
  intros <-. by apply Hk.
Qed.

Lemma key_pair_region : byKeyAndRevision f `prefix_of` new_key_pair.1.
Proof. apply Pack_region. Qed.

(** Keys of one region are not touched by the writes to the others. *)
Lemma region_rev k : byRevision f `prefix_of` k -> sget (after_append) k = sget after_rev k.
Proof.
  intros Hk. rewrite sget_after_append, sget_after_current, sget_after_key; [done|..].
  - intros ->. pose proof key_pair_region. region_clash.
  - intros H. region_clash.
  - intros H. region_clash.
Qed.

Lemma seq_region n k :
  apart (str "latestRev") n = true -> Sub dir [TString n] `prefix_of` k ->
  sget after_seq k = sget st k.
Proof.
  intros Hn Hk. apply sget_after_seq. intros [Es ->]. unfold openSubspaces in Hk. cbn in Hk.
  unfold CreateRevisionSubspace in Hk. rewrite Es in Hk.
  by eapply (regions_apart dir _ _ _ Hn).
Qed.

Lemma append_byRev k val : byRevision f `prefix_of` k ->
  (sget after_append k = Some val <-> exists e, e ∈ h ++ [(r, record)] /\
     (k, val) ∈ rev_entries (byRevision f) e).
Proof.
  intros Hk. rewrite region_rev, after_rev_eq by done.
  rewrite sget_set_all_iff.
  2:{ rewrite new_rev_pairs_perm. by apply keys_NoDup, rev_entries_sorted. }
  rewrite new_rev_pairs_perm, (seq_region (str "byRevision")) by done.
  rewrite (R_byRev _ _ _ HR) by done. setoid_rewrite elem_of_app.
  setoid_rewrite list_elem_of_singleton. split.
  - intros [H|[_ (e & ? & ?)]]; eauto.
  - intros (e & [Hin| ->] & Hkv); [|by left]. right. split; [|eauto].
    intros (kv2 & E & Hkv2)%list_elem_of_fmap.
    rewrite Forall_forall in Hfresh. pose proof (R_ok _ _ _ HR) as Hoks.
    rewrite Forall_forall in Hoks.
    pose proof (rev_entries_lt _ e (r, record) _ _ (Hoks e Hin) Hok (Hfresh e Hin) Hkv Hkv2) as Hlt.
    cbn [fst] in Hlt. rewrite E in Hlt. by apply blt_irrefl in Hlt.
Qed.

Lemma append_byKey k val : byKeyAndRevision f `prefix_of` k ->
  (sget after_append k = Some val <-> exists e, e ∈ h ++ [(r, record)] /\
     (k, val) = byKey_entry (byKeyAndRevision f) (int64ToVersionstamp e.1) e.2).
Proof.
  intros Hk. rewrite sget_after_append, sget_after_current by (intros H; region_clash).
  rewrite after_key_eq, sget_set. setoid_rewrite elem_of_app.
  setoid_rewrite list_elem_of_singleton.
  assert (Hold : sget after_rev k = sget st k).
  { rewrite sget_after_rev by (intros H; region_clash). by apply (seq_region (str "byKeyAndRevision")). }
  rewrite Hold. case_decide as E.
  - split.
    + intros [= <-]. exists (r, record). split; [by right|]. rewrite <-E. apply surjective_pairing.
    + intros (e & [Hin| ->] & Ekv).
      * exfalso. subst k. apply (f_equal fst) in Ekv. cbn [fst] in Ekv.
        unfold new_key_pair, byKey_entry in Ekv. cbn [fst] in Ekv.
        rewrite !Pack_spec in Ekv. apply (inj (app _)), tuple_pack_inj in Ekv.
        -- assert (E2 : int64ToVersionstamp r = int64ToVersionstamp e.1) by congruence.
           rewrite Forall_forall in Hfresh. specialize (Hfresh e Hin).
           pose proof (R_ok _ _ _ HR) as Hoks. rewrite Forall_forall in Hoks.
           apply int64ToVersionstamp_inj in E2; [lia|..].
           ++ by apply (entry_ok_stamp (r, record)).
           ++ by apply entry_ok_stamp, Hoks.
        -- solve_tuple_ok. apply int64ToVersionstamp_ok.
        -- solve_tuple_ok. apply int64ToVersionstamp_ok.
      * by injection Ekv as _ ->.
  - rewrite (R_byKey _ _ _ HR) by done. split.
    + intros (e & ? & ?). eauto.
    + intros (e & [Hin| ->] & Ekv); [eauto|]. by injection Ekv as -> _.
Qed.

Lemma region_current k :
  byKeyCurrent f `prefix_of` k ->
  sget after_append k = sget after_current k /\ sget after_key k = sget st k.
Proof.
  intros Hk. split; [apply sget_after_append; intros H; region_clash|].
  rewrite sget_after_key by (intros ->; pose proof key_pair_region; region_clash).
  rewrite sget_after_rev by (intros H; region_clash).
  by apply (seq_region (str "byKeyCurrent")).
Qed.

Lemma after_key_holds key value :
  holds (byKeyCurrent f) st key value -> holds (byKeyCurrent f) after_key key value.
Proof.
  intros Hh o Ho. rewrite <-(Hh o Ho). apply region_current, Pack_region.
Qed.

Lemma after_append_holds key value :
  holds (byKeyCurrent f) after_current key value -> holds (byKeyCurrent f) after_append key value.
Proof.
  intros Hh o Ho. rewrite <-(Hh o Ho). apply region_current, Pack_region.
Qed.

Lemma value_max : zlength (Value record) <= maxRecordSize.
Proof. destruct Hok as (_ & (_ & _ & _ & _ & ? & _) & _). done. Qed.

(** The chunks that a replaced key had. *)
Lemma old_chunks : IsDelete record = false ->
  0 <= prevSize /\ forall o, is_int64 o ->
    is_Some (sget after_key (Pack (byKeyCurrent f) [TString (Key record); TInt o])) ->
    exists i, 0 <= i < numChunks prevSize /\ o = i * chunkSize.
Proof.
  intros Hdel. destruct Hprev as [?|Hp]; [congruence|].
  assert (Hh : exists val, holds (byKeyCurrent f) st (Key record) val /\
                 (val = [] \/ zlength val = prevSize) /\ 0 <= prevSize).
  { destruct (live (latest h (Key record))) as [e|] eqn:El.
    - assert (Hin : e ∈ h).
      { destruct (latest h (Key record)) as [e2|] eqn:E2; [|done]. simpl in El.
        destruct (IsDelete e2.2); simplify_eq. by apply latest_Some in E2 as [? _]. }
      pose proof (R_ok _ _ _ HR) as Hoks. rewrite Forall_forall in Hoks.
      destruct (Hoks e Hin) as (_ & (_ & _ & _ & Hsz & _ & _) & _).
      pose proof (zlength_nonneg (Value e.2)).
      destruct (R_current _ _ _ HR (Key record)) as [Hh|(e2 & E2 & Hh)].
      + exists []. split; [done|]. split; [by left|lia].
      + rewrite El in E2. injection E2 as <-. exists (Value e.2). split; [done|].
        split; [right; congruence|lia].
    - destruct (R_current _ _ _ HR (Key record)) as [Hh|(e2 & E2 & Hh)]; [|congruence].
      exists []. auto. }
  destruct Hh as (val & Hh & Hval & H0). split; [done|]. intros o Ho.
  rewrite (after_key_holds _ _ Hh o Ho). destruct Hval as [-> | <-].
  - rewrite chunk_map_nil, lookup_empty. by intros [? ?].
  - apply chunk_map_is_Some.
Qed.

Lemma append_current key : current_ok after_append (h ++ [(r, record)]) key.
Proof.
  unfold current_ok. rewrite latest_app. cbn [snd]. case_decide as Ek.
  - subst key. unfold live. cbn [snd]. destruct (IsDelete record) eqn:Hdel.
    + left. apply after_append_holds. unfold after_current, current_log. rewrite Hdel.
      apply clear_holds.
    + right. eexists. split; [done|]. cbn [snd]. apply after_append_holds.
      unfold after_current, current_log. rewrite Hdel.
      destruct (old_chunks Hdel) as [H0 Hold].
      by apply replace_holds; [apply value_max|..].
  - assert (Hkeep : forall val, holds (byKeyCurrent f) st key val ->
      holds (byKeyCurrent f) after_append key val \/ holds (byKeyCurrent f) after_append key []).
    { intros val Hv%after_key_holds.
      assert (exists x p, current_log record prevSize =
                replace_mutations (byKeyCurrent f) (Key record) x p /\
                zlength x <= maxRecordSize) as (x & p & El & Hx).
      { unfold current_log. pose proof value_max.
        destruct (IsDelete record); [exists [], (-1)|eauto]. split; [done|].
        vm_compute. congruence. }
      unfold after_current in *.
      destruct (replace_others _ _ x p stamp _ key val Hx (not_eq_sym Ek) Hv) as [H|H];
        [left|right]; apply after_append_holds; unfold after_current; by rewrite El. }
    destruct (R_current _ _ _ HR key) as [Hh|(e & El & Hh)].
    + left. by destruct (Hkeep _ Hh).
    + destruct (Hkeep _ Hh); [right|left]; eauto.
Qed.

Lemma append_current_keys k : byKeyCurrent f `prefix_of` k -> is_Some (sget after_append k) ->
  exists key o, is_int64 o /\ k = Pack (byKeyCurrent f) [TString key; TInt o].
Proof.
  intros Hk Hsome. destruct (region_current k Hk) as [E1 E2]. rewrite E1 in Hsome.
  pose proof value_max.
  assert (H' : is_Some (sget after_key k) \/
               exists o, is_int64 o /\ k = Pack (byKeyCurrent f) [TString (Key record); TInt o]).
  { unfold after_current, current_log in Hsome.
    destruct (IsDelete record); eapply replace_keys in Hsome; eauto.
    vm_compute. congruence. }
  destruct H' as [H'|(o & ? & ?)]; [|eauto].
  rewrite E2 in H'. by apply (R_current_keys _ _ _ HR).
Qed.

(** A key outside the four regions a write touches. *)
Lemma sget_after_single n :
  apart n (str "byRevision") = true -> apart n (str "byKeyAndRevision") = true ->
  apart n (str "byKeyCurrent") = true -> apart n (str "watch") = true ->
  sget after_append (Sub dir [TString n]) = sget after_seq (Sub dir [TString n]).
Proof.
  intros H1 H2 H3 H4. assert (Hs : Sub dir [TString n] `prefix_of` Sub dir [TString n]) by done.
  rewrite sget_after_append by (intros H; by apply (regions_apart dir n _ _ H4 Hs)).
  rewrite sget_after_current by (intros H; by apply (regions_apart dir n _ _ H3 Hs)).
  rewrite sget_after_key.
  2:{ intros E. apply (regions_apart dir n _ _ H2 Hs). rewrite E. apply key_pair_region. }
  by rewrite sget_after_rev by (intros H; by apply (regions_apart dir n _ _ H1 Hs)).
Qed.

(** A write adds its record to the history. *)
Lemma Repr_append : Repr after_append (h ++ [(r, record)]) c.
Proof.
  split.
  - apply StronglySorted_app_2; [|apply HR|repeat constructor].
    rewrite Forall_forall in Hfresh. intros x y Hx ->%list_elem_of_singleton. by apply Hfresh.
  - apply Forall_app. split; [apply HR|by apply Forall_singleton].
  - exact append_byRev.
  - exact append_byKey.
  - exact append_current.
  - exact append_current_keys.
  - destruct (R_compact _ _ _ HR) as [Hc Hg]. split; [done|].
    change (compactRev f) with (Sub dir [TString (str "compactRevision")]) in *.
    rewrite sget_after_single by reflexivity.
    by rewrite (seq_region (str "compactRevision")) by done.
  - intros Es. rewrite Es in Hseq. destruct Hseq as [Hr Hlog].
    pose proof Hok as ([Hr1 Hr2] & _). cbn [fst] in Hr1, Hr2. rewrite length_app. cbn [length].
    replace (1 + Z.of_nat (length h + 1)) with r by lia. split.
    + split; [lia|]. right. unfold openSubspaces. cbn [rev]. unfold CreateRevisionSubspace.
      rewrite Es. rewrite sget_after_single by reflexivity. unfold after_seq.
      rewrite Hlog. unfold apply_log. simpl. unfold CreateRevisionSubspace. rewrite Es.
      by rewrite sget_set, decide_True.
    + apply numbered_snoc. by split; [apply (R_seq _ _ _ HR)|].
Qed.
End Append.

(** ** Writing the compaction revision *)

Lemma Repr_set_compact st h c c2 :
  Repr st h c -> 0 <= c2 <= int64_max ->
  Repr (sset st (compactRev f) (tuple_pack [TVersionstamp (int64ToVersionstamp c2)])) h c2.
Proof.
  intros HR Hc2. set (st2 := sset st _ _).
  assert (Hin : compactRev f `prefix_of` compactRev f) by done.
  assert (Hsame : forall n k, apart (str "compactRevision") n = true -> Sub dir [TString n] `prefix_of` k ->
    sget st2 k = sget st k).
  { intros n k Hn Hk. unfold st2. rewrite sget_set, decide_False; [done|].
    intros <-. by apply (regions_apart dir _ _ _ Hn Hin). }
  assert (Hholds : forall key v, holds (byKeyCurrent f) st key v -> holds (byKeyCurrent f) st2 key v).
  { intros key v Hh o Ho. rewrite <-(Hh o Ho). apply (Hsame (str "byKeyCurrent")); [done|apply Pack_region]. }
  destruct HR as [Hs Hok HbyRev HbyKey Hcur Hck Hc Hseq]. split; try done.
  - intros k v Hk. rewrite (Hsame (str "byRevision")) by done. by apply HbyRev.
  - intros k v Hk. rewrite (Hsame (str "byKeyAndRevision")) by done. by apply HbyKey.
  - intros key. destruct (Hcur key) as [H|(x & Hl & Hh)]; [left|right; exists x]; auto.
  - intros k Hk. rewrite (Hsame (str "byKeyCurrent")) by done. by apply Hck.
  - split; [done|]. right. unfold st2. by rewrite sget_set, decide_True.
  - intros Es. destruct (Hseq Es) as [[Hn Hg] Hnum]. split; [|done]. split; [done|].
    assert (Er : sget st2 (rev f) = sget st (rev f)).
    { unfold openSubspaces. cbn. unfold CreateRevisionSubspace. rewrite Es.
      by apply (Hsame (str "latestRev")). }
    by rewrite Er.
Qed.
End Repr.
