(* ===== verification/Samples.v ===== *)
(** Stores built from a history, and a small history over the instance of
    FdbInstance.v: the concrete inputs of the other files' runs. *)
From stdpp Require Import base strings list gmap sorting.
From Stdlib Require Import Strings.Byte ZArith Lia.
From S2P Require Import Prelude FdbApi KeyOrder FdbInstance Util Subspaces SubspaceFacts Transact History.

(** * Every well-formed history has a store *)

Section Build.
Context `{FB : FdbBindings, KV : KVStore, CF : Config}.
Context (dir : bytes).
Abbreviation f := (openSubspaces dir).

Definition prev_size (h : history) (record : Rec) : Z :=
  match live (latest h (Key record)) with Some e => ValueSize e.2 | None => 0 end.

Definition add_entry (sh : store * history) (e : entry) : store * history :=
  (apply_log (Some (TransactionVersion (int64ToVersionstamp e.1))) sh.1
     (append_log dir (if UseSequentialId then [MSet (rev f) (tuple_pack [TInt e.1])] else [])
        (if UseSequentialId then int64ToVersionstamp e.1 else IncompleteVersionstamp 0) e.2 (prev_size sh.2 e.2)),
   sh.2 ++ [e]).

Definition build (s0 : store) (h : history) : store := (fold_left add_entry h (s0, [])).1.

(** The keys of a directory's subspaces. *)
Lemma subspace_in_dir name k : Sub dir [TString name] `prefix_of` k -> (dir ++ [Byte.x02]) `prefix_of` k.
Proof.
  intros Hk. etrans; [|exact Hk]. rewrite Sub_spec, tuple_pack_string. apply prefix_app.
  by exists (escape name ++ [Byte.x00]).
Qed.

Lemma Repr_empty s0 : (forall k, (dir ++ [Byte.x02]) `prefix_of` k -> sget s0 k = None) -> Repr dir s0 [] 0.
Proof.
  intros H0. split.
  - constructor.
  - constructor.
  - intros k v Hk. rewrite H0 by (eapply subspace_in_dir; exact Hk). split; [done|]. by intros (e & ?%not_elem_of_nil & _).
  - intros k v Hk. rewrite H0 by (eapply subspace_in_dir; exact Hk). split; [done|]. by intros (e & ?%not_elem_of_nil & _).
  - intros key. left. intros o _. rewrite H0, chunk_map_nil; [done|].
    apply (subspace_in_dir (str "byKeyCurrent")). rewrite Pack_spec. apply prefix_app_r. reflexivity.
  - intros k Hk. rewrite H0 by (eapply subspace_in_dir; exact Hk). by intros [? ?].
  - split; [unfold int64_max; lia|]. left. rewrite H0; [done|]. apply (subspace_in_dir (str "compactRevision")). reflexivity.
  - intros Es. split; [|done]. split; [unfold int64_max; cbn; lia|]. left. split; [|done].
    unfold openSubspaces. cbn [rev]. unfold CreateRevisionSubspace. rewrite Es.
    apply H0, (subspace_in_dir (str "latestRev")). reflexivity.
Qed.

Lemma add_entry_repr s h c e :
  Repr dir s h c -> entry_ok e -> Forall (fun x => x.1 < e.1) h ->
  (UseSequentialId = true -> e.1 = 2 + Z.of_nat (length h)) ->
  Repr dir (add_entry (s, h) e).1 (h ++ [e]) c.
Proof.
  intros HR He Hlt Hnum. unfold add_entry. cbn [fst snd]. rewrite apply_append_log.
  destruct e as [r record]. apply Repr_append; try done.
  - unfold pending_rev. destruct UseSequentialId; [apply int64ToVersionstamp_complete|done].
  - unfold resolve_rev. by destruct UseSequentialId.
  - right. unfold prev_size. cbn [snd]. by destruct (live _).
  - destruct UseSequentialId; [by split; [apply Hnum|]|done].
Qed.

Lemma build_repr s0 h :
  (forall k, sget s0 k = None) -> StronglySorted rev_lt h -> Forall entry_ok h ->
  (UseSequentialId = true -> numbered h) -> Repr dir (build s0 h) h 0.
Proof.
  intros H0 Hs Hok Hnum. unfold build.
  enough (H : forall h2 h1 s1, Repr dir s1 h1 0 -> StronglySorted rev_lt (h1 ++ h2) -> Forall entry_ok h2 ->
    (UseSequentialId = true -> numbered (h1 ++ h2)) ->
    Repr dir (fold_left add_entry h2 (s1, h1)).1 (h1 ++ h2) 0) by (by apply (H h []); [by apply Repr_empty|..]).
  clear h Hs Hok Hnum. induction h2 as [|e h2 IH]; intros h1 s1 HR Hs Hok Hnum; cbn [fold_left].
  - by rewrite app_nil_r.
  - apply Forall_cons in Hok as [He Hok].
    replace (h1 ++ e :: h2) with ((h1 ++ [e]) ++ h2) in * by (by rewrite <-app_assoc).
    change (add_entry (s1, h1) e) with ((add_entry (s1, h1) e).1, h1 ++ [e]).
    apply IH; [|done..]. apply add_entry_repr; [done..| |].
    + apply StronglySorted_app_1_l, StronglySorted_app in Hs as (Hs & _).
      rewrite Forall_forall. intros x Hx. apply (Hs x e); [done|by left].
    + intros Es. specialize (Hnum Es). apply numbered_prefix in Hnum. destruct e as [r record].
      by apply numbered_snoc in Hnum as [_ ?].
Qed.
End Build.

(** * Deciding well-formedness *)

Definition link_okb (v : Versionstamp) : bool :=
  bool_decide (v = dummyVersionstamp) ||
  let x := unbe (take 8 (TransactionVersion v)) in
  bool_decide (0 < x <= int64_max /\ v = int64ToVersionstamp x).

Definition versionstamp_okb (v : Versionstamp) : bool :=
  bool_decide (length (TransactionVersion v) = 10%nat /\ 0 <= UserVersion v < 2 ^ 16).

Definition entry_okb (e : entry) : bool :=
  bool_decide (0 < e.1 <= int64_max) &&
  bool_decide (is_int64 (Lease e.2)) && versionstamp_okb (CreateRevision e.2) &&
  versionstamp_okb (PrevRevision e.2) && bool_decide (ValueSize e.2 = zlength (Value e.2)) &&
  bool_decide (zlength (Value e.2) <= maxRecordSize) && bool_decide (length (WriteUUID e.2) = 16%nat) &&
  negb (LatestForKey e.2) && negb (IsDelete e.2 && IsCreate e.2) &&
  link_okb (CreateRevision e.2) && link_okb (PrevRevision e.2).

Lemma link_okb_ok v : link_okb v = true -> link_ok v.
Proof.
  unfold link_okb, link_ok. rewrite orb_true_iff, !bool_decide_eq_true.
  intros [?|[? ?]]; [by left|right; eauto].
Qed.

Lemma entry_okb_ok e : entry_okb e = true -> entry_ok e.
Proof.
  unfold entry_okb, versionstamp_okb.
  rewrite !andb_true_iff, !bool_decide_eq_true, !negb_true_iff.
  intros ((((((((((? & ?) & ?) & ?) & ?) & ?) & ?) & ?) & ?) & ?%link_okb_ok) & ?%link_okb_ok).
  split; [done|]. split; [by split_and!|]. by split_and!.
Qed.

#[global] Instance rev_lt_dec a b : Decision (rev_lt a b).
Proof. unfold rev_lt. apply _. Defined.

Definition history_okb (h : history) : bool :=
  forallb entry_okb h && bool_decide (StronglySorted rev_lt h).

Lemma history_okb_ok h : history_okb h = true -> Forall entry_ok h /\ StronglySorted rev_lt h.
Proof.
  unfold history_okb. rewrite andb_true_iff, bool_decide_eq_true. intros [H1 H2]. split; [|done].
  rewrite Forall_forall. intros e He. apply entry_okb_ok.
  rewrite forallb_forall in H1. apply H1. by apply list_elem_of_In.
Qed.

(** * A sample *)

#[global] Instance sample_config : Config := {| UseSequentialId := false; APITest := false |}.

Definition sample_dir : bytes := str "etcd".
Definition sample_uuid (b : byte) : bytes := replicate 16 b.

(** [/a] is created at 3 and updated at 7, [/b] created at 5 and deleted at
    9, [/c] created at 11. *)
Definition sample_rec (key value : bytes) (del create : bool) (cr pr : Versionstamp) (u : byte) : Rec :=
  mkRec key del create 0 cr pr (zlength value) (sample_uuid u) value false.

Definition sample_history : history :=
  [(3, sample_rec (str "/a") (str "one") false true dummyVersionstamp dummyVersionstamp Byte.x01);
   (5, sample_rec (str "/b") (str "two") false true dummyVersionstamp dummyVersionstamp Byte.x02);
   (7, sample_rec (str "/a") (str "three") false false (int64ToVersionstamp 3) (int64ToVersionstamp 3) Byte.x03);
   (9, sample_rec (str "/b") (str "two") true false (int64ToVersionstamp 5) (int64ToVersionstamp 5) Byte.x04);
   (11, sample_rec (str "/c") (str "four") false true dummyVersionstamp dummyVersionstamp Byte.x05)].

Definition sample_store : gmap bytes bytes := build sample_dir (∅ : gmap bytes bytes) sample_history.

Lemma sample_repr : Repr sample_dir sample_store sample_history 0.
Proof.
  destruct (history_okb_ok sample_history) as [H1 H2]; [vm_compute; reflexivity|].
  apply build_repr; [intros k; apply lookup_empty|done..].
Qed.

(** A driver as the robustness tests configure it, with sequential revisions:
    [/a] is created at 2 and updated at 4, [/b] created at 3 and deleted at
    5. *)
Definition seq_config : Config := {| UseSequentialId := true; APITest := true |}.

Definition seq_history : history :=
  [(2, sample_rec (str "/a") (str "one") false true dummyVersionstamp dummyVersionstamp Byte.x01);
   (3, sample_rec (str "/b") (str "two") false true dummyVersionstamp dummyVersionstamp Byte.x02);
   (4, sample_rec (str "/a") (str "three") false false (int64ToVersionstamp 2) (int64ToVersionstamp 2) Byte.x03);
   (5, sample_rec (str "/b") (str "two") true false (int64ToVersionstamp 3) (int64ToVersionstamp 3) Byte.x04)].

Definition seq_store : gmap bytes bytes := build (CF := seq_config) sample_dir (∅ : gmap bytes bytes) seq_history.

Lemma seq_repr : Repr (CF := seq_config) sample_dir seq_store seq_history 0.
Proof.
  destruct (history_okb_ok seq_history) as [H1 H2]; [vm_compute; reflexivity|].
  apply (build_repr (CF := seq_config)); [intros k; apply lookup_empty|done..].
Qed.
