(* ===== verification/Write.v ===== *)
(** pkg/drivers/fdb/fdb_write.go: Create, Update and Delete, and [getLast] of
    fdb_read.go.  Each is the body of a transaction and the call around it;
    the variable the bodies share between attempts is [lastWriteUUID].  A
    future that is read after the commit has a value; that reading it fails is
    not modelled. *)
From stdpp Require Import base strings list gmap sorting.
From Stdlib Require Import Strings.Byte ZArith Lia.
From S2P Require Import Prelude FdbApi KeyOrder Util Subspaces SubspaceFacts Transact History.

(** The future of the new revision: of the transaction's versionstamp
    ([keyFuture] with [isKey]) or of a known revision ([revFuture]). *)
Inductive ResultFuture : Type :=
| KeyFuture (k : FutureKey)
| RevFuture (r : Z).

(** [writeResult]; the record of a [RevRecord] is a pointer that can be nil. *)
Record writeResult := mkWriteResult {
  wr_future : ResultFuture;
  wr_revRecord : option (Versionstamp * option Rec);
  wr_writeSuccess : bool
}.

Definition zeroVersionstamp : Versionstamp := mkVersionstamp (replicate 10 Byte.x00) 0.

(** [tuple.Versionstamp.Bytes] *)
Definition versionstamp_Bytes (v : Versionstamp) : bytes :=
  TransactionVersion v ++ be 2 (UserVersion v).

Definition newModificationResultKey (k : FutureKey) (revRecord : option (Versionstamp * option Rec))
    (writeSuccess : bool) : writeResult :=
  mkWriteResult (KeyFuture k) revRecord writeSuccess.
Definition newModificationResultRev (r : Z) (revRecord : option (Versionstamp * option Rec))
    (writeSuccess : bool) : writeResult :=
  mkWriteResult (RevFuture r) revRecord writeSuccess.

Definition set_ModRevision (kv : KeyValue) (r : Z) : KeyValue :=
  mkKeyValue (kv_Key kv) (kv_CreateRevision kv) r (kv_Value kv) (kv_Lease kv).

Section WriteDefs.
Context `{FB : FdbBindings, KV : KVStore, CF : Config}.

(** [getResult]: [stamp] is what the transaction's versionstamp became. *)
Definition getResult (stamp : bytes) (r : writeResult) : res (Z * option KeyValue * bool) :=
  let? revRes :=
    match wr_future r with
    | KeyFuture (ConstKeyFuture v) => versionstampBytesToInt64 (versionstamp_Bytes v)
    | KeyFuture GetVersionstamp => versionstampBytesToInt64 stamp
    | RevFuture z => Ok z
    end in
  let? kv :=
    match wr_revRecord r with
    | None => Ok None
    | Some (_, None) => Panic
    | Some (v, Some record) =>
        let? event := revRecordToEvent (mkRevRecord v record) in
        match wr_future r with
        | KeyFuture _ => Ok (Some (set_ModRevision (ev_KV event) revRes))
        | RevFuture _ => Ok (Some (ev_KV event))
        end
    end in
  Ok (revRes, kv, wr_writeSuccess r).

(** The last record of a key: the range read is reversed, of one entry. *)
Definition getLast (f : FDB) (tr : Transaction) (key : bytes)
    : res (option ByKeyAndRevisionRecord) :=
  let keyRange := FDBRangeKeys (Sub (byKeyAndRevision f) [TString key]) in
  let it := tr_GetLastOfRange tr keyRange.1 keyRange.2 in
  if negb (Advance it) then Ok None
  else let? '(r, _) := ByKey_GetFromIterator (byKeyAndRevision f) it in Ok r.

Definition with_WriteUUID (record : Rec) (uuid : bytes) : Rec :=
  mkRec (Key record) (IsDelete record) (IsCreate record) (Lease record)
        (CreateRevision record) (PrevRevision record) (ValueSize record)
        uuid (Value record) (LatestForKey record).

(** [append]; the new UUID is drawn by the caller of the model. *)
Definition append (f : FDB) (tr : Transaction) (record : Rec) (prevValueSize : Z) (uuid : bytes)
    : res (FutureKey * bytes * Transaction) :=
  let record := with_WriteUUID record uuid in
  let? '(newRev, revFuture, tr) := IncrementAndGet (rev f) tr in
  let? tr := ByRevision_Write (byRevision f) tr newRev record in
  let? tr := ByKey_Write (byKeyAndRevision f) tr (mkKeyAndRevision (Key record) newRev) record in
  let? tr :=
    if IsDelete record
    then ByKeyCurrent_Clear (byKeyCurrent f) tr (Key record)
    else ByKeyCurrent_Replace (byKeyCurrent f) tr (Key record) (Value record) prevValueSize in
  let tr := Watch_Write (watch f) tr in
  Ok (revFuture, uuid, tr).

(** The result of a body: the value, the transaction and [lastWriteUUID];
    an error leaves the variable as it was. *)
Definition body_result (lastWriteUUID : bytes) (r : res (writeResult * Transaction * bytes))
    : res (writeResult * Transaction) * bytes :=
  match r with
  | Ok (w, tr, uuid) => (Ok (w, tr), uuid)
  | Err e => (Err e, lastWriteUUID)
  | Panic => (Panic, lastWriteUUID)
  end.

Definition create_record (key value : bytes) (lease : Z) (prevRevision : Versionstamp) : Rec :=
  mkRec key false true lease dummyVersionstamp prevRevision (zlength value) zeroUUID value false.

Definition create_body (f : FDB) (key value : bytes) (lease : Z)
    (uuid : bytes) (tr : Transaction) (lastWriteUUID : bytes)
    : res (writeResult * Transaction) * bytes :=
  body_result lastWriteUUID (
    let tr := setFirstInBatch tr in
    let? lastRecord := getLast f tr key in
    let write prevRevision :=
      let? '(keyFuture, uuid, tr) :=
        append f tr (create_record key value lease prevRevision) 0 uuid in
      Ok (newModificationResultKey keyFuture None true, tr, uuid) in
    match lastRecord with
    | Some last =>
        if IsCreate (bk_Value last) && bool_decide (lastWriteUUID = WriteUUID (bk_Value last)) then
          let? r := VersionstampToInt64 (kr_Rev (bk_Key last)) in
          Ok (newModificationResultRev r None true, tr, lastWriteUUID)
        else if negb (IsDelete (bk_Value last)) then Err ErrKeyExists
        else write (kr_Rev (bk_Key last))
    | None => write dummyVersionstamp
    end).

(** [kickPoll]: a channel of one element, filled without blocking. *)
Definition kickPoll (pollKick : bool) : bool := true.

(** [lastWriteUUID] starts as a UUID of its own. *)
Definition Create (f : FDB) (te : TransactEnv bytes) (uuid0 key value : bytes) (lease : Z)
    (s : store) (pollKick : bool) : option (res Z) * store * bool :=
  if maxRecordSize <? zlength value then (Some (Err ErrRequestTooLarge), s, pollKick)
  else
    match transact (create_body f key value lease) te s uuid0 with
    | (Some (Ok (r, stamp)), s, _) =>
        (Some (let? '(rev, _, _) := getResult stamp r in Ok rev), s, kickPoll pollKick)
    | (Some (Err e), s, _) => (Some (Err e), s, pollKick)
    | (Some Panic, s, _) => (Some Panic, s, pollKick)
    | (None, s, _) => (None, s, pollKick)
    end.

Definition update_record (key value : bytes) (lease : Z) (last : ByKeyAndRevisionRecord) : Rec :=
  mkRec key false false lease (ByKeyAndRevisionRecord_GetCreateRevision last)
        (kr_Rev (bk_Key last)) (zlength value) zeroUUID value false.

(** A failed write returns the latest revision. *)
Definition latest_result (f : FDB) (tr : Transaction) (revRecord : option (Versionstamp * option Rec))
    (lastWriteUUID : bytes) : res (writeResult * Transaction * bytes) :=
  let? latestRev := GetLatestRev (rev f) tr in
  Ok (newModificationResultRev latestRev revRecord false, tr, lastWriteUUID).

Definition update_body (f : FDB) (key value : bytes) (revision lease : Z)
    (uuid : bytes) (tr : Transaction) (lastWriteUUID : bytes)
    : res (writeResult * Transaction) * bytes :=
  body_result lastWriteUUID (
    let tr := setFirstInBatch tr in
    let? lastRecord := getLast f tr key in
    match lastRecord with
    | None => latest_result f tr None lastWriteUUID
    | Some last =>
        if IsDelete (bk_Value last) then latest_result f tr None lastWriteUUID
        else
          let? lastRev := VersionstampToInt64 (kr_Rev (bk_Key last)) in
          if negb (lastRev =? revision) then
            let? record := ByRevision_Get (byRevision f) tr (kr_Rev (bk_Key last)) in
            if bool_decide (lastWriteUUID = WriteUUID (bk_Value last)) then
              Ok (newModificationResultRev lastRev (Some (kr_Rev (bk_Key last), record)) true,
                  tr, lastWriteUUID)
            else latest_result f tr (Some (kr_Rev (bk_Key last), record)) lastWriteUUID
          else
            let updateRecord := update_record key value lease last in
            let? '(keyFuture, uuid, tr) :=
              append f tr updateRecord (ValueSize (bk_Value last)) uuid in
            Ok (newModificationResultKey keyFuture
                  (Some (zeroVersionstamp, Some (with_WriteUUID updateRecord uuid))) true, tr, uuid)
    end).

Definition write_call (result : option (res (writeResult * bytes)) * store * bytes) (pollKick : bool)
    : option (res (Z * option KeyValue * bool)) * store * bool :=
  match result with
  | (Some (Ok (r, stamp)), s, _) => (Some (getResult stamp r), s, kickPoll pollKick)
  | (Some (Err e), s, _) => (Some (Err e), s, pollKick)
  | (Some Panic, s, _) => (Some Panic, s, pollKick)
  | (None, s, _) => (None, s, pollKick)
  end.

Definition Update (f : FDB) (te : TransactEnv bytes) (uuid0 key value : bytes) (revision lease : Z)
    (s : store) (pollKick : bool) : option (res (Z * option KeyValue * bool)) * store * bool :=
  if maxRecordSize <? zlength value then (Some (Err ErrRequestTooLarge), s, pollKick)
  else write_call (transact (update_body f key value revision lease) te s uuid0) pollKick.

Definition delete_record (key : bytes) (last : ByKeyAndRevisionRecord) (record : Rec) : Rec :=
  mkRec key true false (Lease record) (ByKeyAndRevisionRecord_GetCreateRevision last)
        (kr_Rev (bk_Key last)) (ValueSize record) zeroUUID (Value record) false.

Definition delete_body (f : FDB) (key : bytes) (revision : Z)
    (uuid : bytes) (tr : Transaction) (lastWriteUUID : bytes)
    : res (writeResult * Transaction) * bytes :=
  body_result lastWriteUUID (
    let tr := setFirstInBatch tr in
    let? lastRecord := getLast f tr key in
    match lastRecord with
    | None => latest_result f tr None lastWriteUUID
    | Some last =>
        let? record := ByRevision_Get (byRevision f) tr (kr_Rev (bk_Key last)) in
        if IsDelete (bk_Value last) then
          if bool_decide (lastWriteUUID = WriteUUID (bk_Value last)) then
            let? lastRev := VersionstampToInt64 (kr_Rev (bk_Key last)) in
            Ok (newModificationResultRev lastRev (Some (kr_Rev (bk_Key last), record)) true,
                tr, lastWriteUUID)
          else latest_result f tr None lastWriteUUID
        else
          let? stale :=
            if negb (revision =? 0) then
              let? lastRev := VersionstampToInt64 (kr_Rev (bk_Key last)) in
              Ok (negb (lastRev =? revision))
            else Ok false in
          if (stale : bool) then
            latest_result f tr (Some (kr_Rev (bk_Key last), record)) lastWriteUUID
          else
            let? record := assert_some record in
            let deleteRecord := delete_record key last record in
            let? '(keyFuture, uuid, tr) := append f tr deleteRecord 0 uuid in
            Ok (newModificationResultKey keyFuture
                  (Some (zeroVersionstamp, Some (with_WriteUUID deleteRecord uuid))) true, tr, uuid)
    end).

Definition Delete (f : FDB) (te : TransactEnv bytes) (uuid0 key : bytes) (revision : Z)
    (s : store) (pollKick : bool) : option (res (Z * option KeyValue * bool)) * store * bool :=
  write_call (transact (delete_body f key revision) te s uuid0) pollKick.
End WriteDefs.

(** * Effects on the history *)

Section WriteFacts.
Context `{FB : FdbBindings, KV : KVStore, CF : Config}.
Context (dir : bytes).
Abbreviation f := (openSubspaces dir).

(** The transaction a body starts with. *)
Definition open_tr (s : store) (rv : Z) : Transaction := setFirstInBatch (begin_tr s rv).

Lemma tr_view_open s rv : tr_view (open_tr s rv) = s.
Proof. reflexivity. Qed.

Lemma tr_commit_open s rv version batch : tr_commit (open_tr s rv) version batch = s.
Proof. reflexivity. Qed.

Lemma last_fmap {A B} (g : A -> B) (l : list A) : last (g <$> l) = g <$> last l.
Proof. induction l as [|x [|y l] IH]; [done..|]. exact IH. Qed.

Lemma getLast_Repr tr h c key :
  Repr dir (tr_view tr) h c -> getLast f tr key = Ok (to_bk <$> latest h key).
Proof.
  intros HR. unfold getLast. rewrite FDBRangeKeys_spec. cbn [fst snd].
  unfold tr_GetLastOfRange. rewrite (srange_key _ _ _ _ _ HR), last_fmap.
  fold (latest h key). destruct (latest h key) as [e|] eqn:E; [|done].
  cbn [fmap option_fmap option_map Advance negb].
  apply latest_Some in E as [Hin Hk]. pose proof (R_ok _ _ _ _ HR) as Hok.
  rewrite Forall_forall in Hok. destruct (Hok e Hin) as (_ & Hrec & _).
  by rewrite ByKey_GetFromIterator_entry by auto using int64ToVersionstamp_ok.
Qed.

(** The revision a commit assigns: the counter's next value or the commit
    version. *)
Definition new_revision (h : history) (version : Z) : Z :=
  if UseSequentialId then 2 + Z.of_nat (length h) else version.

Definition fresh (h : history) (r : Z) : Prop :=
  0 < r <= int64_max /\ Forall (fun e => e.1 < r) h.

(** A commit version above all revisions; the counter starts at 1. *)
Definition above (h : history) (version : Z) : Prop :=
  (if UseSequentialId then 1 else 0) < version <= int64_max /\ Forall (fun e => e.1 < version) h.

(** Numbering never overtakes the commit versions, since every commit adds
    one to the counter and at least one to the version. *)
Lemma new_revision_fresh s h c version :
  Repr dir s h c -> above h version -> fresh h (new_revision h version) /\ new_revision h version <= version.
Proof.
  intros HR [Hv Hh]. unfold new_revision, fresh. destruct UseSequentialId eqn:Es; [|by repeat split; lia || done].
  destruct (R_seq _ _ _ _ HR Es) as [_ Hnum].
  assert (Hlast : Forall (fun e => e.1 < 2 + Z.of_nat (length h)) h).
  { rewrite Forall_forall. intros e He. assert (e.1 ∈ h.*1) as H by (by apply list_elem_of_fmap_2).
    rewrite Hnum, elem_of_seqZ in H. lia. }
  assert (Hle : 2 + Z.of_nat (length h) <= version).
  { destruct h as [|[r record] h _] using rev_ind; [cbn; lia|].
    apply numbered_snoc in Hnum as [_ ->]. apply Forall_app in Hh as [_ Hr]. rewrite Forall_singleton in Hr.
    rewrite length_app. cbn [length fst] in *. lia. }
  split; [split; [lia|done]|done].
Qed.

Lemma versionstampBytes_stamp r rest :
  is_int64 r -> versionstampBytesToInt64 (TransactionVersion (int64ToVersionstamp r) ++ rest) = Ok r.
Proof.
  intros Hr. unfold versionstampBytesToInt64, int64ToVersionstamp. cbn [TransactionVersion].
  rewrite !length_app, length_be. cbn [Nat.add Nat.ltb Nat.leb].
  rewrite <-app_assoc, take_app_length' by (by rewrite length_be).
  by rewrite unbe_revision, to_int64_uint64.
Qed.

Definition future_rev (stamp : bytes) (k : FutureKey) : res Z :=
  match k with
  | ConstKeyFuture v => versionstampBytesToInt64 (versionstamp_Bytes v)
  | GetVersionstamp => versionstampBytesToInt64 stamp
  end.

(** [IncrementAndGet] reserves the revision the commit will have. *)
Lemma IncrementAndGet_spec s h c rv version batch r :
  Repr dir s h c -> new_revision h version = r -> 0 < r <= int64_max ->
  exists v fut seq,
    IncrementAndGet (rev f) (open_tr s rv) = Ok (v, fut, tr_mutates (open_tr s rv) seq) /\
    pending_rev v /\
    (if UseSequentialId then r = 2 + Z.of_nat (length h) /\ seq = [MSet (rev f) (tuple_pack [TInt r])] else seq = []) /\
    let stamp := commit_stamp (open_tr s rv) version batch in
    resolve_rev stamp v = int64ToVersionstamp r /\ future_rev stamp fut = Ok r.
Proof.
  intros HR Hnew Hr. assert (Hi : is_int64 r) by (unfold is_int64, int64_min; lia).
  unfold IncrementAndGet, new_revision, pending_rev, resolve_rev in *.
  destruct UseSequentialId eqn:Es.
  - destruct (R_seq _ _ _ _ HR Es) as [[Hn Hc] _]. set (n := 1 + Z.of_nat (length h)) in *.
    assert (r = n + 1) as -> by lia. unfold tr_Get. rewrite tr_view_open.
    assert (Hid : match sget s (rev f) with
                  | Some value =>
                      let? t := of_option unpack_error (tuple_unpack value) in as_int64 (t !! 0%nat)
                  | None => Ok 1
                  end = Ok n).
    { destruct Hc as [[-> ->]| ->]; [done|].
      rewrite tuple_unpack_pack; [done|]. solve_tuple_ok. unfold is_int64, int64_min. lia. }
    rewrite Hid. cbn [rbind]. rewrite to_int64_id by done.
    eexists _, _, [MSet (rev f) (tuple_pack [TInt (n + 1)])]. split; [reflexivity|].
    split; [apply int64ToVersionstamp_complete|]. split; [split; [lia|done]|]. split; [done|].
    by apply versionstampBytes_stamp.
  - subst r. exists (IncompleteVersionstamp 0), GetVersionstamp, [].
    rewrite tr_mutates_nil. do 3 (split; [done|]).
    assert (Hstamp : commit_stamp (open_tr s rv) version batch =
                     TransactionVersion (int64ToVersionstamp version)).
    { apply commit_stamp_first; [done|lia|unfold int64_max in Hr; lia]. }
    cbv zeta. rewrite Hstamp. split; [done|].
    pose proof (versionstampBytes_stamp version [] Hi) as H. by rewrite app_nil_r in H.
Qed.

Lemma append_mutates s rv record prevSize uuid v fut seq :
  IncrementAndGet (rev f) (open_tr s rv) = Ok (v, fut, tr_mutates (open_tr s rv) seq) ->
  pending_rev v ->
  append f (open_tr s rv) record prevSize uuid =
  Ok (fut, uuid, tr_mutates (open_tr s rv) (append_log dir seq v (with_WriteUUID record uuid) prevSize)).
Proof.
  intros HI Hv. unfold append. rewrite HI. cbn [rbind].
  rewrite ByRevision_Write_mutates by done. cbn [rbind].
  rewrite ByKey_Write_mutates by done. cbn [rbind].
  unfold append_log, current_log. cbn [IsDelete with_WriteUUID].
  destruct (IsDelete record).
  - rewrite ByKeyCurrent_Clear_mutates. cbn [rbind]. rewrite replace_nil.
    unfold Watch_Write, tr_Add, tr_mutate, tr_mutates. cbn. by rewrite <-!app_assoc.
  - rewrite ByKeyCurrent_Replace_mutates. cbn [rbind].
    unfold Watch_Write, tr_Add, tr_mutate, tr_mutates. cbn [tr_log tr_snapshot tr_read_version
      tr_first_in_batch with_WriteUUID Key Value]. by rewrite <-!app_assoc.
Qed.

(** A committed [append] adds its record to the history, and its future
    becomes the record's revision. *)
Lemma append_spec s h c rv version batch r record prevSize uuid :
  Repr dir s h c -> new_revision h version = r -> fresh h r ->
  entry_ok (r, with_WriteUUID record uuid) -> prev_ok h (with_WriteUUID record uuid) prevSize ->
  exists fut tr,
    append f (open_tr s rv) record prevSize uuid = Ok (fut, uuid, tr) /\
    Repr dir (tr_commit tr version batch) (h ++ [(r, with_WriteUUID record uuid)]) c /\
    future_rev (commit_stamp tr version batch) fut = Ok r.
Proof.
  intros HR Hnew [Hr Hfresh] Hok Hprev.
  destruct (IncrementAndGet_spec s h c rv version batch r HR Hnew Hr)
    as (v & fut & seq & HI & Hpend & Hseq & Hres & Hfut).
  eexists fut, _. split; [by apply append_mutates|].
  split; [|exact Hfut]. unfold tr_commit. cbn [tr_mutates tr_log tr_snapshot open_tr setFirstInBatch
    begin_tr app]. change (commit_stamp (tr_mutates _ _) version batch)
    with (commit_stamp (open_tr s rv) version batch).
  rewrite apply_append_log. by apply Repr_append.
Qed.

(** ** Writes under retries

    A write's transaction can be run again after a commit whose outcome is
    unknown.  Two facts about the body make the write happen once: on a
    history where the key is as it was, it appends its record; on one where
    the last record of the key has the UUID of the previous attempt, it
    changes nothing and returns that record's revision. *)
Section ExactlyOnce.
Context (key : bytes) (h0 : history) (c : Z).
Context (body : bytes -> Transaction -> bytes -> res (writeResult * Transaction) * bytes).
Context (mkrec : bytes -> Rec) (kv : Z -> option KeyValue).

Definition key_part (h : history) : history := filter (of_key key) h.

Definition writes_once : Prop :=
  (forall uuid, Key (mkrec uuid) = key) /\
  (forall s h rv version batch uuid last,
     Repr dir s h c -> key_part h = key_part h0 -> fresh h (new_revision h version) -> length uuid = 16%nat ->
     let r := new_revision h version in
     exists w tr, body uuid (begin_tr s rv) last = (Ok (w, tr), uuid) /\
       Repr dir (tr_commit tr version batch) (h ++ [(r, mkrec uuid)]) c /\
       getResult (commit_stamp tr version batch) w = Ok (r, kv r, true)) /\
  (forall s h rv r uuid uuid2,
     Repr dir s h c -> key_part h = key_part h0 ++ [(r, mkrec uuid)] ->
     exists w, body uuid2 (begin_tr s rv) uuid = (Ok (w, open_tr s rv), uuid) /\
       forall stamp, getResult stamp w = Ok (r, kv r, true)).

(** What other clients may do between attempts: append records of other
    keys, with revisions below this attempt's commit version. *)
Definition attempt_ok (a : Attempt bytes) : Prop :=
  length (at_env a) = 16%nat /\ (if UseSequentialId then 1 else 0) < at_version a <= int64_max /\
  forall s h, Repr dir s h c -> Forall (fun e => e.1 < at_version a) h ->
    exists ext, Repr dir (at_others a s) (h ++ ext) c /\
      Forall (fun e => e.1 < at_version a /\ Key e.2 <> key) ext.

(** The error of an attempt, if it has one, is one to retry. *)
Definition retries (a : Attempt bytes) : Prop := at_on_error a = None.

Definition commits (a : Attempt bytes) : Prop :=
  at_fault a = None /\ at_commit a = Committed /\ at_force_retry a = false.

(** The store between attempts: the write has not happened, or it has and
    its UUID is remembered. *)
Definition between (s : store) (last : bytes) (v : Z) (ext : history) : Prop :=
  Repr dir s (h0 ++ ext) c /\ Forall (fun e => e.1 < v) (h0 ++ ext) /\
  (key_part ext = [] \/ exists r, key_part ext = [(r, mkrec last)]).

Lemma key_part_app h k : key_part (h ++ k) = key_part h ++ key_part k.
Proof. apply filter_app. Qed.

Lemma key_part_others ext v :
  Forall (fun e : entry => e.1 < v /\ Key e.2 <> key) ext -> key_part ext = [].
Proof.
  induction 1 as [|e ext [_ He] _ IH]; [done|]. unfold key_part. rewrite filter_cons.
  by rewrite decide_False.
Qed.

Lemma between_others a s last ext :
  attempt_ok a -> between s last (at_version a) ext ->
  exists ext2, between (at_others a s) last (at_version a) ext2.
Proof.
  intros (_ & _ & Hoth) (HR & Hlt & Hshape).
  destruct (Hoth s _ HR Hlt) as (more & HR2 & Hmore). exists (ext ++ more).
  unfold between. rewrite app_assoc. split; [done|]. split.
  - apply Forall_app. split; [done|]. eapply Forall_impl; [exact Hmore|]. by intros ? [? _].
  - by rewrite key_part_app, (key_part_others _ _ Hmore), app_nil_r.
Qed.

Lemma wrapped_once a s last ext v :
  writes_once -> length (at_env a) = 16%nat -> (if UseSequentialId then 1 else 0) < at_version a <= int64_max ->
  between s last (at_version a) ext -> at_version a < v ->
  match wrapped body a s last with
  | (r, s2, last2) =>
      exists ext2, between s2 last2 v ext2 /\
        ((exists code, r = Err (FDBError code)) /\ ~ commits a \/
         exists w stamp z, r = Ok (w, stamp) /\ key_part ext2 = [(z, mkrec last2)] /\
           getResult stamp w = Ok (z, kv z, true))
  end.
Proof.
  intros (Hkey & Hw & Hr) Huuid Hver (HR & Hlt & Hshape) Hv.
  assert (Hsame : between s last v ext).
  { split; [done|]. split; [|done]. eapply Forall_impl; [exact Hlt|]. cbn. lia. }
  unfold wrapped, commits. destruct (at_fault a) as [code|].
  { exists ext. split; [done|]. left. split; [eauto|]. naive_solver. }
  destruct Hshape as [Hnil|[z Hz]].
  - destruct (new_revision_fresh s (h0 ++ ext) c (at_version a) HR ltac:(by split)) as [Hfresh Hle].
    set (n := new_revision (h0 ++ ext) (at_version a)) in *.
    destruct (Hw s _ (at_read_version a) (at_version a) (at_batch a) (at_env a) last HR)
      as (w & tr & -> & HR2 & Hres); [by rewrite key_part_app, Hnil, app_nil_r|done|done|]. fold n in HR2, Hres.
    assert (Hdone : between (tr_commit tr (at_version a) (at_batch a)) (at_env a) v
              (ext ++ [(n, mkrec (at_env a))]) /\ key_part (ext ++ [(n, mkrec (at_env a))]) = [(n, mkrec (at_env a))]).
    { assert (Hk : key_part (ext ++ [(n, mkrec (at_env a))]) = [(n, mkrec (at_env a))]).
      { rewrite key_part_app, Hnil. unfold key_part. rewrite filter_cons, filter_nil.
        by rewrite decide_True by apply Hkey. }
      split; [|done]. split; [by rewrite app_assoc|]. split; [|eauto].
      rewrite app_assoc. apply Forall_app. split; [apply Hsame|apply Forall_singleton; cbn; lia]. }
    assert (Hkeep : between s (at_env a) v ext).
    { split; [done|]. split; [apply Hsame|by left]. }
    destruct (at_commit a) as [|code|[]].
    + exists (ext ++ [(n, mkrec (at_env a))]). split; [apply Hdone|]. right.
      eexists _, _, _. split; [done|]. split; [apply Hdone|done].
    + exists ext. split; [done|]. left. naive_solver.
    + exists (ext ++ [(n, mkrec (at_env a))]). split; [apply Hdone|]. left. naive_solver.
    + exists ext. split; [done|]. left. naive_solver.
  - destruct (Hr s _ (at_read_version a) z last (at_env a) HR) as (w & -> & Hres);
      [by rewrite key_part_app, Hz|].
    rewrite tr_commit_open.
    destruct (at_commit a) as [|code|[]]; exists ext; (split; [done|]).
    + right. eexists _, _, z. split; [done|]. by split.
    + left. naive_solver.
    + left. naive_solver.
    + left. naive_solver.
Qed.

(** The record the call leaves for its key, and what it returns. *)
Definition written_once (result : option (res (writeResult * bytes)) * store * bytes) : Prop :=
  exists w stamp s2 last2 ext z uuid,
    result = (Some (Ok (w, stamp)), s2, last2) /\ Repr dir s2 (h0 ++ ext) c /\
    key_part ext = [(z, mkrec uuid)] /\ getResult stamp w = Ok (z, kv z, true).

Lemma retryable_once pre a s last ext :
  writes_once -> Forall attempt_ok (pre ++ [a]) ->
  StronglySorted Z.lt (at_version <$> pre ++ [a]) -> Forall retries pre -> commits a ->
  between s last (match pre with [] => at_version a | b :: _ => at_version b end) ext ->
  written_once (retryable body (pre ++ [a]) s last).
Proof.
  intros Honce. revert s last ext.
  induction pre as [|b pre IH]; intros s last ext Hok Hsort Hre Hcommit Hbetw; cbn [app retryable] in *.
  - rewrite Forall_singleton in Hok.
    destruct (between_others _ _ _ _ Hok Hbetw) as [ext2 Hbetw2].
    destruct Hok as (Hu & Hv & _).
    pose proof (wrapped_once a _ _ _ (at_version a + 1) Honce Hu Hv Hbetw2 ltac:(lia)) as H.
    destruct (wrapped body a (at_others a s) last) as [[r s2] last2].
    destruct H as (ext3 & Hb3 & [[_ Hn]|(w & stamp & z & -> & Hk & Hres)]); [done|].
    unfold retry_decision. destruct Hcommit as (_ & _ & ->).
    exists w, stamp, s2, last2, ext3, z, last2. split; [done|]. split; [apply Hb3|done].
  - apply Forall_cons in Hok as [Hb Hok]. apply Forall_cons in Hre as [Hreb Hre].
    rewrite fmap_cons, StronglySorted_cons in Hsort.
    destruct Hsort as [Hlt Hsort].
    destruct (between_others _ _ _ _ Hb Hbetw) as [ext2 Hbetw2].
    destruct Hb as (Hu & Hv & _).
    set (v := match pre with [] => at_version a | b :: _ => at_version b end).
    assert (Hbv : at_version b < v).
    { destruct pre; cbn in Hlt; by apply Forall_cons in Hlt as [? _]. }
    pose proof (wrapped_once b _ _ _ v Honce Hu Hv Hbetw2 Hbv) as H.
    destruct (wrapped body b (at_others b s) last) as [[r s2] last2].
    destruct H as (ext3 & Hb3 & H).
    assert (Hgo : written_once (retryable body (pre ++ [a]) s2 last2)) by (by eapply IH).
    unfold retry_decision. unfold retries in Hreb. rewrite Hreb.
    destruct H as [[[code ->] _]|(w & stamp & z & -> & Hk & Hres)].
    + by destruct (at_force_retry b).
    + destruct (at_force_retry b); [done|].
      exists w, stamp, s2, last2, ext3, z, last2. split; [done|]. split; [apply Hb3|done].
Qed.
End ExactlyOnce.

(** ** The three writes *)

Lemma latest_key_part key h1 h2 : key_part key h1 = key_part key h2 -> latest h1 key = latest h2 key.
Proof. unfold latest, key_part. by intros ->. Qed.

Lemma latest_written key h h0 e : key_part key h = key_part key h0 ++ [e] -> latest h key = Some e.
Proof. unfold latest, key_part. intros ->. by rewrite last_snoc. Qed.

Lemma Repr_entry_ok s h c e : Repr dir s h c -> e ∈ h -> entry_ok e.
Proof. intros HR. pose proof (R_ok _ _ _ _ HR) as H. rewrite Forall_forall in H. apply H. Qed.

Lemma latest_entry_ok s h c key e : Repr dir s h c -> latest h key = Some e -> entry_ok e.
Proof. intros HR [Hin _]%latest_Some. by eapply Repr_entry_ok. Qed.

Lemma stamp_link_ok (e : entry) : entry_ok e -> link_ok (int64ToVersionstamp e.1).
Proof. intros [? _]. right. eauto. Qed.

Lemma link_versionstamp_ok v : link_ok v -> versionstamp_ok v.
Proof. intros [->|(x & _ & ->)]; [apply dummyVersionstamp_ok|apply int64ToVersionstamp_ok]. Qed.

Definition prev_link (o : option entry) : Versionstamp :=
  match o with Some e => int64ToVersionstamp e.1 | None => dummyVersionstamp end.

Definition created (h : history) (key value : bytes) (lease : Z) (uuid : bytes) : Rec :=
  with_WriteUUID (create_record key value lease (prev_link (latest h key))) uuid.

Lemma create_writes_once h0 c key value lease :
  is_int64 lease -> zlength value <= maxRecordSize ->
  live (latest h0 key) = None ->
  writes_once key h0 c (create_body f key value lease) (created h0 key value lease) (fun _ => None).
Proof.
  intros Hlease Hsize Hlive. split; [done|]. split.
  - intros s h rv version batch uuid last HR Hk Hfresh Huuid r. unfold create_body.
    fold (open_tr s rv). rewrite (getLast_Repr _ h c) by done. cbn [rbind].
    rewrite (latest_key_part _ _ _ Hk). pose proof (latest_key_part _ _ _ Hk) as El.
    assert (Hprevlink : link_ok (prev_link (latest h0 key))).
    { destruct (latest h0 key) as [e|] eqn:E; [|by left].
      by eapply stamp_link_ok, latest_entry_ok; [exact HR|]. }
    destruct (append_spec s h c rv version batch r
      (create_record key value lease (prev_link (latest h0 key))) 0 uuid HR)
      as (fut & tr & Happ & HR2 & Hfut); [done|done|..].
    { split; [apply Hfresh|]. split; [|split; [done|]; split; [done|]; split; [by left|done]].
      split_and!; try done; by apply link_versionstamp_ok. }
    { right. cbn [Key with_WriteUUID create_record]. by rewrite El, Hlive. }
    exists (newModificationResultKey fut None true), tr.
    assert (Hget : getResult (commit_stamp tr version batch) (newModificationResultKey fut None true) =
              Ok (r, None, true)).
    { unfold getResult. cbn [wr_future newModificationResultKey].
      unfold future_rev in Hfut. by destruct fut; rewrite Hfut. }
    split; [|by split].
    destruct (latest h0 key) as [e|] eqn:E; cbn [fmap option_fmap option_map prev_link] in *.
    + pose proof (latest_entry_ok _ _ _ _ _ HR El) as (_ & _ & _ & Hx & _).
      unfold live in Hlive. destruct (IsDelete e.2) eqn:Ed; [|done].
      cbn [to_bk bk_Value byKey_view IsCreate IsDelete bk_Key kr_Rev].
      cbn [andb] in Hx. rewrite Hx, Ed. cbn [andb negb]. by rewrite Happ.
    + by rewrite Happ.
  - intros s h rv r uuid uuid2 HR Hk. apply latest_written in Hk.
    pose proof (latest_entry_ok _ _ _ _ _ HR Hk) as Hok. apply entry_ok_stamp in Hok as [_ Hr].
    cbn [fst] in Hr. unfold create_body. fold (open_tr s rv).
    rewrite (getLast_Repr _ h c) by done. rewrite Hk. cbn [rbind fmap option_fmap option_map].
    cbn [to_bk bk_Value byKey_view IsCreate snd created with_WriteUUID create_record WriteUUID
         bk_Key kr_Rev fst andb].
    rewrite bool_decide_eq_true_2 by done.
    rewrite VersionstampToInt64_int64ToVersionstamp by done. cbn [rbind body_result].
    eexists. split; [reflexivity|]. done.
Qed.

Lemma getResult_key stamp fut r record :
  future_rev stamp fut = Ok r -> IsCreate record = false ->
  link_ok (CreateRevision record) -> link_ok (PrevRevision record) ->
  getResult stamp (newModificationResultKey fut (Some (zeroVersionstamp, Some record)) true) =
  Ok (r, Some (ev_KV (event_of (r, record))), true).
Proof.
  intros Hfut Hc Hl1 Hl2. unfold getResult. cbn [wr_future wr_revRecord newModificationResultKey].
  change zeroVersionstamp with (int64ToVersionstamp 0).
  rewrite (revRecordToEvent_spec (0, record)) by done.
  assert (Hkv : set_ModRevision (ev_KV (event_of (0, record))) r = ev_KV (event_of (r, record))).
  { unfold event_of, create_rev. cbn [fst snd]. by rewrite Hc. }
  unfold future_rev in Hfut. destruct fut; rewrite Hfut; cbn [rbind]; by rewrite Hkv.
Qed.

Lemma getResult_rev stamp z (e : entry) b :
  is_int64 e.1 -> link_ok (CreateRevision e.2) -> link_ok (PrevRevision e.2) ->
  getResult stamp (newModificationResultRev z (Some (int64ToVersionstamp e.1, Some e.2)) b) =
  Ok (z, Some (ev_KV (event_of e)), b).
Proof.
  intros Hr H1 H2. unfold getResult. cbn [wr_future wr_revRecord newModificationResultRev rbind].
  by rewrite revRecordToEvent_spec.
Qed.

(** The create revision that the successors of a record carry. *)
Lemma GetCreateRevision_link (e : entry) :
  entry_ok e -> link_ok (ByKeyAndRevisionRecord_GetCreateRevision (to_bk e)).
Proof.
  intros He. unfold ByKeyAndRevisionRecord_GetCreateRevision.
  cbn [to_bk bk_Value byKey_view IsCreate bk_Key kr_Rev CreateRevision].
  destruct (IsCreate e.2); [by apply stamp_link_ok|apply He].
Qed.

(** An appended successor of a record. *)
Lemma successor_ok r (e : entry) key del lease value uuid :
  0 < r <= int64_max -> entry_ok e -> is_int64 lease -> zlength value <= maxRecordSize ->
  length uuid = 16%nat ->
  entry_ok (r, with_WriteUUID (mkRec key del false lease
    (ByKeyAndRevisionRecord_GetCreateRevision (to_bk e)) (kr_Rev (bk_Key (to_bk e)))
    (zlength value) zeroUUID value false) uuid).
Proof.
  intros Hr He Hl Hv Hu. pose proof (GetCreateRevision_link e He) as Hc.
  pose proof (stamp_link_ok e He) as Hp.
  split; [done|]. split; [|split; [done|]; split; [by destruct del|done]].
  split_and!; try done; by apply link_versionstamp_ok.
Qed.

Lemma newer_than_last s h h0 c key (e : entry) r rec :
  Repr dir s h c -> key_part key h = key_part key h0 ++ [(r, rec)] ->
  latest h0 key = Some e -> e.1 < r.
Proof.
  intros HR Hk Hl. pose proof (R_sorted _ _ _ _ HR) as Hs.
  apply (ssorted_filter rev_lt (of_key key)) in Hs. fold (key_part key h) in Hs.
  rewrite Hk in Hs. unfold latest in Hl. fold (key_part key h0) in Hl.
  apply last_Some_elem_of in Hl.
  by apply (StronglySorted_app_1_elem_of rev_lt _ _ e (r, rec) Hs Hl); left.
Qed.

Definition updated (key value : bytes) (lease : Z) (e : entry) (uuid : bytes) : Rec :=
  with_WriteUUID (update_record key value lease (to_bk e)) uuid.

Lemma update_writes_once h0 c key value lease e :
  is_int64 lease -> zlength value <= maxRecordSize ->
  latest h0 key = Some e -> IsDelete e.2 = false ->
  writes_once key h0 c (update_body f key value e.1 lease) (updated key value lease e)
    (fun r => Some (ev_KV (event_of (r, updated key value lease e zeroUUID)))).
Proof.
  intros Hlease Hsize Hlast Hlive. split; [done|]. split.
  - intros s h rv version batch uuid last HR Hk Hfresh Huuid r. unfold update_body.
    pose proof (latest_key_part _ _ _ Hk) as El. rewrite Hlast in El.
    fold (open_tr s rv). rewrite (getLast_Repr _ h c) by done. rewrite El. cbn [rbind fmap option_fmap option_map].
    pose proof (latest_entry_ok _ _ _ _ _ HR El) as He.
    change (IsDelete (bk_Value (to_bk e))) with (IsDelete e.2). rewrite Hlive.
    change (kr_Rev (bk_Key (to_bk e))) with (int64ToVersionstamp e.1).
    rewrite VersionstampToInt64_int64ToVersionstamp by (by apply entry_ok_stamp). cbn [rbind].
    rewrite Z.eqb_refl. cbn [negb].
    destruct (append_spec s h c rv version batch r (update_record key value lease (to_bk e))
      (ValueSize (bk_Value (to_bk e))) uuid HR)
      as (fut & tr & Happ & HR2 & Hfut); [done|done|..].
    { by apply successor_ok; [apply Hfresh|..]. }
    { right. cbn [Key with_WriteUUID update_record]. rewrite El. unfold live. by rewrite Hlive. }
    rewrite Happ. cbn [rbind body_result]. eexists _, tr. split; [reflexivity|]. split; [done|].
    rewrite (getResult_key _ _ _ _ Hfut); [done|done|by apply GetCreateRevision_link|by apply stamp_link_ok].
  - intros s h rv r uuid uuid2 HR Hk. pose proof (latest_written _ _ _ _ Hk) as Hl.
    pose proof (latest_entry_ok _ _ _ _ _ HR Hl) as Hok.
    pose proof (newer_than_last _ _ _ _ _ _ _ _ HR Hk Hlast) as Hlt.
    pose proof (entry_ok_stamp _ Hok) as [_ Hr]. cbn [fst] in Hr.
    unfold update_body. fold (open_tr s rv).
    rewrite (getLast_Repr _ h c) by done. rewrite Hl. cbn [rbind fmap option_fmap option_map].
    change (IsDelete (bk_Value (to_bk (r, _)))) with false.
    change (kr_Rev (bk_Key (to_bk (r, ?x)))) with (int64ToVersionstamp r). cbn [fst].
    rewrite VersionstampToInt64_int64ToVersionstamp by done. cbn [rbind].
    rewrite (proj2 (Z.eqb_neq r e.1)) by lia. cbn [negb].
    apply latest_Some in Hl as [Hin _].
    rewrite (ByRevision_Get_Repr dir (open_tr s rv) h c (r, updated key value lease e uuid)) by done.
    cbn [rbind]. change (WriteUUID (bk_Value (to_bk (r, updated key value lease e uuid)))) with uuid.
    rewrite bool_decide_eq_true_2 by done. cbn [body_result].
    eexists. split; [reflexivity|]. intros stamp.
    by rewrite (getResult_rev stamp r (r, byRevision_view (updated key value lease e uuid)));
      [|done|apply Hok|apply Hok].
Qed.

Definition deleted (key : bytes) (e : entry) (uuid : bytes) : Rec :=
  with_WriteUUID (delete_record key (to_bk e) (byRevision_view e.2)) uuid.

Lemma delete_writes_once h0 c key revision e :
  latest h0 key = Some e -> IsDelete e.2 = false -> revision = 0 \/ revision = e.1 ->
  writes_once key h0 c (delete_body f key revision) (deleted key e)
    (fun r => Some (ev_KV (event_of (r, deleted key e zeroUUID)))).
Proof.
  intros Hlast Hlive Hrev. split; [done|]. split.
  - intros s h rv version batch uuid last HR Hk Hfresh Huuid r. unfold delete_body.
    pose proof (latest_key_part _ _ _ Hk) as El. rewrite Hlast in El.
    fold (open_tr s rv). rewrite (getLast_Repr _ h c) by done. rewrite El.
    cbn [rbind fmap option_fmap option_map].
    pose proof (latest_entry_ok _ _ _ _ _ HR El) as He.
    change (IsDelete (bk_Value (to_bk e))) with (IsDelete e.2). rewrite Hlive.
    change (kr_Rev (bk_Key (to_bk e))) with (int64ToVersionstamp e.1).
    pose proof (latest_Some _ _ _ El) as [Hin _].
    rewrite (ByRevision_Get_Repr dir (open_tr s rv) h c e) by done. cbn [rbind].
    rewrite VersionstampToInt64_int64ToVersionstamp by (by apply entry_ok_stamp). cbn [rbind].
    assert (Hstale : (if negb (revision =? 0) then Ok (negb (e.1 =? revision)) else Ok false) = Ok false).
    { destruct Hrev as [-> | ->]; [done|]. rewrite Z.eqb_refl. by destruct (_ =? 0). }
    rewrite Hstale. cbn [rbind assert_some].
    destruct (append_spec s h c rv version batch r (delete_record key (to_bk e) (byRevision_view e.2))
      0 uuid HR) as (fut & tr & Happ & HR2 & Hfut); [done|done|..].
    { unfold delete_record. cbn [Lease ValueSize Value byRevision_view].
      pose proof He as (_ & (Hl & _ & _ & -> & Hv & _) & _).
      by apply successor_ok; [apply Hfresh|..]. }
    { by left. }
    rewrite Happ. cbn [rbind body_result]. eexists _, tr. split; [reflexivity|]. split; [done|].
    rewrite (getResult_key _ _ _ _ Hfut); [done|done|by apply GetCreateRevision_link|by apply stamp_link_ok].
  - intros s h rv r uuid uuid2 HR Hk. pose proof (latest_written _ _ _ _ Hk) as Hl.
    pose proof (latest_entry_ok _ _ _ _ _ HR Hl) as Hok.
    pose proof (entry_ok_stamp _ Hok) as [_ Hr]. cbn [fst] in Hr.
    unfold delete_body. fold (open_tr s rv).
    rewrite (getLast_Repr _ h c) by done. rewrite Hl. cbn [rbind fmap option_fmap option_map].
    change (IsDelete (bk_Value (to_bk (r, _)))) with true.
    change (kr_Rev (bk_Key (to_bk (r, ?x)))) with (int64ToVersionstamp r).
    apply latest_Some in Hl as [Hin _].
    rewrite (ByRevision_Get_Repr dir (open_tr s rv) h c (r, deleted key e uuid)) by done.
    cbn [rbind]. change (WriteUUID (bk_Value (to_bk (r, deleted key e uuid)))) with uuid.
    rewrite bool_decide_eq_true_2 by done.
    rewrite VersionstampToInt64_int64ToVersionstamp by done. cbn [rbind body_result].
    eexists. split; [reflexivity|]. intros stamp.
    by rewrite (getResult_rev stamp r (r, byRevision_view (deleted key e uuid)));
      [|done|apply Hok|apply Hok].
Qed.

Lemma create_rev_successor (e : entry) :
  entry_ok e -> link_rev (ByKeyAndRevisionRecord_GetCreateRevision (to_bk e)) = create_rev e.
Proof.
  intros He. unfold ByKeyAndRevisionRecord_GetCreateRevision, create_rev.
  cbn [to_bk bk_Value byKey_view IsCreate bk_Key kr_Rev CreateRevision].
  destruct (IsCreate e.2); [|done]. apply link_rev_stamp, entry_ok_stamp, He.
Qed.

(** ** Writes that fail *)

(** The revision a failed write reports. *)
Definition head_rev (s : store) (rv n : Z) : Prop :=
  if UseSequentialId then counter dir s n else n = rv.

Lemma GetLatestRev_spec s tr n :
  tr_view tr = s -> head_rev s (tr_read_version tr) n -> GetLatestRev (rev f) tr = Ok n.
Proof.
  intros Hv. unfold head_rev, GetLatestRev, lastSequentialId, tr_Get. rewrite Hv.
  destruct UseSequentialId; [|by intros ->].
  intros [Hn [[-> ->]| ->]]; [done|]. rewrite tuple_unpack_pack; [done|].
  solve_tuple_ok. unfold is_int64, int64_min. lia.
Qed.

Lemma latest_result_spec s h c rv n o last :
  Repr dir s h c -> head_rev s rv n ->
  latest_result f (open_tr s rv) o last =
  Ok (newModificationResultRev n o false, open_tr s rv, last).
Proof.
  intros HR Hn. unfold latest_result. by rewrite (GetLatestRev_spec s (open_tr s rv) n).
Qed.

Lemma create_body_exists s h c rv key value lease uuid last e :
  Repr dir s h c -> latest h key = Some e -> IsDelete e.2 = false -> WriteUUID e.2 <> last ->
  create_body f key value lease uuid (begin_tr s rv) last = (Err ErrKeyExists, last).
Proof.
  intros HR Hl Hlive Hu. unfold create_body. fold (open_tr s rv).
  rewrite (getLast_Repr _ h c), Hl by done. cbn [rbind fmap option_fmap option_map].
  change (bk_Value (to_bk e)) with (byKey_view e.2). cbn [IsCreate byKey_view WriteUUID IsDelete].
  rewrite (bool_decide_eq_false_2 (last = WriteUUID e.2)) by congruence.
  by rewrite andb_false_r, Hlive.
Qed.

(** What an update that does not apply returns for the key. *)
Definition stale_update (h : history) (key : bytes) (revision : Z) (last : bytes) : Prop :=
  match live (latest h key) with
  | Some e => e.1 <> revision /\ WriteUUID e.2 <> last
  | None => True
  end.

Definition current_kv (h : history) (key : bytes) : option KeyValue :=
  match live (latest h key) with Some e => Some (ev_KV (event_of e)) | None => None end.

Lemma update_body_stale s h c rv n key value revision lease uuid last :
  Repr dir s h c -> head_rev s rv n -> stale_update h key revision last ->
  exists w, update_body f key value revision lease uuid (begin_tr s rv) last =
      (Ok (w, open_tr s rv), last) /\
    forall stamp, getResult stamp w = Ok (n, current_kv h key, false).
Proof.
  intros HR Hn Hst. unfold update_body, current_kv, stale_update in *. fold (open_tr s rv).
  rewrite (getLast_Repr _ h c) by done.
  destruct (latest h key) as [e|] eqn:El; cbn [rbind fmap option_fmap option_map live] in *.
  2:{ rewrite (latest_result_spec s h c rv n) by done. eexists. split; [reflexivity|done]. }
  change (IsDelete (bk_Value (to_bk e))) with (IsDelete e.2). unfold live in *.
  destruct (IsDelete e.2).
  { rewrite (latest_result_spec s h c rv n) by done. eexists. split; [reflexivity|done]. }
  pose proof (latest_entry_ok _ _ _ _ _ HR El) as He. pose proof (entry_ok_stamp _ He) as [_ Hi].
  change (kr_Rev (bk_Key (to_bk e))) with (int64ToVersionstamp e.1).
  rewrite VersionstampToInt64_int64ToVersionstamp by done. cbn [rbind].
  destruct Hst as [Hne Hu]. rewrite (proj2 (Z.eqb_neq _ _) Hne). cbn [negb].
  apply latest_Some in El as [Hin _].
  rewrite (ByRevision_Get_Repr dir (open_tr s rv) h c e) by done. cbn [rbind].
  change (WriteUUID (bk_Value (to_bk e))) with (WriteUUID e.2).
  rewrite (bool_decide_eq_false_2 (last = WriteUUID e.2)) by congruence.
  rewrite (latest_result_spec s h c rv n) by done. cbn [body_result].
  eexists. split; [reflexivity|]. intros stamp.
  by rewrite (getResult_rev stamp n (e.1, byRevision_view e.2)); [|done|apply He|apply He].
Qed.

Definition stale_delete (h : history) (key : bytes) (revision : Z) (last : bytes) : Prop :=
  match latest h key with
  | Some e => if IsDelete e.2 then WriteUUID e.2 <> last else revision <> 0 /\ e.1 <> revision
  | None => True
  end.

Lemma delete_body_stale s h c rv n key revision uuid last :
  Repr dir s h c -> head_rev s rv n -> stale_delete h key revision last ->
  exists w, delete_body f key revision uuid (begin_tr s rv) last = (Ok (w, open_tr s rv), last) /\
    forall stamp, getResult stamp w = Ok (n, current_kv h key, false).
Proof.
  intros HR Hn Hst. unfold delete_body, current_kv, stale_delete in *. fold (open_tr s rv).
  rewrite (getLast_Repr _ h c) by done.
  destruct (latest h key) as [e|] eqn:El; cbn [rbind fmap option_fmap option_map live] in *.
  2:{ rewrite (latest_result_spec s h c rv n) by done. eexists. split; [reflexivity|done]. }
  pose proof (latest_entry_ok _ _ _ _ _ HR El) as He. pose proof (entry_ok_stamp _ He) as [_ Hi].
  change (kr_Rev (bk_Key (to_bk e))) with (int64ToVersionstamp e.1).
  apply latest_Some in El as [Hin _].
  rewrite (ByRevision_Get_Repr dir (open_tr s rv) h c e) by done. cbn [rbind].
  change (IsDelete (bk_Value (to_bk e))) with (IsDelete e.2).
  change (WriteUUID (bk_Value (to_bk e))) with (WriteUUID e.2).
  destruct (IsDelete e.2).
  { rewrite (bool_decide_eq_false_2 (last = WriteUUID e.2)) by congruence.
    rewrite (latest_result_spec s h c rv n) by done. eexists. split; [reflexivity|done]. }
  destruct Hst as [H0 Hne]. rewrite (proj2 (Z.eqb_neq _ _) H0). cbn [negb].
  rewrite VersionstampToInt64_int64ToVersionstamp by done. cbn [rbind].
  rewrite (proj2 (Z.eqb_neq _ _) Hne). cbn [negb].
  rewrite (latest_result_spec s h c rv n) by done. cbn [body_result].
  eexists. split; [reflexivity|]. intros stamp.
  by rewrite (getResult_rev stamp n (e.1, byRevision_view e.2)); [|done|apply He|apply He].
Qed.
End WriteFacts.
