(* ===== verification/WriteSpec.v ===== *)
(** What Create, Update and Delete promise, over histories: each happens
    exactly once under retries, and a write that does not apply changes
    nothing and says why. *)
From stdpp Require Import base strings list gmap sorting.
From Stdlib Require Import Strings.Byte ZArith Lia.
From S2P Require Import Prelude FdbApi KeyOrder FdbInstance Util Subspaces SubspaceFacts Transact History Samples Write.

Section WriteSpec.
Context `{FB : FdbBindings, KV : KVStore, CF : Config}.
Context (dir : bytes).
Abbreviation f := (openSubspaces dir).

(** A run of a write's transaction: attempts that fail with errors the
    client library retries, or whose outcome is unknown, and one that
    commits; other clients write other keys meanwhile; commit versions
    grow. *)
Definition good_run (key : bytes) (h0 : history) (c : Z) (te : TransactEnv bytes) : Prop :=
  te_create te = None /\
  exists pre a, te_attempts te = pre ++ [a] /\
    Forall (attempt_ok dir key c) (pre ++ [a]) /\
    StronglySorted Z.lt (at_version <$> pre ++ [a]) /\
    Forall (fun b => Forall (fun e => e.1 < at_version b) h0) (pre ++ [a]) /\
    Forall retries pre /\ commits a.

Lemma transact_once key h0 c body mkrec kv te s uuid0 :
  writes_once dir key h0 c body mkrec kv -> Repr dir s h0 c -> good_run key h0 c te ->
  written_once dir key h0 c mkrec kv (transact body te s uuid0).
Proof.
  intros Honce HR (Hcreate & pre & a & Hatt & Hok & Hsort & Hlt & Hre & Hcommit).
  unfold transact. rewrite Hcreate, Hatt.
  apply (retryable_once dir key h0 c body mkrec kv pre a s uuid0 []); [done..|].
  unfold between. rewrite app_nil_r. split; [done|]. split; [|by left].
  destruct pre; by apply Forall_cons in Hlt as [? _].
Qed.

(** The first attempt commits, or would. *)
Definition first_attempt (te : TransactEnv bytes) (a : Attempt bytes) : Prop :=
  te_create te = None /\ (exists rest, te_attempts te = a :: rest) /\
  at_fault a = None /\ at_force_retry a = false.

Lemma transact_first (body : bytes -> Transaction -> bytes -> res (writeResult * Transaction) * bytes)
    te a s uuid0 w uuid1 :
  first_attempt te a -> at_commit a = Committed ->
  body (at_env a) (begin_tr (at_others a s) (at_read_version a)) uuid0 =
    (Ok (w, open_tr (at_others a s) (at_read_version a)), uuid1) ->
  exists stamp, transact body te s uuid0 =
    (Some (Ok (w, stamp)), at_others a s, uuid1).
Proof.
  intros (Hc & [rest Hatt] & Hf & Hforce) Hcom Hbody. unfold transact. rewrite Hc, Hatt.
  cbn [retryable]. unfold wrapped. rewrite Hf, Hbody, Hcom. unfold retry_decision. rewrite Hforce.
  rewrite tr_commit_open. eauto.
Qed.

(** C2: a create of a key that is absent or deleted happens exactly once,
    whatever attempts fail or have an unknown outcome: the call returns the
    revision of the one record that it added for the key, with the value,
    the lease and the link to the key's previous record, and the poll loop
    is woken. *)
Theorem Create_exactly_once key value lease h0 c te uuid0 s pollKick :
  Repr dir s h0 c -> live (latest h0 key) = None ->
  is_int64 lease -> zlength value <= maxRecordSize -> good_run key h0 c te ->
  exists r ext uuid s2,
    Create f te uuid0 key value lease s pollKick = (Some (Ok r), s2, true) /\
    Repr dir s2 (h0 ++ ext) c /\ key_part key ext = [(r, created h0 key value lease uuid)].
Proof.
  intros HR Hlive Hlease Hsize Hrun.
  pose proof (create_writes_once dir h0 c key value lease Hlease Hsize Hlive) as Honce.
  destruct (transact_once _ _ _ _ _ _ te s uuid0 Honce HR Hrun)
    as (w & stamp & s2 & last2 & ext & z & uuid & Ht & HR2 & Hk & Hres).
  exists z, ext, uuid, s2. split; [|done]. unfold Create.
  rewrite (proj2 (Z.ltb_ge _ _)) by lia. by rewrite Ht, Hres.
Qed.

(** C3: an update at the key's current revision happens exactly once: the
    new record continues the key's (same create revision, link to the
    record it replaces), and the call returns its revision and key-value. *)
Theorem Update_exactly_once key value lease h0 c e te uuid0 s pollKick :
  Repr dir s h0 c ->
  latest h0 key = Some e -> IsDelete e.2 = false ->
  is_int64 lease -> zlength value <= maxRecordSize -> good_run key h0 c te ->
  exists r ext uuid s2,
    Update f te uuid0 key value e.1 lease s pollKick =
      (Some (Ok (r, Some (mkKeyValue key (create_rev e) r value lease), true)), s2, true) /\
    Repr dir s2 (h0 ++ ext) c /\ key_part key ext = [(r, updated key value lease e uuid)].
Proof.
  intros HR Hlast Hlive Hlease Hsize Hrun.
  pose proof (update_writes_once dir h0 c key value lease e Hlease Hsize Hlast Hlive) as Honce.
  destruct (transact_once _ _ _ _ _ _ te s uuid0 Honce HR Hrun)
    as (w & stamp & s2 & last2 & ext & z & uuid & Ht & HR2 & Hk & Hres).
  exists z, ext, uuid, s2. split; [|done]. unfold Update, write_call.
  rewrite (proj2 (Z.ltb_ge _ _)) by lia. rewrite Ht, Hres.
  pose proof (latest_entry_ok _ _ _ _ _ _ HR Hlast) as He.
  unfold event_of, updated, create_rev at 1. cbn -[zlength link_rev].
  by rewrite (create_rev_successor e He), andb_false_r.
Qed.

(** C4: a delete of a live key, unconditional or at its current revision,
    happens exactly once: it adds a tombstone that keeps the last value and
    lease, and returns the tombstone's revision and the deleted value. *)
Theorem Delete_exactly_once key revision h0 c e te uuid0 s pollKick :
  Repr dir s h0 c ->
  latest h0 key = Some e -> IsDelete e.2 = false -> revision = 0 \/ revision = e.1 ->
  good_run key h0 c te ->
  exists r ext uuid s2,
    Delete f te uuid0 key revision s pollKick =
      (Some (Ok (r, Some (mkKeyValue key (create_rev e) r
                            (if APITest then [] else Value e.2) (Lease e.2)), true)), s2, true) /\
    Repr dir s2 (h0 ++ ext) c /\ key_part key ext = [(r, deleted key e uuid)].
Proof.
  intros HR Hlast Hlive Hrev Hrun.
  pose proof (delete_writes_once dir h0 c key revision e Hlast Hlive Hrev) as Honce.
  destruct (transact_once _ _ _ _ _ _ te s uuid0 Honce HR Hrun)
    as (w & stamp & s2 & last2 & ext & z & uuid & Ht & HR2 & Hk & Hres).
  exists z, ext, uuid, s2. split; [|done]. unfold Delete, write_call. rewrite Ht, Hres.
  pose proof (latest_entry_ok _ _ _ _ _ _ HR Hlast) as He.
  unfold event_of, deleted, create_rev at 1. cbn -[zlength link_rev].
  by rewrite (create_rev_successor e He), andb_true_r.
Qed.

(** C6: a create of a live key fails with ErrKeyExists, changes nothing and
    does not wake the poll loop. *)
Theorem Create_key_exists key value lease h c e te a uuid0 s pollKick :
  Repr dir (at_others a s) h c -> first_attempt te a ->
  latest h key = Some e -> IsDelete e.2 = false -> WriteUUID e.2 <> uuid0 ->
  zlength value <= maxRecordSize ->
  Create f te uuid0 key value lease s pollKick =
    (Some (Err ErrKeyExists), at_others a s, pollKick).
Proof.
  intros HR (Hc & [rest Hatt] & Hf & Hforce) Hlast Hlive Hu Hsize. unfold Create.
  rewrite (proj2 (Z.ltb_ge _ _)) by lia. unfold transact. rewrite Hc, Hatt. cbn [retryable].
  unfold wrapped. rewrite Hf, (create_body_exists dir _ h c _ _ _ _ _ _ e) by done.
  unfold retry_decision. by rewrite Hforce.
Qed.

(** C7: an update of a key that is absent, deleted or at another revision
    changes nothing, and returns the latest revision with the key's current
    key-value, or none. *)
Theorem Update_stale key value revision lease h c n te a uuid0 s pollKick :
  Repr dir (at_others a s) h c -> first_attempt te a -> at_commit a = Committed ->
  head_rev dir (at_others a s) (at_read_version a) n ->
  stale_update h key revision uuid0 -> zlength value <= maxRecordSize ->
  Update f te uuid0 key value revision lease s pollKick =
    (Some (Ok (n, current_kv h key, false)), at_others a s, true).
Proof.
  intros HR Hfirst Hcom Hn Hst Hsize. unfold Update, write_call.
  rewrite (proj2 (Z.ltb_ge _ _)) by lia.
  destruct (update_body_stale dir _ h c _ n key value revision lease (at_env a) uuid0 HR Hn Hst)
    as (w & Hbody & Hres).
  destruct (transact_first _ te a s uuid0 w uuid0 Hfirst Hcom Hbody) as [stamp ->].
  by rewrite Hres.
Qed.

(** C8: a delete of a key that is absent, deleted or at another revision
    than the one asked for changes nothing, and returns the latest revision
    with the key's current key-value, or none. *)
Theorem Delete_stale key revision h c n te a uuid0 s pollKick :
  Repr dir (at_others a s) h c -> first_attempt te a -> at_commit a = Committed ->
  head_rev dir (at_others a s) (at_read_version a) n -> stale_delete h key revision uuid0 ->
  Delete f te uuid0 key revision s pollKick =
    (Some (Ok (n, current_kv h key, false)), at_others a s, true).
Proof.
  intros HR Hfirst Hcom Hn Hst. unfold Delete, write_call.
  destruct (delete_body_stale dir _ h c _ n key revision (at_env a) uuid0 HR Hn Hst)
    as (w & Hbody & Hres).
  destruct (transact_first _ te a s uuid0 w uuid0 Hfirst Hcom Hbody) as [stamp ->].
  by rewrite Hres.
Qed.

(** Another client's delete of a live key, alone or with writes of other
    keys; all its records are below [v], the ones before it up to [p]. *)
Definition deletes_key (key : bytes) (c p v : Z) (others : store -> store) : Prop :=
  forall s h e, Repr dir s h c -> Forall (fun x => x.1 <= p) h ->
    latest h key = Some e -> IsDelete e.2 = false ->
    exists ext r uuid, Repr dir (others s) (h ++ ext) c /\ Forall (fun x => x.1 < v) ext /\
      key_part key ext = [(r, deleted key e uuid)].

(** Two attempts: the commit of the first is applied but reported unknown,
    another client deletes the key, the second one commits. *)
Definition interrupted_run (key : bytes) (h0 : history) (c : Z) (a1 a2 : Attempt bytes) : Prop :=
  attempt_ok dir key c a1 /\ Forall (fun e => e.1 < at_version a1) h0 /\
  at_fault a1 = None /\ at_commit a1 = CommitUnknown true /\ at_on_error a1 = None /\
  length (at_env a2) = 16%nat /\ at_version a1 < at_version a2 <= int64_max /\ commits a2 /\
  deletes_key key c (at_version a1) (at_version a2) (at_others a2).

(** An attempt that sees the key as the write needs it appends the record. *)
Lemma body_appends key h0 c body mkrec kv a s h last :
  writes_once dir key h0 c body mkrec kv -> Repr dir s h c -> key_part key h = key_part key h0 ->
  above h (at_version a) -> length (at_env a) = 16%nat ->
  let r := new_revision h (at_version a) in
  r <= at_version a /\
  exists w tr, body (at_env a) (begin_tr s (at_read_version a)) last = (Ok (w, tr), at_env a) /\
    Repr dir (tr_commit tr (at_version a) (at_batch a)) (h ++ [(r, mkrec (at_env a))]) c /\
    getResult (commit_stamp tr (at_version a) (at_batch a)) w = Ok (r, kv r, true).
Proof.
  intros (_ & Hw & _) HR Hk Habove Hu r. destruct (new_revision_fresh _ _ _ _ _ HR Habove) as [Hfresh Hle].
  split; [done|]. by apply Hw.
Qed.

Lemma key_part_single key r record : Key record = key -> key_part key [(r, record)] = [(r, record)].
Proof. intros Hk. unfold key_part. rewrite filter_cons, filter_nil. by rewrite decide_True. Qed.

(** C9: the UUID only protects a write while its record stays the last of the
    key.  When the commit of a create's first attempt is applied but reported
    unknown, and another client deletes the key before the next attempt, that
    one call of Create writes two create records: from any store, the key's
    history grows by the record of the first attempt, the other client's
    tombstone and the record of the second attempt, whose revision the call
    returns. *)
Theorem Create_twice_after_concurrent_delete key value lease h0 c a1 a2 uuid0 s pollKick :
  Repr dir s h0 c -> live (latest h0 key) = None ->
  is_int64 lease -> zlength value <= maxRecordSize -> interrupted_run key h0 c a1 a2 ->
  exists r1 gone r2 h1 ext s2,
    Create f (mkTransactEnv None [a1; a2]) uuid0 key value lease s pollKick = (Some (Ok r2), s2, true) /\
    Repr dir s2 (h0 ++ ext) c /\
    key_part key ext = [(r1, created h0 key value lease (at_env a1)); gone;
                        (r2, created h1 key value lease (at_env a2))] /\
    IsDelete gone.2 = true /\ latest h1 key = Some gone /\ r1 < gone.1 < r2.
Proof.
  intros HR Hlive Hlease Hsize (Hok1 & Hlt & Hf1 & Hc1 & Hre1 & Hu2 & Hv2 & (Hf2 & Hc2 & Hfo2) & Hdel).
  pose proof Hok1 as (Hu1 & Hv1 & Hoth). destruct (Hoth s h0 HR Hlt) as (e1 & HR1 & He1).
  pose proof (key_part_others key _ _ He1) as Hk1.
  assert (Hlt1 : Forall (fun e => e.1 < at_version a1) (h0 ++ e1)).
  { apply Forall_app. split; [done|]. eapply Forall_impl; [exact He1|]. by intros ? [? _]. }
  destruct (body_appends key h0 c _ _ _ a1 _ (h0 ++ e1) uuid0
    (create_writes_once dir h0 c key value lease Hlease Hsize Hlive) HR1)
    as (Hle1 & w1 & tr1 & Hb1 & HR2 & _); [by rewrite key_part_app, Hk1, app_nil_r|by split|done|].
  set (r1 := new_revision (h0 ++ e1) (at_version a1)) in *.
  set (x1 := (r1, created h0 key value lease (at_env a1))) in *.
  assert (Hkx : key_part key [x1] = [x1]) by (by apply key_part_single).
  assert (Hlast1 : latest ((h0 ++ e1) ++ [x1]) key = Some x1).
  { unfold latest. fold (key_part key ((h0 ++ e1) ++ [x1])). by rewrite key_part_app, Hkx, last_snoc. }
  destruct (Hdel _ _ _ HR2 ltac:(apply Forall_app; split; [eapply Forall_impl; [exact Hlt1|cbn; lia]|by apply Forall_singleton])
    Hlast1 eq_refl) as (e2 & r & u & HR3 & He2 & Hk2).
  set (gone := (r, deleted key x1 u)) in *. set (h1 := ((h0 ++ e1) ++ [x1]) ++ e2) in *.
  assert (Hlast2 : latest h1 key = Some gone).
  { unfold latest, h1. fold (key_part key (((h0 ++ e1) ++ [x1]) ++ e2)). by rewrite key_part_app, Hk2, last_snoc. }
  assert (Habove2 : above h1 (at_version a2)).
  { split; [lia|]. apply Forall_app. split; [|done]. apply Forall_app. split; [|apply Forall_singleton; cbn; lia].
    eapply Forall_impl; [exact Hlt1|]. cbn. lia. }
  destruct (body_appends key h1 c _ _ _ a2 _ h1 (at_env a1)
    (create_writes_once dir h1 c key value lease Hlease Hsize ltac:(by rewrite Hlast2)) HR3 eq_refl Habove2 Hu2)
    as (_ & w2 & tr2 & Hb2 & HR4 & Hres).
  set (r2 := new_revision h1 (at_version a2)) in *.
  exists r1, gone, r2, h1, (e1 ++ [x1] ++ e2 ++ [(r2, created h1 key value lease (at_env a2))]), (tr_commit tr2 (at_version a2) (at_batch a2)).
  assert (Hhist : h0 ++ e1 ++ [x1] ++ e2 ++ [(r2, created h1 key value lease (at_env a2))] =
                  h1 ++ [(r2, created h1 key value lease (at_env a2))]) by (unfold h1; by rewrite <-!app_assoc).
  split_and!.
  - unfold Create. rewrite (proj2 (Z.ltb_ge _ _)) by lia. unfold transact. cbn [te_create te_attempts retryable].
    unfold wrapped at 1. rewrite Hf1, Hb1, Hc1. unfold retry_decision at 1. rewrite Hre1.
    destruct (at_force_retry a1); unfold wrapped; rewrite Hf2, Hb2, Hc2; unfold retry_decision; rewrite Hfo2, Hres; done.
  - by rewrite Hhist.
  - rewrite !key_part_app, Hk1, Hkx, Hk2. by rewrite key_part_single.
  - done.
  - done.
  - pose proof (R_sorted _ _ _ _ HR3) as Hs. unfold h1 in Hs.
    apply (StronglySorted_app_1_elem_of rev_lt _ _ x1 gone Hs); [apply elem_of_app; right; left|].
    assert (Hin : gone ∈ key_part key e2) by (rewrite Hk2; left). by apply list_elem_of_filter in Hin as [_ ?].
  - pose proof (R_sorted _ _ _ _ HR4) as Hs.
    apply (StronglySorted_app_1_elem_of rev_lt _ _ gone (r2, created h1 key value lease (at_env a2)) Hs); [|left].
    by apply latest_Some in Hlast2 as [? _].
Qed.

(** C24: what [append] commits reads back.  A later transaction that looks up
    the new revision gets the record with its whole value, over all its
    chunks; the last record of the key is the new one, with its UUID and its
    revision; every record of the history before still reads as it was, and
    so does the last record of every other key. *)
Theorem append_reads_back s h c rv version batch record prevSize uuid rv2 :
  let r := new_revision h version in
  let new := with_WriteUUID record uuid in
  Repr dir s h c -> above h version -> entry_ok (r, new) -> prev_ok h new prevSize ->
  exists fut tr, append f (open_tr s rv) record prevSize uuid = Ok (fut, uuid, tr) /\
    future_rev (commit_stamp tr version batch) fut = Ok r /\
    let later := begin_tr (tr_commit tr version batch) rv2 in
    ByRevision_Get (byRevision f) later (int64ToVersionstamp r) = Ok (Some (byRevision_view record)) /\
    getLast f later (Key record) = Ok (Some (to_bk (r, new))) /\
    (forall e, e ∈ h -> ByRevision_Get (byRevision f) later (int64ToVersionstamp e.1) = Ok (Some (byRevision_view e.2))) /\
    (forall key, key <> Key record -> getLast f later key = getLast f (begin_tr s rv2) key).
Proof.
  intros r new HR Habove Hok Hprev. destruct (new_revision_fresh _ _ _ _ _ HR Habove) as [Hfresh _].
  destruct (append_spec dir s h c rv version batch r record prevSize uuid HR eq_refl Hfresh Hok Hprev)
    as (fut & tr & Happ & HR2 & Hfut).
  exists fut, tr. split; [done|]. split; [done|]. intros later.
  assert (HL : Repr dir (tr_view later) (h ++ [(r, new)]) c) by done.
  split_and!.
  - apply (ByRevision_Get_Repr dir later _ c (r, new) HL). apply elem_of_app. right. left.
  - rewrite (getLast_Repr dir later _ c _ HL), latest_app. cbn [snd]. by rewrite decide_True.
  - intros e He. apply (ByRevision_Get_Repr dir later _ c e HL). apply elem_of_app. by left.
  - intros key Hk. rewrite (getLast_Repr dir later _ c _ HL), latest_app. cbn [snd].
    rewrite decide_False by (intros E; by apply Hk). symmetry. by apply (getLast_Repr dir _ h c).
Qed.
End WriteSpec.

(** * Concrete runs *)

(** An attempt at a version; a run whose first commit has an unknown outcome. *)
Definition sample_attempt (version : Z) (u : byte) (commit : CommitOutcome) : Attempt bytes :=
  mkAttempt id (sample_uuid u) None (version - 1) commit version 0 false None.

Definition sample_run (applied : bool) : TransactEnv bytes :=
  mkTransactEnv None [sample_attempt 20 Byte.x20 (CommitUnknown applied);
                      sample_attempt 30 Byte.x21 Committed].

Lemma sample_attempt_ok `{CF : Config} key version u commit :
  1 < version <= int64_max -> attempt_ok sample_dir key 0 (sample_attempt version u commit).
Proof.
  intros Hv. split; [reflexivity|]. split; [cbn; destruct UseSequentialId; lia|]. intros s h HR _. exists [].
  rewrite app_nil_r. split; [exact HR|constructor].
Qed.

Lemma sample_run_good `{CF : Config} key applied h :
  Forall (fun e => e.1 < 20) h -> good_run sample_dir key h 0 (sample_run applied).
Proof.
  intros Hh. split; [reflexivity|]. exists [sample_attempt 20 Byte.x20 (CommitUnknown applied)],
    (sample_attempt 30 Byte.x21 Committed).
  split; [reflexivity|]. split.
  { apply Forall_cons_2; [|apply Forall_singleton]; apply sample_attempt_ok; unfold int64_max; lia. }
  split; [apply (bool_decide_unpack _); vm_compute; exact I|].
  split; [|split; [repeat constructor|repeat split]].
  apply Forall_cons_2; [exact Hh|]. apply Forall_singleton. eapply Forall_impl; [exact Hh|]. cbn. lia.
Qed.

Lemma sample_good_run key applied : good_run sample_dir key sample_history 0 (sample_run applied).
Proof. apply sample_run_good. by apply (bool_decide_eq_true_1 (Forall (fun e : entry => e.1 < 20) sample_history)). Qed.

Lemma Create_exactly_once_witness :
  exists r ext uuid s2,
    Create (openSubspaces sample_dir) (sample_run true) (sample_uuid Byte.x22) (str "/b") (str "new") 0
      sample_store false = (Some (Ok r), s2, true) /\
    Repr sample_dir s2 (sample_history ++ ext) 0 /\
    key_part (str "/b") ext = [(r, created sample_history (str "/b") (str "new") 0 uuid)].
Proof.
  apply (Create_exactly_once (CF := sample_config) sample_dir (str "/b") (str "new") 0 sample_history 0 (sample_run true)
    (sample_uuid Byte.x22) sample_store false).
  - exact sample_repr.
  - vm_compute. reflexivity.
  - vm_compute. split; congruence.
  - vm_compute. congruence.
  - apply sample_good_run.
Defined.

Definition sample_last (key : bytes) : entry := default (0, create_record [] [] 0 dummyVersionstamp) (latest sample_history key).

Lemma Update_exactly_once_witness :
  exists r ext uuid s2,
    Update (openSubspaces sample_dir) (sample_run true) (sample_uuid Byte.x22) (str "/a") (str "new") 7 0
      sample_store false =
      (Some (Ok (r, Some (mkKeyValue (str "/a") 3 r (str "new") 0), true)), s2, true) /\
    Repr sample_dir s2 (sample_history ++ ext) 0 /\
    key_part (str "/a") ext = [(r, updated (str "/a") (str "new") 0 (sample_last (str "/a")) uuid)].
Proof.
  apply (Update_exactly_once (CF := sample_config) sample_dir (str "/a") (str "new") 0 sample_history 0 (sample_last (str "/a"))
    (sample_run true) (sample_uuid Byte.x22) sample_store false).
  - exact sample_repr.
  - vm_compute. reflexivity.
  - vm_compute. reflexivity.
  - vm_compute. split; congruence.
  - vm_compute. congruence.
  - apply sample_good_run.
Defined.

Lemma Delete_exactly_once_witness :
  exists r ext uuid s2,
    Delete (openSubspaces sample_dir) (sample_run false) (sample_uuid Byte.x22) (str "/a") 7
      sample_store false =
      (Some (Ok (r, Some (mkKeyValue (str "/a") 3 r (str "three") 0), true)), s2, true) /\
    Repr sample_dir s2 (sample_history ++ ext) 0 /\
    key_part (str "/a") ext = [(r, deleted (str "/a") (sample_last (str "/a")) uuid)].
Proof.
  apply (Delete_exactly_once (CF := sample_config) sample_dir (str "/a") 7 sample_history 0 (sample_last (str "/a"))
    (sample_run false) (sample_uuid Byte.x22) sample_store false).
  - exact sample_repr.
  - vm_compute. reflexivity.
  - vm_compute. reflexivity.
  - right. vm_compute. reflexivity.
  - apply sample_good_run.
Defined.

Definition sample_single : TransactEnv bytes :=
  mkTransactEnv None [sample_attempt 20 Byte.x20 Committed].

Lemma sample_first : first_attempt sample_single (sample_attempt 20 Byte.x20 Committed).
Proof. repeat split. by exists []. Qed.

Lemma Create_key_exists_witness :
  Create (openSubspaces sample_dir) sample_single (sample_uuid Byte.x22) (str "/a") (str "new") 0
    sample_store false = (Some (Err ErrKeyExists), sample_store, false).
Proof.
  apply (Create_key_exists (CF := sample_config) sample_dir (str "/a") (str "new") 0 sample_history 0 (sample_last (str "/a"))
    sample_single (sample_attempt 20 Byte.x20 Committed) (sample_uuid Byte.x22) sample_store false).
  - exact sample_repr.
  - exact sample_first.
  - vm_compute. reflexivity.
  - vm_compute. reflexivity.
  - vm_compute. congruence.
  - vm_compute. congruence.
Defined.

Lemma Update_stale_witness :
  Update (openSubspaces sample_dir) sample_single (sample_uuid Byte.x22) (str "/a") (str "new") 3 0
    sample_store false =
    (Some (Ok (19, Some (mkKeyValue (str "/a") 3 7 (str "three") 0), false)), sample_store, true).
Proof.
  apply (Update_stale (CF := sample_config) sample_dir (str "/a") (str "new") 3 0 sample_history 0 19
    sample_single (sample_attempt 20 Byte.x20 Committed) (sample_uuid Byte.x22) sample_store false).
  - exact sample_repr.
  - exact sample_first.
  - reflexivity.
  - reflexivity.
  - vm_compute. split; congruence.
  - vm_compute. congruence.
Defined.

Lemma Delete_stale_witness :
  Delete (openSubspaces sample_dir) sample_single (sample_uuid Byte.x22) (str "/b") 5
    sample_store false = (Some (Ok (19, None, false)), sample_store, true).
Proof.
  apply (Delete_stale (CF := sample_config) sample_dir (str "/b") 5 sample_history 0 19
    sample_single (sample_attempt 20 Byte.x20 Committed) (sample_uuid Byte.x22) sample_store false).
  - exact sample_repr.
  - exact sample_first.
  - reflexivity.
  - reflexivity.
  - vm_compute. congruence.
Defined.

(** Another client that deletes a key between two attempts of a create. *)
Definition peer_delete (key : bytes) (version : Z) (s : gmap bytes bytes) : gmap bytes bytes :=
  (Delete (openSubspaces sample_dir) (mkTransactEnv None [sample_attempt version Byte.x30 Committed])
     (sample_uuid Byte.x31) key 0 s false).1.2.

Definition interrupted : Attempt bytes := sample_attempt 20 Byte.x20 (CommitUnknown true).
Definition resumed (key : bytes) : Attempt bytes :=
  mkAttempt (peer_delete key 25) (sample_uuid Byte.x21) None 29 Committed 30 0 false None.

Lemma peer_delete_deletes key : deletes_key sample_dir key 0 20 30 (peer_delete key 25).
Proof.
  intros s h e HR Hh Hlast Hlive. set (a := sample_attempt 25 Byte.x30 Committed).
  destruct (body_appends sample_dir key h 0 _ _ _ a s h (sample_uuid Byte.x31)
    (delete_writes_once sample_dir h 0 key 0 e Hlast Hlive (or_introl eq_refl)) HR eq_refl)
    as (Hle & w & tr & Hb & HR2 & _); [|reflexivity|].
  { split; [cbn; unfold int64_max; lia|]. eapply Forall_impl; [exact Hh|]. cbn. lia. }
  exists [(new_revision h 25, deleted key e (sample_uuid Byte.x30))], (new_revision h 25), (sample_uuid Byte.x30).
  split_and!.
  - replace (peer_delete key 25 s) with (tr_commit tr 25 0); [exact HR2|].
    unfold peer_delete, Delete, write_call, transact. cbn [te_create te_attempts retryable].
    fold a. unfold wrapped. change (at_fault a) with (@None Z). change (at_others a s) with s. rewrite Hb. done.
  - apply Forall_singleton. cbn in *. lia.
  - by apply key_part_single.
Qed.

Lemma Create_twice_after_concurrent_delete_witness :
  exists r1 gone r2 h1 ext s2,
    Create (openSubspaces sample_dir) (mkTransactEnv None [interrupted; resumed (str "/z")]) (sample_uuid Byte.x22)
      (str "/z") (str "v") 0 sample_store false = (Some (Ok r2), s2, true) /\
    Repr sample_dir s2 (sample_history ++ ext) 0 /\
    key_part (str "/z") ext = [(r1, created sample_history (str "/z") (str "v") 0 (sample_uuid Byte.x20)); gone;
                        (r2, created h1 (str "/z") (str "v") 0 (sample_uuid Byte.x21))] /\
    IsDelete gone.2 = true /\ latest h1 (str "/z") = Some gone /\ r1 < gone.1 < r2.
Proof.
  apply (Create_twice_after_concurrent_delete (CF := sample_config) sample_dir (str "/z") (str "v") 0 sample_history 0
    interrupted (resumed (str "/z")) (sample_uuid Byte.x22) sample_store false).
  - exact sample_repr.
  - vm_compute. reflexivity.
  - vm_compute. split; congruence.
  - vm_compute. congruence.
  - split; [apply sample_attempt_ok; unfold int64_max; lia|].
    split; [by apply (bool_decide_eq_true_1 (Forall (fun e : entry => e.1 < 20) sample_history))|].
    repeat (split; [reflexivity|]). split; [cbn; unfold int64_max; lia|].
    split; [done|]. exact (peer_delete_deletes (str "/z")).
Defined.

Definition record_at (s : gmap bytes bytes) (r : Z) : option (bytes * bool) :=
  match ByRevision_Get (byRevision (openSubspaces sample_dir)) (begin_tr s 0) (int64ToVersionstamp r) with
  | Ok (Some record) => Some (Key record, IsCreate record)
  | _ => None
  end.

(** The run: the key is created at revisions 20 and 30. *)
Example created_twice_run :
  let '(result, s2, _) :=
    Create (openSubspaces sample_dir) (mkTransactEnv None [interrupted; resumed (str "/z")]) (sample_uuid Byte.x22)
      (str "/z") (str "v") 0 sample_store false in
  result = Some (Ok 30) /\
  record_at s2 20 = Some (str "/z", true) /\ record_at s2 25 = Some (str "/z", false) /\
  record_at s2 30 = Some (str "/z", true).
Proof. vm_compute. repeat split. Qed.

(** A value of more than one chunk. *)
Definition long_record : Rec := create_record (str "/long") (replicate (Z.to_nat 10003) Byte.x61) 5 dummyVersionstamp.

Lemma append_reads_back_witness :
  exists fut tr, append (openSubspaces sample_dir) (open_tr sample_store 19) long_record 0 (sample_uuid Byte.x20) =
      Ok (fut, sample_uuid Byte.x20, tr) /\
    future_rev (commit_stamp tr 20 0) fut = Ok 20 /\
    let later := begin_tr (tr_commit tr 20 0) 25 in
    ByRevision_Get (byRevision (openSubspaces sample_dir)) later (int64ToVersionstamp 20) =
      Ok (Some (byRevision_view long_record)) /\
    getLast (openSubspaces sample_dir) later (str "/long") =
      Ok (Some (to_bk (20, with_WriteUUID long_record (sample_uuid Byte.x20)))) /\
    (forall e, e ∈ sample_history ->
       ByRevision_Get (byRevision (openSubspaces sample_dir)) later (int64ToVersionstamp e.1) = Ok (Some (byRevision_view e.2))) /\
    (forall key, key <> str "/long" ->
       getLast (openSubspaces sample_dir) later key = getLast (openSubspaces sample_dir) (begin_tr sample_store 25) key).
Proof.
  apply (append_reads_back (KV := map_store) (CF := sample_config) sample_dir sample_store sample_history 0 19 20 0 long_record 0
    (sample_uuid Byte.x20) 25).
  - exact sample_repr.
  - split; [cbn; unfold int64_max; lia|].
    by apply (bool_decide_eq_true_1 (Forall (fun e : entry => e.1 < 20) sample_history)).
  - split; [vm_compute; split; congruence|]. split; [|split; [done|]; split; [done|]; split; by left].
    split_and!; try done; try apply dummyVersionstamp_ok; vm_compute; try split; congruence.
  - right. vm_compute. congruence.
Defined.
