(* ===== verification/Read.v ===== *)
(** pkg/drivers/fdb/fdb_read.go: the collectors of a scan over the by-key
    index, List, Get and CurrentRevision.  A collector is a [Processor]; the
    record collector wraps the list and count ones.  The record it holds is a
    value here and a pointer in the code: a batch that is run again may find
    the mark [LatestForKey] cleared by the attempt before, and then fetches the
    same value under the record's revision. *)
From stdpp Require Import base strings list gmap sorting.
From Stdlib Require Import Strings.Byte ZArith Lia.
From S2P Require Import Prelude FdbApi KeyOrder Util Subspaces SubspaceFacts Transact.

Definition secondaryFetchPipeline : Z := 256.

(** * Collectors *)

Record countCollector := mkCountCollector {
  totalCount : Z;
  batchCount : Z
}.

Record listCollector := mkListCollector {
  lc_f : FDB;
  lc_limit : Z;
  lc_keysOnly : bool;
  lc_records : list RevRecord;
  lc_batchRecords : list RevRecord
}.

Record recordCollector (C : Type) := mkRecordCollector {
  rc_f : FDB;
  rc_maxRevision : Z;
  rc_inner : C;
  rc_currentRecord : option ByKeyAndRevisionRecord;
  rc_batchCurrentRecord : option ByKeyAndRevisionRecord;
  rc_firstRev : Z;
  rc_rev : Z;
  rc_batchRev : Z
}.
Arguments mkRecordCollector {C}.
Arguments rc_f {C}.
Arguments rc_maxRevision {C}.
Arguments rc_inner {C}.
Arguments rc_currentRecord {C}.
Arguments rc_batchCurrentRecord {C}.
Arguments rc_firstRev {C}.
Arguments rc_rev {C}.
Arguments rc_batchRev {C}.

Section ReadDefs.
Context `{FB : FdbBindings, KV : KVStore, CF : Config}.

(** ** The count collector *)

#[global] Instance countCollector_Processor : Processor ByKeyAndRevisionRecord countCollector := {
  startBatch c := mkCountCollector (totalCount c) 0;
  next tr record c := (Ok (None, true, tr, record), mkCountCollector (totalCount c) (to_int64 (batchCount c + 1)));
  endBatch tr _ c := (Ok tr, c);
  postBatch c := mkCountCollector (to_int64 (totalCount c + batchCount c)) (batchCount c)
}.

(** ** The list collector *)

(** The collector's fields; the capacity that Go allocates first is not one
    of them.  A negative capacity panics in [listKeyValue], the only caller
    whose limit is not a constant; one that does not fit the memory is not
    modelled. *)
Definition newListCollector (f : FDB) (limit : Z) (keysOnly : bool) : listCollector :=
  mkListCollector f limit keysOnly [] [].

Definition lc_set_batch (c : listCollector) (l : list RevRecord) : listCollector :=
  mkListCollector (lc_f c) (lc_limit c) (lc_keysOnly c) (lc_records c) l.

Definition needMore (c : listCollector) : bool :=
  (lc_limit c =? 0) || (zlength (lc_batchRecords c) + zlength (lc_records c) <? lc_limit c).

Definition rec_key (r : RevRecord) : bytes := Key (rr_Record r).

Definition rr_with_Value (r : RevRecord) (v : bytes) : RevRecord :=
  mkRevRecord (rr_Rev r) (with_Value (rr_Record r) v).

(** [for idx < len(records) && records[idx].Key < key { idx++ }] *)
Fixpoint skip_below (fuel : nat) (records : list RevRecord) (idx : nat) (key : bytes) : nat :=
  match fuel with
  | O => idx
  | S fuel =>
      match records !! idx with
      | Some r => if bltb (rec_key r) key then skip_below fuel records (S idx) key else idx
      | None => idx
      end
  end.

(** The merge-join of the batch with the chunks of the current values; a
    buffer that was not made yet is [None]. *)
Fixpoint merge_join (f : FDB) (records : list RevRecord) (it : RangeIterator) (idx : nat)
    (bufs : list (option bytes)) : res (list (option bytes)) :=
  match it with
  | [] => Ok bufs
  | kv :: it =>
      let? '(key, value) := ByKeyCurrent_parseKV (byKeyCurrent f) kv in
      let idx := skip_below (length records) records idx key in
      match records !! idx with
      | None => Ok bufs
      | Some r =>
          if bool_decide (rec_key r = key) && LatestForKey (rr_Record r) then
            let? buf :=
              match bufs !! idx with
              | Some (Some b) => Ok b
              | _ => if ValueSize (rr_Record r) <? 0 then Panic else Ok []
              end in
            merge_join f records it idx (<[idx := Some (buf ++ value)]> bufs)
          else merge_join f records it idx bufs
      end
  end.

(** The values found by the join, and the indices of the records that still
    need one. *)
Fixpoint assign_values (i : nat) (records : list RevRecord) (bufs : list (option bytes))
    : list RevRecord * list nat :=
  match records, bufs with
  | r :: records, buf :: bufs =>
      let '(rest, legacy) := assign_values (S i) records bufs in
      if ValueSize (rr_Record r) =? 0 then (rr_with_Value r [] :: rest, legacy)
      else if zlength (default [] buf) =? ValueSize (rr_Record r)
      then (rr_with_Value r (default [] buf) :: rest, legacy)
      else (r :: rest, i :: legacy)
  | _, _ => ([], [])
  end.

Fixpoint map_res {A B} (g : A -> res B) (l : list A) : res (list B) :=
  match l with
  | [] => Ok []
  | x :: l => let? y := g x in let? ys := map_res g l in Ok (y :: ys)
  end.

(** The second loop of a window of [fetchLegacy]. *)
Fixpoint drain (f : FDB) (indices : list nat) (iterators : list RangeIterator)
    (records : list RevRecord) : res (list RevRecord) :=
  match indices, iterators with
  | i :: indices, it :: iterators =>
      let? '(r, _) := ByRevision_GetFromIterator (byRevision f) it in
      match r with
      | None => Err (ErrMessage "no records in by rev iterator")
      | Some (rev, record) =>
          drain f indices iterators (<[i := mkRevRecord rev record]> records)
      end
  | _, _ => Ok records
  end.

Definition fetchLegacy (f : FDB) (tr : Transaction) (indices : list nat) (records : list RevRecord)
    : res (list RevRecord) :=
  for_loop 0 (zlength indices) secondaryFetchPipeline (fun start records =>
    let end_ := Z.min (start + secondaryFetchPipeline) (zlength indices) in
    let window := slice indices start end_ in
    let? iterators :=
      map_res (fun i => let? r := assert_some (records !! i) in
                        ByRevision_GetIterator (byRevision f) tr (rr_Rev r)) window in
    drain f window iterators records) records.

(** The body of [endBatch]: the batch with its values. *)
Definition fetch_values (f : FDB) (tr : Transaction) (records : list RevRecord) : res (list RevRecord) :=
  match records, last records with
  | first :: _, Some last =>
      let? selector := ByKeyCurrent_RangeForKeys (byKeyCurrent f) (rec_key first) (rec_key last) in
      let it := tr_GetRange tr selector in
      let? bufs := merge_join f records it 0 (replicate (length records) None) in
      let '(records, legacy) := assign_values 0 records bufs in
      fetchLegacy f tr legacy records
  | _, _ => Ok records
  end.

Definition listCollector_endBatch (tr : Transaction) (c : listCollector) : res Transaction * listCollector :=
  if lc_keysOnly c || (length (lc_batchRecords c) =? 0)%nat then (Ok tr, c)
  else match fetch_values (lc_f c) tr (lc_batchRecords c) with
       | Ok l => (Ok tr, lc_set_batch c l)
       | Err e => (Err e, c)
       | Panic => (Panic, c)
       end.

#[global] Instance listCollector_Processor : Processor ByKeyAndRevisionRecord listCollector := {
  startBatch c := lc_set_batch c [];
  next tr record c :=
    let c := lc_set_batch c (lc_batchRecords c ++
               [mkRevRecord (kr_Rev (bk_Key record)) (bk_Value record)]) in
    (Ok (None, needMore c, tr, record), c);
  endBatch tr _ c := listCollector_endBatch tr c;
  postBatch c := mkListCollector (lc_f c) (lc_limit c) (lc_keysOnly c)
                   (lc_records c ++ lc_batchRecords c) (lc_batchRecords c)
}.

(** ** The record collector *)

Section RecordCollector.
Context {C : Type} `{!Processor ByKeyAndRevisionRecord C}.

Definition newRecordCollector (f : FDB) (maxRevision : Z) (inner : C) : recordCollector C :=
  mkRecordCollector f maxRevision inner None None 0 0 0.

Definition rc_set (c : recordCollector C) (inner : C) (cur : option ByKeyAndRevisionRecord)
    : recordCollector C :=
  mkRecordCollector (rc_f c) (rc_maxRevision c) inner (rc_currentRecord c) cur
                    (rc_firstRev c) (rc_rev c) (rc_batchRev c).

Definition set_LatestForKey (r : ByKeyAndRevisionRecord) (b : bool) : ByKeyAndRevisionRecord :=
  let v := bk_Value r in
  mkByKeyAndRevisionRecord (bk_Key r)
    (mkRec (Key v) (IsDelete v) (IsCreate v) (Lease v) (CreateRevision v) (PrevRevision v)
           (ValueSize v) (WriteUUID v) (Value v) b).

(** Passing a record to the inner collector unless it is a tombstone. *)
Definition flush (tr : Transaction) (r : ByKeyAndRevisionRecord) (inner : C)
    : res (bool * Transaction) * C :=
  if IsDelete (bk_Value r) then (Ok (true, tr), inner)
  else match next tr r inner with
       | (Ok (_, more, tr, _), inner) => (Ok (more, tr), inner)
       | (Err e, inner) => (Err e, inner)
       | (Panic, inner) => (Panic, inner)
       end.

(** Whether a revision is in the window of the scan. *)
Definition in_window (c : recordCollector C) (recordRev : Z) : bool :=
  ((rc_maxRevision c =? 0) || (recordRev <=? rc_maxRevision c)) &&
  ((rc_firstRev c =? 0) || (recordRev <=? rc_firstRev c)).

Definition recordCollector_next (tr : Transaction) (it : RangeIterator) (c : recordCollector C)
    : res (option bytes * bool * Transaction * RangeIterator) * recordCollector C :=
  match ByKey_GetFromIterator (byKeyAndRevision (rc_f c)) it with
  | Err e => (Err e, c)
  | Panic => (Panic, c)
  | Ok (None, it) => (Ok (None, false, tr, it), c)
  | Ok (Some nxt, it) =>
      let nextKey := kr_Key (bk_Key nxt) in
      let '(flushed, c) :=
        match rc_batchCurrentRecord c with
        | Some cur =>
            if decide (kr_Key (bk_Key cur) <> nextKey) then
              let '(r, inner) := flush tr cur (rc_inner c) in
              (r, rc_set c inner (match r with Ok _ => None | _ => Some cur end))
            else (Ok (true, tr), c)
        | None => (Ok (true, tr), c)
        end in
      match flushed with
      | Err e => (Err e, c)
      | Panic => (Panic, c)
      | Ok (needMore, tr) =>
          match VersionstampToInt64 (kr_Rev (bk_Key nxt)) with
          | Err e => (Err e, c)
          | Panic => (Panic, c)
          | Ok recordRev =>
              let cur :=
                if in_window c recordRev then Some (set_LatestForKey nxt true)
                else match rc_batchCurrentRecord c with
                     | Some cur =>
                         if decide (kr_Key (bk_Key cur) = nextKey)
                         then Some (set_LatestForKey cur false) else Some cur
                     | None => None
                     end in
              (Ok (Some (Pack (byKeyAndRevision (rc_f c))
                           [TString nextKey; TVersionstamp (kr_Rev (bk_Key nxt))]),
                   needMore, tr, it),
               rc_set c (rc_inner c) cur)
          end
      end
  end.

(** [endBatch] after the last record is passed on: the inner collector's, the
    read revision, and the check that the revision asked for is not
    compacted. *)
Definition recordCollector_finish (tr : Transaction) (isLast : bool) (c : recordCollector C)
    : res Transaction * recordCollector C :=
  let '(r, inner) := endBatch tr isLast (rc_inner c) in
  let c := rc_set c inner (rc_batchCurrentRecord c) in
  match r with
  | Err e => (Err e, c)
  | Panic => (Panic, c)
  | Ok tr =>
      match GetLatestRev (rev (rc_f c)) tr with
      | Err e => (Err e, c)
      | Panic => (Panic, c)
      | Ok latestRev =>
          let c := mkRecordCollector (rc_f c) (rc_maxRevision c) (rc_inner c)
                     (rc_currentRecord c) (rc_batchCurrentRecord c) (rc_firstRev c)
                     (rc_rev c) latestRev in
          (if 0 <? rc_maxRevision c then
             let? v := CompactRev_Get (compactRev (rc_f c)) tr in
             let? compactRev := VersionstampToInt64 v in
             if rc_maxRevision c <? compactRev then Err ErrCompacted else Ok tr
           else Ok tr, c)
      end
  end.

Definition recordCollector_endBatch (tr : Transaction) (isLast : bool) (c : recordCollector C)
    : res Transaction * recordCollector C :=
  match isLast, rc_batchCurrentRecord c with
  | true, Some cur =>
      let '(r, inner) := flush tr cur (rc_inner c) in
      let c := rc_set c inner (Some cur) in
      match r with
      | Err e => (Err e, c)
      | Panic => (Panic, c)
      | Ok (_, tr) => recordCollector_finish tr isLast c
      end
  | _, _ => recordCollector_finish tr isLast c
  end.

#[global] Instance recordCollector_Processor : Processor RangeIterator (recordCollector C) := {
  startBatch c :=
    mkRecordCollector (rc_f c) (rc_maxRevision c) (startBatch (rc_inner c)) (rc_currentRecord c)
                      (rc_currentRecord c) (rc_firstRev c) (rc_rev c) 0;
  next := recordCollector_next;
  endBatch := recordCollector_endBatch;
  postBatch c :=
    mkRecordCollector (rc_f c) (rc_maxRevision c) (postBatch (rc_inner c))
                      (rc_batchCurrentRecord c) (rc_batchCurrentRecord c)
                      (if rc_firstRev c =? 0 then rc_batchRev c else rc_firstRev c)
                      (rc_batchRev c) (rc_batchRev c)
}.

(** * Scans *)

(** [strings.HasSuffix(prefix, "/")] *)
Definition has_slash_suffix (prefix : bytes) : bool := bool_decide (last prefix = Some Byte.x2f).

Definition prefix_error : error := ErrMessage "prefix is not equal to startKey".

(** The selectors of a scan. *)
Definition scan_selectors (f : FDB) (prefix startKey : bytes) : res (KeySelector * KeySelector) :=
  if has_slash_suffix prefix then
    let packedStartKey := Pack (byKeyAndRevision f) [TString startKey] in
    let? packedStartKey :=
      if decide (prefix <> startKey) then of_option strinc_error (Strinc packedStartKey)
      else Ok packedStartKey in
    let packedPrefix := Pack (byKeyAndRevision f) [TString prefix] in
    let? packedPrefixKey :=
      of_option strinc_error (Strinc (take (length packedPrefix - 1) packedPrefix)) in
    Ok (FirstGreaterOrEqual packedStartKey, FirstGreaterOrEqual packedPrefixKey)
  else if decide (startKey <> prefix) then Err prefix_error
  else
    let k := FDBRangeKeys (Sub (byKeyAndRevision f) [TString prefix]) in
    Ok (FirstGreaterOrEqual k.1, FirstGreaterOrEqual k.2).

(** [listWithCollector]: its revision or error, and the collector, which the
    caller holds also when the scan fails. *)
Definition listWithCollector (f : FDB) (envs : list (TransactEnv BatchEnv)) (prefix startKey : bytes)
    (maxRevision : Z) (collector : C) (s : store) : option (res Z) * store * C :=
  match scan_selectors f prefix startKey with
  | Err e => (Some (Err e), s, collector)
  | Panic => (Some Panic, s, collector)
  | Ok (begin, end_) =>
      match processRange envs begin end_ s (newRecordCollector f maxRevision collector) with
      | (Some (Ok _), s, rc) =>
          (Some (if rc_firstRev rc <? maxRevision then Err ErrFutureRev else Ok (rc_firstRev rc)), s, rc_inner rc)
      | (Some (Err e), s, rc) => (Some (Err e), s, rc_inner rc)
      | (Some Panic, s, rc) => (Some Panic, s, rc_inner rc)
      | (None, s, rc) => (None, s, rc_inner rc)
      end
  end.
End RecordCollector.

(** [listKeyValue]; a negative limit panics where the collector is allocated. *)
Definition listKeyValue (f : FDB) (envs : list (TransactEnv BatchEnv)) (prefix startKey : bytes)
    (limit maxRevision : Z) (keysOnly : bool) (s : store)
    : option (res (Z * list KeyValue)) * store :=
  if limit <? 0 then (Some Panic, s) else
  match listWithCollector f envs prefix startKey maxRevision (newListCollector f limit keysOnly) s with
  | (Some (Ok rev), s, collector) =>
      (Some (let? kvs := map_res (fun r => let? e := revRecordToEvent r in Ok (ev_KV e))
                           (lc_records collector) in
             Ok (rev, kvs)), s)
  | (Some (Err e), s, _) => (Some (Err e), s)
  | (Some Panic, s, _) => (Some Panic, s)
  | (None, s, _) => (None, s)
  end.

Definition List (f : FDB) (envs : list (TransactEnv BatchEnv)) (prefix startKey : bytes)
    (limit revision : Z) (keysOnly : bool) (s : store) : option (res (Z * list KeyValue)) * store :=
  listKeyValue f envs prefix startKey limit revision keysOnly s.

Definition Get (f : FDB) (envs : list (TransactEnv BatchEnv)) (key rangeEnd : bytes)
    (revision : Z) (keysOnly : bool) (s : store) : option (res (Z * option KeyValue)) * store :=
  if decide (rangeEnd <> []) then (Some (Err (ErrMessage "invalid 'rangeEnd' for Get")), s)
  else
    match listKeyValue f envs key key 1 revision keysOnly s with
    | (Some (Ok (rev, kvs)), s) => (Some (Ok (rev, head kvs)), s)
    | (Some (Err e), s) => (Some (Err e), s)
    | (Some Panic, s) => (Some Panic, s)
    | (None, s) => (None, s)
    end.

(** [CurrentRevision]: the watch cursor once there is one, else the latest
    revision of the store. *)
Definition CurrentRevision (f : FDB) (te : TransactEnv unit) (lastWatchRev : Z) (s : store)
    : option (res Z) * store :=
  if negb (lastWatchRev =? 0) then (Some (Ok lastWatchRev), s)
  else
    match transact (fun _ tr (_ : unit) =>
            (let? r := GetLatestRev (rev f) tr in Ok (r, tr), tt)) te s tt with
    | (Some (Ok (r, _)), s, _) => (Some (Ok r), s)
    | (Some (Err e), s, _) => (Some (Err e), s)
    | (Some Panic, s, _) => (Some Panic, s)
    | (None, s, _) => (None, s)
    end.
End ReadDefs.
