(* ===== verification/Scan.v ===== *)
(** The reference scan: what a pass over the by-key index emits.

    The records of a history in key order are visited one by one; of each
    key, the last record inside the revision window is emitted unless it is a
    tombstone, with a flag that tells whether it is the newest of its key. *)
From stdpp Require Import base strings list gmap sorting.
From Stdlib Require Import Strings.Byte ZArith Lia.
From S2P Require Import Prelude FdbApi KeyOrder Util Subspaces SubspaceFacts Transact History.

(** * Records in key order *)

Definition kr_lt (a b : entry) : Prop :=
  Key a.2 <b Key b.2 \/ Key a.2 = Key b.2 /\ a.1 < b.1.
Definition kr_le (a b : entry) : Prop :=
  Key a.2 <b Key b.2 \/ Key a.2 = Key b.2 /\ a.1 <= b.1.

#[global] Instance kr_lt_dec a b : Decision (kr_lt a b).
Proof. unfold kr_lt. apply _. Defined.
#[global] Instance kr_le_dec a b : Decision (kr_le a b).
Proof. unfold kr_le. apply _. Defined.

#[global] Instance kr_lt_strict : StrictOrder kr_lt.
Proof.
  split.
  - intros x [H|[_ H]]; [by apply blt_irrefl in H|lia].
  - intros x y z [H1|[E1 H1]] [H2|[E2 H2]]; unfold kr_lt.
    + left. by eapply blt_trans.
    + left. by rewrite <-E2.
    + left. by rewrite E1.
    + right. split; [congruence|lia].
Qed.

#[global] Instance kr_le_trans : Transitive kr_le.
Proof.
  intros x y z [H1|[E1 H1]] [H2|[E2 H2]]; unfold kr_le.
  - left. by eapply blt_trans.
  - left. by rewrite <-E2.
  - left. by rewrite E1.
  - right. split; [congruence|lia].
Qed.

#[global] Instance kr_le_total : Total kr_le.
Proof.
  intros x y. unfold kr_le. destruct (blt_total (Key x.2) (Key y.2)) as [H|[E|H]]; [by left; left| |by right; left].
  destruct (Z.le_ge_cases x.1 y.1); [left; by right|right; right; by split].
Qed.

Definition by_key (h : history) : history := merge_sort kr_le h.

Lemma elem_of_by_key h e : e ∈ by_key h <-> e ∈ h.
Proof. unfold by_key. by rewrite merge_sort_Permutation. Qed.

Lemma by_key_sorted h : StronglySorted rev_lt h -> StronglySorted kr_lt (by_key h).
Proof.
  intros Hs.
  assert (Hnd : NoDup (by_key h)).
  { unfold by_key. rewrite merge_sort_Permutation. by apply (ssorted_NoDup rev_lt). }
  assert (Hin : forall e, e ∈ by_key h -> e ∈ h) by (intros e; by rewrite elem_of_by_key).
  assert (Hle : StronglySorted kr_le (by_key h)) by apply (StronglySorted_merge_sort _ _).
  revert Hnd Hin. induction Hle as [|x l Hl IH Hx]; intros Hnd Hin; [constructor|].
  apply NoDup_cons in Hnd as [Hnx Hnd]. constructor.
  - apply IH; [done|]. intros e He. apply Hin. by right.
  - rewrite Forall_forall in *. intros y Hy. destruct (Hx y Hy) as [?|[E Hr]]; [by left|].
    right. split; [done|]. destruct (Z.eq_dec x.1 y.1) as [Er|]; [|lia].
    exfalso. apply Hnx. replace x with y; [done|]. symmetry.
    eapply (ssorted_rev_inj h); [done|apply Hin; left|apply Hin; by right|done].
Qed.

(** The part of a history a scan still has to visit: the keys of [K] after
    the last record read. *)
Definition after (y : option entry) (e : entry) : Prop :=
  match y with Some y => kr_lt y e | None => True end.
#[global] Instance after_dec y e : Decision (after y e).
Proof. unfold after. destruct y; apply _. Defined.

Section Todo.
Context (K : bytes -> Prop) `{!forall k, Decision (K k)}.

Definition todo (h : history) (y : option entry) : history :=
  filter (fun e => K (Key e.2) /\ after y e) (by_key h).

Lemma elem_of_todo h y e : e ∈ todo h y <-> e ∈ h /\ K (Key e.2) /\ after y e.
Proof. unfold todo. rewrite list_elem_of_filter, elem_of_by_key. tauto. Qed.

Lemma todo_sorted h y : StronglySorted rev_lt h -> StronglySorted kr_lt (todo h y).
Proof. intros Hs. apply (ssorted_filter kr_lt), by_key_sorted, Hs. Qed.

(** Reading on from the last record read. *)
Lemma todo_rest h y D x rest :
  StronglySorted rev_lt h -> todo h y = D ++ x :: rest -> todo h (Some x) = rest.
Proof.
  intros Hs E. pose proof (todo_sorted h y Hs) as Hsort. rewrite E in Hsort.
  apply (ssorted_ext kr_lt).
  - by apply todo_sorted.
  - apply StronglySorted_app_1_r, StronglySorted_cons in Hsort. apply Hsort.
  - intros e. rewrite elem_of_todo.
    assert (Hiff : e ∈ D ++ x :: rest <-> e ∈ h /\ K (Key e.2) /\ after y e) by (by rewrite <-E, elem_of_todo).
    pose proof (StronglySorted_app_1_r _ _ _ Hsort) as Hr.
    apply StronglySorted_cons in Hr as [Hx Hr]. rewrite Forall_forall in Hx. split.
    + intros (Hin & HK & Hlt). cbn [after] in Hlt.
      assert (Hxin : x ∈ D ++ x :: rest) by (rewrite elem_of_app; right; left).
      rewrite <-E in Hxin. apply elem_of_todo in Hxin as (_ & _ & Hyx).
      assert (He : e ∈ D ++ x :: rest).
      { apply Hiff. split; [done|]. split; [done|]. destruct y; [|done]. cbn in *. by etrans. }
      rewrite elem_of_app, elem_of_cons in He. destruct He as [He|[->|He]]; [|by apply irreflexivity in Hlt; try apply _|done].
      exfalso. apply (irreflexivity kr_lt e). etrans; [|exact Hlt].
      apply (StronglySorted_app_1_elem_of kr_lt _ _ e x Hsort He). left.
    + intros He. destruct (proj1 Hiff) as (Hin & HK & _); [rewrite elem_of_app, elem_of_cons; auto|].
      split; [done|]. split; [done|]. by apply Hx.
Qed.

(** Records newer than the window do not change what is in it. *)
Lemma todo_window R h ext y :
  StronglySorted rev_lt (h ++ ext) -> Forall (fun e => R < e.1) ext ->
  upto R (todo (h ++ ext) y) = upto R (todo h y).
Proof.
  intros Hs Hext. rewrite Forall_forall in Hext. unfold upto. apply (ssorted_ext kr_lt).
  - by apply (ssorted_filter kr_lt), todo_sorted.
  - apply (ssorted_filter kr_lt), todo_sorted. by apply StronglySorted_app_1_l in Hs.
  - intros e. rewrite !list_elem_of_filter, !elem_of_todo, elem_of_app.
    split; [|tauto]. intros (HR & [Hin|Hin] & HK); [tauto|]. specialize (Hext e Hin). lia.
Qed.
End Todo.

(** * Emission *)

Definition same_key (a b : entry) : bool := bool_decide (Key a.2 = Key b.2).

(** Whether the next record replaces [e], and whether [e] is the newest. *)
Definition superseded (R : Z) (e : entry) (E : list entry) : bool :=
  match E with x :: _ => same_key e x && (x.1 <=? R) | [] => false end.
Definition newest (e : entry) (E : list entry) : bool :=
  match E with x :: _ => negb (same_key e x) | [] => true end.

Fixpoint emit (R : Z) (E : list entry) : list (entry * bool) :=
  match E with
  | [] => []
  | e :: E =>
      (if (e.1 <=? R) && negb (IsDelete e.2) && negb (superseded R e E)
       then [(e, newest e E)] else []) ++ emit R E
  end.

(** With a record already read. *)
Definition emit_from (R : Z) (cur : option (entry * bool)) (E : list entry) : list (entry * bool) :=
  match cur with
  | Some (x, b) =>
      (if negb (IsDelete x.2) && negb (superseded R x E) then [(x, b && newest x E)] else []) ++ emit R E
  | None => emit R E
  end.

(** One step of the record collector: the record passed on, if any, and the
    record kept. *)
Definition push_of (cur : option (entry * bool)) (e : entry) : list (entry * bool) :=
  match cur with
  | Some (x, b) => if same_key x e then [] else if IsDelete x.2 then [] else [(x, b)]
  | None => []
  end.

Definition keep_of (R : Z) (cur : option (entry * bool)) (e : entry) : option (entry * bool) :=
  if e.1 <=? R then Some (e, true)
  else match cur with
       | Some (x, b) => if same_key x e then Some (x, false) else None
       | None => None
       end.

(** The kept record is inside the window and before what is to come. *)
Definition cur_ok (R : Z) (cur : option (entry * bool)) (E : list entry) : Prop :=
  match cur with Some (x, _) => x.1 <= R /\ StronglySorted kr_lt (x :: E) | None => StronglySorted kr_lt E end.

Lemma keep_cur_ok R cur e E : cur_ok R cur (e :: E) -> cur_ok R (keep_of R cur e) E.
Proof.
  intros H. assert (Hs : StronglySorted kr_lt (e :: E)).
  { destruct cur as [[x b]|]; [|done]. destruct H as [_ H]. by apply StronglySorted_cons in H as [_ H]. }
  apply StronglySorted_cons in Hs as Hs'. destruct Hs' as [_ HE].
  unfold keep_of. destruct (Z.leb_spec e.1 R); [by split|].
  destruct cur as [[x b]|]; [|done]. destruct (same_key x e); [|done].
  destruct H as [HR H]. split; [done|]. apply StronglySorted_cons in H as [H _].
  apply Forall_cons in H as [_ H]. by apply StronglySorted_cons.
Qed.

Lemma emit_step R cur e E :
  cur_ok R cur (e :: E) ->
  emit_from R cur (e :: E) = push_of cur e ++ emit_from R (keep_of R cur e) E.
Proof.
  intros Hok. unfold keep_of.
  assert (Hnew : forall l, e.1 <= R -> emit R (e :: l) = emit_from R (Some (e, true)) l).
  { intros l He. cbn [emit emit_from]. by rewrite (proj2 (Z.leb_le _ _) He). }
  assert (Hskip : forall l, R < e.1 -> emit R (e :: l) = emit R l).
  { intros l He. cbn [emit]. by rewrite (proj2 (Z.leb_gt _ _) He). }
  destruct cur as [[x b]|]; cbn [emit_from push_of].
  - cbn [superseded newest]. destruct (same_key x e) eqn:Ek; cbn [andb negb].
    + destruct (Z.leb_spec e.1 R).
      * rewrite andb_false_r. cbn [app]. by apply Hnew.
      * assert (Hsup : superseded R x E = false).
        { destruct E as [|y E]; [done|]. cbn [superseded]. destruct (same_key x y) eqn:Exy; [|done].
          cbn [andb]. apply Z.leb_gt. destruct Hok as [_ Hs].
          apply StronglySorted_cons in Hs as [_ Hs]. apply StronglySorted_cons in Hs as [Hs _].
          apply Forall_cons in Hs as [[Hlt|[_ Hlt]] _]; [|lia].
          apply bool_decide_eq_true in Ek, Exy. rewrite <-Ek, Exy in Hlt. by apply blt_irrefl in Hlt. }
        rewrite andb_false_r, (Hskip E) by done. cbn [app emit_from]. by rewrite Hsup.
    + rewrite andb_true_r, andb_true_r. destruct (IsDelete x.2); cbn [negb app]; [|f_equal];
        (destruct (Z.leb_spec e.1 R); [by apply Hnew|by apply Hskip]).
  - cbn [app]. destruct (Z.leb_spec e.1 R); [by apply Hnew|by apply Hskip].
Qed.

(** * What is emitted *)

Lemma kr_lt_same x y : kr_lt x y -> Key x.2 = Key y.2 -> x.1 < y.1.
Proof. intros [H|[_ H]] E; [rewrite E in H; by apply blt_irrefl in H|done]. Qed.

Lemma kr_lt_between x y z : kr_lt x y -> kr_lt y z -> Key x.2 = Key z.2 -> Key y.2 = Key x.2.
Proof.
  intros [H1|[E1 _]] [H2|[E2 _]] E; try congruence.
  rewrite <-E in H2. destruct (blt_irrefl (Key x.2)). by eapply blt_trans.
Qed.

Lemma superseded_iff R e E :
  StronglySorted kr_lt (e :: E) ->
  superseded R e E = true <-> exists x, x ∈ E /\ Key x.2 = Key e.2 /\ x.1 <= R.
Proof.
  intros Hs. apply StronglySorted_cons in Hs as [He Hs]. rewrite Forall_forall in He. split.
  - destruct E as [|x E]; [done|]. cbn [superseded]. unfold same_key.
    rewrite andb_true_iff, bool_decide_eq_true, Z.leb_le. intros [Ek HR].
    exists x. split; [left|done].
  - intros (x & Hx & Ek & HR). destruct E as [|y E]; [by apply not_elem_of_nil in Hx|].
    cbn [superseded]. unfold same_key. rewrite andb_true_iff, bool_decide_eq_true, Z.leb_le.
    apply elem_of_cons in Hx as [->|Hx]; [done|].
    apply StronglySorted_cons in Hs as [Hy _]. rewrite Forall_forall in Hy.
    pose proof (kr_lt_between e y x (He y ltac:(left)) (Hy x Hx) (eq_sym Ek)) as Ey.
    split; [done|]. pose proof (kr_lt_same y x (Hy x Hx) ltac:(congruence)). lia.
Qed.

Lemma newest_iff e E :
  StronglySorted kr_lt (e :: E) -> newest e E = true <-> forall x, x ∈ E -> Key x.2 <> Key e.2.
Proof.
  intros Hs. apply StronglySorted_cons in Hs as [He Hs]. rewrite Forall_forall in He. split.
  - intros Hn x Hx Ek. destruct E as [|y E]; [by apply not_elem_of_nil in Hx|].
    cbn [newest] in Hn. unfold same_key in Hn. rewrite negb_true_iff, bool_decide_eq_false in Hn.
    apply elem_of_cons in Hx as [->|Hx]; [by apply Hn|].
    apply StronglySorted_cons in Hs as [Hy _]. rewrite Forall_forall in Hy. apply Hn. symmetry.
    apply (kr_lt_between e y x (He y ltac:(left)) (Hy x Hx)). done.
  - intros H. destruct E as [|y E]; [done|]. cbn [newest]. unfold same_key.
    rewrite negb_true_iff, bool_decide_eq_false. intros E2. by apply (H y); [left|].
Qed.

Lemma elem_of_emit R E e :
  StronglySorted kr_lt E ->
  e ∈ (emit R E).*1 <->
  e ∈ E /\ e.1 <= R /\ IsDelete e.2 = false /\
  (forall x, x ∈ E -> Key x.2 = Key e.2 -> x.1 <= R -> x.1 <= e.1).
Proof.
  induction 1 as [|y E Hs IH Hy].
  - simpl. split; [by intros ?%not_elem_of_nil|]. by intros [?%not_elem_of_nil _].
  - cbn [emit]. rewrite fmap_app, elem_of_app, IH, elem_of_cons.
    rewrite Forall_forall in Hy.
    assert (Hsup := superseded_iff R y E ltac:(constructor; [done|by rewrite Forall_forall])).
    split.
    + intros [Hin|(Hin & HR & Hd & Hmax)].
      * destruct ((y.1 <=? R) && negb (IsDelete y.2) && negb (superseded R y E)) eqn:Ec;
          [|by apply not_elem_of_nil in Hin].
        rewrite !andb_true_iff, Z.leb_le, !negb_true_iff in Ec. destruct Ec as [[HR Hd] Hns].
        simpl in Hin. apply list_elem_of_singleton in Hin as ->.
        split; [by left|]. split; [done|]. split; [done|].
        intros x [->|Hx]%elem_of_cons Ek HRx; [lia|]. exfalso.
        rewrite <-not_true_iff_false in Hns. apply Hns, Hsup. eauto.
      * split; [by right|]. split; [done|]. split; [done|].
        intros x [->|Hx]%elem_of_cons Ek HRx; [|by apply Hmax].
        pose proof (kr_lt_same _ _ (Hy e Hin) Ek). lia.
    + intros (Hin & HR & Hd & Hmax). destruct Hin as [->|Hin].
      * left. rewrite (proj2 (Z.leb_le _ _) HR), Hd. cbn [andb negb].
        destruct (superseded R y E) eqn:Es; [|by left]. exfalso.
        destruct (proj1 Hsup eq_refl) as (x & Hx & Ek & HRx).
        pose proof (Hmax x ltac:(by right) Ek HRx). pose proof (kr_lt_same _ _ (Hy x Hx) (eq_sym Ek)). lia.
      * right. split; [done|]. split; [done|]. split; [done|]. intros x Hx. apply Hmax. by right.
Qed.

Lemma emit_sorted R E : StronglySorted kr_lt E -> StronglySorted kr_lt (emit R E).*1.
Proof.
  induction 1 as [|y E Hs IH Hy]; [constructor|]. cbn [emit]. rewrite fmap_app.
  destruct ((y.1 <=? R) && _ && _); [|done]. simpl. constructor; [done|].
  rewrite Forall_forall in *. intros x [Hx _]%elem_of_emit; auto.
Qed.

(** Emitted with the flag: no other record of the key is to come. *)
Lemma emit_flag R E e :
  StronglySorted kr_lt E -> (e, true) ∈ emit R E ->
  forall x, x ∈ E -> Key x.2 = Key e.2 -> x.1 <= e.1.
Proof.
  induction 1 as [|y E Hs IH Hy]; [by intros ?%not_elem_of_nil|]. cbn [emit].
  rewrite elem_of_app. rewrite Forall_forall in Hy. intros [Hin|Hin] x Hx Ek.
  - destruct ((y.1 <=? R) && _ && _); [|by apply not_elem_of_nil in Hin].
    apply list_elem_of_singleton in Hin. injection Hin as -> Hn. symmetry in Hn.
    rewrite newest_iff in Hn by (constructor; [done|by rewrite Forall_forall]).
    apply elem_of_cons in Hx as [->|Hx]; [lia|]. by destruct (Hn x Hx).
  - assert (He : e ∈ E).
    { apply (elem_of_emit R E e Hs). apply list_elem_of_fmap. by exists (e, true). }
    apply elem_of_cons in Hx as [->|Hx]; [|by apply IH].
    pose proof (kr_lt_same _ _ (Hy e He) Ek). lia.
Qed.

Lemma emit_window R E E2 :
  StronglySorted kr_lt E -> StronglySorted kr_lt E2 -> upto R E = upto R E2 ->
  (emit R E).*1 = (emit R E2).*1.
Proof.
  intros Hs Hs2 HE. apply (ssorted_ext kr_lt); [by apply emit_sorted..|].
  assert (Hin : forall x, x ∈ E /\ x.1 <= R <-> x ∈ E2 /\ x.1 <= R).
  { intros x. rewrite !(and_comm (x ∈ _)).
    rewrite <-(list_elem_of_filter (fun e : entry => e.1 <= R) E),
            <-(list_elem_of_filter (fun e : entry => e.1 <= R) E2).
    unfold upto in HE. by rewrite HE. }
  intros e. rewrite !elem_of_emit by done. split; intros (He & HR & Hd & Hm).
  - destruct (proj1 (Hin e) (conj He HR)) as [? _]. split; [done|]. split; [done|]. split; [done|].
    intros x Hx Ek HRx. destruct (proj2 (Hin x) (conj Hx HRx)) as [? _]. auto.
  - destruct (proj2 (Hin e) (conj He HR)) as [? _]. split; [done|]. split; [done|]. split; [done|].
    intros x Hx Ek HRx. destruct (proj1 (Hin x) (conj Hx HRx)) as [? _]. auto.
Qed.

(** * The keys that are live at a revision *)

Lemma latest_iff h key e :
  StronglySorted rev_lt h ->
  latest h key = Some e <-> e ∈ h /\ Key e.2 = key /\ forall x, x ∈ h -> Key x.2 = key -> x.1 <= e.1.
Proof.
  intros Hs. split.
  - intros H. destruct (latest_Some _ _ _ H) as [Hin Hk]. split; [done|]. split; [done|].
    intros x Hx Ekx. unfold latest in H. apply last_Some in H as [l Hl].
    assert (Hxin : x ∈ l ++ [e]) by (rewrite <-Hl; by apply list_elem_of_filter).
    apply (ssorted_filter rev_lt (of_key key)) in Hs. rewrite Hl in Hs.
    apply elem_of_app in Hxin as [Hxl| ->%list_elem_of_singleton]; [|lia].
    pose proof (StronglySorted_app_1_elem_of rev_lt _ _ x e Hs Hxl ltac:(left)) as Hlt.
    unfold rev_lt in Hlt. lia.
  - intros (Hin & Hk & Hmax).
    destruct (latest h key) as [e2|] eqn:El.
    + destruct (latest_Some _ _ _ El) as [Hin2 Hk2]. f_equal.
      apply (ssorted_rev_inj h); [done..|].
      pose proof (Hmax e2 Hin2 Hk2). unfold latest in El. apply last_Some in El as [l Hl].
      assert (He : e ∈ l ++ [e2]) by (rewrite <-Hl; by apply list_elem_of_filter).
      apply (ssorted_filter rev_lt (of_key key)) in Hs. rewrite Hl in Hs.
      apply elem_of_app in He as [He| ->%list_elem_of_singleton]; [|done].
      pose proof (StronglySorted_app_1_elem_of rev_lt _ _ e e2 Hs He ltac:(left)) as Hlt.
      unfold rev_lt in Hlt. lia.
    + exfalso. unfold latest in El. apply last_None in El.
      assert (e ∈ filter (of_key key) h) as He by (by apply list_elem_of_filter).
      rewrite El in He. by apply not_elem_of_nil in He.
Qed.

(** The reference list: the keys of [K] live at revision [R], in key order. *)
Definition live_list (K : bytes -> Prop) `{!forall k, Decision (K k)} (R : Z) (h : history) : history :=
  filter (fun e => K (Key e.2) /\ live (latest (upto R h) (Key e.2)) = Some e) (by_key h).

Lemma live_Some o e : live o = Some e <-> o = Some e /\ IsDelete e.2 = false.
Proof.
  unfold live. destruct o as [x|]; [|by split; [|intros [? _]]].
  destruct (IsDelete x.2) eqn:E; split; try done.
  - intros [[= <-] H]. congruence.
  - by intros [= <-].
  - by intros [? _].
Qed.

Lemma emit_live K `{!forall k, Decision (K k)} R h :
  StronglySorted rev_lt h -> (emit R (todo K h None)).*1 = live_list K R h.
Proof.
  intros Hs. apply (ssorted_ext kr_lt).
  - by apply emit_sorted, todo_sorted.
  - apply (ssorted_filter kr_lt), by_key_sorted, Hs.
  - intros e. rewrite elem_of_emit by (by apply todo_sorted).
    unfold live_list. rewrite list_elem_of_filter, elem_of_by_key, live_Some, elem_of_todo.
    rewrite latest_iff by (by apply (ssorted_filter rev_lt)). unfold upto.
    setoid_rewrite list_elem_of_filter. cbn [after]. split.
    + intros ((Hin & HK & _) & HR & Hd & Hm). split; [|done]. split; [done|]. split; [|done].
      split; [done|]. split; [done|]. intros x [HRx Hx] Ek. apply Hm; [|done..].
      rewrite elem_of_by_key. by rewrite Ek.
    + intros ((HK & ([HR _] & _ & Hm) & Hd) & Hin). split; [done|]. split; [done|]. split; [done|].
      intros x [_ Hx] Ek HRx. rewrite elem_of_by_key in Hx. apply Hm; [by split|done].
Qed.

(** * Emission with a record already read *)

Lemma emit_from_cons R x b E :
  x.1 <= R -> (emit_from R (Some (x, b)) E).*1 = (emit R (x :: E)).*1.
Proof.
  intros HR. cbn [emit emit_from]. rewrite (proj2 (Z.leb_le _ _) HR). cbn [andb].
  by destruct (negb (IsDelete x.2) && negb (superseded R x E)).
Qed.

Definition with_cur (cur : option (entry * bool)) (E : list entry) : list entry :=
  match cur with Some (x, _) => x :: E | None => E end.

Lemma emit_from_emit R cur E :
  cur_ok R cur E -> (emit_from R cur E).*1 = (emit R (with_cur cur E)).*1.
Proof. destruct cur as [[x b]|]; [|done]. intros [HR _]. by apply emit_from_cons. Qed.

Lemma cur_ok_sorted R cur E : cur_ok R cur E -> StronglySorted kr_lt (with_cur cur E).
Proof. destruct cur as [[x b]|]; [by intros [_ ?]|done]. Qed.

(** One record per key is emitted. *)
Lemma emit_keys_sorted R E :
  StronglySorted kr_lt E -> StronglySorted (fun x y : entry => Key x.2 <b Key y.2) (emit R E).*1.
Proof.
  induction 1 as [|y E Hs IH Hy]; [constructor|]. cbn [emit]. rewrite fmap_app.
  destruct ((y.1 <=? R) && _ && _) eqn:Ec; [|done]. constructor; [done|].
  rewrite !andb_true_iff, !negb_true_iff in Ec. destruct Ec as [_ Hns].
  rewrite Forall_forall in *. intros x Hx. apply elem_of_emit in Hx as (Hx & HR & _); [|done].
  destruct (Hy x Hx) as [?|[Ek _]]; [done|]. exfalso.
  rewrite <-not_true_iff_false in Hns. apply Hns, superseded_iff.
  - constructor; [done|by rewrite Forall_forall].
  - eauto.
Qed.

(** The kept record is the last one read, unless it is no longer the newest. *)
Definition kept_at (y : option entry) (cur : option (entry * bool)) : Prop :=
  forall z b, cur = Some (z, b) ->
    exists x, y = Some x /\ Key z.2 = Key x.2 /\ (z = x \/ kr_lt z x /\ b = false).

Lemma kept_before h K `{!forall k, Decision (K k)} y cur z b :
  kept_at y cur -> cur = Some (z, b) -> Forall (kr_lt z) (todo K h y).
Proof.
  intros Hk Hc. destruct (Hk z b Hc) as (x & -> & _ & Hz). rewrite Forall_forall.
  intros e (_ & _ & He)%elem_of_todo. cbn in He. destruct Hz as [->|[? _]]; [done|by etrans].
Qed.

(** A flagged record is the newest of its key. *)
Lemma emit_from_latest R K `{!forall k, Decision (K k)} h y cur e :
  StronglySorted rev_lt h -> kept_at y cur ->
  (forall z b, cur = Some (z, b) -> z ∈ h /\ K (Key z.2)) ->
  (e, true) ∈ emit_from R cur (todo K h y) -> latest h (Key e.2) = Some e.
Proof.
  intros Hs Hk Hcur Hin. pose proof (todo_sorted K h y Hs) as HE.
  assert (Hemit : (e, true) ∈ emit R (todo K h y) -> latest h (Key e.2) = Some e).
  { intros He. pose proof (emit_flag R _ e HE He) as Hflag.
    assert (Hin2 : e ∈ (emit R (todo K h y)).*1) by (apply list_elem_of_fmap; by exists (e, true)).
    apply elem_of_emit in Hin2 as [(Heh & HK & Hafter)%elem_of_todo _]; [|done].
    apply latest_iff; [done|]. split; [done|]. split; [done|]. intros x Hx Ek.
    destruct (decide (after y x)) as [Ha|Hna].
    - apply Hflag; [|done]. apply elem_of_todo. by rewrite Ek.
    - destruct y as [y|]; [|by destruct Hna]. cbn in *.
      destruct (Z.le_gt_cases x.1 e.1) as [|Hlt]; [done|]. exfalso. apply Hna.
      etrans; [exact Hafter|]. right. split; [done|lia]. }
  destruct cur as [[z b]|]; [|by apply Hemit]. cbn [emit_from] in Hin.
  apply elem_of_app in Hin as [Hin|Hin]; [|by apply Hemit].
  destruct (_ && _); [|by apply not_elem_of_nil in Hin].
  apply list_elem_of_singleton in Hin. injection Hin as -> Hb. symmetry in Hb.
  apply andb_true_iff in Hb as [-> Hn].
  destruct (Hk z true eq_refl) as (x & -> & Ekx & [->|[_ ?]]); [|done].
  destruct (Hcur x true eq_refl) as [Hxh HKx].
  rewrite newest_iff in Hn by (constructor; [done|by eapply kept_before]).
  apply latest_iff; [done|]. split; [done|]. split; [done|]. intros w Hw Ek.
  destruct (decide (kr_lt x w)) as [Hlt|Hnlt].
  - destruct (Hn w); [|done]. apply elem_of_todo. rewrite Ek. by split_and!.
  - destruct (Z.le_gt_cases w.1 x.1) as [|Hgt]; [done|]. destruct Hnlt. right. by split; [|lia].
Qed.
