(* ===== verification/ReadFacts.v ===== *)
(** The collectors of Read.v against the reference scan of Scan.v. *)
From stdpp Require Import base strings list gmap sorting.
From Stdlib Require Import Strings.Byte ZArith Lia.
From S2P Require Import Prelude FdbApi KeyOrder Util Subspaces SubspaceFacts Transact History Scan Write Read.

(** * The collectors keep the scan's contract *)

Section Laws.
Context `{FB : FdbBindings, KV : KVStore, CF : Config}.

#[global] Instance countCollector_laws : BatchLaws ByKeyAndRevisionRecord countCollector.
Proof. by split. Qed.

#[global] Instance countCollector_ro : ReadOnly ByKeyAndRevisionRecord countCollector.
Proof.
  split; [by intros ???????? [= _ _ <- _ _]|by intros ????? [= <- _]].
Qed.

#[global] Instance listCollector_laws : BatchLaws ByKeyAndRevisionRecord listCollector.
Proof.
  split; [done..|]. intros tr b c. simpl. unfold listCollector_endBatch.
  destruct (lc_keysOnly c || _); [done|]. by destruct (fetch_values _ _ _).
Qed.

#[global] Instance listCollector_ro : ReadOnly ByKeyAndRevisionRecord listCollector.
Proof.
  split; [by intros ???????? [= _ _ <- _ _]|]. intros tr b c tr2 c2. simpl.
  unfold listCollector_endBatch. destruct (lc_keysOnly c || _); [by intros [= <- _]|].
  destruct (fetch_values _ _ _); [by intros [= <- _]|done..].
Qed.

Section Record.
Context {C : Type} `{!Processor ByKeyAndRevisionRecord C}.

Lemma flush_start `{!BatchLaws ByKeyAndRevisionRecord C} tr r (inner : C) :
  startBatch (flush tr r inner).2 = startBatch inner.
Proof.
  unfold flush. destruct (IsDelete _); [done|]. pose proof (start_next tr r inner) as H.
  by destruct (next tr r inner) as [[[[[]]]|e|] c2].
Qed.

Lemma flush_ro `{!ReadOnly ByKeyAndRevisionRecord C} tr r (inner : C) more tr2 c2 :
  flush tr r inner = (Ok (more, tr2), c2) -> tr2 = tr.
Proof.
  unfold flush. destruct (IsDelete _); [by intros [= _ <- _]|].
  destruct (next tr r inner) as [[[[[]]]|e|] c3] eqn:En; [|done..].
  apply ro_next in En as ->. by intros [= _ <- _].
Qed.

Lemma finish_start `{!BatchLaws ByKeyAndRevisionRecord C} tr b (c : recordCollector C) :
  startBatch (recordCollector_finish tr b c).2 = startBatch c.
Proof.
  unfold recordCollector_finish. pose proof (start_end tr b (rc_inner c)) as H1.
  destruct (endBatch tr b (rc_inner c)) as [[tr2|e|] inner]; cbn [snd] in H1; [|cbn; by rewrite H1..].
  cbv zeta. destruct (GetLatestRev (rev (rc_f (rc_set c inner (rc_batchCurrentRecord c)))) tr2);
    cbn; by rewrite H1.
Qed.

Lemma finish_ro `{!ReadOnly ByKeyAndRevisionRecord C} tr b (c : recordCollector C) tr2 c2 :
  recordCollector_finish tr b c = (Ok tr2, c2) -> tr2 = tr.
Proof.
  unfold recordCollector_finish.
  destruct (endBatch tr b (rc_inner c)) as [[tr3|e|] inner] eqn:Ee; [|done..].
  apply ro_end in Ee as ->. cbv zeta.
  destruct (GetLatestRev (rev (rc_f (rc_set c inner (rc_batchCurrentRecord c)))) tr) as [n|e|]; [|done..].
  cbn. destruct (0 <? rc_maxRevision c); [|by intros [= <- _]].
  destruct (CompactRev_Get _ tr) as [v|e|]; [|done..]. cbn [rbind].
  destruct (VersionstampToInt64 v) as [z|e|]; [|done..]. cbn [rbind].
  destruct (_ <? z); [done|by intros [= <- _]].
Qed.

#[global] Instance recordCollector_laws `{!BatchLaws ByKeyAndRevisionRecord C} :
  BatchLaws RangeIterator (recordCollector C).
Proof.
  split.
  - intros c. simpl. by rewrite start_start.
  - intros tr it c. cbn [next startBatch recordCollector_Processor]. unfold recordCollector_next.
    destruct (ByKey_GetFromIterator _ it) as [[[nxt|] it2]|e|]; [|done..].
    destruct (rc_batchCurrentRecord c) as [cur|].
    + case_decide.
      * pose proof (flush_start tr cur (rc_inner c)) as H1.
        destruct (flush tr cur (rc_inner c)) as [[[more tr2]|e|] inner]; cbn [snd] in H1;
          [|cbn; by rewrite H1..].
        destruct (VersionstampToInt64 _); cbn; by rewrite H1.
      * by destruct (VersionstampToInt64 _).
    + by destruct (VersionstampToInt64 _).
  - intros tr b c. cbn [endBatch startBatch recordCollector_Processor]. unfold recordCollector_endBatch.
    destruct b, (rc_batchCurrentRecord c) as [cur|] eqn:Ecur; try apply finish_start.
    pose proof (flush_start tr cur (rc_inner c)) as H1.
    destruct (flush tr cur (rc_inner c)) as [[[more tr2]|e|] inner]; cbn [snd] in H1;
      [|cbn; by rewrite H1..].
    pose proof (finish_start tr2 true (rc_set c inner (Some cur))) as H2. cbn in H2 |- *.
    rewrite H2. by rewrite H1.
Qed.

#[global] Instance recordCollector_ro `{!ReadOnly ByKeyAndRevisionRecord C} :
  ReadOnly RangeIterator (recordCollector C).
Proof.
  split.
  - intros tr it c k more tr2 it2 c2. cbn [next recordCollector_Processor]. unfold recordCollector_next.
    destruct (ByKey_GetFromIterator _ it) as [[[nxt|] it3]|e|]; [|by intros [= _ _ <- _ _]|done..].
    destruct (rc_batchCurrentRecord c) as [cur|].
    + case_decide.
      * destruct (flush tr cur (rc_inner c)) as [[[more2 tr3]|e|] inner] eqn:Ef; [|done..].
        apply flush_ro in Ef as ->.
        destruct (VersionstampToInt64 _); [by intros [= _ _ <- _ _]|done..].
      * destruct (VersionstampToInt64 _); [by intros [= _ _ <- _ _]|done..].
    + destruct (VersionstampToInt64 _); [by intros [= _ _ <- _ _]|done..].
  - intros tr b c tr2 c2. cbn [endBatch recordCollector_Processor]. unfold recordCollector_endBatch.
    destruct b, (rc_batchCurrentRecord c) as [cur|]; try apply finish_ro.
    destruct (flush tr cur (rc_inner c)) as [[[more tr3]|e|] inner] eqn:Ef; [|done..].
    apply flush_ro in Ef as ->. apply finish_ro.
Qed.
End Record.
End Laws.

(** * A batch of the record collector *)

(** The record passed to an inner collector for an emitted one. *)
Definition bk_of (p : entry * bool) : ByKeyAndRevisionRecord := set_LatestForKey (to_bk p.1) p.2.

(** An inner collector that only accumulates: it never fails, and says
    whether it wants more. *)
Class Accumulator (C : Type) `{KVStore} `{!Processor ByKeyAndRevisionRecord C} := {
  push : ByKeyAndRevisionRecord -> C -> C;
  more : C -> bool;
  next_push tr r c : next tr r c = (Ok (None, more (push r c), tr, r), push r c)
}.

#[global] Program Instance countCollector_acc `{FB : FdbBindings, KV : KVStore, CF : Config} :
  Accumulator countCollector := {|
  push r c := mkCountCollector (totalCount c) (to_int64 (batchCount c + 1));
  more c := true
|}.
Next Obligation. done. Qed.

#[global] Program Instance listCollector_acc `{FB : FdbBindings, KV : KVStore, CF : Config} :
  Accumulator listCollector := {|
  push r c := lc_set_batch c (lc_batchRecords c ++ [mkRevRecord (kr_Rev (bk_Key r)) (bk_Value r)]);
  more := needMore
|}.
Next Obligation. done. Qed.

Section Batch.
Context `{FB : FdbBindings, KV : KVStore, CF : Config}.
Context {C : Type} `{!Processor ByKeyAndRevisionRecord C, !Accumulator C}.
Context (f : FDB).

Definition push_all (ps : list (entry * bool)) (inner : C) : C :=
  fold_left (fun c p => push (bk_of p) c) ps inner.

Definition step_more (ps : list (entry * bool)) (inner : C) : bool :=
  match ps with [] => true | _ => more (push_all ps inner) end.

Definition index_entry (e : entry) : bytes * bytes :=
  byKey_entry (byKeyAndRevision f) (int64ToVersionstamp e.1) e.2.

Lemma flush_push tr p (inner : C) :
  flush tr (bk_of p) inner =
  if IsDelete p.1.2 then (Ok (true, tr), inner)
  else (Ok (more (push (bk_of p) inner), tr), push (bk_of p) inner).
Proof.
  unfold flush. change (IsDelete (bk_Value (bk_of p))) with (IsDelete p.1.2).
  destruct (IsDelete p.1.2); [done|]. by rewrite next_push.
Qed.

(** The window of a collector as a single bound. *)
Definition windowed (c : recordCollector C) (R : Z) (E : list entry) : Prop :=
  forall e, e ∈ E -> in_window c e.1 = (e.1 <=? R).

Lemma record_next_step tr it (c : recordCollector C) cur e R :
  rc_f c = f -> rc_batchCurrentRecord c = bk_of <$> cur -> entry_ok e ->
  in_window c e.1 = (e.1 <=? R) ->
  next tr (index_entry e :: it) c =
  (Ok (Some (index_entry e).1, step_more (push_of cur e) (rc_inner c), tr, it),
   rc_set c (push_all (push_of cur e) (rc_inner c)) (bk_of <$> keep_of R cur e)).
Proof.
  intros Hf Hcur He Hwin. cbn [next recordCollector_Processor]. unfold recordCollector_next.
  pose proof He as (_ & Hrec & _). pose proof (entry_ok_stamp e He) as [_ Hi].
  rewrite Hf. unfold index_entry. rewrite ByKey_GetFromIterator_entry by auto using int64ToVersionstamp_ok.
  cbn [bk_Key kr_Key kr_Rev]. rewrite Hcur.
  rewrite VersionstampToInt64_int64ToVersionstamp by done.
  destruct cur as [[x b]|]; cbn [fmap option_fmap option_map push_of keep_of].
  - change (kr_Key (bk_Key (bk_of (x, b)))) with (Key x.2). unfold keep_of, same_key.
    destruct (decide (Key x.2 <> Key e.2)) as [Hne|Heq].
    + rewrite bool_decide_eq_false_2 by done. rewrite flush_push. cbn [fst].
      destruct (IsDelete x.2).
      * cbn [rc_batchCurrentRecord rc_set]. unfold in_window in *. cbn [rc_maxRevision rc_firstRev rc_set rc_f].
        rewrite Hwin, Hf. destruct (e.1 <=? R); done.
      * cbn [rc_batchCurrentRecord rc_set]. unfold in_window in *. cbn [rc_maxRevision rc_firstRev rc_set rc_f].
        rewrite Hwin, Hf. destruct (e.1 <=? R); done.
    + apply dec_stable in Heq. rewrite bool_decide_eq_true_2 by done.
      rewrite Hcur, Hwin, Hf. cbn [fmap option_fmap option_map].
      change (kr_Key (bk_Key (bk_of (x, b)))) with (Key x.2).
      destruct (e.1 <=? R); [done|]. by rewrite decide_True.
  - rewrite Hcur, Hwin, Hf. unfold keep_of. by destruct (e.1 <=? R).
Qed.

Lemma rc_set_id (c : recordCollector C) cur :
  rc_batchCurrentRecord c = cur -> rc_set c (rc_inner c) cur = c.
Proof. intros <-. by destruct c. Qed.

Lemma push_all_app ps qs inner : push_all (ps ++ qs) inner = push_all qs (push_all ps inner).
Proof. apply fold_left_app. Qed.

Lemma step_more_app ps qs inner :
  step_more ps inner = true -> step_more (ps ++ qs) inner = step_more qs (push_all ps inner).
Proof.
  intros H. destruct qs as [|q qs]; [by rewrite app_nil_r|].
  unfold step_more. rewrite <-push_all_app. by destruct ps.
Qed.

(** Every record was passed on while the inner collector wanted more. *)
Definition gated (ps : list (entry * bool)) (inner : C) : Prop :=
  forall qs p, ps = qs ++ [p] -> step_more qs inner = true.

Lemma gated_app cur e qs inner :
  step_more (push_of cur e) inner = true -> gated qs (push_all (push_of cur e) inner) ->
  gated (push_of cur e ++ qs) inner.
Proof.
  intros Hm Hg rs p. induction qs as [|q qs2 _] using rev_ind.
  - rewrite app_nil_r. destruct cur as [[x b]|]; cbn [push_of]; [|by destruct rs].
    destruct (same_key x e), (IsDelete x.2); intros E; by destruct rs as [|? [|]].
  - rewrite app_assoc. intros E. apply app_inj_2 in E as [<- _]; [|done].
    rewrite step_more_app by done. by eapply Hg.
Qed.

Lemma keep_kept_at R cur e E : cur_ok R cur (e :: E) -> kept_at (Some e) (keep_of R cur e).
Proof.
  intros Hok z b. unfold keep_of, same_key. destruct (e.1 <=? R); [intros [= <- _]; eauto|].
  destruct cur as [[x b2]|]; [|done]. case_bool_decide as Ek; [|done]. intros [= <- <-].
  exists e. split; [done|]. split; [done|]. right. split; [|done]. destruct Hok as [_ Hs].
  apply StronglySorted_cons in Hs as [Hs _]. by apply Forall_cons in Hs as [? _].
Qed.

Lemma keep_from R cur e z b : keep_of R cur e = Some (z, b) -> z = e \/ exists b0, cur = Some (z, b0).
Proof.
  unfold keep_of. destruct (e.1 <=? R); [by intros [= <- _]; left|].
  destruct cur as [[x b2]|]; [|done]. destruct (same_key x e); [|done]. intros [= <- _]. eauto.
Qed.

(** How the loop of a batch over [D ++ rest] ends: out of time after the
    last record of [D], at the end of the range, or because the inner
    collector has enough. *)
Definition loop_end (budget : nat) (D rest : list entry) (ps : list (entry * bool)) (inner : C)
    (cur : option (entry * bool)) (res : batchResult) : Prop :=
  if collectorNeedsMore res then
    (exists D2 x, D = D2 ++ [x] /\ lastReadKey res = Some (index_entry x).1 /\ kept_at (Some x) cur) /\
    length D = S budget /\ step_more ps inner = true
  else rest = [] /\ step_more ps inner = true \/ step_more ps inner = false.

(** The loop over [D]: what it passes on and what it keeps. *)
Definition loop_run (R : Z) (cur : option (entry * bool)) (D : list entry) (ps : list (entry * bool))
    (cur2 : option (entry * bool)) : Prop :=
  (forall tl, cur_ok R cur (D ++ tl) ->
     emit_from R cur (D ++ tl) = ps ++ emit_from R cur2 tl /\ cur_ok R cur2 tl) /\
  (forall z b, cur2 = Some (z, b) -> z ∈ D \/ exists b0, cur = Some (z, b0)).

Lemma loop_run_nil R cur : loop_run R cur [] [] cur.
Proof. split; [done|]. intros z b ->. right. eauto. Qed.

Lemma loop_run_cons R cur e D ps cur2 :
  loop_run R (keep_of R cur e) D ps cur2 -> loop_run R cur (e :: D) (push_of cur e ++ ps) cur2.
Proof.
  intros [Hem Hin]. split.
  - intros tl Hok. cbn [app] in Hok |- *. rewrite (emit_step R cur e (D ++ tl) Hok).
    destruct (Hem tl (keep_cur_ok R cur e (D ++ tl) Hok)) as [-> ?]. by rewrite app_assoc.
  - intros z b Hz. destruct (Hin z b Hz) as [?|[b0 [->|?]%keep_from]]; [left; by right|left; left|by right].
Qed.

Lemma push_of_gated cur e inner : gated (push_of cur e) inner.
Proof.
  intros rs p Ep. destruct cur as [[x b]|]; cbn [push_of] in Ep; [|by destruct rs].
  destruct (same_key x e), (IsDelete x.2); by destruct rs as [|? [|]].
Qed.

Lemma batch_loop_run budget tr items (c : recordCollector C) cur R :
  rc_f c = f -> rc_batchCurrentRecord c = bk_of <$> cur -> Forall entry_ok items ->
  windowed c R items -> cur_ok R cur items ->
  exists D rest ps cur2 res,
    batch_loop budget None tr (index_entry <$> items) c =
      (Ok (res, tr), rc_set c (push_all ps (rc_inner c)) (bk_of <$> cur2)) /\
    items = D ++ rest /\ loop_run R cur D ps cur2 /\ gated ps (rc_inner c) /\
    loop_end budget D rest ps (rc_inner c) cur2 res.
Proof.
  intros Hf. revert budget c cur Hf.
  induction items as [|e items IH]; intros budget c cur Hf Hcur Hok Hwin Hco.
  - exists [], [], [], cur, (mkBatchResult None false).
    split; [destruct budget; cbn; by rewrite (rc_set_id c _ Hcur)|].
    split_and!; [done|apply loop_run_nil|by intros []|by left].
  - apply Forall_cons in Hok as [He Hok].
    pose proof (record_next_step tr (index_entry <$> items) c cur e R Hf Hcur He
      (Hwin e ltac:(left))) as Hnext.
    pose proof (loop_run_cons R cur e [] [] _ (loop_run_nil R (keep_of R cur e))) as Hone.
    rewrite app_nil_r in Hone.
    destruct (step_more (push_of cur e) (rc_inner c)) eqn:Em; [destruct budget as [|budget]|].
    + exists [e], items, (push_of cur e), (keep_of R cur e), (mkBatchResult (Some (index_entry e).1) true).
      rewrite fmap_cons. cbn [batch_loop]. rewrite Hnext, bool_decide_eq_true_2 by done.
      split_and!; [done..|apply push_of_gated|]. split_and!; [|done..].
      exists [], e. split_and!; [done..|by eapply keep_kept_at].
    + destruct (IH budget (rc_set c (push_all (push_of cur e) (rc_inner c)) (bk_of <$> keep_of R cur e))
        (keep_of R cur e)) as (D & rest & ps & cur2 & res & Hloop & Hitems & Hrun & Hg & Hend); try done.
      { intros x Hx. apply (Hwin x). by right. }
      { by eapply keep_cur_ok. }
      cbn [rc_inner rc_set] in *.
      exists (e :: D), rest, (push_of cur e ++ ps), cur2, res. rewrite fmap_cons. cbn [batch_loop].
      rewrite Hnext, bool_decide_eq_true_2 by done. cbn [andb collectorNeedsMore].
      change (prod_map pred id <$> None) with (@None (nat * Z)). rewrite Hloop.
      split; [by rewrite push_all_app|]. split; [by rewrite Hitems|].
      split; [by apply loop_run_cons|]. split; [by apply gated_app|]. unfold loop_end in *.
      rewrite step_more_app by done. destruct (collectorNeedsMore res); [|done].
      destruct Hend as ((D2 & x & -> & Hlast & Hk) & Hlen & Hm). split; [exists (e :: D2), x; done|].
      split; [cbn [length]; by rewrite Hlen|done].
    + exists [e], items, (push_of cur e), (keep_of R cur e), (mkBatchResult (Some (index_entry e).1) false).
      rewrite fmap_cons.
      split; [by destruct budget; cbn [batch_loop]; rewrite Hnext|].
      split_and!; [done..|apply push_of_gated|by right].
Qed.
End Batch.

(** * Ranges of the by-key index *)

(** The keys that a scan with these arguments visits. *)
Definition scan_keys (prefix startKey k : bytes) : Prop :=
  if has_slash_suffix prefix then
    if decide (prefix = startKey) then prefix `prefix_of` k
    else startKey <b k /\ ~ (startKey ++ [Byte.x00]) `prefix_of` k /\
         (k <b prefix \/ prefix `prefix_of` k)
  else k = prefix.

#[global] Instance scan_keys_dec prefix startKey k : Decision (scan_keys prefix startKey k).
Proof. unfold scan_keys. destruct (has_slash_suffix prefix), (decide (prefix = startKey)); apply _. Defined.

Section Ranges.
Context `{FB : FdbBindings, KV : KVStore, CF : Config}.
Context (dir : bytes).
Abbreviation f := (openSubspaces dir).

Lemma pack_key_lt s k1 k2 t1 t2 : k1 <b k2 -> Pack s (TString k1 :: t1) <b Pack s (TString k2 :: t2).
Proof. intros H. rewrite !Pack_spec. by apply blt_app_l, string_key_lt. Qed.

Lemma index_entry_lt x y :
  entry_ok x -> entry_ok y -> kr_lt x y <-> (index_entry f x).1 <b (index_entry f y).1.
Proof.
  assert (Himp : forall x y, entry_ok x -> entry_ok y -> kr_lt x y -> (index_entry f x).1 <b (index_entry f y).1).
  { intros a b Ha Hb [H|[E H]]; unfold index_entry, byKey_entry; cbn [fst].
    - by apply pack_key_lt.
    - rewrite E. by apply (pack_revision_key_lt (byKeyAndRevision f) [TString (Key b.2)]). }
  intros Hx Hy. split; [by apply Himp|]. intros H.
  destruct (decide (kr_lt x y)) as [|Hn]; [done|exfalso].
  destruct (decide (kr_lt y x)) as [Hyx|Hn2].
  - apply (Himp y x Hy Hx) in Hyx. destruct (blt_irrefl (index_entry f x).1). by eapply blt_trans.
  - assert (E : Key x.2 = Key y.2 /\ x.1 = y.1).
    { unfold kr_lt in Hn, Hn2. destruct (blt_total (Key x.2) (Key y.2)) as [?|[?|?]]; [tauto| |tauto].
      split; [done|]. destruct (Z.lt_trichotomy x.1 y.1) as [?|[?|?]]; [|done|]; exfalso; auto. }
    destruct E as [Ek Er]. unfold index_entry, byKey_entry in H. cbn [fst] in H.
    rewrite Ek, Er in H. by apply blt_irrefl in H.
Qed.

(** A range of the index whose records are those of the keys in [K]. *)
Definition key_range (b e : bytes) (K : bytes -> Prop) : Prop :=
  (forall k, b <=b k -> k <b e -> byKeyAndRevision f `prefix_of` k) /\
  (forall x : entry, (b <=b (index_entry f x).1 /\ (index_entry f x).1 <b e) <-> K (Key x.2)).

Definition begin_of (b : bytes) (y : option entry) : KeySelector :=
  match y with
  | Some y => FirstGreaterThan (index_entry f y).1
  | None => FirstGreaterOrEqual b
  end.

Lemma srange_todo st h c b e K `{!forall k, Decision (K k)} y :
  Repr dir st h c -> key_range b e K ->
  (match y with Some y => entry_ok y /\ K (Key y.2) | None => True end) ->
  srange st (selector_key (begin_of b y)) e = index_entry f <$> todo K h y.
Proof.
  intros HR [Hpre HK] Hy. pose proof HR as [Hs Hok _ HbyKey _ _ _ _]. rewrite Forall_forall in Hok.
  apply (ssorted_ext (fun x y => x.1 <b y.1)).
  - apply srange_sorted.
  - apply (ssorted_fmap_on kr_lt); [|by apply todo_sorted].
    intros x z Hx%elem_of_todo Hz%elem_of_todo. apply index_entry_lt; apply Hok; tauto.
  - assert (Hafter : forall x, entry_ok x ->
      ((selector_key (begin_of b y)) <=b (index_entry f x).1 /\ (index_entry f x).1 <b e) <->
      K (Key x.2) /\ after y x).
    { intros x Hx. destruct y as [y|]; cbn [begin_of selector_key after]; [|rewrite HK; tauto].
      destruct Hy as [Hyok HKy]. rewrite ble_next, <-index_entry_lt by done. rewrite <-HK.
      apply HK in HKy as [Hby _]. split; [|tauto]. intros [Hlt Hend]. split; [|done]. split; [|done].
      apply index_entry_lt in Hlt; [|done..]. eauto with border. }
    intros [k v]. rewrite srange_spec, list_elem_of_fmap. split.
    + intros (Hget & H1 & H2).
      assert (Hin : byKeyAndRevision f `prefix_of` k).
      { apply Hpre; [|done]. destruct y as [y|]; [|done]. cbn [begin_of selector_key] in H1.
        apply ble_next in H1. destruct Hy as [_ HKy]. apply HK in HKy as [Hby _]. eauto with border. }
      apply HbyKey in Hget as (x & Hx & E); [|done]. exists x. split; [done|].
      apply elem_of_todo. split; [done|]. apply Hafter; [by apply Hok|].
      unfold index_entry. rewrite <-E. done.
    + intros (x & E & (Hx & HKx)%elem_of_todo). pose proof (f_equal fst E) as E1. cbn [fst] in E1.
      split; [|rewrite E1; apply Hafter; [by apply Hok|done]].
      apply HbyKey; [|eauto]. rewrite E1. apply Pack_region.
Qed.

Lemma index_entry_key x :
  (index_entry f x).1 = Pack (byKeyAndRevision f) [TString (Key x.2); TVersionstamp (int64ToVersionstamp x.1)].
Proof. reflexivity. Qed.

(** The packed prefix without its terminator. *)
Definition open_prefix (prefix : bytes) : bytes := byKeyAndRevision f ++ Byte.x02 :: escape prefix.

Lemma take_packed prefix :
  let p := Pack (byKeyAndRevision f) [TString prefix] in
  take (length p - 1) p = open_prefix prefix.
Proof.
  cbv zeta. rewrite Pack_spec, tuple_pack_string, app_comm_cons, app_assoc.
  rewrite length_app. cbn [length]. rewrite Nat.add_sub. by rewrite take_app_length.
Qed.

Lemma open_prefix_iff prefix k t :
  open_prefix prefix `prefix_of` Pack (byKeyAndRevision f) (TString k :: t) <-> prefix `prefix_of` k.
Proof.
  unfold open_prefix. rewrite Pack_spec, tuple_pack_string_cons.
  rewrite <-(escape_prefix prefix k (tuple_pack t)) by apply tuple_pack_no_ff. split.
  - intros H. by apply prefix_app_inv, prefix_cons_inv_2 in H.
  - intros H. by apply prefix_app, prefix_cons.
Qed.

(** Below the packed prefix are the keys below it. *)
Lemma open_prefix_lt_iff prefix k t :
  Pack (byKeyAndRevision f) (TString k :: t) <b open_prefix prefix <-> k <b prefix.
Proof.
  assert (Hle : open_prefix prefix <=b Pack (byKeyAndRevision f) [TString prefix]).
  { apply ble_prefix, (open_prefix_iff prefix prefix []). done. }
  split.
  - intros H. destruct (blt_total k prefix) as [?|[->|Hgt]]; [done|exfalso..].
    + apply blt_not_le in H. apply H, ble_prefix. by apply open_prefix_iff.
    + pose proof (pack_key_lt (byKeyAndRevision f) prefix k [] t Hgt) as H2.
      apply (blt_irrefl (Pack (byKeyAndRevision f) (TString k :: t))). eauto with border.
  - intros H. unfold open_prefix. rewrite Pack_spec, tuple_pack_string_cons. apply blt_app_l.
    apply (blt_app_l [Byte.x02]). rewrite <-(app_nil_r (escape prefix)).
    by apply escape_lt; [apply tuple_pack_no_ff|].
Qed.

Lemma open_prefix_Strinc prefix : exists q, Strinc (open_prefix prefix) = Some q.
Proof.
  destruct (Strinc (open_prefix prefix)) as [q|] eqn:E; [eauto|]. apply Strinc_None in E.
  unfold open_prefix in E. apply Forall_app in E as [_ E]. by apply Forall_cons in E as [? _].
Qed.

Lemma region_open prefix k : open_prefix prefix `prefix_of` k -> byKeyAndRevision f `prefix_of` k.
Proof. intros H. etrans; [|exact H]. by apply prefix_app_r. Qed.

Lemma pack_le_iff k1 k2 t :
  Pack (byKeyAndRevision f) [TString k1] <=b Pack (byKeyAndRevision f) (TString k2 :: t) <-> k1 <=b k2.
Proof.
  split.
  - rewrite !ble_not_lt. intros H Hlt. by apply H, pack_key_lt.
  - intros H. apply ble_lteq in H as [H| ->]; [by apply blt_le, pack_key_lt|].
    apply ble_prefix, pack_key_prefix.
Qed.

(** Between a key of the region and the end of a prefix one stays inside. *)
Lemma region_between b e p :
  byKeyAndRevision f `prefix_of` b -> Strinc (open_prefix p) = Some e ->
  forall k, b <=b k -> k <b e -> byKeyAndRevision f `prefix_of` k.
Proof.
  intros [r Hb] He k Hbk Hke. apply (Strinc_lt _ _ k) in He as He2. apply He2 in Hke as [Hlt|Hp];
    [|by eapply region_open].
  subst b. by eapply prefix_between.
Qed.

(** Each scan reads the records of exactly the keys of [scan_keys]. *)
Lemma scan_selectors_spec prefix startKey :
  has_slash_suffix prefix = true \/ startKey = prefix ->
  exists b e, scan_selectors f prefix startKey = Ok (FirstGreaterOrEqual b, FirstGreaterOrEqual e) /\
    key_range b e (scan_keys prefix startKey).
Proof.
  unfold scan_selectors, scan_keys. destruct (has_slash_suffix prefix).
  - intros _. rewrite take_packed. destruct (open_prefix_Strinc prefix) as [q Hq]. rewrite Hq.
    destruct (decide (prefix <> startKey)) as [Hne|Heq].
    + destruct (Strinc_key (byKeyAndRevision f) [TString startKey]) as [b Hb]; [done|].
      rewrite Hb. cbn [of_option rbind]. exists b, q. split; [done|].
      split.
      * intros k Hbk. apply (Strinc_le _ _ k Hb) in Hbk as [Hbk _].
        apply (region_between _ _ _ (Pack_region _ _) Hq k Hbk).
      * intros x. cbv beta. rewrite (decide_False (P := prefix = startKey)) by done.
        rewrite index_entry_key, (Strinc_le _ _ _ Hb), (Strinc_lt _ _ _ Hq).
        rewrite pack_le_iff, pack_key_prefix_iff, open_prefix_iff.
        assert (Hlt : Pack (byKeyAndRevision f) [TString (Key x.2); TVersionstamp (int64ToVersionstamp x.1)]
                        <b open_prefix prefix <-> Key x.2 <b prefix).
        { apply open_prefix_lt_iff. }
        rewrite Hlt, ble_lteq. split.
        -- intros [[[H|H] Hn] Hend]; [tauto|]. exfalso. apply Hn. by left.
        -- intros (H & Hn & Hend). split; [|done]. split; [by left|].
           intros [E|?]; [rewrite E in H; by apply blt_irrefl in H|done].
    + apply dec_stable in Heq as <-. cbn [of_option rbind].
      eexists _, q. split; [done|]. split.
      * intros k. apply (region_between _ _ _ (Pack_region _ _) Hq k).
      * intros x. cbv beta. rewrite (decide_True (P := prefix = prefix)) by done.
        rewrite index_entry_key, pack_le_iff, (Strinc_lt _ _ _ Hq), open_prefix_iff.
        rewrite open_prefix_lt_iff. split.
        -- intros [Hle [Hlt|H]]; [|done]. by apply ble_not_lt in Hle.
        -- intros H. split; [by apply ble_prefix|by right].
  - intros [?| ->]; [done|]. rewrite decide_False by auto. rewrite FDBRangeKeys_spec.
    eexists _, _. split; [done|]. cbn [fst snd]. split.
    + intros k H1 H2. destruct (proj1 (in_sub_range _ _) (conj H1 H2)) as (b & r & -> & _).
      rewrite Sub_spec, <-app_assoc. by apply prefix_app_r.
    + intros x. rewrite index_entry_key. rewrite <-(byKey_in_sub (byKeyAndRevision f) prefix
        (int64ToVersionstamp x.1) x.2). done.
Qed.
End Ranges.
