(* ===== verification/ListValues.v ===== *)
(** The values of a list batch (listCollector.endBatch and fetchLegacy): the
    merge-join with the current-value subspace and the by-revision fallback
    give every record its value. *)
From stdpp Require Import base strings list gmap sorting.
From Stdlib Require Import Strings.Byte ZArith Lia.
From S2P Require Import Prelude FdbApi KeyOrder Util Subspaces SubspaceFacts Transact History Scan Write Read ReadFacts.

Definition key_sorted (records : list RevRecord) : Prop :=
  StronglySorted (fun a b => rec_key a <b rec_key b) records.

#[global] Instance rec_key_strict : StrictOrder (fun a b : RevRecord => rec_key a <b rec_key b).
Proof. split; [intros x; apply blt_irrefl|intros x y z; apply blt_trans]. Qed.

Lemma key_sorted_lookup records i j a b :
  key_sorted records -> records !! i = Some a -> records !! j = Some b -> (i < j)%nat ->
  rec_key a <b rec_key b.
Proof.
  intros Hs. revert i j. induction Hs as [|r l Hs IH Hr]; intros i j Ha Hb Hij; [done|].
  destruct j as [|j]; [lia|]. destruct i as [|i]; cbn in *.
  - injection Ha as ->. rewrite Forall_forall in Hr. apply Hr. by eapply list_elem_of_lookup_2.
  - by apply (IH i j); [..|lia].
Qed.

(** * The cursor of the join *)

Lemma skip_below_spec fuel records idx key :
  (length records <= idx + fuel)%nat ->
  let n := skip_below fuel records idx key in
  (idx <= n)%nat /\
  (forall j r, (idx <= j < n)%nat -> records !! j = Some r -> rec_key r <b key) /\
  (forall r, records !! n = Some r -> key <=b rec_key r).
Proof.
  revert idx; induction fuel as [|fuel IH]; intros idx Hf n.
  - split; [done|]. split; [intros; subst n; cbn in *; lia|].
    intros r Hr%lookup_lt_Some. subst n; cbn in *. lia.
  - subst n. cbn [skip_below]. destruct (records !! idx) as [r0|] eqn:E0.
    + destruct (bltb (rec_key r0) key) eqn:Eb.
      * destruct (IH (S idx) ltac:(lia)) as (H1 & H2 & H3). split; [lia|]. split; [|done].
        intros j r Hj Hr. destruct (decide (j = idx)) as [->|]; [|by apply (H2 j); [lia|]].
        rewrite E0 in Hr. injection Hr as <-. by apply bltb_spec.
      * split; [done|]. split; [intros; lia|]. intros r Hr. rewrite E0 in Hr. injection Hr as <-.
        apply ble_not_lt. rewrite <-bltb_spec. by rewrite Eb.
    + split; [done|]. split; [intros; lia|]. intros r Hr. congruence.
Qed.

(** * The join *)

Section Join.
Context `{FB : FdbBindings, KV : KVStore, CF : Config}.
Context (f : FDB).

Definition chunk_key (kv : FdbKeyValue) : bytes :=
  match ByKeyCurrent_parseKV (byKeyCurrent f) kv with Ok (k, _) => k | _ => [] end.

(** A pair of the current-value subspace. *)
Definition is_chunk (kv : FdbKeyValue) : Prop :=
  exists key o, is_int64 o /\ kv.1 = Pack (byKeyCurrent f) [TString key; TInt o].

Lemma parse_chunk kv : is_chunk kv -> ByKeyCurrent_parseKV (byKeyCurrent f) kv = Ok (chunk_key kv, kv.2).
Proof.
  intros (key & o & Ho & E). unfold chunk_key, ByKeyCurrent_parseKV. rewrite E.
  by rewrite Unpack_Pack by solve_tuple_ok.
Qed.

Lemma chunk_key_pack key o v :
  is_int64 o -> chunk_key (Pack (byKeyCurrent f) [TString key; TInt o], v) = key.
Proof. intros Ho. unfold chunk_key, ByKeyCurrent_parseKV. cbn [fst]. by rewrite Unpack_Pack by solve_tuple_ok. Qed.

Lemma chunk_key_le a b : is_chunk a -> is_chunk b -> a.1 <b b.1 -> chunk_key a <=b chunk_key b.
Proof.
  intros (k1 & o1 & Ho1 & E1) (k2 & o2 & Ho2 & E2). destruct a as [a va], b as [b vb].
  cbn [fst] in E1, E2. subst. rewrite !chunk_key_pack by done. cbn [fst].
  rewrite !Pack_spec, blt_app_l, string_key_lt_iff, ble_lteq. tauto.
Qed.

(** The bytes a buffer holds, and the chunks of a key. *)
Definition buf_at (bufs : list (option bytes)) (i : nat) : bytes := default [] (mjoin (bufs !! i)).
Definition chunks_of (key : bytes) (it : RangeIterator) : bytes :=
  mjoin (snd <$> filter (fun kv => chunk_key kv = key) it).

Lemma chunks_of_cons key kv it :
  chunks_of key (kv :: it) = (if decide (chunk_key kv = key) then kv.2 else []) ++ chunks_of key it.
Proof. unfold chunks_of. rewrite filter_cons. by case_decide. Qed.

Lemma chunks_of_nil key it : (forall kv, kv ∈ it -> chunk_key kv <> key) -> chunks_of key it = [].
Proof.
  intros H. unfold chunks_of. replace (filter _ it) with (@nil FdbKeyValue); [done|].
  symmetry. induction it as [|kv it IH]; [done|]. rewrite filter_cons, decide_False by (apply H; left).
  apply IH. intros x Hx. apply H. by right.
Qed.

(** Only the record at the cursor can have the key that the cursor is at. *)
Lemma at_cursor records n key i r :
  key_sorted records -> (forall j r, (j < n)%nat -> records !! j = Some r -> rec_key r <b key) ->
  (forall r, records !! n = Some r -> key <=b rec_key r) -> records !! i = Some r -> rec_key r = key -> i = n.
Proof.
  intros Hs Hbelow Hge Hr E. destruct (Nat.lt_trichotomy i n) as [Hlt|[?|Hlt]]; [|done|]; exfalso.
  - pose proof (Hbelow i r Hlt Hr) as H. rewrite E in H. by apply blt_irrefl in H.
  - destruct (lookup_lt_is_Some_2 records n) as [rn En]; [apply lookup_lt_Some in Hr; lia|].
    pose proof (key_sorted_lookup _ _ _ _ _ Hs En Hr Hlt) as H. rewrite E in H.
    apply blt_not_le in H. by apply H, Hge.
Qed.

(** The buffer a chunk is added to. *)
Lemma chunk_buffer records n r (bufs : list (option bytes)) :
  records !! n = Some r -> Forall (fun r => 0 <= ValueSize (rr_Record r)) records ->
  match bufs !! n with
  | Some (Some b) => Ok b
  | _ => if ValueSize (rr_Record r) <? 0 then Panic else Ok []
  end = Ok (buf_at bufs n).
Proof.
  intros Hr Hsz. rewrite Forall_forall in Hsz. apply list_elem_of_lookup_2, Hsz, Z.ltb_ge in Hr. rewrite Hr.
  unfold buf_at. by destruct (bufs !! n) as [[b|]|].
Qed.

Lemma merge_join_spec records it idx bufs :
  key_sorted records -> length bufs = length records ->
  Forall (fun r => 0 <= ValueSize (rr_Record r)) records ->
  Forall is_chunk it -> StronglySorted (fun x y => x.1 <b y.1) it ->
  (forall j r kv, (j < idx)%nat -> records !! j = Some r -> kv ∈ it -> rec_key r <b chunk_key kv) ->
  exists bufs2, merge_join f records it idx bufs = Ok bufs2 /\ length bufs2 = length records /\
    forall i r, records !! i = Some r ->
      buf_at bufs2 i = buf_at bufs i ++
        (if LatestForKey (rr_Record r) then chunks_of (rec_key r) it else []).
Proof.
  intros Hs Hlen Hsz Hch Hsort. revert idx bufs Hlen.
  induction Hsort as [|kv it Hsort IH Hkv]; intros idx bufs Hlen Hidx.
  { exists bufs. split; [done|]. split; [done|]. intros i r Hr. destruct (LatestForKey _); by rewrite app_nil_r. }
  apply Forall_cons in Hch as [Hc Hch]. cbn [merge_join]. rewrite (parse_chunk kv Hc). cbn [rbind].
  destruct (skip_below_spec (length records) records idx (chunk_key kv)) as (Hn1 & Hn2 & Hn3); [lia|].
  set (n := skip_below (length records) records idx (chunk_key kv)) in *.
  rewrite Forall_forall in Hkv, Hch.
  assert (Hle : forall x, x ∈ it -> chunk_key kv <=b chunk_key x)
    by (intros x Hx; apply chunk_key_le; auto).
  assert (Hbelow : forall j r, (j < n)%nat -> records !! j = Some r -> rec_key r <b chunk_key kv).
  { intros j r Hj Hr. destruct (decide (j < idx)%nat).
    - apply (Hidx j r kv); [done..|left].
    - apply (Hn2 j r); [lia|done]. }
  assert (Hnext : forall j r x, (j < n)%nat -> records !! j = Some r -> x ∈ it -> rec_key r <b chunk_key x).
  { intros j r x Hj Hr Hx. eapply blt_le_trans; [by eapply Hbelow|by apply Hle]. }
  assert (Hch' : Forall is_chunk it) by (by rewrite Forall_forall).
  destruct (records !! n) as [rn|] eqn:En.
  - assert (Hcur : forall i r, records !! i = Some r -> rec_key r = chunk_key kv -> i = n)
      by (intros i r; apply at_cursor; [done..|]; intros r2; rewrite En; apply Hn3).
    destruct (bool_decide (rec_key rn = chunk_key kv) && LatestForKey (rr_Record rn)) eqn:Etake.
    + apply andb_true_iff in Etake as [Ek%bool_decide_eq_true El].
      rewrite (chunk_buffer records n rn bufs En Hsz). cbn [rbind].
      destruct (IH Hch' n (<[n:=Some (buf_at bufs n ++ kv.2)]> bufs)) as (bufs2 & -> & Hl2 & Hb2);
        [by rewrite length_insert|done|].
      exists bufs2. split; [done|]. split; [done|]. intros i r Hr. rewrite (Hb2 i r Hr), chunks_of_cons.
      unfold buf_at at 1. destruct (decide (i = n)) as [->|Hin].
      * rewrite En in Hr. injection Hr as <-.
        rewrite El, decide_True, list_lookup_insert_eq by (done || rewrite Hlen; by eapply lookup_lt_Some).
        simpl. by rewrite <-app_assoc.
      * rewrite list_lookup_insert_ne by done. fold (buf_at bufs i).
        rewrite decide_False by (intros E; by eapply Hin, Hcur). done.
    + destruct (IH Hch' n bufs Hlen Hnext) as (bufs2 & -> & Hl2 & Hb2).
      exists bufs2. split; [done|]. split; [done|]. intros i r Hr. rewrite (Hb2 i r Hr), chunks_of_cons.
      destruct (LatestForKey (rr_Record r)) eqn:El; [|done]. rewrite decide_False; [done|]. intros E.
      pose proof (Hcur i r Hr (eq_sym E)) as ->. rewrite En in Hr. injection Hr as ->.
      by rewrite bool_decide_eq_true_2, El in Etake by done.
  - exists bufs. split; [done|]. split; [done|]. intros i r Hr.
    assert (Hin : (i < n)%nat) by (apply lookup_lt_Some in Hr; apply lookup_ge_None in En; lia).
    rewrite (chunks_of_nil (rec_key r)); [destruct (LatestForKey _); by rewrite app_nil_r|].
    intros x [->|Hx]%elem_of_cons E.
    + pose proof (Hbelow i r Hin Hr) as H. rewrite E in H. by apply blt_irrefl in H.
    + pose proof (Hnext i r x Hin Hr Hx) as H. rewrite E in H. by apply blt_irrefl in H.
Qed.
End Join.

(** * The values of a batch *)

(** The list record of an emitted one, and the one with its value. *)
Definition rr_of (p : entry * bool) : RevRecord :=
  mkRevRecord (kr_Rev (bk_Key (bk_of p))) (bk_Value (bk_of p)).
Definition full_rr (e : entry) : RevRecord :=
  mkRevRecord (int64ToVersionstamp e.1) (byRevision_view e.2).

(** Fields that the by-key view and the by-revision view share. *)
Definition same_meta (a b : Rec) : Prop :=
  Key a = Key b /\ IsDelete a = IsDelete b /\ IsCreate a = IsCreate b /\ Lease a = Lease b /\
  CreateRevision a = CreateRevision b /\ PrevRevision a = PrevRevision b.

(** A list record that stands for an emitted one: with the right value when
    the emitted one is exact. *)
Definition resolved (exact : Prop) (e : entry) (r : RevRecord) : Prop :=
  rr_Rev r = int64ToVersionstamp e.1 /\ same_meta (rr_Record r) e.2 /\
  (exact -> Value (rr_Record r) = Value e.2).

Lemma rr_of_key p : rec_key (rr_of p) = Key p.1.2.
Proof. reflexivity. Qed.

Section Assign.

Lemma assign_values_spec n records bufs :
  length bufs = length records ->
  let '(records2, legacy) := assign_values n records bufs in
  length records2 = length records /\
  (forall i, i ∈ legacy -> (n <= i < n + length records)%nat) /\
  forall i r, records !! i = Some r ->
    (ValueSize (rr_Record r) = 0 /\ records2 !! i = Some (rr_with_Value r []) /\ ((n + i)%nat ∉ legacy)) \/
    (zlength (buf_at bufs i) = ValueSize (rr_Record r) /\
       records2 !! i = Some (rr_with_Value r (buf_at bufs i)) /\ ((n + i)%nat ∉ legacy)) \/
    (records2 !! i = Some r /\ (n + i)%nat ∈ legacy).
Proof.
  revert n bufs; induction records as [|r records IH]; intros n [|buf bufs] Hlen; try done.
  { cbn. split; [done|]. split; [by intros i ?%not_elem_of_nil|done]. }
  cbn [assign_values]. specialize (IH (S n) bufs ltac:(cbn in Hlen; lia)).
  destruct (assign_values (S n) records bufs) as [rest legacy].
  destruct IH as (Hl & Hge & Hall).
  assert (Hn : n ∉ legacy) by (intros H; apply Hge in H; lia).
  assert (Hshift : forall i, (n + S i)%nat = (S n + i)%nat) by (intros; lia).
  destruct (Z.eqb_spec (ValueSize (rr_Record r)) 0) as [Hz|Hnz];
    [|destruct (Z.eqb_spec (zlength (default [] buf)) (ValueSize (rr_Record r))) as [Hsz|Hsz]].
  - split; [cbn; lia|]. split; [intros i Hi; apply Hge in Hi; cbn; lia|].
    intros [|i] x Hx; cbn [lookup list_lookup] in *.
    + injection Hx as <-. left. by rewrite Nat.add_0_r.
    + rewrite Hshift. by apply Hall.
  - split; [cbn; lia|]. split; [intros i Hi; apply Hge in Hi; cbn; lia|].
    intros [|i] x Hx; cbn [lookup list_lookup] in *.
    + injection Hx as <-. right; left. by rewrite Nat.add_0_r.
    + rewrite Hshift. by apply Hall.
  - split; [cbn; lia|]. split; [intros i [->|Hi]%elem_of_cons; [cbn; lia|apply Hge in Hi; cbn; lia]|].
    intros [|i] x Hx; cbn [lookup list_lookup] in *.
    + injection Hx as <-. right; right. rewrite Nat.add_0_r. split; [done|left].
    + rewrite Hshift.
      assert (Hcons : (S n + i)%nat ∈ n :: legacy <-> (S n + i)%nat ∈ legacy).
      { rewrite elem_of_cons. split; [|by right]. intros [?|?]; [lia|done]. }
      destruct (Hall i x Hx) as [?|[?|?]]; [left|right; left|right; right]; by rewrite Hcons.
Qed.
End Assign.

Section Values.
Context `{FB : FdbBindings, KV : KVStore, CF : Config}.
Context (dir : bytes).
Abbreviation f := (openSubspaces dir).

(** ** The by-revision fallback *)

Lemma GetIterator_Repr tr h c e :
  Repr dir (tr_view tr) h c -> e ∈ h ->
  ByRevision_GetIterator (byRevision f) tr (int64ToVersionstamp e.1) = Ok (rev_entries (byRevision f) e).
Proof.
  intros HR Hin. unfold ByRevision_GetIterator, PrefixRange.
  destruct (Strinc_key (byRevision f) [TVersionstamp (int64ToVersionstamp e.1)]) as [q Hq]; [done|].
  rewrite Hq. cbn [of_option rbind]. unfold tr_GetRange, prefix_selectors.
  cbn [Begin End selector_key fst snd]. by rewrite (srange_revision _ _ _ _ _ _ HR Hin Hq).
Qed.

Definition put_legacy (ps : list (entry * bool)) (l : list nat) (records : list RevRecord)
    : list RevRecord :=
  fold_left (fun rs i => match ps !! i with Some p => <[i := full_rr p.1]> rs | None => rs end) l records.

(** The indices of a batch whose records are in the history. *)
Definition legacy_ok (h : history) (ps : list (entry * bool)) (l : list nat) (records : list RevRecord)
    : Prop :=
  forall i, i ∈ l -> exists p r, ps !! i = Some p /\ p.1 ∈ h /\ records !! i = Some r /\
    rr_Rev r = int64ToVersionstamp p.1.1.

Lemma put_legacy_ok h ps l l2 records :
  legacy_ok h ps l2 records -> legacy_ok h ps l2 (put_legacy ps l records).
Proof.
  revert records; induction l as [|j l IH]; intros records Hok; [done|]. cbn.
  apply IH. destruct (ps !! j) as [pj|] eqn:Ej; [|done]. intros i Hi.
  destruct (Hok i Hi) as (p & r & Hp & Hin & Hr & Hrev).
  destruct (decide (j = i)) as [->|Hne].
  - exists p, (full_rr pj.1). rewrite Ej in Hp. injection Hp as ->. split; [done|]. split; [done|].
    split; [|done]. apply list_lookup_insert_eq. by eapply lookup_lt_Some.
  - exists p, r. rewrite list_lookup_insert_ne by done. done.
Qed.

Lemma window_legacy tr h c ps w records :
  Repr dir (tr_view tr) h c -> legacy_ok h ps w records ->
  map_res (fun i => let? r := assert_some (records !! i) in
                    ByRevision_GetIterator (byRevision f) tr (rr_Rev r)) w =
  Ok ((fun i => match ps !! i with Some p => rev_entries (byRevision f) p.1 | None => [] end) <$> w).
Proof.
  intros HR. induction w as [|i w IH]; intros Hok; [done|]. cbn [map_res].
  destruct (Hok i ltac:(left)) as (p & r & Hp & Hin & Hr & Hrev).
  rewrite Hr. cbn [assert_some rbind]. rewrite Hrev, (GetIterator_Repr tr h c) by done. cbn [rbind].
  rewrite IH by (intros j Hj; apply Hok; by right). cbn [rbind]. by rewrite fmap_cons, Hp.
Qed.

Lemma drain_legacy tr h c ps w records :
  Repr dir (tr_view tr) h c -> legacy_ok h ps w records ->
  drain f w ((fun i => match ps !! i with Some p => rev_entries (byRevision f) p.1 | None => [] end) <$> w)
    records = Ok (put_legacy ps w records).
Proof.
  intros HR. revert records. induction w as [|i w IH]; intros records Hok; [done|].
  rewrite fmap_cons. cbn [drain].
  destruct (Hok i ltac:(left)) as (p & r & Hp & Hin & Hr & Hrev). rewrite Hp.
  pose proof (Repr_entry_ok _ _ _ _ _ HR Hin) as (_ & Hrec & _).
  rewrite <-(app_nil_r (rev_entries _ _)). unfold rev_entries at 1.
  rewrite ByRevision_GetFromIterator_entries by auto using int64ToVersionstamp_ok. cbn [rbind].
  fold (full_rr p.1). rewrite IH.
  - cbn [put_legacy fold_left]. by rewrite Hp.
  - pose proof (put_legacy_ok h ps [i] w records) as H. cbn in H. rewrite Hp in H.
    apply H. intros j Hj. apply Hok. by right.
Qed.

Lemma fetchLegacy_spec tr h c ps l records :
  Repr dir (tr_view tr) h c -> legacy_ok h ps l records ->
  fetchLegacy f tr l records = Ok (put_legacy ps l records).
Proof.
  intros HR Hok. unfold fetchLegacy. rewrite for_loop_fold by (unfold secondaryFetchPipeline; lia).
  assert (Hcat : mjoin (window l secondaryFetchPipeline <$>
                   loop_indices (zlength l) secondaryFetchPipeline) = l)
    by (apply concat_slices; unfold secondaryFetchPipeline; lia).
  transitivity (Ok (put_legacy ps (mjoin (window l secondaryFetchPipeline <$>
                  loop_indices (zlength l) secondaryFetchPipeline)) records)); [|by rewrite Hcat].
  clear Hcat.
  assert (Hall : forall start i, i ∈ window l secondaryFetchPipeline start -> i ∈ l).
  { intros start i. unfold window, slice. intros Hi.
    by eapply subseteq_drop, subseteq_take. }
  revert records Hok. induction (loop_indices (zlength l) secondaryFetchPipeline) as [|start idx IH];
    intros records Hok; [done|].
  cbn [fold_res]. fold (window l secondaryFetchPipeline start).
  assert (Hw : legacy_ok h ps (window l secondaryFetchPipeline start) records)
    by (intros i Hi; apply Hok; by eapply Hall).
  rewrite (window_legacy tr h c ps) by done. cbn [rbind].
  rewrite (drain_legacy tr h c) by done. cbn [rbind].
  rewrite IH by (by apply put_legacy_ok). f_equal.
  rewrite fmap_cons. change (mjoin (?x :: ?k)) with (x ++ mjoin k).
  unfold put_legacy. by rewrite fold_left_app.
Qed.

Lemma put_legacy_lookup ps l records i :
  (put_legacy ps l records) !! i =
  if decide (i ∈ l) then
    match ps !! i with Some p => (fun _ => full_rr p.1) <$> records !! i | None => records !! i end
  else records !! i.
Proof.
  revert records; induction l as [|j l IH]; intros records.
  - rewrite decide_False by apply not_elem_of_nil. done.
  - cbn [put_legacy fold_left]. fold (put_legacy ps l).
    change (fold_left _ l ?x) with (put_legacy ps l x). rewrite IH.
    destruct (decide (i = j)) as [->|Hne].
    + rewrite (decide_True (P := j ∈ j :: l)) by left.
      destruct (ps !! j) as [p|]; [|by destruct (decide (j ∈ l))].
      destruct (decide (j < length records)%nat).
      * rewrite list_lookup_insert_eq by done. destruct (lookup_lt_is_Some_2 records j) as [r ->]; [done|].
        by destruct (decide (j ∈ l)).
      * rewrite list_insert_ge by lia. rewrite lookup_ge_None_2 by lia. by destruct (decide (j ∈ l)).
    + assert (E : (match ps !! j with Some p => <[j:=full_rr p.1]> records | None => records end) !! i
                  = records !! i).
      { destruct (ps !! j); [by apply list_lookup_insert_ne|done]. }
      rewrite E. destruct (decide (i ∈ l)) as [Hi|Hi].
      * by rewrite decide_True by (by right).
      * rewrite decide_False; [done|]. by intros [?|?]%elem_of_cons.
Qed.

Lemma length_put_legacy ps l records : length (put_legacy ps l records) = length records.
Proof.
  unfold put_legacy. revert records; induction l as [|i l IH]; intros records; [done|]. cbn [fold_left].
  rewrite IH. destruct (ps !! i); [by rewrite length_insert|done].
Qed.

(** ** The chunks of a key *)

Lemma current_entries_sorted key v :
  zlength v <= maxRecordSize ->
  StronglySorted (fun x y => x.1 <b y.1) (current_entry (byKeyCurrent f) key <$> chunks v).
Proof.
  intros Hmax. apply (ssorted_fmap_on (fun x y => x.1 < y.1)); [|apply chunks_sorted].
  intros [o1 c1] [o2 c2] H1 H2 Hlt. unfold current_entry. cbn [fst snd] in *.
  destruct (chunks_offset_int64 _ _ _ Hmax H1), (chunks_offset_int64 _ _ _ Hmax H2).
  rewrite !Pack_spec. apply blt_app_l, string_key_same.
  pose proof (bdiverge_lt _ _ [] [] (tuple_pack_int_order o1 o2 ltac:(done) ltac:(done) Hlt)) as H'.
  by rewrite !app_nil_r in H'.
Qed.

Lemma srange_chunks st h c b q kv :
  Repr dir st h c -> (forall k, b <=b k -> k <b q -> byKeyCurrent f `prefix_of` k) ->
  kv ∈ srange st b q -> is_chunk f kv.
Proof.
  intros HR Hreg Hin. destruct kv as [k v]. apply srange_spec in Hin as (Hget & H1 & H2).
  apply (R_current_keys _ _ _ _ HR); [by apply Hreg|by eexists].
Qed.

Lemma chunks_of_srange st h c key v b q :
  Repr dir st h c -> holds (byKeyCurrent f) st key v -> zlength v <= maxRecordSize ->
  (forall k, b <=b k -> k <b q -> byKeyCurrent f `prefix_of` k) ->
  (forall o, b <=b Pack (byKeyCurrent f) [TString key; TInt o] /\
             Pack (byKeyCurrent f) [TString key; TInt o] <b q) ->
  chunks_of f key (srange st b q) = v.
Proof.
  intros HR Hh Hmax Hreg Hkey. unfold chunks_of.
  replace (filter (fun kv => chunk_key f kv = key) (srange st b q))
    with (current_entry (byKeyCurrent f) key <$> chunks v).
  { rewrite <-list_fmap_compose. apply concat_chunks. }
  symmetry. apply (ssorted_ext (fun x y => x.1 <b y.1)).
  - apply (ssorted_filter (fun x y => x.1 <b y.1)), srange_sorted.
  - by apply current_entries_sorted.
  - intros [k val]. rewrite list_elem_of_filter, list_elem_of_fmap. split.
    + intros [Hck Hin]. destruct (srange_chunks _ _ _ _ _ _ HR Hreg Hin) as (key2 & o & Ho & E).
      cbn [fst] in E. subst k. rewrite chunk_key_pack in Hck by done. subst key2.
      apply srange_spec in Hin as (Hget & _). rewrite (Hh o Ho) in Hget.
      exists (o, val). split; [done|]. by apply chunk_map_Some.
    + intros ([o c2] & E & Hin). injection E as -> ->. cbn [fst snd] in *. destruct (chunks_offset_int64 _ _ _ Hmax Hin) as [_ Ho].
      split; [by apply chunk_key_pack|]. apply srange_spec. split; [|apply Hkey].
      etransitivity; [exact (Hh o Ho)|by apply chunk_map_Some].
Qed.

(** The range between two keys holds the chunks of the keys in between. *)
Lemma RangeForKeys_spec k1 k2 :
  exists b q, ByKeyCurrent_RangeForKeys (byKeyCurrent f) k1 k2 =
      Ok (mkSelectorRange (FirstGreaterOrEqual b) (FirstGreaterOrEqual q)) /\
    (forall k, b <=b k -> k <b q -> byKeyCurrent f `prefix_of` k) /\
    forall key o, k1 <=b key -> key <=b k2 ->
      b <=b Pack (byKeyCurrent f) [TString key; TInt o] /\
      Pack (byKeyCurrent f) [TString key; TInt o] <b q.
Proof.
  unfold ByKeyCurrent_RangeForKeys.
  destruct (Strinc_key (byKeyCurrent f) [TString k2]) as [q Hq]; [done|].
  rewrite Hq. cbn [of_option rbind]. eexists _, q. split; [done|]. split.
  - intros k Hb Hlt. apply (Strinc_lt _ _ k Hq) in Hlt as [Hlt|Hp].
    + rewrite Pack_spec in Hb, Hlt. by eapply prefix_between.
    + etrans; [|exact Hp]. apply Pack_region.
  - intros key o H1 H2. split.
    + apply ble_lteq in H1 as [H1| ->]; [by apply blt_le, pack_key_lt|apply ble_prefix, pack_key_prefix].
    + apply (Strinc_lt _ _ _ Hq). apply ble_lteq in H2 as [H2| ->]; [left; by apply pack_key_lt|].
      right. apply pack_key_prefix.
Qed.

(** ** A whole batch *)

(** What a list batch needs of the records passed to it. *)
Definition batch_records (h : history) (ps : list (entry * bool)) : Prop :=
  StronglySorted (fun p q => Key p.1.2 <b Key q.1.2) ps /\
  forall p, p ∈ ps -> p.1 ∈ h /\ IsDelete p.1.2 = false.

(** The flag of a record tells the truth: it is the newest of its key. *)
Definition truthful (h : history) (p : entry * bool) : Prop :=
  p.2 = true -> latest h (Key p.1.2) = Some p.1.

Lemma batch_between ps first pl p :
  StronglySorted (fun p q : entry * bool => Key p.1.2 <b Key q.1.2) ps ->
  head ps = Some first -> last ps = Some pl -> p ∈ ps ->
  Key first.1.2 <=b Key p.1.2 /\ Key p.1.2 <=b Key pl.1.2.
Proof.
  intros Hs Hf Hl Hp. split.
  - destruct Hs as [|q l Hs Hq]; [done|]. injection Hf as ->. rewrite Forall_forall in Hq.
    apply elem_of_cons in Hp as [->|Hp]; [apply ble_refl|by apply blt_le, Hq].
  - apply last_Some in Hl as [l ->]. apply elem_of_app in Hp as [Hp| ->%list_elem_of_singleton]; [|apply ble_refl].
    apply blt_le. by apply (StronglySorted_app_1_elem_of _ _ _ p pl Hs Hp); left.
Qed.

(** The buffer of a record: its value when the flag is truthful and the
    current subspace has it, nothing otherwise. *)
Lemma buffer_value st h c b q (p : entry * bool) :
  Repr dir st h c -> p.1 ∈ h -> IsDelete p.1.2 = false -> truthful h p ->
  (forall k, b <=b k -> k <b q -> byKeyCurrent f `prefix_of` k) ->
  (forall o, b <=b Pack (byKeyCurrent f) [TString (Key p.1.2); TInt o] /\
             Pack (byKeyCurrent f) [TString (Key p.1.2); TInt o] <b q) ->
  let buf := if p.2 then chunks_of f (Key p.1.2) (srange st b q) else [] in
  buf = [] \/ buf = Value p.1.2.
Proof.
  intros HR Hin Hlive Hex Hreg Hkey. cbv zeta. unfold truthful in Hex.
  destruct p as [e [|]]; cbn [fst snd] in *; [|by left].
  specialize (Hex eq_refl). pose proof (Repr_entry_ok _ _ _ _ _ HR Hin) as (_ & (_ & _ & _ & _ & Hmax & _) & _).
  destruct (R_current _ _ _ _ HR (Key e.2)) as [Hh|(e2 & El & Hh)].
  - left. eapply chunks_of_srange; [exact HR|done|vm_compute; congruence|done..].
  - right. rewrite Hex in El. cbn [live snd] in El. rewrite Hlive in El. injection El as <-.
    by eapply chunks_of_srange.
Qed.

Lemma Repr_ValueSize st h c e :
  Repr dir st h c -> e ∈ h -> ValueSize e.2 = zlength (Value e.2).
Proof. intros HR Hin. by pose proof (Repr_entry_ok _ _ _ _ _ HR Hin) as (_ & (_ & _ & _ & ? & _) & _). Qed.

(** The join over a batch. *)
Lemma batch_buffers tr h c p0 ps pl :
  Repr dir (tr_view tr) h c -> batch_records h ps -> head ps = Some p0 -> last ps = Some pl ->
  exists sel bufs,
    ByKeyCurrent_RangeForKeys (byKeyCurrent f) (Key p0.1.2) (Key pl.1.2) = Ok sel /\
    merge_join f (rr_of <$> ps) (tr_GetRange tr sel) 0 (replicate (length (rr_of <$> ps)) None) = Ok bufs /\
    length bufs = length (rr_of <$> ps) /\
    forall i p, ps !! i = Some p -> truthful h p -> buf_at bufs i = [] \/ buf_at bufs i = Value p.1.2.
Proof.
  intros HR [Hs Hall] Hfirst Hlast.
  destruct (RangeForKeys_spec (Key p0.1.2) (Key pl.1.2)) as (b & q & Hsel & Hreg & Hbetween).
  destruct (merge_join_spec f (rr_of <$> ps) (srange (tr_view tr) b q) 0
    (replicate (length (rr_of <$> ps)) None)) as (bufs & Hjoin & Hlen & Hbuf).
  { apply (ssorted_fmap_on (fun p q => Key p.1.2 <b Key q.1.2)); [|done]. intros x y _ _. by rewrite !rr_of_key. }
  { by rewrite length_replicate. }
  { rewrite Forall_forall. intros r (p & -> & Hp)%list_elem_of_fmap. cbn.
    rewrite (Repr_ValueSize _ h c p.1) by (done || by apply Hall). apply zlength_nonneg. }
  { rewrite Forall_forall. intros kv Hkv. by eapply srange_chunks. }
  { apply srange_sorted. }
  { intros; lia. }
  eexists _, bufs. split; [exact Hsel|]. split; [exact Hjoin|]. split; [done|].
  intros i p Hp Hex. rewrite (Hbuf i (rr_of p)) by (by rewrite list_lookup_fmap, Hp).
  assert (Hin : p ∈ ps) by (by eapply list_elem_of_lookup_2).
  assert (E0 : buf_at (replicate (length (rr_of <$> ps)) None) i = []).
  { unfold buf_at. rewrite lookup_replicate_2; [done|]. rewrite length_fmap. by eapply lookup_lt_Some. }
  rewrite E0. cbn [app]. rewrite rr_of_key.
  change (LatestForKey (rr_Record (rr_of p))) with p.2.
  eapply buffer_value; [exact HR|by apply Hall|by apply Hall|done|done|]. intros o.
  apply Hbetween; by apply (batch_between ps p0 pl p Hs).
Qed.

(** A record after its value is assigned: only one with the right size takes
    the buffer, the others are fetched by revision. *)
Lemma assigned_resolved h (p : entry * bool) buf r :
  ValueSize p.1.2 = zlength (Value p.1.2) ->
  (truthful h p -> buf = [] \/ buf = Value p.1.2) ->
  ValueSize p.1.2 = 0 /\ r = rr_with_Value (rr_of p) [] \/
  zlength buf = ValueSize p.1.2 /\ r = rr_with_Value (rr_of p) buf ->
  resolved (truthful h p) p.1 r.
Proof.
  intros Hsz Hbuf. assert (Hnil : zlength (Value p.1.2) = 0 -> Value p.1.2 = []).
  { intros H. apply length_zero_iff_nil. unfold zlength in H. lia. }
  intros [[Hz ->]|[Hl ->]]; (split; [done|]; split; [done|]); intros Ht; cbn.
  - symmetry. apply Hnil. congruence.
  - destruct (Hbuf Ht) as [->|]; [|done]. symmetry. apply Hnil. rewrite <-Hsz, <-Hl. done.
Qed.

Lemma fetch_values_eq tr records first pl :
  head records = Some first -> last records = Some pl ->
  fetch_values f tr records =
    let? selector := ByKeyCurrent_RangeForKeys (byKeyCurrent f) (rec_key first) (rec_key pl) in
    let? bufs := merge_join f records (tr_GetRange tr selector) 0 (replicate (length records) None) in
    let '(records, legacy) := assign_values 0 records bufs in
    fetchLegacy f tr legacy records.
Proof.
  intros Hf Hl. unfold fetch_values. destruct records as [|r rs]; [done|].
  rewrite Hl. by injection Hf as ->.
Qed.

Lemma fetch_values_spec tr h c ps :
  Repr dir (tr_view tr) h c -> batch_records h ps ->
  exists rs, fetch_values f tr (rr_of <$> ps) = Ok rs /\
    Forall2 (fun p r => resolved (truthful h p) p.1 r) ps rs.
Proof.
  intros HR Hbatch. destruct ps as [|p0 ps0]; [exists []; by split|].
  destruct (last (p0 :: ps0)) as [pl|] eqn:Elast; [|by apply last_None in Elast].
  destruct (batch_buffers tr h c p0 (p0 :: ps0) pl HR Hbatch eq_refl Elast)
    as (sel & bufs & Hsel & Hjoin & Hlen & Hvalue).
  pose proof (assign_values_spec 0 (rr_of <$> p0 :: ps0) bufs Hlen) as Has.
  rewrite (fetch_values_eq tr _ (rr_of p0) (rr_of pl)) by (rewrite ?last_fmap, ?Elast; done).
  rewrite !rr_of_key, Hsel. cbn [rbind]. rewrite Hjoin. cbn [rbind].
  set (ps := p0 :: ps0) in *.
  destruct (assign_values 0 (rr_of <$> ps) bufs) as [rs legacy].
  destruct Has as (Hl2 & Hbound & Hcase). rewrite length_fmap in Hl2, Hbound.
  assert (Hleg : legacy_ok h ps legacy rs).
  { intros i Hi. destruct (lookup_lt_is_Some_2 ps i) as [p Hp]; [by apply Hbound in Hi; lia|].
    assert (Hin : p ∈ ps) by (by eapply list_elem_of_lookup_2).
    destruct (Hcase i (rr_of p)) as [(_ & _ & ?)|[(_ & _ & ?)|[Hr _]]];
      [by rewrite list_lookup_fmap, Hp|done..|].
    exists p, (rr_of p). split; [done|]. split; [by apply Hbatch|]. by split. }
  rewrite (fetchLegacy_spec tr h c ps) by done. eexists. split; [done|].
  apply Forall2_same_length_lookup. split.
  { by rewrite length_put_legacy. }
  intros i p r Hp Hr. rewrite put_legacy_lookup, Hp in Hr.
  assert (Hin : p ∈ ps) by (by eapply list_elem_of_lookup_2).
  assert (Hsz : ValueSize p.1.2 = zlength (Value p.1.2)).
  { apply (Repr_ValueSize _ h c _ HR). by apply Hbatch. }
  destruct (Hcase i (rr_of p)) as [(Hz & Hri & Hn)|[(Hz & Hri & Hn)|(Hri & Hn)]];
    [by rewrite list_lookup_fmap, Hp|rewrite decide_False in Hr by done; rewrite Hri in Hr; injection Hr as <-..|].
  - eapply (assigned_resolved h p); [done|by apply Hvalue|]. by left.
  - eapply (assigned_resolved h p); [done|by apply Hvalue|]. by right.
  - rewrite decide_True in Hr by done. rewrite Hri in Hr. injection Hr as <-.
    split; [done|]. by split.
Qed.
End Values.
