(* ===== verification/ScanSpec.v ===== *)
(** A scan over the by-key index (listWithCollector of fdb_read.go) against
    the reference scan of Scan.v, for any inner collector that keeps
    [InnerSpec]: over several transactions, each retried, with other clients
    writing meanwhile, the inner collector is given the records that were
    live at the revision of the first transaction. *)
From stdpp Require Import base strings list gmap sorting.
From Stdlib Require Import Strings.Byte ZArith Lia.
From S2P Require Import Prelude FdbApi KeyOrder Util Subspaces SubspaceFacts Transact History Scan Write Read ReadFacts ListValues.

(** * What the scan expects of its inner collector *)

(** [good P X c]: between batches, [c] holds the exact records [P] and the
    records [X] it was given after it had enough; [wants n]: it asks for more
    after [n] records. *)
Class InnerSpec `{FB : FdbBindings, KV : KVStore, CF : Config} (dir : bytes) (C : Type)
    `{!Processor ByKeyAndRevisionRecord C, !Accumulator C}
    (wants : nat -> bool) (good : list entry -> list entry -> C -> Prop) : Prop := {
  inner_laws :: BatchLaws ByKeyAndRevisionRecord C;
  inner_ro :: ReadOnly ByKeyAndRevisionRecord C;
  wants_pred n : wants (S n) = true -> wants n = true;
  inner_more P c ps : good P [] c -> ps <> [] ->
    more (push_all ps (startBatch c)) = wants (length P + length ps)%nat;
  inner_end P c h comp tr isLast ps xs :
    Repr dir (tr_view tr) h comp -> good P [] c -> batch_records h (ps ++ xs) ->
    Forall (truthful h) ps ->
    exists c2, endBatch tr isLast (push_all (ps ++ xs) (startBatch c)) = (Ok tr, c2) /\
      good (P ++ ps.*1) xs.*1 (postBatch c2)
}.

(** * Runs of a scan *)

Section Runs.
Context `{FB : FdbBindings, KV : KVStore, CF : Config}.
Context (dir : bytes) (comp : Z) (grow : nat).

(** Read versions do not go back, and before each attempt other clients add
    at most [grow] records, committed after the previous read version. *)
Fixpoint reads_ok {E : Type} (prev : Z) (attempts : list (Attempt E)) : Prop :=
  match attempts with
  | [] => True
  | a :: rest =>
      0 < at_read_version a /\ prev <= at_read_version a /\
      (forall s h, Repr dir s h comp -> Forall (fun e => e.1 <= prev) h ->
         exists ext, Repr dir (at_others a s) (h ++ ext) comp /\ (length ext <= grow)%nat /\
           Forall (fun e => prev < e.1 <= at_read_version a) ext) /\
      reads_ok (at_read_version a) rest
  end.

Lemma reads_ok_le {E} p p2 (l : list (Attempt E)) : p <= p2 -> reads_ok p2 l -> reads_ok p l.
Proof.
  destruct l as [|a l]; [done|]. intros Hle (H0 & Hp & Hoth & Hl). split_and!; [done|lia| |done].
  intros s h HR Hh. destruct (Hoth s h HR) as (ext & HR2 & Hlen & Hext).
  { eapply Forall_impl; [exact Hh|]. cbn. lia. }
  exists ext. split_and!; [done..|]. eapply Forall_impl; [exact Hext|]. cbn. lia.
Qed.

Lemma reads_ok_skip {E} p (l1 l2 : list (Attempt E)) : reads_ok p (l1 ++ l2) -> reads_ok p l2.
Proof.
  revert p; induction l1 as [|a l1 IH]; intros p; [done|]. intros (_ & Hp & _ & Hl).
  eapply reads_ok_le, IH, Hl. done.
Qed.

Lemma reads_ok_pos {E} p (l : list (Attempt E)) : reads_ok p l -> forall a, a ∈ l -> 0 < at_read_version a.
Proof.
  revert p; induction l as [|b l IH]; intros p; [by intros _ a ?%not_elem_of_nil|].
  intros (Hb & _ & _ & Hl) a [->|Ha]%elem_of_cons; [done|by eapply IH].
Qed.

Lemma reads_ok_take {E} p (l1 l2 : list (Attempt E)) : reads_ok p (l1 ++ l2) -> reads_ok p l1.
Proof. revert p; induction l1 as [|a l1 IH]; intros p; [done|]. cbn. naive_solver. Qed.

(** A store that has grown from history [h1] at revision [p1], as read at
    revision [p]. *)
Record since (h1 : history) (p1 : Z) (s : store) (h : history) (p : Z) : Prop := mkSince {
  sn_repr : Repr dir s h comp;
  sn_ext : exists ext, h = h1 ++ ext /\ Forall (fun e => p1 < e.1) ext;
  sn_le : p1 <= p;
  sn_upto : Forall (fun e => e.1 <= p) h
}.

Lemma since_refl s h p : Repr dir s h comp -> Forall (fun e => e.1 <= p) h -> since h p s h p.
Proof. intros HR Hp. split; [done| |done..]. exists []. by rewrite app_nil_r. Qed.

Lemma since_step {E} h1 p1 s h p (a : Attempt E) rest :
  since h1 p1 s h p -> reads_ok p (a :: rest) ->
  exists h2, since h1 p1 (at_others a s) h2 (at_read_version a) /\
    (length h2 <= length h + grow)%nat.
Proof.
  intros [HR (ext & -> & Hext) Hle Hup] (_ & Hp & Hoth & _).
  destruct (Hoth s _ HR Hup) as (new & HR2 & Hlen & Hnew).
  exists ((h1 ++ ext) ++ new). split; [|rewrite length_app; lia]. split; [done| |lia|].
  - exists (ext ++ new). split; [by rewrite app_assoc|]. apply Forall_app. split; [done|].
    eapply Forall_impl; [exact Hnew|]. cbn. lia.
  - apply Forall_app. split; (eapply Forall_impl; [done|]); cbn; lia.
Qed.

Lemma since_trans h1 p1 s h p s2 h2 p2 :
  since h1 p1 s h p -> since h p s2 h2 p2 -> since h1 p1 s2 h2 p2.
Proof.
  intros [_ (ext & -> & Hext) Hle _] [HR (ext2 & -> & Hext2) Hle2 Hup]. split; [done| |lia|done].
  exists (ext ++ ext2). split; [by rewrite app_assoc|]. apply Forall_app. split; [done|].
  eapply Forall_impl; [exact Hext2|]. cbn. lia.
Qed.

Lemma since_base h1 p1 s h p : since h1 p1 s h p -> since h p s h p.
Proof. intros [HR _ _ Hup]. by apply since_refl. Qed.

Section BatchRun.
Context {D : Type} `{!Processor RangeIterator D, !BatchLaws RangeIterator D, !ReadOnly RangeIterator D}.

(** A batch is the body of one of its attempts, run on the store as it was
    then. *)
Lemma processBatch_since h1 p1 te later s h p sel (cs : D) N :
  batch_ok te -> since h1 p1 s h p -> reads_ok p (te_attempts te ++ later) ->
  (length h + grow * length (te_attempts te ++ later) <= N)%nat ->
  (forall a s2 h2, since h1 p1 s2 h2 (at_read_version a) -> 0 < at_read_version a ->
     settled (batch_body sel (no_fault (at_env a)) (begin_tr s2 (at_read_version a)) cs).1) ->
  exists a s2 h2, a ∈ te_attempts te /\ 0 < at_read_version a /\
    since h1 p1 s2 h2 (at_read_version a) /\
    reads_ok (at_read_version a) later /\ (length h2 + grow * length later <= N)%nat /\
    let '(r, c2) := batch_body sel (no_fault (at_env a)) (begin_tr s2 (at_read_version a)) cs in
    processBatch te sel s cs = (Some (res_map fst r), s2, postBatch c2).
Proof.
  intros Hte Hsince Hreads HN Hset.
  destruct (processBatch_attempt
    (fun l s => exists h p pre, te_attempts te = pre ++ l /\ since h1 p1 s h p /\
       reads_ok p (l ++ later) /\ (length h + grow * length (l ++ later) <= N)%nat)
    (fun a rest s => a ∈ te_attempts te /\ 0 < at_read_version a /\
       (exists pre, te_attempts te = pre ++ a :: rest) /\
       exists h, since h1 p1 s h (at_read_version a) /\
         reads_ok (at_read_version a) (rest ++ later) /\
         (length h + grow * length (rest ++ later) <= N)%nat)
    sel cs) with (te := te) (s := s) as (a & rest & s2 & (Hin & Hrv & _ & h2 & Hs2 & Hr2 & Hn2) & Hres).
  - intros a rest s0 (h0 & p0 & pre & Hatt & Hs0 & Hr0 & Hn0). cbn [app] in Hr0.
    split; [rewrite Hatt, elem_of_app; right; left|]. split; [apply Hr0|]. split; [eauto|].
    destruct (since_step _ _ _ _ _ _ _ Hs0 Hr0) as (h2 & Hs2 & Hlen).
    exists h2. split; [done|]. split; [apply Hr0|]. cbn [app length] in Hn0. lia.
  - intros a rest s0 (_ & _ & (pre & Hatt) & h0 & Hs0 & Hr0 & Hn0).
    exists h0, (at_read_version a), (pre ++ [a]). split; [by rewrite <-app_assoc|done].
  - intros a rest s0 (_ & Hrv & _ & h0 & Hs0 & _). by eapply Hset.
  - done.
  - exists h, p, []. done.
  - exists a, s2, h2. split; [done|]. split; [done|]. split; [done|].
    split; [by eapply reads_ok_skip|]. split; [rewrite length_app in Hn2; lia|done].
Qed.
End BatchRun.

(** Batches with time enough in the last one. *)
Definition timely (N : nat) (envs : list (TransactEnv BatchEnv)) : Prop :=
  Forall batch_ok envs /\
  exists pre te, envs = pre ++ [te] /\ Forall (fun a => (N <= b_budget (at_env a))%nat) (te_attempts te).

Lemma timely_cons N te envs :
  timely N (te :: envs) ->
  batch_ok te /\ (envs = [] /\ Forall (fun a => (N <= b_budget (at_env a))%nat) (te_attempts te) \/
                 timely N envs).
Proof.
  intros [[Hte Henvs]%Forall_cons (pre & te2 & Heq & Hb)]. split; [done|].
  destruct pre as [|te3 pre]; cbn in Heq; injection Heq as -> ->; [by left|].
  right. split; [done|]. eauto.
Qed.

(** Batches that are enough to end a scan that meets at most [N] records, when
    [left] of the [total] records so far are still to be read: the last batch
    has time for all, or there are more batches than records to come. *)
Definition enough (N left total : nat) (envs : list (TransactEnv BatchEnv)) : Prop :=
  timely N envs \/ Forall batch_ok envs /\ (N + left < total + length envs)%nat.

(** What is left of them after a batch that makes progress while other clients
    add [ext] records. *)
Lemma enough_cons N left total te envs :
  enough N left total (te :: envs) ->
  batch_ok te /\ (envs = [] /\ Forall (fun a => (N <= b_budget (at_env a))%nat) (te_attempts te) \/
    forall ext left2, (left2 < left + ext)%nat -> enough N left2 (total + ext) envs).
Proof.
  intros [Htime|[[Hte Henvs]%Forall_cons Hlen]].
  - apply timely_cons in Htime as [Hte [?|Htime]]; (split; [done|]); [by left|]. right. intros ext left2 _. by left.
  - split; [done|]. right. intros ext left2 Hleft. right. split; [done|]. cbn [length] in Hlen. lia.
Qed.

Lemma not_enough N left total : (total <= N)%nat -> ~ enough N left total [].
Proof. intros HN [[_ (pre & te & E & _)]|[_ Hlen]]; [by destruct pre|]. cbn in Hlen. lia. Qed.

Lemma enough_le N left left2 total envs :
  (left <= left2)%nat -> enough N left2 total envs -> enough N left total envs.
Proof. intros Hle [?|[? ?]]; [by left|right]. split; [done|lia]. Qed.

Lemma enough_ok N left total envs :
  enough N left total envs -> Forall batch_ok envs.
Proof. by intros [[? _]|[? _]]. Qed.
End Runs.

Section ScanSpec.
Context `{FB : FdbBindings, KV : KVStore, CF : Config}.
Context (dir : bytes) (Hmode : UseSequentialId = false).
Context {C : Type} `{!Processor ByKeyAndRevisionRecord C, !Accumulator C}.
Context {wants : nat -> bool} {good : list entry -> list entry -> C -> Prop}.
Context `{HC : !InnerSpec dir C wants good}.
Context (b e : bytes) (K : bytes -> Prop) `{!forall k, Decision (K k)}.
Context (Hrange : key_range dir b e K).
Context (comp M : Z).
Abbreviation f := (openSubspaces dir).

(** * One batch *)

Definition flush_cur (cur : option (entry * bool)) : list (entry * bool) :=
  match cur with Some p => if IsDelete p.1.2 then [] else [p] | None => [] end.

Lemma emit_from_nil R cur : emit_from R cur [] = flush_cur cur.
Proof.
  destruct cur as [[x fl]|]; [|done]. cbn. rewrite !andb_true_r.
  by destruct (IsDelete x.2).
Qed.

(** What is emitted can be given to a list batch. *)
Lemma emit_records R h cur E :
  cur_ok R cur E -> (forall x, x ∈ with_cur cur E -> x ∈ h) -> batch_records h (emit_from R cur E).
Proof.
  intros Hok Hin. pose proof (cur_ok_sorted _ _ _ Hok) as Hs. split.
  - apply (ssorted_fmap_inv (fun x y : entry => Key x.2 <b Key y.2) fst).
    change (fst <$> emit_from R cur E) with (emit_from R cur E).*1.
    rewrite emit_from_emit by done. by apply emit_keys_sorted.
  - intros p Hp. apply (list_elem_of_fmap_2 fst) in Hp.
    change (fst <$> emit_from R cur E) with (emit_from R cur E).*1 in Hp.
    rewrite emit_from_emit in Hp by done. apply elem_of_emit in Hp as (Hp & _ & Hd & _); [|done]. auto.
Qed.

Lemma cur_ok_prefix R cur D E : cur_ok R cur (D ++ E) -> cur_ok R cur D.
Proof.
  destruct cur as [[x fl]|]; cbn; [intros [? Hs]; split; [done|]; rewrite app_comm_cons in Hs|intros Hs];
    by apply StronglySorted_app_1_l in Hs.
Qed.

(** The collector between batches: [P] passed on, [cur] kept, [y] read last. *)
Record scan_inv (R : Z) (h : history) (P : list entry) (cur : option (entry * bool))
    (y : option entry) (cs : recordCollector C) : Prop := mkScanInv {
  si_f : rc_f cs = f;
  si_max : rc_maxRevision cs = M;
  si_good : good P [] (rc_inner cs);
  si_cur : rc_currentRecord cs = bk_of <$> cur;
  si_ok : cur_ok R cur (todo K h y);
  si_kept : kept_at y cur;
  si_cur_in z fl : cur = Some (z, fl) -> z ∈ h /\ K (Key z.2);
  si_y x : y = Some x -> entry_ok x /\ K (Key x.2);
  si_window : windowed cs R (todo K h y);
  si_wants : wants (length P) = true
}.

Definition rc_reads_ok : Prop := M = 0 \/ 0 < M /\ comp <= M.

Lemma compact_Get s h rv :
  Repr dir s h comp -> CompactRev_Get (compactRev f) (begin_tr s rv) = Ok (int64ToVersionstamp comp).
Proof.
  intros HR. destruct (R_compact _ _ _ _ HR) as [Hc Hg]. unfold CompactRev_Get, tr_Get.
  change (tr_view (begin_tr s rv)) with s.
  destruct Hg as [[-> ->]| ->]; [done|]. rewrite tuple_unpack_pack; [done|].
  solve_tuple_ok. apply int64ToVersionstamp_ok.
Qed.

(** The end of a batch once the last record is flushed. *)
Lemma finish_spec s h rv isLast (cs : recordCollector C) inner P ps xs :
  Repr dir s h comp -> rc_f cs = f -> rc_maxRevision cs = M ->
  good P [] inner -> rc_inner cs = push_all (ps ++ xs) (startBatch inner) ->
  batch_records h (ps ++ xs) -> Forall (truthful h) ps ->
  exists inner2,
    recordCollector_finish (begin_tr s rv) isLast cs =
    (if (0 <? M) && (M <? comp) then Err ErrCompacted else Ok (begin_tr s rv),
     mkRecordCollector f M inner2 (rc_currentRecord cs) (rc_batchCurrentRecord cs)
       (rc_firstRev cs) (rc_rev cs) rv) /\
    good (P ++ ps.*1) xs.*1 (postBatch inner2).
Proof.
  intros HR Hf HM Hg Hin Hrec Htrue. unfold recordCollector_finish.
  destruct (inner_end P inner h comp (begin_tr s rv) isLast ps xs HR Hg Hrec Htrue) as (inner2 & He & Hg2).
  exists inner2. split; [|done]. rewrite Hin, He. cbn [rc_set rc_f rc_maxRevision rc_inner
    rc_currentRecord rc_batchCurrentRecord rc_firstRev rc_rev rc_batchRev].
  rewrite Hf, HM.
  rewrite (GetLatestRev_spec dir s (begin_tr s rv) rv) by (done || (unfold head_rev; by rewrite Hmode)).
  cbn [rc_set rc_f rc_maxRevision]. rewrite (compact_Get s h) by done. cbn [rbind].
  rewrite VersionstampToInt64_int64ToVersionstamp; [cbn [rbind]; f_equal; by destruct (0 <? M)|].
  destruct (R_compact _ _ _ _ HR) as [Hc _]. unfold is_int64, int64_min. lia.
Qed.

(** At the end of the scan the kept record is passed on. *)
Lemma endBatch_flush tr (needsMore : bool) (cs : recordCollector C) ps inner cur :
  recordCollector_endBatch tr (negb needsMore) (rc_set cs (push_all ps inner) (bk_of <$> cur)) =
  recordCollector_finish tr (negb needsMore)
    (rc_set cs (push_all (ps ++ (if needsMore then [] else flush_cur cur)) inner) (bk_of <$> cur)).
Proof.
  unfold recordCollector_endBatch. cbn [rc_batchCurrentRecord rc_set].
  destruct needsMore; cbn [negb]; [by rewrite app_nil_r|].
  destruct cur as [p|]; cbn [fmap option_fmap option_map flush_cur]; [|by rewrite app_nil_r].
  cbn [rc_inner rc_set]. rewrite flush_push.
  destruct (IsDelete p.1.2); [by rewrite app_nil_r|]. by rewrite push_all_app.
Qed.

(** The records of a batch, with the last one when it is flushed. *)
Lemma batch_flushed R h cur D ps cur2 (needsMore : bool) :
  loop_run R cur D ps cur2 -> cur_ok R cur D -> (forall x, x ∈ with_cur cur D -> x ∈ h) ->
  batch_records h (ps ++ (if needsMore then [] else flush_cur cur2)).
Proof.
  intros [Hrun _] Hok Hin. specialize (Hrun []). rewrite app_nil_r, emit_from_nil in Hrun.
  destruct (Hrun Hok) as [HD _]. destruct (emit_records R h cur D Hok Hin) as [Hso Hall].
  rewrite HD in Hso, Hall. destruct needsMore; [|done]. rewrite app_nil_r.
  split; [by apply StronglySorted_app_1_l in Hso|]. intros p Hp. apply Hall, elem_of_app. by left.
Qed.

Lemma with_cur_in h cur y :
  (forall z fl, cur = Some (z, fl) -> z ∈ h /\ K (Key z.2)) ->
  forall x, x ∈ with_cur cur (todo K h y) -> x ∈ h.
Proof.
  intros Hcin x. assert (Hin : x ∈ todo K h y -> x ∈ h) by (rewrite elem_of_todo; tauto).
  destruct cur as [[z fl]|]; cbn; [|done].
  intros [->|Hx]%elem_of_cons; [by eapply Hcin|auto].
Qed.

(** ** How many records a batch passes on *)

Lemma step_more_wants P c ps :
  good P [] c -> wants (length P) = true ->
  step_more ps (startBatch c) = wants (length P + length ps)%nat.
Proof.
  intros Hg Hw. destruct ps as [|q ps]; [by rewrite Nat.add_0_r|]. by apply inner_more.
Qed.

Lemma gated_wants P c ps n :
  good P [] c -> wants (length P) = true -> gated ps (startBatch c) ->
  (length P + length ps = S n)%nat -> wants n = true.
Proof.
  intros Hg Hw Hgate Hn. induction ps as [|p qs _] using rev_ind.
  - apply wants_pred. by rewrite <-Hn, Nat.add_0_r.
  - specialize (Hgate qs p eq_refl). rewrite (step_more_wants P) in Hgate by done.
    rewrite length_app in Hn. cbn in Hn. by replace n with (length P + length qs)%nat by lia.
Qed.

Lemma length_flush_cur cur : (length (flush_cur cur) <= 1)%nat.
Proof. destruct cur as [p|]; cbn; [destruct (IsDelete _)|]; cbn; lia. Qed.

(** ** The three ways a batch ends

    [qs] are exact records that it passes on, [xs] the others. *)
Inductive batch_end (budget : nat) (R : Z) (h : history) (P : list entry)
    (cur : option (entry * bool)) (y : option entry)
    (qs xs : list (entry * bool)) (cur2 : option (entry * bool)) : batchResult -> Prop :=
| end_time x :
    x ∈ todo K h y -> (budget < length (todo K h y))%nat -> xs = [] ->
    wants (length P + length qs) = true ->
    emit_from R cur (todo K h y) = qs ++ emit_from R cur2 (todo K h (Some x)) ->
    cur_ok R cur2 (todo K h (Some x)) -> kept_at (Some x) cur2 ->
    (forall z fl, cur2 = Some (z, fl) -> z ∈ h /\ K (Key z.2)) ->
    batch_end budget R h P cur y qs xs cur2 (mkBatchResult (Some (index_entry f x).1) true)
| end_range k :
    emit_from R cur (todo K h y) = qs -> xs = [] ->
    batch_end budget R h P cur y qs xs cur2 (mkBatchResult k false)
| end_enough k more :
    emit_from R cur (todo K h y) = qs ++ more -> (length xs <= 1)%nat ->
    wants (length P + length qs) = false ->
    batch_end budget R h P cur y qs xs cur2 (mkBatchResult k false).

(** The exact records of a batch never exceed what was asked for. *)
Definition asked (P : list entry) (qs : list (entry * bool)) : Prop :=
  forall n, (length P + length qs = S n)%nat -> wants n = true.

Lemma batch_end_of budget R h P cur y (cs : recordCollector C) D rest ps cur2 res :
  StronglySorted rev_lt h -> scan_inv R h P cur y cs -> todo K h y = D ++ rest ->
  loop_run R cur D ps cur2 -> gated ps (startBatch (rc_inner cs)) ->
  loop_end f budget D rest ps (startBatch (rc_inner cs)) cur2 res ->
  exists qs xs,
    qs ++ xs = ps ++ (if collectorNeedsMore res then [] else flush_cur cur2) /\
    (forall p, p ∈ qs -> p ∈ emit_from R cur (todo K h y)) /\
    asked P qs /\ batch_end budget R h P cur y qs xs cur2 res.
Proof.
  intros Hs [_ _ Hg _ Hok _ Hcin _ _ Hw] Hitems [Hrun Hfrom] Hgate Hend.
  rewrite Hitems in Hok. destruct (Hrun rest Hok) as [Hemit Hok2].
  pose proof (fun n => gated_wants P _ ps n Hg Hw Hgate) as Hask.
  assert (Hps : forall p, p ∈ ps -> p ∈ emit_from R cur (todo K h y)).
  { intros p Hp. rewrite Hitems, Hemit. apply elem_of_app. by left. }
  unfold loop_end in Hend. rewrite !(step_more_wants P) in Hend by done.
  destruct res as [k [|]]; cbn [collectorNeedsMore lastReadKey] in *.
  - destruct Hend as ((D2 & x & -> & -> & Hk) & Hlen & Hm).
    exists ps, []. split_and!; [by rewrite app_nil_r|done..|].
    assert (Hrest : todo K h (Some x) = rest).
    { apply (todo_rest K h y D2); [done|]. by rewrite Hitems, <-app_assoc. }
    assert (Hx : x ∈ todo K h y) by (rewrite Hitems, !elem_of_app; left; right; left).
    apply end_time; rewrite ?Hrest; try done.
    + rewrite Hitems, length_app. lia.
    + by rewrite Hitems.
    + intros z fl Hz. destruct (Hfrom z fl Hz) as [Hz2|[fl0 Hz2]]; [|by eapply Hcin].
      assert (Hz3 : z ∈ todo K h y) by (rewrite Hitems; apply elem_of_app; by left).
      apply elem_of_todo in Hz3. tauto.
  - destruct Hend as [[-> Hm]|Hm].
    + exists (ps ++ flush_cur cur2), []. rewrite emit_from_nil in Hemit. split_and!.
      * by rewrite app_nil_r.
      * by rewrite Hitems, Hemit.
      * intros n Hn. rewrite length_app in Hn. pose proof (length_flush_cur cur2).
        destruct (length (flush_cur cur2)) as [|[|]] eqn:El; [apply Hask; lia| |lia].
        by replace n with (length P + length ps)%nat by lia.
      * apply end_range; [by rewrite Hitems, Hemit|done].
    + exists ps, (flush_cur cur2). split_and!; [done..|].
      apply (end_enough _ _ _ _ _ _ _ _ _ _ (emit_from R cur2 rest));
        [by rewrite Hitems, Hemit|apply length_flush_cur|done].
Qed.

Lemma batch_body_spec s h rv budget R P cur y (cs : recordCollector C) :
  Repr dir s h comp -> scan_inv R h P cur y cs ->
  exists qs xs cur2 res inner2,
    batch_body (mkSelectorRange (begin_of dir b y) (FirstGreaterOrEqual e)) (mkBatchEnv budget None)
      (begin_tr s rv) cs =
      (if (0 <? M) && (M <? comp) then Err ErrCompacted else Ok (res, begin_tr s rv),
       mkRecordCollector f M inner2 (rc_currentRecord cs) (bk_of <$> cur2)
            (rc_firstRev cs) (rc_rev cs) rv) /\
    asked P qs /\ batch_end budget R h P cur y qs xs cur2 res /\
    good (P ++ qs.*1) xs.*1 (postBatch inner2).
Proof.
  intros HR Hinv. pose proof Hinv as [Hf HM Hg Hcur Hok Hkept Hcin Hy Hwin Hw].
  pose proof (R_sorted _ _ _ _ HR) as Hs.
  assert (Hoks : Forall entry_ok (todo K h y)).
  { pose proof (R_ok _ _ _ _ HR) as Hoks. rewrite Forall_forall in *.
    intros x (Hx & _)%elem_of_todo. auto. }
  set (c1 := startBatch cs).
  destruct (batch_loop_run f budget (begin_tr s rv) (todo K h y) c1 cur R)
    as (D & rest & ps & cur2 & res & Hloop & Hitems & Hrun & Hgate & Hend); [done..|].
  destruct (batch_end_of budget R h P cur y cs D rest ps cur2 res)
    as (qs & xs & Hqx & Hqs & Hask & Hbe); [done..|].
  assert (Hrecs : batch_records h (qs ++ xs)).
  { rewrite Hqx. apply (batch_flushed R h cur D ps); [done| |].
    - rewrite Hitems in Hok. by eapply cur_ok_prefix.
    - intros x Hx. apply (with_cur_in h cur y); [done|]. rewrite Hitems.
      by destruct cur as [[z fl]|]; cbn in *; rewrite ?elem_of_cons, elem_of_app in *; naive_solver. }
  assert (Htrue : Forall (truthful h) qs).
  { rewrite Forall_forall. intros [x fl] Hx Efl. cbn in *. subst fl.
    apply (emit_from_latest R K h y cur x Hs Hkept Hcin). by apply Hqs. }
  destruct (finish_spec s h rv (negb (collectorNeedsMore res))
    (rc_set c1 (push_all (qs ++ xs) (startBatch (rc_inner cs))) (bk_of <$> cur2))
    (rc_inner cs) P qs xs HR) as (inner2 & Hfin & Hg2); [done..|].
  exists qs, xs, cur2, res, inner2. split; [|done].
  unfold batch_body. cbn [b_budget b_fault]. unfold tr_GetRange. cbn [Begin End].
  change (selector_key (FirstGreaterOrEqual e)) with e.
  change (tr_view (begin_tr s rv)) with s.
  rewrite (srange_todo dir s h comp b e K y) by (try done; by destruct y; [apply Hy|]).
  fold c1. rewrite Hloop. cbn [endBatch recordCollector_Processor].
  change (rc_inner c1) with (startBatch (rc_inner cs)).
  rewrite endBatch_flush, <-Hqx, Hfin. by destruct ((0 <? M) && (M <? comp)).
Qed.

Context (grow : nat).

(** * The batches of a scan *)

(** The newest revision a scan whose first transaction reads at [rv] looks
    at. *)
Definition window (rv : Z) : Z := if M =? 0 then rv else Z.min M rv.

Lemma in_window_first (cs : recordCollector C) rv z :
  rc_maxRevision cs = M -> rc_firstRev cs = rv -> 0 < rv -> in_window cs z = (z <=? window rv).
Proof.
  intros HM Hf Hrv. unfold in_window, window. rewrite HM, Hf.
  rewrite (proj2 (Z.eqb_neq rv 0)) by lia. cbn [orb]. destruct (M =? 0); cbn [orb andb]; [done|].
  destruct (Z.leb_spec z M), (Z.leb_spec z rv), (Z.leb_spec z (Z.min M rv)); cbn; lia.
Qed.

Lemma window_le rv : window rv <= rv.
Proof. unfold window. destruct (M =? 0); lia. Qed.

Lemma cur_ok_todo R h cur y :
  StronglySorted rev_lt h -> kept_at y cur -> (forall z fl, cur = Some (z, fl) -> z.1 <= R) ->
  cur_ok R cur (todo K h y).
Proof.
  intros Hs Hk HR. pose proof (todo_sorted K h y Hs). destruct cur as [[z fl]|]; [|done].
  split; [by eapply HR|]. constructor; [done|]. by eapply kept_before.
Qed.

(** Newer records do not disturb a scan. *)
Lemma scan_inv_extend R h ext P cur y cs :
  scan_inv R h P cur y cs -> StronglySorted rev_lt (h ++ ext) -> Forall (fun x => R < x.1) ext ->
  (forall z, in_window cs z = (z <=? R)) ->
  scan_inv R (h ++ ext) P cur y cs /\
  (emit_from R cur (todo K (h ++ ext) y)).*1 = (emit_from R cur (todo K h y)).*1.
Proof.
  intros [Hf HM Hg Hcur Hok Hkept Hcin Hy Hwin Hw] Hs Hext Hin.
  assert (Hok2 : cur_ok R cur (todo K (h ++ ext) y)).
  { apply cur_ok_todo; [done..|]. intros z fl ->. apply Hok. }
  split.
  - split; try done.
    + intros z fl Hz. destruct (Hcin z fl Hz). split; [|done]. apply elem_of_app. by left.
    + intros x _. apply Hin.
  - pose proof (StronglySorted_app_1_l _ _ _ Hs) as Hs1.
    rewrite !emit_from_emit by done. apply emit_window; [by eapply cur_ok_sorted..|].
    pose proof (todo_window K R h ext y Hs Hext) as Hw2. unfold upto in *.
    destruct cur as [[z fl]|]; [|done]. cbn [with_cur]. rewrite !filter_cons, Hw2. done.
Qed.

(** What a finished scan has passed on: the records of [L], or as many of
    the first as the collector wants and at most one record more. *)
Definition scan_result (L P X : list entry) : Prop :=
  P `prefix_of` L /\ (forall n, length P = S n -> wants n = true) /\ (length X <= 1)%nat /\
  (P = L /\ X = [] \/ wants (length P) = false).

Lemma length_todo h y : (length (todo K h y) <= length h)%nat.
Proof. unfold todo. etrans; [apply length_filter|]. unfold by_key. by rewrite merge_sort_Permutation. Qed.

(** Records that a scan has behind it; each batch that runs out of time adds
    to them. *)
Lemma length_todo_app h ext y : (length (todo K (h ++ ext) y) <= length (todo K h y) + length ext)%nat.
Proof.
  assert (Hperm : forall l, length (todo K l y) = length (filter (fun x : entry => K (Key x.2) /\ after y x) l)).
  { intros l. unfold todo, by_key. by rewrite (merge_sort_Permutation kr_le l). }
  rewrite !Hperm, filter_app, length_app.
  pose proof (length_filter (fun x : entry => K (Key x.2) /\ after y x) ext). lia.
Qed.

Lemma todo_shorter h y x :
  StronglySorted rev_lt h -> x ∈ todo K h y -> (length (todo K h (Some x)) < length (todo K h y))%nat.
Proof.
  intros Hs (D & rest & HD)%list_elem_of_split. rewrite (todo_rest K h y D x rest Hs HD), HD, length_app. cbn. lia.
Qed.

(** A scan that ended as it should. *)
Definition finished (h1 : history) (rv1 : Z)
    (result : option (res unit) * store * recordCollector C) : Prop :=
  exists s2 h2 p2 cs2 P X, result = (Some (Ok tt), s2, cs2) /\
    rc_firstRev cs2 = rv1 /\ since dir comp h1 rv1 s2 h2 p2 /\ good P X (rc_inner cs2) /\
    scan_result (live_list K (window rv1) h1) P X.

(** The state between the batches of a scan. *)
Record running (h1 : history) (rv1 : Z) (N : nat) (attempts : list (Attempt BatchEnv))
    (s : store) (h : history) (p : Z) (P : list entry) (cur : option (entry * bool))
    (y : option entry) (cs : recordCollector C) : Prop := mkRunning {
  rn_since : since dir comp h1 rv1 s h p;
  rn_reads : reads_ok dir comp grow p attempts;
  rn_bound : (length h + grow * length attempts <= N)%nat;
  rn_inv : scan_inv (window rv1) h P cur y cs;
  rn_live : P ++ (emit_from (window rv1) cur (todo K h y)).*1 = live_list K (window rv1) h1
}.

(** From the end of a batch on, given that the batches that follow finish. *)
Lemma scan_after h1 rv1 N envs (cs : recordCollector C) rv budget s h P cur y qs xs cur2 res inner2 :
  0 < rv1 -> running h1 rv1 N (envs ≫= te_attempts) s h rv P cur y cs ->
  rc_firstRev cs = rv1 \/ rc_firstRev cs = 0 /\ rv = rv1 ->
  asked P qs -> batch_end budget (window rv1) h P cur y qs xs cur2 res ->
  good (P ++ qs.*1) xs.*1 (postBatch inner2) ->
  (N <= budget)%nat \/
  (forall P cur y2 cs, running h1 rv1 N (envs ≫= te_attempts) s h rv P cur y2 cs -> rc_firstRev cs = rv1 ->
     (length (todo K h y2) < length (todo K h y))%nat ->
     finished h1 rv1 (processRange envs (begin_of dir b y2) (FirstGreaterOrEqual e) s cs)) ->
  let c2 := postBatch (mkRecordCollector f M inner2 (rc_currentRecord cs) (bk_of <$> cur2)
                         (rc_firstRev cs) (rc_rev cs) rv) in
  finished h1 rv1
    (if collectorNeedsMore res then
       match lastReadKey res with
       | Some k => processRange envs (FirstGreaterThan k) (FirstGreaterOrEqual e) s c2
       | None => (Some Panic, s, c2)
       end
     else (Some (Ok tt), s, c2)).
Proof.
  intros Hrv1 [Hsince Hreads Hbound Hinv Hlive] Hfirst Hask Hend Hgood Hnext c2.
  assert (Hfirst2 : rc_firstRev c2 = rv1).
  { subst c2. cbn. destruct Hfirst as [->|[-> ->]]; [|done].
    by rewrite (proj2 (Z.eqb_neq rv1 0)) by lia. }
  destruct Hend as [x Hx Htime -> Hw Hemit Hok2 Hk2 Hcin2|k Hemit ->|k more Hemit Hxs Hw];
    cbn [collectorNeedsMore lastReadKey].
  - destruct Hnext as [Hn|Hnext].
    { pose proof (length_todo h y). lia. }
    pose proof (sn_repr _ _ _ _ _ _ _ Hsince) as HR.
    apply (Hnext (P ++ qs.*1) cur2 (Some x) c2); [|done|by apply todo_shorter; [apply HR|]].
    split; [done..| |]; cycle 1.
    { by rewrite <-app_assoc, <-fmap_app, <-Hemit. } pose proof (R_ok _ _ _ _ HR) as Hoks.
    rewrite Forall_forall in Hoks. split; try done.
    + intros x2 [= <-]. apply elem_of_todo in Hx as (Hx & HK & _). auto.
    + intros z _. by apply in_window_first.
    + by rewrite length_app, length_fmap.
  - exists s, h, rv, c2, (P ++ qs.*1), []. split_and!; [done..|]. split_and!.
    + by rewrite <-Hlive, Hemit.
    + intros n. rewrite length_app, length_fmap. apply Hask.
    + cbn. lia.
    + left. by rewrite <-Hlive, Hemit.
  - exists s, h, rv, c2, (P ++ qs.*1), (xs.*1). split_and!; [done..|]. split_and!.
    + rewrite <-Hlive, Hemit, fmap_app, app_assoc. by apply prefix_app_r.
    + intros n. rewrite length_app, length_fmap. apply Hask.
    + by rewrite length_fmap.
    + right. by rewrite length_app, length_fmap.
Qed.

Lemma not_compacted : rc_reads_ok -> (0 <? M) && (M <? comp) = false.
Proof.
  intros [->|[? ?]]; [done|]. rewrite (proj2 (Z.ltb_ge M comp)) by lia. apply andb_false_r.
Qed.

Lemma scan_rest h1 rv1 N envs :
  rc_reads_ok -> 0 < rv1 ->
  forall s h p P cur y cs, enough N (length (todo K h y)) (length h) envs ->
    running h1 rv1 N (envs ≫= te_attempts) s h p P cur y cs -> rc_firstRev cs = rv1 ->
    finished h1 rv1 (processRange envs (begin_of dir b y) (FirstGreaterOrEqual e) s cs).
Proof.
  intros Hc Hrv1. induction envs as [|te envs IH]; intros s h p P cur y cs Henough.
  { intros [_ _ Hbound _ _] _. destruct (not_enough N (length (todo K h y)) (length h)); [cbn in Hbound; lia|done]. }
  apply enough_cons in Henough as [Hte Htime]. intros [Hsince Hreads Hbound Hinv Hlive] Hfirst.
  rewrite bind_cons in Hreads, Hbound.
  assert (Hgrown : forall s2 h2 rv, since dir comp h p s2 h2 rv ->
    scan_inv (window rv1) h2 P cur y cs /\
    (emit_from (window rv1) cur (todo K h2 y)).*1 = (emit_from (window rv1) cur (todo K h y)).*1).
  { intros s2 h2 rv [HR2 (ext & -> & Hext) _ _]. apply scan_inv_extend; [done|apply HR2| |].
    - pose proof (sn_le _ _ _ _ _ _ _ Hsince). pose proof (window_le rv1).
      eapply Forall_impl; [exact Hext|]. cbn. lia.
    - intros z. apply in_window_first; [apply Hinv|done..]. }
  destruct (processBatch_since dir comp grow h p te (envs ≫= te_attempts) s h p
    (mkSelectorRange (begin_of dir b y) (FirstGreaterOrEqual e)) cs N)
    as (a & s2 & h2 & Ha & Hrv & Hs2 & Hr2 & Hn2 & Hbatch); [done|by eapply since_base|done..| |].
  { intros a s2 h2 Hs2 _. destruct (Hgrown _ _ _ Hs2) as [Hinv2 _].
    destruct (batch_body_spec s2 h2 (at_read_version a) (b_budget (at_env a)) (window rv1) P cur y cs
      (sn_repr _ _ _ _ _ _ _ Hs2) Hinv2) as (qs & xs & cur2 & res & inner2 & Hb & _).
    unfold no_fault. rewrite Hb, not_compacted by done. done. }
  destruct (Hgrown _ _ _ Hs2) as [Hinv2 Hemit].
  destruct (batch_body_spec s2 h2 (at_read_version a) (b_budget (at_env a)) (window rv1) P cur y cs
      (sn_repr _ _ _ _ _ _ _ Hs2) Hinv2) as (qs & xs & cur2 & res & inner2 & Hb & Hask & Hend & Hgood).
  unfold no_fault in Hbatch. rewrite Hb, not_compacted in Hbatch by done.
  cbn [processRange]. rewrite Hbatch. cbn [res_map fst].
  eapply scan_after; [done| |by left|done..|].
  - split; [by eapply since_trans|done..|]. by rewrite Hemit.
  - destruct Htime as [[-> Hbud]|Htime]; [left|right].
    + rewrite Forall_forall in Hbud. by apply Hbud.
    + destruct (sn_ext _ _ _ _ _ _ _ Hs2) as (ext & -> & _).
      intros P2 cur3 y2 cs2 Hrun2 Hf2 Hy2. eapply IH; [|done..].
      rewrite length_app. apply Htime. pose proof (length_todo_app h ext y). lia.
Qed.

(** * The whole scan *)

Lemma scan_inv_new s h p0 h0 rv inner :
  since dir comp h0 p0 s h rv -> good [] [] inner -> wants 0 = true ->
  scan_inv (window rv) h [] None None (newRecordCollector f M inner).
Proof.
  intros [HR _ _ Hup] Hg Hw. split; try done.
  - apply todo_sorted, HR.
  - intros x (Hx & _)%elem_of_todo. unfold in_window, window.
    cbn [newRecordCollector rc_maxRevision rc_firstRev].
    rewrite Forall_forall in Hup. specialize (Hup x Hx). cbn in Hup.
    rewrite orb_true_l, andb_true_r. destruct (M =? 0); cbn [orb].
    + symmetry. by apply Z.leb_le.
    + destruct (Z.leb_spec x.1 M), (Z.leb_spec x.1 (Z.min M rv)); lia.
Qed.

Lemma first_batch te later N s h0 p0 inner :
  batch_ok te -> Repr dir s h0 comp -> Forall (fun x => x.1 <= p0) h0 ->
  reads_ok dir comp grow p0 (te_attempts te ++ later) ->
  (length h0 + grow * length (te_attempts te ++ later) <= N)%nat ->
  good [] [] inner -> wants 0 = true ->
  let cs := newRecordCollector f M inner in
  exists a s2 h2 qs xs cur2 res inner2,
    a ∈ te_attempts te /\ 0 < at_read_version a /\
    since dir comp h0 p0 s2 h2 (at_read_version a) /\
    reads_ok dir comp grow (at_read_version a) later /\ (length h2 + grow * length later <= N)%nat /\
    processBatch te (mkSelectorRange (FirstGreaterOrEqual b) (FirstGreaterOrEqual e)) s cs =
      (Some (if (0 <? M) && (M <? comp) then Err ErrCompacted else Ok res), s2,
       postBatch (mkRecordCollector f M inner2 None (bk_of <$> cur2) 0 0 (at_read_version a))) /\
    asked [] qs /\
    batch_end (b_budget (at_env a)) (window (at_read_version a)) h2 [] None None qs xs cur2 res /\
    good qs.*1 xs.*1 (postBatch inner2).
Proof.
  intros Hte HR Hp0 Hreads Hbound Hgood Hw cs.
  assert (Hbody : forall a s2 h2, since dir comp h0 p0 s2 h2 (at_read_version a) -> _) by
    exact (fun a s2 h2 Hs2 => batch_body_spec s2 h2 (at_read_version a) (b_budget (at_env a))
      (window (at_read_version a)) [] None None cs (sn_repr _ _ _ _ _ _ _ Hs2)
      (scan_inv_new s2 h2 p0 h0 (at_read_version a) inner Hs2 Hgood Hw)).
  destruct (processBatch_since dir comp grow h0 p0 te later s h0 p0
    (mkSelectorRange (begin_of dir b None) (FirstGreaterOrEqual e)) cs N)
    as (a & s2 & h2 & Ha & Hrv & Hs2 & Hr2 & Hn2 & Hbatch); [done|by apply since_refl|done..| |].
  { intros a s2 h2 Hs2 _. destruct (Hbody a s2 h2 Hs2) as (qs & xs & cur2 & res & inner2 & Hb & _).
    unfold no_fault. rewrite Hb. by destruct ((0 <? M) && (M <? comp)). }
  destruct (Hbody a s2 h2 Hs2) as (qs & xs & cur2 & res & inner2 & Hb & Hask & Hend & Hgood2).
  unfold no_fault in Hbatch. rewrite Hb in Hbatch. cbn [begin_of] in Hbatch.
  exists a, s2, h2, qs, xs, cur2, res, inner2. split_and!; try done.
  rewrite Hbatch. by destruct ((0 <? M) && (M <? comp)).
Qed.

Lemma processRange_spec envs N s h0 p0 inner :
  rc_reads_ok -> enough N (length (todo K h0 None)) (length h0) envs -> Repr dir s h0 comp -> Forall (fun x => x.1 <= p0) h0 ->
  reads_ok dir comp grow p0 (envs ≫= te_attempts) ->
  (length h0 + grow * length (envs ≫= te_attempts) <= N)%nat ->
  good [] [] inner -> wants 0 = true ->
  exists h1 rv1, (exists s1, since dir comp h0 p0 s1 h1 rv1) /\
    rv1 ∈ at_read_version <$> (envs ≫= te_attempts) /\
    finished h1 rv1 (processRange envs (FirstGreaterOrEqual b) (FirstGreaterOrEqual e) s
                       (newRecordCollector f M inner)).
Proof.
  intros Hc Htime HR Hp0 Hreads Hbound Hgood Hw.
  destruct envs as [|te envs]; [destruct (not_enough N (length (todo K h0 None)) (length h0)); [cbn in Hbound; lia|done]|].
  apply enough_cons in Htime as [Hte Htime]. rewrite bind_cons in Hreads, Hbound.
  destruct (first_batch te (envs ≫= te_attempts) N s h0 p0 inner)
    as (a & s2 & h2 & qs & xs & cur2 & res & inner2 & Ha & Hrv & Hs2 & Hr2 & Hn2 & Hbatch & Hask & Hend & Hg2);
    [done..|].
  exists h2, (at_read_version a). split; [by eexists|]. split.
  { apply list_elem_of_fmap_2. rewrite bind_cons. apply elem_of_app. by left. }
  cbn [processRange]. rewrite Hbatch, not_compacted by done.
  eapply (scan_after h2 (at_read_version a) N envs (newRecordCollector f M inner)); [done| |by right|done..|].
  - split; [by eapply since_base|done..|by eapply scan_inv_new|]. cbn [app emit_from].
    apply emit_live. apply (sn_repr _ _ _ _ _ _ _ Hs2).
  - destruct Htime as [[-> Hbud]|Htime]; [left|right].
    + rewrite Forall_forall in Hbud. by apply Hbud.
    + destruct (sn_ext _ _ _ _ _ _ _ Hs2) as (ext & -> & _).
      intros P2 cur3 y2 cs2 Hrun2 Hf2 Hy2. eapply scan_rest; [done..| |done|done].
      rewrite length_app. apply Htime. pose proof (length_todo_app h0 ext None). lia.
Qed.

(** A scan below the compaction revision fails in its first batch. *)
Lemma processRange_compacted te envs s h0 p0 inner :
  0 < M -> M < comp -> batch_ok te -> Repr dir s h0 comp -> Forall (fun x => x.1 <= p0) h0 ->
  reads_ok dir comp grow p0 (te_attempts te) -> good [] [] inner -> wants 0 = true ->
  exists s2 h2 p2 cs2, since dir comp h0 p0 s2 h2 p2 /\
    processRange (te :: envs) (FirstGreaterOrEqual b) (FirstGreaterOrEqual e) s
      (newRecordCollector f M inner) = (Some (Err ErrCompacted), s2, cs2).
Proof.
  intros HM Hlow Hte HR Hp0 Hreads Hgood Hw. rewrite <-(app_nil_r (te_attempts te)) in Hreads.
  destruct (first_batch te [] _ s h0 p0 inner Hte HR Hp0 Hreads ltac:(reflexivity) Hgood Hw)
    as (a & s2 & h2 & qs & xs & cur2 & res & inner2 & _ & _ & Hs2 & _ & _ & Hbatch & _).
  exists s2, h2, (at_read_version a). eexists. split; [done|]. cbn [processRange].
  rewrite Hbatch, (proj2 (Z.ltb_lt 0 M) HM), (proj2 (Z.ltb_lt M comp) Hlow). done.
Qed.
End ScanSpec.

(** * listWithCollector *)

Section Whole.
Context `{FB : FdbBindings, KV : KVStore, CF : Config}.
Context (dir : bytes) (Hmode : UseSequentialId = false).
Context {C : Type} `{!Processor ByKeyAndRevisionRecord C, !Accumulator C}.
Context {wants : nat -> bool} {good : list entry -> list entry -> C -> Prop}.
Context `{HC : !InnerSpec dir C wants good}.
Abbreviation f := (openSubspaces dir).

(** The conditions of a read: the store holds a history known up to revision
    [p0]; the scan's transactions read at growing versions while other
    clients add at most [grow] records before each attempt; every batch has
    an attempt that succeeds; and the last batch has time for all records, or
    there are more batches than records, whatever time each one has. *)
Record read_run (grow : nat) (comp p0 : Z) (h0 : history) (s : store)
    (envs : list (TransactEnv BatchEnv)) : Prop := mkReadRun {
  rr_repr : Repr dir s h0 comp;
  rr_upto : Forall (fun e => e.1 <= p0) h0;
  rr_reads : reads_ok dir comp grow p0 (envs ≫= te_attempts);
  rr_enough : enough (length h0 + grow * length (envs ≫= te_attempts)) (length h0) (length h0) envs
}.


(** There is a first batch. *)
Lemma read_run_first grow comp p0 h0 s envs :
  read_run grow comp p0 h0 s envs -> exists te envs2, envs = te :: envs2 /\ batch_ok te.
Proof.
  intros [_ _ _ Htime]. destruct envs as [|te envs2]; [exfalso; eapply not_enough; [|exact Htime]; lia|].
  apply enough_ok, Forall_cons in Htime as [Hte _]. eauto.
Qed.

Section Run.
Context (grow : nat) (comp p0 : Z) (h0 : history) (s : store) (envs : list (TransactEnv BatchEnv)).
Context (Hrun : read_run grow comp p0 h0 s envs).

(** A read at revision [rv], that of one of the attempts: [h1] is the history
    at that revision, [h2] the one when the read returns. *)
Definition snapshot (rv : Z) (h1 : history) (s2 : store) (h2 : history) : Prop :=
  rv ∈ at_read_version <$> (envs ≫= te_attempts) /\
  (exists s1, since dir comp h0 p0 s1 h1 rv) /\ (exists p2, since dir comp h1 rv s2 h2 p2).

Lemma listWithCollector_spec prefix startKey M inner :
  has_slash_suffix prefix = true \/ startKey = prefix ->
  M = 0 \/ 0 < M /\ comp <= M -> good [] [] inner -> wants 0 = true ->
  exists rv h1 s2 h2 P X c2,
    snapshot rv h1 s2 h2 /\ good P X c2 /\
    scan_result (wants := wants) (live_list (scan_keys prefix startKey) (window M rv) h1) P X /\
    listWithCollector f envs prefix startKey M inner s =
      (Some (if rv <? M then Err ErrFutureRev else Ok rv), s2, c2).
Proof.
  intros Hargs HM Hgood Hw. destruct Hrun as [HR Hup Hreads Htime].
  destruct (scan_selectors_spec dir prefix startKey Hargs) as (b & e & Hsel & Hrange).
  destruct (processRange_spec dir Hmode b e (scan_keys prefix startKey) Hrange comp M grow
    envs _ s h0 p0 inner HM (enough_le _ _ _ _ _ (length_todo _ h0 None) Htime) HR Hup Hreads ltac:(reflexivity) Hgood Hw)
    as (h1 & rv & Hs1 & Hin & s2 & h2 & p2 & cs2 & P & X & Hproc & Hfirst & Hs2 & Hg & Hres).
  exists rv, h1, s2, h2, P, X, (rc_inner cs2). split; [split; [done|]; eauto|]. split; [done|]. split; [done|].
  unfold listWithCollector. by rewrite Hsel, Hproc, Hfirst.
Qed.

Lemma listWithCollector_compacted prefix startKey M inner :
  has_slash_suffix prefix = true \/ startKey = prefix ->
  0 < M -> M < comp -> good [] [] inner -> wants 0 = true ->
  exists s2 h2 p2 c2, since dir comp h0 p0 s2 h2 p2 /\
    listWithCollector f envs prefix startKey M inner s = (Some (Err ErrCompacted), s2, c2).
Proof.
  intros Hargs HM Hlow Hgood Hw. destruct (read_run_first _ _ _ _ _ _ Hrun) as (te1 & envs2 & Heq & Hte).
  destruct Hrun as [HR Hup Hreads _]. rewrite Heq in *.
  destruct (scan_selectors_spec dir prefix startKey Hargs) as (b & e & Hsel & Hrange).
  destruct (processRange_compacted dir Hmode b e (scan_keys prefix startKey) Hrange comp M grow
    te1 envs2 s h0 p0 inner) as (s2 & h2 & p2 & cs2 & Hs2 & Hproc); [done..| |done|done|].
  { rewrite bind_cons in Hreads. by eapply reads_ok_take. }
  exists s2, h2, p2, (rc_inner cs2). split; [done|]. unfold listWithCollector. by rewrite Hsel, Hproc.
Qed.
End Run.
End Whole.
