(* ===== verification/ReadSpec.v ===== *)
(** What List and Get promise (fdb_read.go), over histories: a list is the
    snapshot of one revision, whatever transactions the scan needs and
    whatever other clients write meanwhile. *)
From stdpp Require Import base strings list gmap sorting.
From Stdlib Require Import Strings.Byte ZArith Lia.
From S2P Require Import Prelude FdbApi KeyOrder FdbInstance Util Subspaces SubspaceFacts Transact History Samples Scan Write Read ReadFacts ListValues ScanSpec.

(** * The list collector *)

Section ListInner.
Context `{FB : FdbBindings, KV : KVStore, CF : Config}.
Context (dir : bytes) (limit : Z) (keysOnly : bool).
Abbreviation f := (openSubspaces dir).

(** A list record with the value of an entry, or without when only keys are
    asked for. *)
Definition listed (exact : Prop) (e : entry) (r : RevRecord) : Prop :=
  resolved (exact /\ keysOnly = false) e r /\ (keysOnly = true -> Value (rr_Record r) = []).

Definition list_wants (n : nat) : bool := (limit =? 0) || (Z.of_nat n <? limit).

Record list_good (P X : list entry) (c : listCollector) : Prop := mkListGood {
  lg_f : lc_f c = f;
  lg_limit : lc_limit c = limit;
  lg_keys : lc_keysOnly c = keysOnly;
  lg_ok : Forall entry_ok (P ++ X);
  lg_live : Forall (fun e => IsDelete e.2 = false) (P ++ X);
  lg_records : exists rs xs, lc_records c = rs ++ xs /\
    Forall2 (listed True) P rs /\ Forall2 (listed False) X xs
}.

Lemma push_all_list ps (c : listCollector) :
  push_all ps c = lc_set_batch c (lc_batchRecords c ++ (rr_of <$> ps)).
Proof.
  revert c; induction ps as [|p ps IH]; intros c.
  - rewrite app_nil_r. by destruct c.
  - change (push_all (p :: ps) c) with (push_all ps (push (bk_of p) c)). rewrite IH.
    cbn [push listCollector_acc lc_batchRecords lc_set_batch fmap list_fmap].
    by rewrite <-app_assoc.
Qed.

Lemma list_batch_end P X c rs (ps xs : list (entry * bool)) :
  list_good P [] c -> Forall entry_ok (ps ++ xs).*1 ->
  Forall (fun e => IsDelete e.2 = false) (ps ++ xs).*1 ->
  Forall2 (fun p r => listed True p.1 r) ps rs -> Forall2 (fun p r => listed False p.1 r) xs X ->
  list_good (P ++ ps.*1) xs.*1 (postBatch (lc_set_batch c (rs ++ X))).
Proof.
  intros [Hf Hl Hk Hok Hlive (rs0 & xs0 & Hr & HP & Hx)] Hok2 Hlive2 Hps Hxs.
  rewrite app_nil_r in Hok, Hlive. apply Forall2_nil_inv_l in Hx as ->. rewrite app_nil_r in Hr.
  rewrite fmap_app in Hok2, Hlive2.
  split; try done.
  - rewrite <-app_assoc. by apply Forall_app.
  - rewrite <-app_assoc. by apply Forall_app.
  - exists (rs0 ++ rs), X. split; [cbn; by rewrite Hr, app_assoc|]. split; [apply Forall2_app; [done|]|];
      by apply Forall2_fmap_l.
Qed.

#[global] Instance listCollector_inner : InnerSpec dir listCollector list_wants list_good.
Proof.
  split; [apply _..| | |].
  - intros n. unfold list_wants. destruct (limit =? 0); [done|]. cbn. rewrite !Z.ltb_lt. lia.
  - intros P c ps Hg _. rewrite push_all_list. cbn [more listCollector_acc].
    unfold needMore, list_wants. cbn [lc_set_batch lc_limit lc_batchRecords lc_records startBatch listCollector_Processor app].
    destruct Hg as [_ -> _ _ _ (rs & xs & -> & HP & ->%Forall2_nil_inv_l)]. rewrite app_nil_r.
    apply Forall2_length in HP. unfold zlength. rewrite length_fmap, <-HP. f_equal. f_equal. lia.
  - intros P c h comp tr isLast ps xs HR Hg Hrec Htrue. rewrite push_all_list.
    cbn [endBatch listCollector_Processor]. unfold listCollector_endBatch.
    cbn [lc_set_batch lc_keysOnly lc_batchRecords startBatch listCollector_Processor app lc_f].
    assert (Hok : Forall entry_ok (ps ++ xs).*1).
    { pose proof (R_ok _ _ _ _ HR) as Hok. rewrite Forall_forall in *.
      intros x (p & -> & Hp)%list_elem_of_fmap. by apply Hok, Hrec. }
    assert (Hlive : Forall (fun e => IsDelete e.2 = false) (ps ++ xs).*1).
    { rewrite Forall_forall. intros x (p & -> & Hp)%list_elem_of_fmap. by apply Hrec. }
    pose proof (lg_keys _ _ _ Hg) as Hk. pose proof (lg_f _ _ _ Hg) as Hf. rewrite Hk, Hf.
    destruct keysOnly eqn:Ek; cbn [orb].
    + eexists. split; [done|]. rewrite fmap_app.
      change (lc_set_batch (lc_set_batch c []) ?l) with (lc_set_batch c l).
      apply list_batch_end; try done; apply Forall2_fmap_r, Forall_Forall2_diag, Forall_forall;
        intros p _; (split; [split; [done|]; split; [done|intros [_ ?]; congruence]|done]).
    + destruct (fetch_values_spec dir tr h comp (ps ++ xs) HR Hrec) as (l & Hl & Hall).
      apply Forall2_app_inv_l in Hall as (rs & ys & Hps & Hxs & ->).
      exists (lc_set_batch (lc_set_batch c []) (rs ++ ys)). split.
      * destruct (length (rr_of <$> ps ++ xs) =? 0)%nat eqn:E0; [|by rewrite Hl].
        apply Nat.eqb_eq, length_zero_iff_nil in E0. rewrite E0 in *. injection Hl as <-. done.
      * change (lc_set_batch (lc_set_batch c []) ?l) with (lc_set_batch c l).
        apply list_batch_end; try done.
        -- refine (Forall2_strengthen _ _ _ _ _ Hps Htrue _). intros p r Hp (H1 & H2 & H3).
           split; [split; [done|]; split; [done|auto]|congruence].
        -- eapply Forall2_impl; [exact Hxs|]. intros p r (H1 & H2 & _).
           split; [split; [done|]; split; [done|by intros [? _]]|congruence].
Qed.
End ListInner.

(** * List *)

Section ReadSpec.
Context `{FB : FdbBindings, KV : KVStore, CF : Config}.
Context (dir : bytes) (Hmode : UseSequentialId = false).
Abbreviation f := (openSubspaces dir).

(** The key-value of a record. *)
Definition kv_of (keysOnly : bool) (e : entry) : KeyValue :=
  mkKeyValue (Key e.2) (create_rev e) e.1 (if keysOnly then [] else Value e.2) (Lease e.2).

Lemma listed_event keysOnly exact e r :
  listed keysOnly exact e r -> entry_ok e -> IsDelete e.2 = false ->
  exists ev, revRecordToEvent r = Ok ev /\ ev_Delete ev = false /\ (exact -> ev_KV ev = kv_of keysOnly e).
Proof.
  intros [(Hrev & (Hk & Hd & Hc & Hl & Hcr & Hpr) & Hv) Hnil] (Hr & _ & _ & _ & Hlc & Hlp) Hlive.
  assert (Hi : is_int64 e.1) by (unfold is_int64, int64_min; lia).
  replace r with (mkRevRecord (int64ToVersionstamp e.1) (e.1, rr_Record r).2) by (destruct r; cbn in *; congruence).
  pose proof (revRecordToEvent_spec (e.1, rr_Record r)) as Hev. cbn [fst snd] in Hev |- *.
  rewrite Hcr, Hpr in Hev. rewrite Hev by done. eexists. split; [done|].
  split; [cbn; congruence|]. intros Hex.
  unfold event_of, kv_of, create_rev. cbn [fst snd ev_KV]. rewrite Hk, Hd, Hc, Hl, Hcr, Hlive, andb_false_r.
  f_equal. destruct keysOnly; auto.
Qed.

Lemma map_events keysOnly exact es rs :
  Forall2 (listed keysOnly exact) es rs -> Forall entry_ok es ->
  Forall (fun e => IsDelete e.2 = false) es ->
  exists kvs, map_res (fun r => let? e := revRecordToEvent r in Ok (ev_KV e)) rs = Ok kvs /\
    length kvs = length es /\ (exact -> kvs = kv_of keysOnly <$> es).
Proof.
  induction 1 as [|e r es rs Hl _ IH]; intros Hok Hlive; [by exists []|].
  apply Forall_cons in Hok as [He Hok], Hlive as [Hle Hlive].
  destruct (listed_event _ _ _ _ Hl He Hle) as (ev & Hev & _ & Hkv).
  destruct (IH Hok Hlive) as (kvs & Hkvs & Hlen & Hall).
  exists (ev_KV ev :: kvs). cbn [map_res]. rewrite Hev. cbn [rbind]. rewrite Hkvs. cbn [rbind].
  split; [done|]. split; [cbn; congruence|]. intros Hex. rewrite fmap_cons, Hkv, Hall by done. done.
Qed.

Lemma map_res_app {A B} (g : A -> res B) l k :
  map_res g (l ++ k) = let? x := map_res g l in let? y := map_res g k in Ok (x ++ y).
Proof.
  induction l as [|a l IH]; cbn [map_res app rbind]; [by destruct (map_res g k)|].
  destruct (g a); [|done..]. cbn [rbind]. rewrite IH.
  destruct (map_res g l); [|done..]. cbn [rbind]. by destruct (map_res g k).
Qed.

Definition limited {A} (limit : Z) (l : list A) : list A :=
  if limit =? 0 then l else take (Z.to_nat limit) l.

Lemma scan_result_limited limit L P X :
  0 <= limit -> scan_result (wants := list_wants limit) L P X ->
  P = limited limit L /\ (X = [] \/ limit <> 0 /\ length P = Z.to_nat limit).
Proof.
  intros H0 ([rest HL] & Hask & _ & Hend). unfold limited, list_wants in *.
  destruct (Z.eqb_spec limit 0) as [Hz|Hz]; cbn [orb] in *.
  { destruct Hend as [[-> ->]|]; [|done]. auto. }
  assert (Hle : (length P <= Z.to_nat limit)%nat).
  { destruct (length P) as [|n]; [lia|]. specialize (Hask n eq_refl). apply Z.ltb_lt in Hask. lia. }
  destruct Hend as [[-> ->]|Hend].
  - split; [by rewrite take_ge by lia|by left].
  - apply Z.ltb_ge in Hend. assert (length P = Z.to_nat limit) as Hlen by lia.
    split; [by rewrite HL, take_app_length' by done|right; done].
Qed.

Section Lists.
Context (grow : nat) (comp p0 : Z) (h0 : history) (s : store) (envs : list (TransactEnv BatchEnv)).
Context (Hrun : read_run dir grow comp p0 h0 s envs).

Lemma new_list_good limit keysOnly :
  list_good dir limit keysOnly [] [] (newListCollector f limit keysOnly).
Proof. split; try done. exists [], []. split_and!; [done|constructor..]. Qed.

Lemma list_wants_0 limit : 0 <= limit -> list_wants limit 0 = true.
Proof.
  intros Hl. unfold list_wants. destruct (Z.eqb_spec limit 0); [done|]. apply Z.ltb_lt. lia.
Qed.

(** What a list returns, and the histories around it. *)
Lemma listKeyValue_spec prefix startKey limit revision keysOnly :
  has_slash_suffix prefix = true \/ startKey = prefix -> 0 <= limit ->
  revision = 0 \/ 0 < revision /\ comp <= revision ->
  exists rv h1 s2 h2 extra,
    snapshot dir comp p0 h0 envs rv h1 s2 h2 /\
    (length extra <= 1)%nat /\
    (extra <> [] -> limit <> 0 /\
       length (limited limit (live_list (scan_keys prefix startKey) (window revision rv) h1)) = Z.to_nat limit) /\
    listKeyValue f envs prefix startKey limit revision keysOnly s =
      (Some (if rv <? revision then Err ErrFutureRev
             else Ok (rv, (kv_of keysOnly <$>
                             limited limit (live_list (scan_keys prefix startKey) (window revision rv) h1))
                          ++ extra)), s2).
Proof.
  intros Hargs Hlim Hrev.
  destruct (listWithCollector_spec dir Hmode (good := list_good dir limit keysOnly)
    grow comp p0 h0 s envs Hrun prefix startKey revision (newListCollector f limit keysOnly))
    as (rv & h1 & s2 & h2 & P & X & c2 & Hsnap & Hgood & Hres & Heq);
    [done..|apply new_list_good|by apply list_wants_0|].
  destruct (scan_result_limited _ _ _ _ Hlim Hres) as [HP HX].
  destruct Hgood as [_ _ _ Hok Hlive (rs & xs & Hrecs & HPr & HXr)].
  apply Forall_app in Hok as [HokP HokX], Hlive as [HliveP HliveX].
  destruct (map_events _ _ _ _ HPr HokP HliveP) as (kvs & Hkvs & _ & Hkv).
  destruct (map_events _ _ _ _ HXr HokX HliveX) as (ys & Hys & Hylen & _).
  exists rv, h1, s2, h2, ys. rewrite <-HP. destruct Hres as (_ & _ & HXlen & _). split; [done|]. split; [lia|].
  split.
  { intros Hne. destruct HX as [->|]; [|done]. by destruct ys. }
  unfold listKeyValue. rewrite (proj2 (Z.ltb_ge limit 0)), Heq by lia. destruct (rv <? revision); [done|].
  by rewrite Hrecs, map_res_app, Hkvs, Hys, Hkv.
Qed.
(** The newest revision that a read without or with a revision looks at. *)
Definition read_at (revision rv : Z) : Z := if revision =? 0 then rv else revision.

Lemma read_at_window revision rv : revision <= rv -> window revision rv = read_at revision rv.
Proof. intros H. unfold window, read_at. destruct (revision =? 0); [done|lia]. Qed.

(** A known revision is not in the future of the read. *)
Lemma snapshot_reached revision rv h1 s2 h2 :
  snapshot dir comp p0 h0 envs rv h1 s2 h2 -> revision = 0 \/ 0 < revision /\ comp <= revision <= p0 ->
  revision <= rv.
Proof.
  intros (Hin & (s1 & Hs1) & _) Hrev. pose proof (sn_le _ _ _ _ _ _ _ Hs1).
  destruct Hrev as [->|[_ ?]]; [|lia]. apply list_elem_of_fmap in Hin as (a & -> & Ha).
  pose proof (reads_ok_pos _ _ _ _ _ (rr_reads _ _ _ _ _ _ _ Hrun) a Ha). lia.
Qed.

(** C10: a list without a revision, or at one that is not compacted, is the
    snapshot of one revision: the key-values of the keys that were live then,
    in key order and with their values, up to the limit, together with the
    revision of the scan's first transaction.  It returns whatever the number
    of transactions, the attempts that fail and the records that other
    clients write meanwhile.  With a limit, one more key-value may follow. *)
Theorem List_snapshot prefix startKey limit revision keysOnly :
  has_slash_suffix prefix = true \/ startKey = prefix -> 0 <= limit ->
  revision = 0 \/ 0 < revision /\ comp <= revision <= p0 ->
  exists rv h1 s2 h2 extra,
    snapshot dir comp p0 h0 envs rv h1 s2 h2 /\
    let found := limited limit (live_list (scan_keys prefix startKey) (read_at revision rv) h1) in
    List f envs prefix startKey limit revision keysOnly s =
      (Some (Ok (rv, (kv_of keysOnly <$> found) ++ extra)), s2) /\
    (length extra <= 1)%nat /\ (extra <> [] -> limit <> 0 /\ length found = Z.to_nat limit).
Proof.
  intros Hargs Hlim Hrev.
  destruct (listKeyValue_spec prefix startKey limit revision keysOnly)
    as (rv & h1 & s2 & h2 & extra & Hsnap & Hlen & Hextra & Heq); [done..|tauto|].
  pose proof (snapshot_reached _ _ _ _ _ Hsnap Hrev) as Hle.
  exists rv, h1, s2, h2, extra. split; [done|]. cbv zeta. unfold List. rewrite Heq.
  rewrite (proj2 (Z.ltb_ge rv revision)) by done. rewrite read_at_window in * by done. done.
Qed.

(** C13: a list below the compaction revision fails with ErrCompacted. *)
Theorem List_compacted prefix startKey limit revision keysOnly :
  has_slash_suffix prefix = true \/ startKey = prefix -> 0 <= limit ->
  0 < revision -> revision < comp ->
  exists s2 h2 p2, since dir comp h0 p0 s2 h2 p2 /\
    List f envs prefix startKey limit revision keysOnly s = (Some (Err ErrCompacted), s2).
Proof.
  intros Hargs Hlim Hpos Hlow.
  destruct (listWithCollector_compacted dir Hmode (good := list_good dir limit keysOnly)
    grow comp p0 h0 s envs Hrun prefix startKey revision (newListCollector f limit keysOnly))
    as (s2 & h2 & p2 & c2 & Hs2 & Heq); [done..|apply new_list_good|by apply list_wants_0|].
  exists s2, h2, p2. split; [done|]. unfold List, listKeyValue. by rewrite (proj2 (Z.ltb_ge limit 0)), Heq by lia.
Qed.

(** A list at a revision that no transaction of the scan has reached
    fails with ErrFutureRev. *)
Theorem List_future prefix startKey limit revision keysOnly :
  has_slash_suffix prefix = true \/ startKey = prefix -> 0 <= limit -> comp <= revision ->
  Forall (fun a => at_read_version a < revision) (envs ≫= te_attempts) ->
  exists rv h1 s2 h2, snapshot dir comp p0 h0 envs rv h1 s2 h2 /\
    List f envs prefix startKey limit revision keysOnly s = (Some (Err ErrFutureRev), s2).
Proof.
  intros Hargs Hlim Hcomp Hfut. rewrite Forall_forall in Hfut.
  pose proof (reads_ok_pos _ _ _ _ _ (rr_reads _ _ _ _ _ _ _ Hrun)) as Hpos.
  destruct (listKeyValue_spec prefix startKey limit revision keysOnly)
    as (rv & h1 & s2 & h2 & extra & Hsnap & _ & _ & Heq); [done..| |].
  { right. split; [|done]. destruct (read_run_first _ _ _ _ _ _ _ Hrun) as (te & envs2 & Henvs & (_ & pre2 & a & Hatt & _)).
    assert (Ha : a ∈ envs ≫= te_attempts).
    { rewrite Henvs, bind_cons, elem_of_app. left. rewrite Hatt. apply elem_of_app. right. left. }
    specialize (Hpos a Ha). specialize (Hfut a Ha). cbn in Hfut. lia. }
  exists rv, h1, s2, h2. split; [done|]. unfold List. rewrite Heq.
  destruct Hsnap as (Hin & _). apply list_elem_of_fmap in Hin as (a & -> & Ha).
  specialize (Hfut a Ha). cbn in Hfut. by rewrite (proj2 (Z.ltb_lt _ _) Hfut).
Qed.

(** The records of one key live at a revision: at most one. *)
Lemma live_list_key key R h :
  StronglySorted rev_lt h -> has_slash_suffix key = false ->
  live_list (scan_keys key key) R h = option_list (live (latest (upto R h) key)).
Proof.
  intros Hs Hk. apply (ssorted_ext kr_lt).
  - apply (ssorted_filter kr_lt), by_key_sorted, Hs.
  - destruct (live _); repeat constructor.
  - intros e. unfold live_list. rewrite list_elem_of_filter, elem_of_by_key.
    unfold scan_keys. rewrite Hk. split.
    + intros [[-> Hl] _]. rewrite Hl. by left.
    + destruct (live (latest (upto R h) key)) as [x|] eqn:El; cbn; [|by intros ?%not_elem_of_nil].
      intros ->%list_elem_of_singleton. pose proof El as Hx.
      apply live_Some in Hx as [Hx _]. apply latest_Some in Hx as [Hin Ek].
      rewrite Ek. split; [done|]. apply list_elem_of_filter in Hin. tauto.
Qed.

(** A get of a key at a revision. *)
Lemma Get_spec key revision keysOnly :
  has_slash_suffix key = false -> revision = 0 \/ 0 < revision /\ comp <= revision <= p0 ->
  exists rv h1 s2 h2,
    snapshot dir comp p0 h0 envs rv h1 s2 h2 /\
    Get f envs key [] revision keysOnly s =
      (Some (Ok (rv, kv_of keysOnly <$> live (latest (upto (read_at revision rv) h1) key))), s2).
Proof.
  intros Hk Hrev.
  destruct (listKeyValue_spec key key 1 revision keysOnly)
    as (rv & h1 & s2 & h2 & extra & Hsnap & Hlen & Hextra & Heq); [by right|lia|tauto|].
  exists rv, h1, s2, h2. split; [done|]. unfold Get. rewrite decide_False by auto. rewrite Heq.
  pose proof (snapshot_reached _ _ _ _ _ Hsnap Hrev) as Hle.
  rewrite (proj2 (Z.ltb_ge rv revision)) by done. rewrite read_at_window in * by done.
  destruct Hsnap as (_ & (s1 & Hs1) & _). pose proof (R_sorted _ _ _ _ (sn_repr _ _ _ _ _ _ _ Hs1)) as Hs.
  rewrite live_list_key in * by done.
  destruct (live _) as [x|]; [done|]. destruct extra as [|y extra]; [done|].
  destruct Hextra as [_ Hx]; [done|]. done.
Qed.

(** C11: a get of a key (one that does not end in a slash) returns the
    key-value of its live record at the revision asked for, or nothing when
    the key is absent or deleted there, with the revision of the read. *)
Theorem Get_snapshot key revision keysOnly :
  has_slash_suffix key = false -> revision = 0 \/ 0 < revision /\ comp <= revision <= p0 ->
  exists rv h1 s2 h2,
    snapshot dir comp p0 h0 envs rv h1 s2 h2 /\
    Get f envs key [] revision keysOnly s =
      (Some (Ok (rv, kv_of keysOnly <$> live (latest (upto (read_at revision rv) h1) key))), s2).
Proof. apply Get_spec. Qed.
End Lists.

(** C12: a list ends whatever its arguments and however little time its
    batches have: when there are more batches than records, among them those
    that other clients add meanwhile, it returns. *)
Theorem List_terminates grow comp p0 h0 s envs prefix startKey limit revision keysOnly :
  Repr dir s h0 comp -> Forall (fun e => e.1 <= p0) h0 -> reads_ok dir comp grow p0 (envs ≫= te_attempts) ->
  Forall batch_ok envs -> (length h0 + grow * length (envs ≫= te_attempts) < length envs)%nat ->
  0 <= limit -> 0 <= revision ->
  exists r s2, List f envs prefix startKey limit revision keysOnly s = (Some r, s2).
Proof.
  intros HR Hup Hreads Hok Hlen Hlim Hrev.
  assert (Hrun : read_run dir grow comp p0 h0 s envs) by (split; [done..|]; right; split; [done|lia]).
  destruct (decide (has_slash_suffix prefix = true \/ startKey = prefix)) as [Hargs|Hargs].
  - destruct (decide (0 < revision /\ revision < comp)) as [[Hpos Hlow]|Hhigh].
    + destruct (listWithCollector_compacted dir Hmode (good := list_good dir limit keysOnly)
        grow comp p0 h0 s envs Hrun prefix startKey revision (newListCollector f limit keysOnly))
        as (s2 & h2 & p2 & c2 & _ & Heq); [done..|apply new_list_good|by apply list_wants_0|].
      unfold List, listKeyValue. rewrite (proj2 (Z.ltb_ge limit 0)), Heq by lia. eauto.
    + destruct (listKeyValue_spec grow comp p0 h0 s envs Hrun prefix startKey limit revision keysOnly)
        as (rv & h1 & s2 & h2 & extra & _ & _ & _ & Heq); [done..|lia|].
      unfold List. rewrite Heq. eauto.
  - unfold List, listKeyValue, listWithCollector, scan_selectors. rewrite (proj2 (Z.ltb_ge limit 0)) by lia.
    destruct (has_slash_suffix prefix); [tauto|]. rewrite decide_True by tauto. eauto.
Qed.
End ReadSpec.

(** * Runs *)

(** Another client deletes [/c] at revision 14. *)
Definition sample_tombstone : Rec :=
  sample_rec (str "/c") (str "four") true false (int64ToVersionstamp 11) (int64ToVersionstamp 11) Byte.x06.

Definition sample_other (s : gmap bytes bytes) : gmap bytes bytes :=
  apply_log (Some (TransactionVersion (int64ToVersionstamp 14))) s
    (append_log sample_dir [] (IncompleteVersionstamp 0) sample_tombstone 0).

Lemma sample_other_repr s h c :
  Repr sample_dir s h c -> Forall (fun e => e.1 <= 13) h ->
  Repr sample_dir (sample_other s) (h ++ [(14, sample_tombstone)]) c.
Proof.
  intros HR Hup. unfold sample_other. rewrite apply_append_log.
  apply (Repr_append sample_dir s h c HR); try done.
  - apply entry_okb_ok. vm_compute. reflexivity.
  - eapply Forall_impl; [exact Hup|]. cbn. lia.
  - by left.
Qed.

Definition read_attempt (others : gmap bytes bytes -> gmap bytes bytes) (rv : Z) (budget : nat)
    (fault : option (nat * Z)) : Attempt BatchEnv :=
  mkAttempt others (mkBatchEnv budget fault) None rv Committed rv 0 false None.

(** A batch that fails once and then reads two records, and one that reads
    the rest after another client's write. *)
Definition sample_scan : list (TransactEnv BatchEnv) :=
  [mkTransactEnv None [read_attempt id 12 5 (Some (1%nat, 1007)); read_attempt id 12 1 None];
   mkTransactEnv None [read_attempt sample_other 15 8 None]].

Lemma sample_read_run : read_run sample_dir 1 0 12 sample_history sample_store sample_scan.
Proof.
  assert (Hid : forall p rv s h, Repr sample_dir s h 0 -> exists ext : history,
    Repr sample_dir (id s) (h ++ ext) 0 /\ (length ext <= 1)%nat /\ Forall (fun e => p < e.1 <= rv) ext).
  { intros p rv s h HR. exists []. rewrite app_nil_r. split_and!; [done|cbn; lia|constructor]. }
  split.
  - exact sample_repr.
  - by apply (bool_decide_eq_true_1 (Forall (fun e : entry => e.1 <= 12) sample_history)).
  - cbn [sample_scan mbind list_bind te_attempts app reads_ok]. cbn. split_and!; try lia; try (intros; by apply Hid).
    intros s h HR Hup. exists [(14, sample_tombstone)]. split_and!.
    + apply sample_other_repr; [done|]. eapply Forall_impl; [exact Hup|]. cbn. lia.
    + cbn. lia.
    + apply Forall_singleton. cbn. lia.
  - left. split.
    + repeat apply Forall_cons_2; [..|apply Forall_nil_2].
      * split; [done|]. exists [read_attempt id 12 5 (Some (1%nat, 1007))], (read_attempt id 12 1 None).
        split_and!; try done. by apply Forall_singleton.
      * split; [done|]. exists [], (read_attempt sample_other 15 8 None). by split_and!.
    + exists [mkTransactEnv None [read_attempt id 12 5 (Some (1%nat, 1007)); read_attempt id 12 1 None]],
        (mkTransactEnv None [read_attempt sample_other 15 8 None]). split; [done|].
      apply Forall_singleton. cbn. lia.
Qed.

Lemma List_snapshot_witness :
  exists rv h1 s2 h2 extra,
    snapshot sample_dir 0 12 sample_history sample_scan rv h1 s2 h2 /\
    let found := limited 0 (live_list (scan_keys (str "/") (str "/")) (read_at 0 rv) h1) in
    List (openSubspaces sample_dir) sample_scan (str "/") (str "/") 0 0 false sample_store =
      (Some (Ok (rv, (kv_of false <$> found) ++ extra)), s2) /\
    (length extra <= 1)%nat /\ (extra <> [] -> 0 <> 0 /\ length found = Z.to_nat 0).
Proof.
  apply (List_snapshot (KV := map_store) (CF := sample_config) sample_dir eq_refl 1 0 12 sample_history sample_store
    sample_scan sample_read_run (str "/") (str "/") 0 0 false).
  - by left.
  - lia.
  - by left.
Defined.

Lemma List_future_witness :
  exists rv h1 s2 h2, snapshot sample_dir 0 12 sample_history sample_scan rv h1 s2 h2 /\
    List (openSubspaces sample_dir) sample_scan (str "/") (str "/") 0 100 false sample_store =
      (Some (Err ErrFutureRev), s2).
Proof.
  apply (List_future (KV := map_store) (CF := sample_config) sample_dir eq_refl 1 0 12 sample_history sample_store
    sample_scan sample_read_run (str "/") (str "/") 0 100 false).
  - by left.
  - lia.
  - lia.
  - repeat apply Forall_cons_2; [reflexivity..|apply Forall_nil_2].
Defined.

(** Six batches of one record each, on the five records of the sample. *)
Definition slow_scan : list (TransactEnv BatchEnv) := replicate 6 (mkTransactEnv None [read_attempt id 12 0 None]).

Lemma List_terminates_witness :
  exists r s2, List (openSubspaces sample_dir) slow_scan (str "/") (str "/") 0 0 false sample_store = (Some r, s2).
Proof.
  apply (List_terminates (KV := map_store) (CF := sample_config) sample_dir eq_refl 0 0 12 sample_history sample_store
    slow_scan (str "/") (str "/") 0 0 false).
  - exact sample_repr.
  - by apply (bool_decide_eq_true_1 (Forall (fun e : entry => e.1 <= 12) sample_history)).
  - cbn. split_and!; try done; intros s2 h2 HR2 _; exists []; rewrite app_nil_r; split_and!; (done || cbn; lia || constructor).
  - apply Forall_replicate. split; [done|]. exists [], (read_attempt id 12 0 None). by split_and!.
  - cbn. lia.
  - lia.
  - lia.
Defined.

Lemma Get_snapshot_witness :
  exists rv h1 s2 h2,
    snapshot sample_dir 0 12 sample_history sample_scan rv h1 s2 h2 /\
    Get (openSubspaces sample_dir) sample_scan (str "/b") [] 6 false sample_store =
      (Some (Ok (rv, kv_of false <$> live (latest (upto (read_at 6 rv) h1) (str "/b")))), s2).
Proof.
  apply (Get_snapshot (KV := map_store) (CF := sample_config) sample_dir eq_refl 1 0 12 sample_history sample_store
    sample_scan sample_read_run (str "/b") 6 false).
  - reflexivity.
  - lia.
Defined.

(** The sample store after a compaction at revision 6. *)
Definition compacted_store : gmap bytes bytes :=
  @sset map_store sample_store (compactRev (openSubspaces sample_dir)) (tuple_pack [TVersionstamp (int64ToVersionstamp 6)]).

(** A read in one transaction that nobody disturbs. *)
Definition quiet_scan_at (v : Z) (budget : nat) : list (TransactEnv BatchEnv) :=
  [mkTransactEnv None [read_attempt id v budget None]].
Abbreviation quiet_scan := (quiet_scan_at 12).

Lemma quiet_scan_run `{CF : Config} v budget c s h :
  0 < v -> Repr sample_dir s h c -> Forall (fun e => e.1 <= v) h -> (length h <= budget)%nat ->
  read_run sample_dir 0 c v h s (quiet_scan_at v budget).
Proof.
  intros Hv HR Hup Hlen. split; [done..| |].
  - cbn. split_and!; try done. intros s2 h2 HR2 _. exists []. rewrite app_nil_r.
    split_and!; [done|cbn; lia|constructor].
  - left. split.
    + apply Forall_singleton. split; [done|]. exists [], (read_attempt id v budget None). by split_and!.
    + exists [], (mkTransactEnv None [read_attempt id v budget None]). split; [done|].
      apply Forall_singleton. cbn. lia.
Qed.

Lemma quiet_read_run c s h :
  Repr sample_dir s h c -> Forall (fun e => e.1 <= 12) h ->
  read_run sample_dir 0 c 12 h s (quiet_scan (length h)).
Proof. intros HR Hup. by apply quiet_scan_run. Qed.

Lemma List_compacted_witness :
  exists s2 h2 p2, since sample_dir 6 sample_history 12 s2 h2 p2 /\
    List (openSubspaces sample_dir) (quiet_scan 5) (str "/") (str "/") 0 5 false compacted_store =
      (Some (Err ErrCompacted), s2).
Proof.
  apply (List_compacted (KV := map_store) (CF := sample_config) sample_dir eq_refl 0 6 12 sample_history compacted_store
    (quiet_scan 5)).
  - apply (quiet_read_run 6 compacted_store sample_history).
    + eapply Repr_set_compact; [exact sample_repr|unfold int64_max; lia].
    + by apply (bool_decide_eq_true_1 (Forall (fun e : entry => e.1 <= 12) sample_history)).
  - by left.
  - lia.
  - lia.
  - lia.
Defined.

(** A list with a limit may return one key-value too many, and that one
    may be of a deleted key: on a store where [/a] is live and [/b] deleted, a
    list with limit 1 returns [/a] and the deleted value of [/b]. *)
Theorem List_limit_returns_deleted :
  live (latest sample_history (str "/b")) = None /\
  (List (openSubspaces sample_dir) (quiet_scan 5) (str "/") (str "/") 1 0 false sample_store).1 =
    Some (Ok (12, [mkKeyValue (str "/a") 3 7 (str "three") 0; mkKeyValue (str "/b") 5 5 (str "two") 0])).
Proof. vm_compute. split; reflexivity. Qed.

(** A list with a prefix and a start key before it returns keys outside
    the prefix. *)
Theorem List_outside_prefix :
  ~ str "/c/" `prefix_of` str "/b" /\
  (List (openSubspaces sample_dir) (quiet_scan 5) (str "/c/") (str "/a") 0 6 false sample_store).1 =
    Some (Ok (12, [mkKeyValue (str "/b") 5 5 (str "two") 0])).
Proof.
  split; [|vm_compute; reflexivity].
  rewrite <-(bool_decide_eq_false (str "/c/" `prefix_of` str "/b")). vm_compute. reflexivity.
Qed.

(** A get of a key that ends in a slash searches the keys below it and
    returns the first of them: a get of [/] returns [/a]. *)
Theorem Get_of_directory :
  latest sample_history (str "/") = None /\
  (Get (openSubspaces sample_dir) (quiet_scan 5) (str "/") [] 0 false sample_store).1 =
    Some (Ok (12, Some (mkKeyValue (str "/a") 3 7 (str "three") 0))).
Proof. vm_compute. split; reflexivity. Qed.
