(* ===== verification/RevScan.v ===== *)
(** Ranges of the by-revision subspace: the records between two revisions in
    revision order, as compaction, watches and the log export read them. *)
From stdpp Require Import base strings list gmap sorting.
From Stdlib Require Import Strings.Byte ZArith Lia.
From S2P Require Import Prelude FdbApi KeyOrder Util Subspaces SubspaceFacts Transact History.

Lemma filter_bind {A B} (P : B -> Prop) `{!forall x, Decision (P x)} (g : A -> list B) (l : list A) :
  filter P (l ≫= g) = l ≫= (fun x => filter P (g x)).
Proof. induction l as [|x l IH]; [done|]. by rewrite !bind_cons, filter_app, IH. Qed.

Lemma bind_filter_nil {A B} (P : A -> Prop) `{!forall x, Decision (P x)} (g : A -> list B) (l : list A) :
  (forall x, x ∈ l -> ~ P x -> g x = []) -> l ≫= g = filter P l ≫= g.
Proof.
  induction l as [|x l IH]; intros Hn; [done|]. rewrite bind_cons, filter_cons.
  rewrite IH by (intros y Hy; apply Hn; by right). case_decide as HP; [by rewrite bind_cons|].
  by rewrite (Hn x ltac:(left) HP).
Qed.

Lemma filter_none {A} (P : A -> Prop) `{!forall x, Decision (P x)} (l : list A) :
  (forall x, x ∈ l -> ~ P x) -> filter P l = [].
Proof.
  induction l as [|x l IH]; intros Hn; [done|]. rewrite filter_cons, decide_False by (apply Hn; left).
  apply IH. intros y Hy. apply Hn. by right.
Qed.

Lemma filter_every {A} (P : A -> Prop) `{!forall x, Decision (P x)} (l : list A) :
  (forall x, x ∈ l -> P x) -> filter P l = l.
Proof.
  induction l as [|x l IH]; intros Hn; [done|]. rewrite filter_cons, decide_True by (apply Hn; left).
  f_equal. apply IH. intros y Hy. apply Hn. by right.
Qed.

Lemma filter_same {A} (P Q : A -> Prop) `{!forall x, Decision (P x), !forall x, Decision (Q x)} (l : list A) :
  (forall x, x ∈ l -> P x <-> Q x) -> filter P l = filter Q l.
Proof.
  induction l as [|x l IH]; intros Hx; [done|]. rewrite !filter_cons.
  rewrite (decide_ext (P x) (Q x)) by (apply Hx; left). rewrite IH; [done|]. intros y Hy. apply Hx. by right.
Qed.

Lemma bind_ext {A B} (g g2 : A -> list B) (l : list A) :
  (forall x, x ∈ l -> g x = g2 x) -> l ≫= g = l ≫= g2.
Proof.
  induction l as [|x l IH]; intros Hx; [done|]. rewrite !bind_cons, (Hx x) by left.
  rewrite IH; [done|]. intros y Hy. apply Hx. by right.
Qed.

(** Revisions after [y], up to [E] when there is an end. *)
Definition in_revs (y : Z) (E : option Z) (x : entry) : Prop :=
  y < x.1 /\ match E with Some r => x.1 <= r | None => True end.
#[global] Instance in_revs_dec y E x : Decision (in_revs y E x).
Proof. unfold in_revs. destruct E; apply _. Defined.

Definition rev_todo (h : history) (y : Z) (E : option Z) : history := filter (in_revs y E) h.

(** Newer records are not in what is known up to a revision. *)
Lemma upto_newer R h ext : Forall (fun e => R < e.1) ext -> upto R (h ++ ext) = upto R h.
Proof.
  intros Hext. unfold upto. rewrite filter_app, (filter_none _ ext); [apply app_nil_r|].
  rewrite Forall_forall in Hext. intros e He. specialize (Hext e He). cbn in Hext. lia.
Qed.

(** * Records between two revisions *)

Lemma elem_of_rev_todo h y E x : x ∈ rev_todo h y E <-> x ∈ h /\ in_revs y E x.
Proof. unfold rev_todo. rewrite list_elem_of_filter. tauto. Qed.

Lemma rev_todo_sorted h y E : StronglySorted rev_lt h -> StronglySorted rev_lt (rev_todo h y E).
Proof. apply (ssorted_filter rev_lt). Qed.

(** Newer records do not change what is before a cursor. *)
Lemma rev_todo_extend h ext y r :
  StronglySorted rev_lt (h ++ ext) -> Forall (fun x => r < x.1) ext ->
  rev_todo (h ++ ext) y (Some r) = rev_todo h y (Some r).
Proof.
  intros Hs Hext. unfold rev_todo. rewrite filter_app, (filter_none _ ext); [apply app_nil_r|].
  rewrite Forall_forall in Hext. intros x Hx [_ Hle]. specialize (Hext x Hx). cbn in Hext. lia.
Qed.

(** Reading on from a cursor. *)
Lemma rev_todo_next h y r r2 D :
  StronglySorted rev_lt h -> StronglySorted rev_lt D -> y <= r -> r <= r2 ->
  (forall x, x ∈ D <-> x ∈ h /\ r < x.1 <= r2) ->
  rev_todo h y (Some r2) = rev_todo h y (Some r) ++ D.
Proof.
  intros Hs HDs Hy Hr HD. apply (ssorted_ext rev_lt).
  - by apply rev_todo_sorted.
  - apply StronglySorted_app_2; [|by apply rev_todo_sorted|done].
    intros a b [_ [_ Ha]]%elem_of_rev_todo [_ Hb]%HD. unfold rev_lt. lia.
  - intros x. rewrite elem_of_app, HD, !elem_of_rev_todo. unfold in_revs.
    destruct (Z.le_gt_cases x.1 r); split; intuition lia.
Qed.

(** The records read up to the last of them. *)
Lemma todo_prefix h y E D rest x :
  StronglySorted rev_lt h -> rev_todo h y E = D ++ rest -> last D = Some x ->
  forall z, z ∈ D <-> z ∈ h /\ y < z.1 <= x.1.
Proof.
  intros Hs Hitems Hlast z. pose proof (rev_todo_sorted h y E Hs) as Hso. rewrite Hitems in Hso.
  assert (Hin : forall z, z ∈ D ++ rest <-> z ∈ h /\ in_revs y E z).
  { intros w. by rewrite <-Hitems, elem_of_rev_todo. }
  pose proof (last_Some_elem_of _ _ Hlast) as Hx.
  assert (HxE : in_revs y E x) by (apply Hin, elem_of_app; by left). split.
  - intros Hz. assert (Hz2 : z ∈ D ++ rest) by (apply elem_of_app; by left). apply Hin in Hz2 as [Hzh [Hzy _]].
    split; [done|]. split; [done|]. apply last_Some in Hlast as [D2 ->].
    apply elem_of_app in Hz as [Hz| ->%list_elem_of_singleton]; [|lia].
    apply StronglySorted_app_1_l in Hso.
    pose proof (StronglySorted_app_1_elem_of rev_lt _ _ z x Hso Hz ltac:(left)) as Hlt. unfold rev_lt in Hlt. lia.
  - intros [Hzh Hzr]. assert (Hz : z ∈ D ++ rest) by (apply Hin; split; [done|]; unfold in_revs in *; destruct E; lia).
    apply elem_of_app in Hz as [?|Hz]; [done|].
    pose proof (StronglySorted_app_1_elem_of rev_lt _ _ x z Hso Hx Hz) as Hlt. unfold rev_lt in Hlt. lia.
Qed.

(** A batch that reads a record leaves fewer, not counting those that other
    clients add. *)
Lemma rev_todo_progress h ext y D rest x :
  StronglySorted rev_lt (h ++ ext) -> rev_todo (h ++ ext) y None = D ++ rest -> last D = Some x ->
  (length (rev_todo (h ++ ext) x.1 None) < length (rev_todo h y None) + length ext)%nat.
Proof.
  intros Hs Hitems Hlast. pose proof (todo_prefix _ _ _ _ _ _ Hs Hitems Hlast) as HD.
  pose proof (last_Some_elem_of _ _ Hlast) as Hx. destruct (proj1 (HD x) Hx) as [_ Hxy].
  assert (E : rev_todo (h ++ ext) x.1 None = filter (in_revs x.1 None) (rev_todo (h ++ ext) y None)).
  { unfold rev_todo. rewrite list_filter_filter. apply list_filter_iff. intros z. unfold in_revs. lia. }
  assert (Hsum : (length D + length rest <= length (rev_todo h y None) + length ext)%nat).
  { rewrite <-length_app, <-Hitems. unfold rev_todo. rewrite filter_app, length_app.
    pose proof (length_filter (in_revs y None) ext). lia. }
  rewrite E, Hitems, filter_app, (filter_none _ D) by (intros z [_ Hz]%HD [? _]; lia).
  pose proof (length_filter (in_revs x.1 None) rest). destruct D; [by apply not_elem_of_nil in Hx|]. cbn in *. lia.
Qed.

(** * Ranges *)

Section RevScan.
Context `{FB : FdbBindings, KV : KVStore, CF : Config}.
Context (dir : bytes).
Abbreviation f := (openSubspaces dir).
Abbreviation s := (byRevision f).

(** The key after every entry of a revision. *)
Definition after_rev_key (r : Z) : bytes :=
  Pack s [TVersionstamp (int64ToVersionstamp r); TInt int64_max].

Lemma stamp_keys_lt a b t u :
  0 <= a -> a < b -> b <= int64_max ->
  Pack s (TVersionstamp (int64ToVersionstamp a) :: t) <b Pack s (TVersionstamp (int64ToVersionstamp b) :: u).
Proof.
  intros Ha Hlt Hb. rewrite !Pack_spec, (tuple_pack_cons _ t), (tuple_pack_cons _ u).
  by apply blt_app_l, bdiverge_lt, pack_revision_lt.
Qed.

Lemma entries_in_region x kv :
  kv ∈ rev_entries s x -> s ++ [Byte.x00] <=b kv.1 /\ kv.1 <b s ++ [Byte.xff].
Proof.
  intros [t ->]%rev_entries_key. apply in_sub_range.
  destruct (tuple_pack_head (TVersionstamp (int64ToVersionstamp x.1))) as (b & r & E & Hb).
  exists b, (r ++ tuple_pack t). split; [|done]. by rewrite Pack_spec, (tuple_pack_cons _ t), E.
Qed.

(** Entries of a revision are before [after_rev_key]. *)
Lemma entry_le_after x kv : entry_ok x -> kv ∈ rev_entries s x -> kv.1 <b after_rev_key x.1.
Proof.
  intros (_ & Hrec & _) Hkv. unfold rev_entries, byRevision_entries in Hkv.
  apply elem_of_cons in Hkv as [->|([o ch] & -> & Hin)%list_elem_of_fmap]; unfold after_rev_key; cbn [fst].
  - unfold byRevision_main. cbn [fst]. rewrite !Pack_spec, (tuple_pack_cons _ [TInt _]).
    rewrite <-(app_nil_r (tuple_pack [_])) at 1. do 2 apply blt_app_l.
    destruct (tuple_pack [TInt int64_max]) eqn:E; [by apply tuple_pack_nonempty in E|done].
  - unfold chunk_entry. cbn [fst snd]. rewrite !Pack_spec, !(tuple_pack_cons _ [TInt _]).
    do 2 apply blt_app_l. destruct Hrec as (_ & _ & _ & _ & Hmax & _).
    destruct (chunks_offset_int64 _ _ _ Hmax Hin) as [H0 Hi].
    pose proof (bdiverge_lt _ _ [] [] (tuple_pack_int_order o int64_max Hi ltac:(done) ltac:(lia))) as Hl.
    by rewrite !app_nil_r in Hl.
Qed.

(** The begin of a range after a revision. *)
Lemma lower_cut y x kv :
  entry_ok x -> 0 <= y <= int64_max -> kv ∈ rev_entries s x ->
  after_rev_key y ++ [Byte.x00] <=b kv.1 <-> y < x.1.
Proof.
  intros Hx Hy Hkv. rewrite ble_next. pose proof (entry_ok_stamp x Hx) as [Hr _].
  destruct (rev_entries_key _ _ _ Hkv) as [t Et]. split.
  - intros Hlt. destruct (Z.lt_trichotomy y x.1) as [?|[E|Hgt]]; [done|exfalso..].
    + subst y. pose proof (entry_le_after x kv Hx Hkv) as Hle.
      apply (blt_irrefl (after_rev_key x.1)). by eapply blt_trans.
    + apply (blt_irrefl kv.1). eapply blt_trans; [|exact Hlt]. rewrite Et. apply stamp_keys_lt; lia.
  - intros Hlt. rewrite Et. apply stamp_keys_lt; lia.
Qed.

(** The end of a range at a revision leaves out its chunks. *)
Lemma upper_cut E x kv :
  entry_ok x -> 0 <= E <= int64_max -> kv ∈ rev_entries s x ->
  kv.1 <b Pack s [TVersionstamp (int64ToVersionstamp E)] ++ [Byte.x00] <->
  x.1 < E \/ x.1 = E /\ kv.1 = Pack s [TVersionstamp (int64ToVersionstamp E)].
Proof.
  intros Hx HE Hkv. pose proof (entry_ok_stamp x Hx) as [Hr _].
  destruct (rev_entries_key _ _ _ Hkv) as [t Et].
  assert (Hiff : forall k p, k <b p ++ [Byte.x00] <-> k <=b p).
  { intros k p. rewrite blt_not_le, ble_next, ble_not_lt. done. }
  rewrite Hiff. destruct (Z.lt_trichotomy x.1 E) as [Hlt|[Heq|Hgt]].
  - split; [by left|]. intros _. apply blt_le. rewrite Et. apply stamp_keys_lt; lia.
  - subst E. split; [|intros [?|[_ ->]]; [lia|apply ble_refl]]. intros Hle. right. split; [done|].
    apply ble_lteq in Hle as [Hlt|]; [|done]. exfalso. apply blt_not_le in Hlt. apply Hlt, ble_prefix.
    rewrite Et, !Pack_spec, (tuple_pack_cons _ t). by apply prefix_app, prefix_app_r.
  - split; [|lia]. intros Hle. exfalso. apply ble_not_lt in Hle. apply Hle. rewrite Et. apply stamp_keys_lt; lia.
Qed.

(** The entries of a record in such a range: the chunks of revision [E] are
    cut off. *)
Definition rev_part (E : option Z) (x : entry) : list (bytes * bytes) :=
  match E with
  | Some r => if x.1 =? r then [byRevision_main s (int64ToVersionstamp x.1) x.2] else rev_entries s x
  | None => rev_entries s x
  end.

(** [FirstGreaterThan] of a revision's last key, or the subspace's begin. *)
Definition rev_begin (y : Z) : bytes :=
  if y =? 0 then s ++ [Byte.x00] else after_rev_key y ++ [Byte.x00].
Definition rev_end (E : option Z) : bytes :=
  match E with
  | Some r => Pack s [TVersionstamp (int64ToVersionstamp r)] ++ [Byte.x00]
  | None => s ++ [Byte.xff]
  end.

Lemma rev_begin_cut lo y x kv :
  lo = rev_begin y \/ lo = after_rev_key y ++ [Byte.x00] ->
  entry_ok x -> 0 <= y <= int64_max -> kv ∈ rev_entries s x -> lo <=b kv.1 <-> y < x.1.
Proof.
  intros Hlo Hx Hy Hkv. pose proof Hx as [[Hpos _] _].
  assert (Hcase : lo = after_rev_key y ++ [Byte.x00] \/ lo = s ++ [Byte.x00] /\ y = 0).
  { unfold rev_begin in Hlo. destruct (Z.eqb_spec y 0); naive_solver. }
  destruct Hcase as [->|[-> ->]]; [by apply lower_cut|].
  split; [done|]. intros _. by apply (entries_in_region x kv).
Qed.

Lemma rev_region lo y E k :
  lo = rev_begin y \/ lo = after_rev_key y ++ [Byte.x00] ->
  lo <=b k -> k <b rev_end E -> s `prefix_of` k.
Proof.
  intros Hlo H1 H2.
  assert (Hl : exists u, lo = s ++ u).
  { unfold rev_begin, after_rev_key in Hlo. destruct (y =? 0), Hlo as [->| ->];
      rewrite ?Pack_spec, <-?app_assoc; eauto. }
  assert (Hu : exists w, rev_end E = s ++ w).
  { unfold rev_end. destruct E; rewrite ?Pack_spec, <-?app_assoc; eauto. }
  destruct Hl as [u ->], Hu as [w Hw]. rewrite Hw in H2. by eapply prefix_between.
Qed.

Lemma rev_end_cut E x kv :
  entry_ok x -> (forall r, E = Some r -> 0 <= r <= int64_max) -> kv ∈ rev_entries s x ->
  kv.1 <b rev_end E <->
  match E with
  | Some r => x.1 < r \/ x.1 = r /\ kv.1 = Pack s [TVersionstamp (int64ToVersionstamp r)]
  | None => True
  end.
Proof.
  intros Hx HE Hkv. destruct E as [r|]; [by apply upper_cut; auto|].
  split; [done|]. intros _. by apply (entries_in_region x kv).
Qed.

(** What is left of a record's entries in a range. *)
Lemma filter_entries lo y E x :
  entry_ok x -> 0 <= y <= int64_max -> (forall r, E = Some r -> 0 <= r <= int64_max) ->
  lo = rev_begin y \/ lo = after_rev_key y ++ [Byte.x00] ->
  filter (fun kv => lo <=b kv.1 /\ kv.1 <b rev_end E) (rev_entries s x) =
  if decide (in_revs y E x) then rev_part E x else [].
Proof.
  intros Hx Hy HE Hlo.
  assert (Hcut : forall kv, kv ∈ rev_entries s x -> (lo <=b kv.1 /\ kv.1 <b rev_end E) <->
    y < x.1 /\ match E with
               | Some r => x.1 < r \/ x.1 = r /\ kv.1 = Pack s [TVersionstamp (int64ToVersionstamp r)]
               | None => True
               end).
  { intros kv Hkv. rewrite (rev_begin_cut lo y x kv), (rev_end_cut E x kv) by done. done. }
  case_decide as Hin; unfold in_revs in Hin.
  - unfold rev_part. destruct E as [r|]; [destruct (Z.eqb_spec x.1 r) as [Heq|Hne]|].
    + unfold rev_entries, byRevision_entries in *. rewrite filter_cons, decide_True.
      2:{ apply Hcut; [left|]. subst r. split; [tauto|]. by right. }
      f_equal. apply filter_none. intros kv Hkv Hp.
      apply Hcut in Hp as (_ & [?|[_ Hk]]); [lia| |by right].
      apply list_elem_of_fmap in Hkv as (oc & -> & _). unfold chunk_entry in Hk. cbn [fst] in Hk.
      rewrite !Pack_spec, (tuple_pack_cons _ [TInt _]), Heq in Hk. apply (inj (app _)) in Hk.
      rewrite <-(app_nil_r (tuple_pack [_])) in Hk at 2. apply (inj (app _)) in Hk.
      by apply tuple_pack_nonempty in Hk.
    + apply filter_every. intros kv Hkv. apply Hcut; [done|]. split; [tauto|]. left. lia.
    + apply filter_every. intros kv Hkv. by apply Hcut.
  - apply filter_none. intros kv Hkv Hp. apply Hin.
    apply Hcut in Hp as [? Hp]; [|done]. split; [done|]. destruct E; [lia|done].
Qed.

Lemma srange_revs st h c lo y E :
  Repr dir st h c -> 0 <= y <= int64_max -> (forall r, E = Some r -> 0 <= r <= int64_max) ->
  lo = rev_begin y \/ lo = after_rev_key y ++ [Byte.x00] ->
  srange st lo (rev_end E) = rev_todo h y E ≫= rev_part E.
Proof.
  intros HR Hy HE Hlo. pose proof (R_ok _ _ _ _ HR) as Hok. rewrite Forall_forall in Hok.
  rewrite (srange_byRev dir st h c) by (try done; intros k H1 H2; by apply (rev_region lo y E)).
  rewrite filter_bind, (bind_filter_nil (in_revs y E)).
  - apply bind_ext. intros x [Hin Hx]%list_elem_of_filter.
    by rewrite (filter_entries lo y E), decide_True by auto.
  - intros x Hx Hn. by rewrite (filter_entries lo y E), decide_False by auto.
Qed.

(** Reading the next record of such a range. *)
Lemma GetFromIterator_part E x it :
  entry_ok x -> (E = Some x.1 -> it = []) ->
  exists r, ByRevision_GetFromIterator s (rev_part E x ++ it) = Ok (Some (int64ToVersionstamp x.1, r), it) /\
    Key r = Key x.2 /\ IsDelete r = IsDelete x.2 /\ (E = None -> r = byRevision_view x.2).
Proof.
  intros Hx Hit. pose proof Hx as (_ & Hrec & _). unfold rev_part.
  assert (Hfull : ByRevision_GetFromIterator s (rev_entries s x ++ it) =
                  Ok (Some (int64ToVersionstamp x.1, byRevision_view x.2), it)).
  { by apply ByRevision_GetFromIterator_entries; [apply int64ToVersionstamp_ok|]. }
  destruct E as [r|]; [|eexists; split; [exact Hfull|done]].
  destruct (Z.eqb_spec x.1 r) as [Er|]; [|eexists; split; [exact Hfull|done]].
  rewrite Hit by congruence. unfold ByRevision_GetFromIterator. cbn [app Advance negb IterGet rbind].
  rewrite ByRevision_ParseKV_main by (done || apply int64ToVersionstamp_ok). cbn [rbind].
  change (ValueSize (with_Value (byRevision_view x.2) [])) with (ValueSize x.2).
  destruct Hrec as (_ & _ & _ & Hsz & _). unfold make_bytes.
  pose proof (zlength_nonneg (Value x.2)). rewrite (proj2 (Z.ltb_ge _ _)) by lia. cbn [rbind getBlob].
  destruct (_ =? _); (eexists; split; [done|]); by split_and!.
Qed.
End RevScan.
