(* ===== verification/Compaction.v ===== *)
(** pkg/drivers/fdb/fdb_compact.go: compaction of the records up to a
    revision, and what it keeps. *)
From stdpp Require Import base strings list gmap sorting.
From Stdlib Require Import Strings.Byte ZArith Lia.
From S2P Require Import Prelude FdbApi KeyOrder FdbInstance Util Subspaces SubspaceFacts Transact History Samples RevScan Scan Write.

Section CompactDefs.
Context `{FB : FdbBindings, KV : KVStore, CF : Config}.

Record compactProcessor := mkCompactProcessor {
  cp_f : FDB;
  cp_batchCompacted : Versionstamp;
  cp_lastTr : option Transaction
}.

Definition newCompactProcessor (f : FDB) : compactProcessor :=
  mkCompactProcessor f (mkVersionstamp (replicate 10 Byte.x00) 0) None.

Definition compactProcessor_next (tr : Transaction) (it : RangeIterator) (c : compactProcessor)
    : res (option bytes * bool * Transaction * RangeIterator) * compactProcessor :=
  match ByRevision_GetFromIterator (byRevision (cp_f c)) it with
  | Err e => (Err e, c)
  | Panic => (Panic, c)
  | Ok (None, it) => (Ok (None, false, tr, it), c)
  | Ok (Some (rev, record), it) =>
      match getLast (cp_f c) tr (Key record) with
      | Err e => (Err e, c)
      | Panic | Ok None => (Panic, c)
      | Ok (Some lastRecord) =>
          match
            (if bool_decide (kr_Rev (bk_Key lastRecord) <> rev) || IsDelete record then
               let tr := ByKey_Delete (byKeyAndRevision (cp_f c)) tr (mkKeyAndRevision (Key record) rev) in
               ByRevision_Delete (byRevision (cp_f c)) tr rev
             else Ok tr)
          with
          | Err e => (Err e, c)
          | Panic => (Panic, c)
          | Ok tr =>
              (Ok (Some (Pack (byRevision (cp_f c)) [TVersionstamp rev; TInt int64_max]), true, tr, it),
               mkCompactProcessor (cp_f c) rev (cp_lastTr c))
          end
      end
  end.

Definition compactProcessor_endBatch (tr : Transaction) (isLast : bool) (c : compactProcessor)
    : res Transaction * compactProcessor :=
  let tr :=
    if bool_decide (cp_batchCompacted c <> dummyVersionstamp)
    then CompactRev_Write (compactRev (cp_f c)) tr (cp_batchCompacted c) else tr in
  (Ok tr, mkCompactProcessor (cp_f c) (cp_batchCompacted c) (if isLast then Some tr else cp_lastTr c)).

#[global] Instance compactProcessor_Processor : Processor RangeIterator compactProcessor := {
  startBatch c := mkCompactProcessor (cp_f c) dummyVersionstamp (cp_lastTr c);
  next := compactProcessor_next;
  endBatch := compactProcessor_endBatch;
  postBatch c := c
}.

(** [GetCommittedVersion]: the version a transaction was committed at, or -1
    when it wrote nothing. *)
Definition GetCommittedVersion (version : Z) (tr : Transaction) : Z :=
  match tr_log tr with [] => -1 | _ => version end.

(** [Compact]; [version] is the version of the last transaction's commit. *)
Definition Compact (f : FDB) (envs : list (TransactEnv BatchEnv)) (version endRev : Z) (s : store)
    : option (res Z) * store :=
  if UseSequentialId then (Some (Ok endRev), s)
  else
    let begin := FirstGreaterOrEqual (FDBRangeKeys (byRevision f)).1 in
    let end_ := FirstGreaterThan (Pack (byRevision f) [TVersionstamp (int64ToVersionstamp endRev)]) in
    match processRange envs begin end_ s (newCompactProcessor f) with
    | (Some (Ok _), s, processor) =>
        (Some (match cp_lastTr processor with
               | Some tr => Ok (GetCommittedVersion version tr)
               | None => Panic
               end), s)
    | (Some (Err e), s, _) => (Some (Err e), s)
    | (Some Panic, s, _) => (Some Panic, s)
    | (None, s, _) => (None, s)
    end.
End CompactDefs.

(** * Removing a record *)

Definition remove (e : entry) (h : history) : history := filter (fun x => x.1 <> e.1) h.

Lemma elem_of_remove e h x : x ∈ remove e h <-> x ∈ h /\ x.1 <> e.1.
Proof. unfold remove. rewrite list_elem_of_filter. tauto. Qed.

Lemma remove_sorted e h : StronglySorted rev_lt h -> StronglySorted rev_lt (remove e h).
Proof. apply (ssorted_filter rev_lt). Qed.

Lemma latest_exists h e : e ∈ h -> exists z, latest h (Key e.2) = Some z.
Proof.
  intros He. destruct (latest h (Key e.2)) as [z|] eqn:El; [eauto|exfalso].
  unfold latest in El. apply last_None in El.
  assert (Hin : e ∈ filter (of_key (Key e.2)) h) by (by apply list_elem_of_filter).
  rewrite El in Hin. by apply not_elem_of_nil in Hin.
Qed.

(** The last record of a key stays when another one is removed. *)
Lemma latest_remove e h key :
  StronglySorted rev_lt h -> e ∈ h -> latest h key <> Some e -> latest (remove e h) key = latest h key.
Proof.
  intros Hs He Hl. destruct (latest h key) as [x|] eqn:El.
  - apply latest_iff in El as (Hx & Hk & Hmax); [|done].
    apply latest_iff; [by apply remove_sorted|]. rewrite elem_of_remove. split_and!; [done| |done|].
    + intros E. apply Hl. f_equal. by apply (ssorted_rev_inj h).
    + intros y [Hy _]%elem_of_remove. auto.
  - destruct (latest (remove e h) key) as [y|] eqn:Ey; [|done].
    apply latest_Some in Ey as [[Hy _]%elem_of_remove <-]. destruct (latest_exists h y Hy). congruence.
Qed.

(** * One pass over records *)

Definition compact_step (h : history) (e : entry) : history :=
  if decide (latest h (Key e.2) = Some e /\ IsDelete e.2 = false) then h else remove e h.

Lemma compact_step_sorted h e : StronglySorted rev_lt h -> StronglySorted rev_lt (compact_step h e).
Proof. intros Hs. unfold compact_step. case_decide; [done|by apply remove_sorted]. Qed.

Lemma elem_of_compact_step h e x :
  StronglySorted rev_lt h -> e ∈ h ->
  x ∈ compact_step h e <-> x ∈ h /\ (x <> e \/ latest h (Key e.2) = Some e /\ IsDelete e.2 = false).
Proof.
  intros Hs He. unfold compact_step. case_decide as Hd.
  - split; [|tauto]. intros Hx. split; [done|]. by right.
  - rewrite elem_of_remove. split.
    + intros [Hx Hne]. split; [done|]. left. congruence.
    + intros [Hx [Hne|?]]; [|done]. split; [done|]. intros E. by apply Hne, (ssorted_rev_inj h).
Qed.

(** The last record of a key that is newer than the one visited stays. *)
Lemma latest_compact_step h e x :
  StronglySorted rev_lt h -> e ∈ h -> x ∈ h -> e.1 < x.1 ->
  latest (compact_step h e) (Key x.2) = latest h (Key x.2).
Proof.
  intros Hs He Hx Hlt. unfold compact_step. case_decide; [done|].
  apply latest_remove; [done..|]. intros (_ & _ & Hmax)%latest_iff; [|done].
  specialize (Hmax x Hx eq_refl). lia.
Qed.

Lemma elem_of_compact_pass D h x :
  StronglySorted rev_lt h -> StronglySorted rev_lt D -> (forall e, e ∈ D -> e ∈ h) ->
  x ∈ fold_left compact_step D h <->
  x ∈ h /\ (x ∉ D \/ latest h (Key x.2) = Some x /\ IsDelete x.2 = false).
Proof.
  intros Hs HD. revert h Hs. induction HD as [|e D HD IH He]; intros h Hs Hin; cbn [fold_left].
  - split; [|tauto]. intros Hx. split; [done|]. left. apply not_elem_of_nil.
  - rewrite Forall_forall in He.
    assert (Heh : e ∈ h) by (apply Hin; left).
    assert (HDh : forall z, z ∈ D -> z ∈ h) by (intros z Hz; apply Hin; by right).
    rewrite IH; [|by apply compact_step_sorted|].
    2:{ intros z Hz. apply elem_of_compact_step; [done..|]. split; [auto|]. left. intros ->.
        specialize (He e Hz). unfold rev_lt in He. lia. }
    rewrite elem_of_compact_step by done. rewrite elem_of_cons. split.
    + intros [[Hx Hxe] HxD]. split; [done|].
      destruct (decide (x = e)) as [->|Hne]; [right; by destruct Hxe|].
      destruct (decide (x ∈ D)) as [Hd|Hd]; [|left; tauto]. right.
      destruct HxD as [?|HxD]; [done|]. rewrite latest_compact_step in HxD; [done..|by apply He].
    + intros [Hx HxD]. split; [split; [done|]|].
      * destruct (decide (x = e)) as [->|]; [|by left]. destruct HxD as [Hn|]; [|by right].
        destruct Hn. by left.
      * destruct (decide (x ∈ D)) as [Hd|Hd]; [|by left]. right.
        rewrite latest_compact_step; [|done|done|done|by apply He]. destruct HxD as [Hn|]; [|done].
        destruct Hn. by right.
Qed.

Lemma compact_pass_sorted D h : StronglySorted rev_lt h -> StronglySorted rev_lt (fold_left compact_step D h).
Proof. revert h; induction D as [|e D IH]; intros h Hs; [done|]. by apply IH, compact_step_sorted. Qed.

(** * What is left of a history

    [F] is the history had nothing been removed, [h] what is left when the
    records up to [y] have been visited, [endRev] the revision of the
    compaction, [h0] the history at its begin. *)
Record compacting (h0 : history) (endRev y : Z) (F h : history) : Prop := mkCompacting {
  cm_sorted : StronglySorted rev_lt F;
  cm_old x : x ∈ F -> x.1 <= endRev -> x ∈ h0;
  cm_h0 x : x ∈ h0 -> x ∈ F;
  cm_sub x : x ∈ h -> x ∈ F;
  cm_gone x : x ∈ F -> x ∉ h ->
    x.1 <= endRev /\ (latest F (Key x.2) <> Some x \/ IsDelete x.2 = true);
  cm_older x z : z ∈ F -> z ∉ h -> x ∈ F -> Key x.2 = Key z.2 -> x.1 < z.1 -> x ∉ h;
  cm_visited x : x ∈ h -> x.1 <= y -> latest h0 (Key x.2) = Some x /\ IsDelete x.2 = false
}.

Lemma not_latest_newer h x :
  StronglySorted rev_lt h -> x ∈ h -> latest h (Key x.2) <> Some x ->
  exists z, z ∈ h /\ Key z.2 = Key x.2 /\ x.1 < z.1.
Proof.
  intros Hs Hx Hl. destruct (latest h (Key x.2)) as [z|] eqn:El.
  - apply latest_iff in El as (Hz & Hk & Hmax); [|done]. exists z. split_and!; [done..|].
    specialize (Hmax x Hx eq_refl). destruct (Z.eq_dec x.1 z.1) as [E|]; [|lia].
    destruct Hl. f_equal. symmetry. by apply (ssorted_rev_inj h).
  - destruct (latest_exists h x Hx). congruence.
Qed.

Lemma newer_not_latest h x z :
  StronglySorted rev_lt h -> z ∈ h -> Key z.2 = Key x.2 -> x.1 < z.1 -> latest h (Key x.2) <> Some x.
Proof. intros Hs Hz Hk Hlt (_ & _ & Hmax)%latest_iff; [|done]. specialize (Hmax z Hz Hk). lia. Qed.

Lemma compacting_init h0 endRev : StronglySorted rev_lt h0 -> Forall (fun x => 0 < x.1) h0 ->
  compacting h0 endRev 0 h0 h0.
Proof.
  intros Hs Hpos. rewrite Forall_forall in Hpos. split; try done. intros x Hx. specialize (Hpos x Hx). lia.
Qed.

(** Other clients' records. *)
Lemma compacting_append h0 endRev y F h ext :
  compacting h0 endRev y F h -> StronglySorted rev_lt (h ++ ext) -> y <= endRev ->
  Forall (fun x => endRev < x.1) ext -> compacting h0 endRev y (F ++ ext) (h ++ ext).
Proof.
  intros [HF Hold H0 Hsub Hgone Holder Hvis] Hs Hy Hext. rewrite Forall_forall in Hext.
  assert (Hsf : StronglySorted rev_lt (F ++ ext)).
  { pose proof (StronglySorted_app_1_r _ _ _ Hs) as He. apply StronglySorted_app_2; [|done..].
    intros x z Hx Hz. destruct (decide (x ∈ h)) as [Hh|Hh].
    - by apply (StronglySorted_app_1_elem_of rev_lt h ext x z Hs).
    - destruct (Hgone x Hx Hh) as [Hle _]. specialize (Hext z Hz). unfold rev_lt. cbn in Hext. lia. }
  split; [done|..].
  - intros x [Hx|Hx]%elem_of_app Hle; [auto|]. specialize (Hext x Hx). cbn in Hext. lia.
  - intros x Hx. apply elem_of_app. auto.
  - intros x [Hx|Hx]%elem_of_app; apply elem_of_app; auto.
  - intros x Hx Hn. rewrite elem_of_app in Hx, Hn. destruct Hx as [Hx|Hx]; [|tauto].
    destruct (Hgone x Hx ltac:(tauto)) as [Hle [Hl|Hd]]; (split; [done|]); [left|by right].
    apply not_latest_newer in Hl as (z & Hz & Hk & Hlt); [|done..].
    apply (newer_not_latest _ x z); [done|apply elem_of_app; by left|done..].
  - intros x z Hz Hnz Hx Hk Hlt. rewrite elem_of_app in Hz, Hnz, Hx.
    destruct Hz as [Hz|Hz]; [|tauto]. destruct (Hgone z Hz ltac:(tauto)) as [Hle _].
    rewrite elem_of_app. intros [Hh|Hh].
    + destruct Hx as [Hx|Hx]; [apply (Holder x z); tauto|].
      specialize (Hext x Hx). cbn in Hext. lia.
    + specialize (Hext x Hh). cbn in Hext. lia.
  - intros x [Hx|Hx]%elem_of_app Hle; [by apply Hvis|]. specialize (Hext x Hx). cbn in Hext. lia.
Qed.

(** Visiting the records [D] from [y] on, up to [y2]. *)
Lemma compacting_pass h0 endRev y y2 F h D :
  compacting h0 endRev y F h -> StronglySorted rev_lt h -> StronglySorted rev_lt h0 ->
  StronglySorted rev_lt D -> y2 <= endRev ->
  (forall x, x ∈ D <-> x ∈ h /\ y < x.1 <= y2) ->
  compacting h0 endRev y2 F (fold_left compact_step D h).
Proof.
  intros [HF Hold H0 Hsub Hgone Holder Hvis] Hs Hs0 HDs Hy2 HD.
  assert (Hin : forall x, x ∈ fold_left compact_step D h <->
    x ∈ h /\ (x ∉ D \/ latest h (Key x.2) = Some x /\ IsDelete x.2 = false)).
  { intros x. apply elem_of_compact_pass; [done..|]. intros z Hz. by apply HD in Hz as [? _]. }
  assert (Hnew : forall x, x ∈ h -> x ∉ fold_left compact_step D h ->
    x ∈ D /\ (latest h (Key x.2) <> Some x \/ IsDelete x.2 = true)).
  { intros x Hx Hn. rewrite Hin in Hn. destruct (decide (x ∈ D)); [|tauto]. split; [done|].
    destruct (decide (latest h (Key x.2) = Some x)), (IsDelete x.2); tauto. }
  split; [done..| | | |].
  - intros x [Hx _]%Hin. auto.
  - intros x Hx Hn. destruct (decide (x ∈ h)) as [Hh|Hh]; [|by apply Hgone].
    destruct (Hnew x Hh Hn) as [Hd Hwhy]. apply HD in Hd as [_ Hd]. split; [lia|].
    destruct Hwhy as [Hl|]; [left|by right].
    apply not_latest_newer in Hl as (z & Hz & Hk & Hlt); [|done..]. apply (newer_not_latest F x z); auto.
  - intros x z Hz Hnz Hx Hk Hlt. rewrite Hin. intros [Hxh Hkeep].
    destruct (decide (z ∈ h)) as [Hzh|Hzh]; [|by apply (Holder x z)].
    destruct (Hnew z Hzh Hnz) as [Hzd _]. apply HD in Hzd as [_ Hzd].
    pose proof (newer_not_latest h x z Hs Hzh (eq_sym Hk) Hlt) as Hnl.
    destruct Hkeep as [HxD|[? _]]; [|done].
    destruct (Z.le_gt_cases x.1 y) as [Hle|Hgt].
    + destruct (Hvis x Hxh Hle) as [Hl _]. revert Hl. apply (newer_not_latest h0 x z); [done| |done..].
      apply Hold; [done|lia].
    + apply HxD, HD. split; [done|lia].
  - intros x [Hxh Hkeep]%Hin Hle. destruct (Z.le_gt_cases x.1 y) as [Hly|Hgt]; [by apply Hvis|].
    destruct Hkeep as [HxD|[Hl Hd]]; [destruct HxD; by apply HD|]. split; [|done].
    apply latest_iff in Hl as (_ & _ & Hmax); [|done]. apply latest_iff; [done|]. split_and!; [|done|].
    { apply Hold; [auto|lia]. }
    intros z Hz Hk. destruct (decide (z ∈ h)) as [Hzh|Hzh]; [by apply Hmax|].
    destruct (Z.le_gt_cases z.1 x.1) as [|Hlt]; [done|exfalso].
    by apply (Holder x z (H0 z Hz) Hzh (Hsub x Hxh) (eq_sym Hk) Hlt).
Qed.

(** No key changes its live record. *)
Lemma compacting_live h0 endRev y F h key :
  compacting h0 endRev y F h -> StronglySorted rev_lt h -> live (latest h key) = live (latest F key).
Proof.
  intros [HF _ _ Hsub Hgone Holder _] Hs. destruct (latest F key) as [z|] eqn:Ez.
  - pose proof Ez as (Hz & Hk & Hmax)%latest_iff; [|done].
    destruct (decide (z ∈ h)) as [Hzh|Hzh].
    + assert (El : latest h key = Some z) by (apply latest_iff; [done|]; split_and!; auto). by rewrite El.
    + destruct (Hgone z Hz Hzh) as [_ [Hl|Hd]]; [by rewrite Hk in Hl|]. cbn [live]. rewrite Hd.
      destruct (latest h key) as [x|] eqn:Ex; [|done]. exfalso.
      apply latest_Some in Ex as [Hx Hkx]. specialize (Hmax x (Hsub x Hx) Hkx).
      apply (Holder x z); auto; [congruence|]. destruct (Z.eq_dec x.1 z.1) as [E|]; [|lia].
      destruct Hzh. by rewrite <-(ssorted_rev_inj F x z) by auto.
  - destruct (latest h key) as [x|] eqn:Ex; [|done]. exfalso.
    apply latest_Some in Ex as [Hx <-]. destruct (latest_exists F x (Hsub x Hx)). congruence.
Qed.

Section Remove.
Context `{FB : FdbBindings, KV : KVStore, CF : Config}.
Context (dir : bytes).
Abbreviation f := (openSubspaces dir).

Definition key_of (e : entry) : bytes :=
  Pack (byKeyAndRevision f) [TString (Key e.2); TVersionstamp (int64ToVersionstamp e.1)].
Definition rev_of (e : entry) : bytes := Pack (byRevision f) [TVersionstamp (int64ToVersionstamp e.1)].

Lemma remove_byRev st h c e st2 k v :
  Repr dir st h c -> e ∈ h -> byRevision f `prefix_of` k ->
  (sget st2 k = if decide (k = key_of e \/ rev_of e `prefix_of` k) then None else sget st k) ->
  (sget st2 k = Some v <-> exists x, x ∈ remove e h /\
     (k, v) ∈ byRevision_entries (byRevision f) (int64ToVersionstamp x.1) x.2).
Proof.
  intros HR He Hk ->. pose proof (R_ok _ _ _ _ HR) as Hoks. rewrite Forall_forall in Hoks.
  assert (Hpre : forall x, x ∈ h -> (k, v) ∈ rev_entries (byRevision f) x ->
    rev_of e `prefix_of` k <-> x.1 = e.1).
  { intros x Hx [t Et]%rev_entries_key. cbn [fst] in Et. subst k. unfold rev_of.
    rewrite pack_stamp_prefix by apply int64ToVersionstamp_ok. split; [|by intros ->].
    intros E%int64ToVersionstamp_inj; [done|apply entry_ok_stamp; auto..]. }
  case_decide as Hd.
  - split; [done|]. intros (x & [Hx Hne]%elem_of_remove & Hkv). exfalso.
    destruct Hd as [->|Hd]; [|by apply Hne, (Hpre x)].
    assert (byKeyAndRevision f `prefix_of` key_of e) by apply Pack_region. region_clash.
  - rewrite (R_byRev _ _ _ _ HR) by done. split; intros (x & Hx & Hkv); exists x; (split; [|done]).
    + apply elem_of_remove. split; [done|]. intros E. apply Hd. right. by apply (Hpre x).
    + by apply elem_of_remove in Hx as [? _].
Qed.

Lemma remove_byKey st h c e st2 k v :
  Repr dir st h c -> e ∈ h -> byKeyAndRevision f `prefix_of` k ->
  (sget st2 k = if decide (k = key_of e \/ rev_of e `prefix_of` k) then None else sget st k) ->
  (sget st2 k = Some v <-> exists x, x ∈ remove e h /\
     (k, v) = byKey_entry (byKeyAndRevision f) (int64ToVersionstamp x.1) x.2).
Proof.
  intros HR He Hk ->. pose proof (R_ok _ _ _ _ HR) as Hoks. rewrite Forall_forall in Hoks.
  assert (Heq : forall x, x ∈ h -> k = key_of x -> k = key_of e <-> x.1 = e.1).
  { intros x Hx ->. split.
    - unfold key_of. rewrite !Pack_spec. intros E%(inj (app _)).
      apply tuple_pack_inj in E; [|solve_tuple_ok; apply int64ToVersionstamp_ok..].
      assert (E2 : int64ToVersionstamp x.1 = int64ToVersionstamp e.1) by congruence.
      apply int64ToVersionstamp_inj in E2; [done|apply entry_ok_stamp; auto..].
    - intros E. by rewrite (ssorted_rev_inj h x e (R_sorted _ _ _ _ HR) Hx He E). }
  case_decide as Hd.
  - split; [done|]. intros (x & [Hx Hne]%elem_of_remove & Hkv). exfalso.
    apply (f_equal fst) in Hkv. cbn [fst] in Hkv.
    destruct Hd as [Hd|Hd]; [by apply Hne, (Heq x)|].
    assert (byRevision f `prefix_of` k) by (etrans; [apply Pack_region|exact Hd]). region_clash.
  - rewrite (R_byKey _ _ _ _ HR) by done. split; intros (x & Hx & Hkv); exists x; (split; [|done]).
    + apply elem_of_remove. split; [done|]. intros E. apply Hd. left.
      apply (f_equal fst) in Hkv. by apply (Heq x).
    + by apply elem_of_remove in Hx as [? _].
Qed.

(** A store without the two entries of a record represents the history
    without it, unless the record is the live one of its key.  (With
    sequential ids no record is removed.) *)
Lemma Repr_remove st h c e q st2 :
  UseSequentialId = false -> Repr dir st h c -> e ∈ h -> latest h (Key e.2) <> Some e \/ IsDelete e.2 = true ->
  Strinc (rev_of e) = Some q ->
  (forall k, sget st2 k = if decide (k = key_of e \/ rev_of e `prefix_of` k) then None else sget st k) ->
  Repr dir st2 (remove e h) c.
Proof.
  intros Hmode HR He Hgone Hq Hget. pose proof HR as [Hs Hok HbyRev HbyKey Hcur Hck Hc Hseq].
  pose proof Hok as Hoks. rewrite Forall_forall in Hoks.
  assert (Hkey : byKeyAndRevision f `prefix_of` key_of e) by apply Pack_region.
  assert (Hrev : forall k, rev_of e `prefix_of` k -> byRevision f `prefix_of` k).
  { intros k Hk. etrans; [apply Pack_region|exact Hk]. }
  assert (Hsame : forall k, ~ byKeyAndRevision f `prefix_of` k -> ~ byRevision f `prefix_of` k ->
    sget st2 k = sget st k).
  { intros k H1 H2. rewrite Hget, decide_False; [done|]. intros [->|Hk]; [done|]. by apply H2, Hrev. }
  assert (Hcur2 : forall k, byKeyCurrent f `prefix_of` k -> sget st2 k = sget st k).
  { intros k Hk. apply Hsame; intros H2; region_clash. }
  assert (Hholds : forall key v, holds (byKeyCurrent f) st key v -> holds (byKeyCurrent f) st2 key v).
  { intros key v Hh o Ho. rewrite <-(Hh o Ho). apply Hcur2, Pack_region. }
  split.
  - by apply remove_sorted.
  - rewrite Forall_forall. intros x [Hx _]%elem_of_remove. auto.
  - intros k v Hk. by apply (remove_byRev st h c).
  - intros k v Hk. by apply (remove_byKey st h c).
  - intros key. destruct (Hcur key) as [Hh|(x & Hl & Hh)]; [left; auto|right; exists x].
    split; [|by apply Hholds]. apply live_Some in Hl as [Hl Hd]. apply live_Some. split; [|done].
    rewrite latest_remove; [done..|]. intros Hle. rewrite Hl in Hle. injection Hle as ->.
    pose proof Hl as Hl2. apply latest_Some in Hl2 as [_ <-]. destruct Hgone; congruence.
  - intros k Hk. rewrite Hcur2 by done. by apply Hck.
  - destruct Hc as [Hc1 Hc2]. split; [done|]. rewrite Hsame; [done|..]; intros H2;
      assert (Hin : compactRev f `prefix_of` compactRev f) by done; region_clash.
  - congruence.
Qed.
End Remove.
