(* ===== verification/CompactSpec.v ===== *)
(** What Compact (fdb_compact.go) promises, over histories: no key loses its
    live record, whatever attempts fail and whatever is written meanwhile; and
    what it does not keep. *)
From stdpp Require Import base strings list gmap sorting.
From Stdlib Require Import Strings.Byte ZArith Lia.
From S2P Require Import Prelude FdbApi KeyOrder FdbInstance Util Subspaces SubspaceFacts Transact History Samples RevScan Scan Write Read ScanSpec ReadSpec Compaction.

Section CompactSpec.
Context `{FB : FdbBindings, KV : KVStore, CF : Config}.
Context (dir : bytes) (Hmode : UseSequentialId = false).
Abbreviation f := (openSubspaces dir).

(** * One transaction *)

(** A transaction without versionstamped writes commits what it reads. *)
Definition plain (tr : Transaction) : Prop :=
  forall stamp, apply_log stamp (tr_snapshot tr) (tr_log tr) = tr_view tr.

Lemma plain_begin s rv : plain (begin_tr s rv).
Proof. by intros stamp. Qed.

Definition plain_mutation (m : mutation) : Prop :=
  match m with MSetVersionstampedKey _ _ => False | _ => True end.

Lemma tr_view_mutate tr m : tr_view (tr_mutate tr m) = apply_mutation None (tr_view tr) m.
Proof. unfold tr_view, tr_mutate, apply_log. cbn. by rewrite fold_left_app. Qed.

Lemma plain_mutate tr m : plain_mutation m -> plain tr -> plain (tr_mutate tr m).
Proof.
  intros Hm Htr stamp. rewrite tr_view_mutate. unfold tr_mutate, apply_log. cbn [tr_snapshot tr_log].
  rewrite fold_left_app. cbn [fold_left].
  change (fold_left (apply_mutation stamp) (tr_log tr) (tr_snapshot tr))
    with (apply_log stamp (tr_snapshot tr) (tr_log tr)).
  rewrite Htr. by destruct m.
Qed.

Lemma plain_commit tr version batch : plain tr -> tr_commit tr version batch = tr_view tr.
Proof. intros H. apply H. Qed.

(** Removing a record in a transaction. *)
Lemma delete_entry tr h c e :
  Repr dir (tr_view tr) h c -> e ∈ h -> plain tr ->
  latest h (Key e.2) <> Some e \/ IsDelete e.2 = true ->
  exists tr2,
    ByRevision_Delete (byRevision f)
      (ByKey_Delete (byKeyAndRevision f) tr (mkKeyAndRevision (Key e.2) (int64ToVersionstamp e.1)))
      (int64ToVersionstamp e.1) = Ok tr2 /\
    plain tr2 /\ Repr dir (tr_view tr2) (remove e h) c.
Proof.
  intros HR He Hp Hgone. unfold ByRevision_Delete, PrefixRange.
  destruct (Strinc_key (byRevision f) [TVersionstamp (int64ToVersionstamp e.1)]) as [q Hq]; [done|].
  rewrite Hq. cbn [of_option rbind fst snd]. eexists. split; [done|]. split.
  { apply plain_mutate, plain_mutate; done. }
  apply (Repr_remove dir (tr_view tr) h c e q); try done. intros k.
  unfold tr_ClearRange, ByKey_Delete, tr_Clear. rewrite !tr_view_mutate. cbn [apply_mutation].
  rewrite sget_clear_range, sget_clear. cbn [kr_Key kr_Rev].
  fold (key_of dir e) (rev_of dir e). pose proof (Strinc_Some _ _ Hq k) as Hpre. fold (rev_of dir e) in Hpre.
  destruct (decide (rev_of dir e <=b k /\ k <b q)) as [Hin|Hin].
  - rewrite decide_True; [done|]. right. by apply Hpre.
  - destruct (decide (key_of dir e = k)) as [Hk|Hk].
    + rewrite decide_True; [done|]. by left.
    + rewrite decide_False; [done|]. intros [?|?]; [congruence|]. by apply Hin, Hpre.
Qed.

(** One record of the pass. *)
Lemma compact_next tr h c x it (cs : compactProcessor) endRev :
  Repr dir (tr_view tr) h c -> x ∈ h -> plain tr -> cp_f cs = f -> (x.1 = endRev -> it = []) ->
  exists tr2,
    next tr (rev_part dir (Some endRev) x ++ it) cs =
      (Ok (Some (after_rev_key dir x.1), true, tr2, it),
       mkCompactProcessor f (int64ToVersionstamp x.1) (cp_lastTr cs)) /\
    plain tr2 /\ Repr dir (tr_view tr2) (compact_step h x) c.
Proof.
  intros HR Hx Hp Hf Hit. pose proof (R_ok _ _ _ _ HR) as Hok. rewrite Forall_forall in Hok.
  destruct (GetFromIterator_part dir (Some endRev) x it (Hok x Hx)) as (r & Hget & Hk & Hd & _).
  { intros [= E]. auto. }
  cbn [next compactProcessor_Processor]. unfold compactProcessor_next. rewrite Hf, Hget.
  rewrite (getLast_Repr dir tr h c) by done. rewrite Hk, Hd.
  destruct (latest_exists h x Hx) as [z Hz]. rewrite Hz. cbn [fmap option_fmap option_map].
  change (kr_Rev (bk_Key (to_bk z))) with (int64ToVersionstamp z.1). unfold compact_step. rewrite Hz.
  assert (Hrev : int64ToVersionstamp z.1 = int64ToVersionstamp x.1 <-> z = x).
  { split; [|by intros ->]. pose proof (latest_Some _ _ _ Hz) as [Hzh _].
    intros E%int64ToVersionstamp_inj; [|apply entry_ok_stamp; auto..].
    by apply (ssorted_rev_inj h); [apply HR|..]. }
  destruct (decide (Some z = Some x /\ IsDelete x.2 = false)) as [[[= ->] Hlive]|Hgone].
  - rewrite bool_decide_eq_false_2 by tauto. rewrite Hlive. cbn [orb].
    exists tr. by split_and!.
  - assert (Hcond : bool_decide (int64ToVersionstamp z.1 <> int64ToVersionstamp x.1) || IsDelete x.2 = true).
    { apply orb_true_iff. rewrite bool_decide_eq_true, Hrev. destruct (decide (z = x)) as [->|]; [right|by left].
      apply not_false_iff_true. tauto. }
    rewrite Hcond. destruct (delete_entry tr h c x HR Hx Hp) as (tr2 & Hdel & Hp2 & HR2).
    { rewrite Hz. apply orb_true_iff in Hcond as [Hb|]; [left|by right].
      apply bool_decide_eq_true in Hb. intros [= ->]. by apply Hb. }
    exists tr2. rewrite Hdel. split_and!; done.
Qed.

(** * One batch *)

(** The revision the pass has come to. *)
Definition pass_rev (y : Z) (D : list entry) : Z := match last D with Some x => x.1 | None => y end.

Lemma compact_loop budget tr h c items (cs : compactProcessor) endRev :
  Repr dir (tr_view tr) h c -> plain tr -> cp_f cs = f ->
  StronglySorted rev_lt items -> (forall x, x ∈ items -> x ∈ h /\ x.1 <= endRev) ->
  exists D rest tr2 res,
    batch_loop budget None tr (items ≫= rev_part dir (Some endRev)) cs =
      (Ok (res, tr2),
       mkCompactProcessor f (match last D with Some x => int64ToVersionstamp x.1 | None => cp_batchCompacted cs end)
         (cp_lastTr cs)) /\
    items = D ++ rest /\ plain tr2 /\ Repr dir (tr_view tr2) (fold_left compact_step D h) c /\
    if collectorNeedsMore res then
      length D = S budget /\ lastReadKey res = (fun x => after_rev_key dir x.1) <$> last D
    else rest = [].
Proof.
  revert budget tr h cs. induction items as [|x items IH]; intros budget tr h cs HR Hp Hf Hs Hin.
  - exists [], [], tr, (mkBatchResult None false). split; [|done].
    destruct cs as [f0 bc lt]. cbn in Hf. subst f0. by destruct budget.
  - apply StronglySorted_cons in Hs as [Hx Hs]. rewrite Forall_forall in Hx.
    destruct (Hin x ltac:(left)) as [Hxh Hxe]. rewrite bind_cons.
    destruct (compact_next tr h c x (items ≫= rev_part dir (Some endRev)) cs endRev HR Hxh Hp Hf)
      as (tr2 & Hnext & Hp2 & HR2).
    { intros E. destruct items as [|z items]; [done|]. specialize (Hx z ltac:(left)).
      destruct (Hin z ltac:(right; left)) as [_ Hz]. unfold rev_lt in Hx. lia. }
    destruct budget as [|budget].
    + exists [x], items, tr2, (mkBatchResult (Some (after_rev_key dir x.1)) true).
      cbn [batch_loop]. rewrite Hnext, bool_decide_eq_true_2 by done. by split_and!.
    + destruct (IH budget tr2 (compact_step h x) (mkCompactProcessor f (int64ToVersionstamp x.1) (cp_lastTr cs)))
        as (D & rest & tr3 & res & Hloop & -> & Hp3 & HR3 & Hend); try done.
      { intros z Hz. destruct (Hin z ltac:(by right)) as [Hzh Hze]. split; [|done].
        apply elem_of_compact_step; [apply HR|done|]. split; [done|]. left. intros ->.
        specialize (Hx x Hz). unfold rev_lt in Hx. lia. }
      exists (x :: D), rest, tr3, res. cbn [batch_loop].
      rewrite Hnext, bool_decide_eq_true_2 by done. cbn [andb collectorNeedsMore].
      change (prod_map pred id <$> None) with (@None (nat * Z)). rewrite Hloop.
      cbn [cp_batchCompacted cp_lastTr]. rewrite last_cons.
      split_and!; try done.
      * by destruct (last D).
      * destruct (collectorNeedsMore res); [|done]. destruct Hend as [Hlen Hk].
        split; [cbn; lia|]. destruct D as [|d D]; [done|]. rewrite last_cons in Hk |- *.
        rewrite Hk. by destruct (last D).
Qed.

Lemma endBatch_compact tr h c D isLast lt :
  Repr dir (tr_view tr) h c -> plain tr -> Forall entry_ok D ->
  exists tr2,
    endBatch tr isLast (mkCompactProcessor f
      (match last D with Some x => int64ToVersionstamp x.1 | None => dummyVersionstamp end) lt) =
    (Ok tr2, mkCompactProcessor f
      (match last D with Some x => int64ToVersionstamp x.1 | None => dummyVersionstamp end)
      (if isLast then Some tr2 else lt)) /\
    plain tr2 /\ Repr dir (tr_view tr2) h (pass_rev c D).
Proof.
  intros HR Hp Hok. cbn [endBatch compactProcessor_Processor]. unfold compactProcessor_endBatch, pass_rev.
  cbn [cp_batchCompacted cp_f cp_lastTr]. destruct (last D) as [x|] eqn:El.
  - rewrite bool_decide_eq_true_2 by apply int64ToVersionstamp_not_dummy.
    eexists. split; [done|]. split; [by apply plain_mutate|].
    unfold CompactRev_Write, tr_Set. rewrite tr_view_mutate. cbn [apply_mutation].
    apply (Repr_set_compact dir _ h c); [done|]. rewrite Forall_forall in Hok.
    apply entry_ok_stamp, Hok. by apply last_Some_elem_of.
  - rewrite bool_decide_eq_false_2 by (intros Hn; by apply Hn). by exists tr.
Qed.

(** The range of a pass that has come to [y]. *)
Definition pass_begin (y : Z) : KeySelector :=
  if y =? 0 then FirstGreaterOrEqual (FDBRangeKeys (byRevision f)).1
  else FirstGreaterThan (after_rev_key dir y).
Definition pass_range (y endRev : Z) : SelectorRange :=
  mkSelectorRange (pass_begin y)
    (FirstGreaterThan (Pack (byRevision f) [TVersionstamp (int64ToVersionstamp endRev)])).

Lemma compact_body s h c rv budget (cs : compactProcessor) y endRev :
  Repr dir s h c -> cp_f cs = f -> 0 <= y <= int64_max -> 0 <= endRev <= int64_max ->
  exists D rest tr res cs2,
    batch_body (pass_range y endRev) (mkBatchEnv budget None) (begin_tr s rv) cs = (Ok (res, tr), cs2) /\
    cp_f cs2 = f /\ (collectorNeedsMore res = false -> cp_lastTr cs2 = Some tr) /\
    rev_todo h y (Some endRev) = D ++ rest /\ plain tr /\
    Repr dir (tr_view tr) (fold_left compact_step D h) (pass_rev c D) /\
    if collectorNeedsMore res then
      length D = S budget /\ lastReadKey res = (fun x => after_rev_key dir x.1) <$> last D
    else rest = [].
Proof.
  intros HR Hf Hy HE. unfold batch_body. cbn [b_budget b_fault]. unfold tr_GetRange.
  change (tr_view (begin_tr s rv)) with s.
  assert (Hsel : srange s (selector_key (Begin (pass_range y endRev))) (selector_key (End (pass_range y endRev)))
                 = rev_todo h y (Some endRev) ≫= rev_part dir (Some endRev)).
  { apply (srange_revs dir s h c _ y (Some endRev)); [done..|by intros r [= <-]|].
    left. unfold pass_range, pass_begin, rev_begin. cbn [Begin]. rewrite FDBRangeKeys_spec.
    by destruct (y =? 0). }
  rewrite Hsel.
  destruct (compact_loop budget (begin_tr s rv) h c (rev_todo h y (Some endRev)) (startBatch cs) endRev)
    as (D & rest & tr & res & Hloop & Hitems & Hp & HR2 & Hend); [done|apply plain_begin|done| | |].
  { apply (ssorted_filter rev_lt), HR. }
  { intros x [[_ Hle] Hx]%list_elem_of_filter. by split. }
  rewrite Hloop. cbn [cp_batchCompacted cp_lastTr startBatch compactProcessor_Processor].
  destruct (endBatch_compact tr _ c D (negb (collectorNeedsMore res)) (cp_lastTr cs) HR2 Hp)
    as (tr2 & Hendb & Hp2 & HR3).
  { pose proof (R_ok _ _ _ _ HR) as Hok. rewrite Forall_forall in *. intros x Hx. apply Hok.
    assert (Hin : x ∈ rev_todo h y (Some endRev)) by (rewrite Hitems; apply elem_of_app; by left).
    by apply list_elem_of_filter in Hin as [_ ?]. }
  rewrite Hendb. exists D, rest, tr2, res. eexists. split; [done|]. cbn [cp_f cp_lastTr].
  split; [done|]. split; [by intros ->|]. by split_and!.
Qed.

(** * Runs *)

(** What other clients write before an attempt. *)
Context (written : Attempt BatchEnv -> history).

(** Commit versions do not go back, and before each attempt other clients add
    the records [written], committed after the previous one. *)
Fixpoint others_ok (prev : Z) (attempts : list (Attempt BatchEnv)) : Prop :=
  match attempts with
  | [] => True
  | a :: rest =>
      prev <= at_version a /\ Forall (fun e => prev < e.1 <= at_version a) (written a) /\
      (forall s h c, Repr dir s h c -> Forall (fun e => e.1 <= prev) h ->
         Repr dir (at_others a s) (h ++ written a) c) /\
      others_ok (at_version a) rest
  end.

Lemma others_ok_le p p2 l : p <= p2 -> others_ok p2 l -> others_ok p l.
Proof.
  destruct l as [|a l]; [done|]. intros Hle (Hp & Hw & Hoth & Hl). split_and!; [lia| | |done].
  - eapply Forall_impl; [exact Hw|]. cbn. lia.
  - intros s h c HR Hh. apply Hoth; [done|]. eapply Forall_impl; [exact Hh|]. cbn. lia.
Qed.

Lemma others_ok_skip p l1 l2 : others_ok p (l1 ++ l2) -> others_ok p l2.
Proof.
  revert p; induction l1 as [|a l1 IH]; intros p; [done|]. intros (Hp & _ & _ & Hl).
  eapply others_ok_le, IH, Hl. done.
Qed.

Section Run.
Context (h0 : history) (c0 p0 endRev : Z).
Context (Hs0 : StronglySorted rev_lt h0) (HE : 0 <= endRev <= int64_max).

(** The store of a compaction that has come to [y]: [F] is the history had
    nothing been removed, with what others wrote before the attempts [ran] so
    far, [h] what is left. *)
Record cstate (ran : list (Attempt BatchEnv)) (y p : Z) (s : store) (F h : history) (c : Z) : Prop := mkCstate {
  cs_repr : Repr dir s h c;
  cs_cut : compacting h0 endRev y F h;
  cs_ext : F = h0 ++ (ran ≫= written) /\ Forall (fun e => p0 < e.1) (ran ≫= written);
  cs_upto : Forall (fun e => e.1 <= p) h;
  cs_end : endRev <= p0 <= p;
  cs_y : 0 <= y <= endRev;
  cs_comp : c = c0 \/ exists e, e ∈ h0 /\ e.1 <= endRev /\ c = e.1
}.

Lemma cstate_others ran y p s F h c a rest :
  cstate ran y p s F h c -> others_ok p (a :: rest) ->
  cstate (ran ++ [a]) y (at_version a) (at_others a s) (F ++ written a) (h ++ written a) c.
Proof.
  intros [HR Hcut [-> Hext] Hup Hend Hy Hc] (Hp & Hnew & Hoth & _).
  pose proof (Hoth s h c HR Hup) as HR2.
  split; [done| | | |lia|done..].
  - apply compacting_append; [done|apply HR2|lia|]. eapply Forall_impl; [exact Hnew|]. cbn. lia.
  - rewrite bind_app. cbn [mbind list_bind]. rewrite app_nil_r, app_assoc. split; [done|].
    apply Forall_app. split; [done|]. eapply Forall_impl; [exact Hnew|]. cbn. lia.
  - apply Forall_app. split; [eapply Forall_impl; [exact Hup|]|eapply Forall_impl; [exact Hnew|]]; cbn; lia.
Qed.

Lemma compacting_back F h y y2 : y <= y2 -> compacting h0 endRev y2 F h -> compacting h0 endRev y F h.
Proof.
  intros Hle [? ? ? ? ? ? Hvis]. split; try done. intros x Hx Hxy. apply Hvis; [done|lia].
Qed.

Lemma pass_rev_last y D x : last D = Some x -> pass_rev y D = x.1.
Proof. unfold pass_rev. by intros ->. Qed.

(** The records of a pass, between its begin and where it has come to. *)
Lemma pass_records h y D rest :
  StronglySorted rev_lt h -> rev_todo h y (Some endRev) = D ++ rest ->
  forall y2, (rest = [] /\ y2 = endRev \/ D <> [] /\ y2 = pass_rev y D) ->
  (forall x, x ∈ D <-> x ∈ h /\ y < x.1 <= y2) /\ y2 <= endRev.
Proof.
  intros Hs Hitems y2 Hy2.
  destruct Hy2 as [[-> ->]|[Hne ->]].
  - split; [|lia]. intros x. rewrite app_nil_r in Hitems. by rewrite <-Hitems, elem_of_rev_todo.
  - destruct (last D) as [z|] eqn:El; [|by apply last_None in El].
    rewrite (pass_rev_last y D z El). split; [by eapply todo_prefix|].
    assert (Hz : z ∈ rev_todo h y (Some endRev)).
    { rewrite Hitems. apply elem_of_app. left. by apply last_Some_elem_of. }
    by apply elem_of_rev_todo in Hz as [_ [_ ?]].
Qed.

(** A pass over [D] up to [y2]. *)
Lemma cstate_pass ran y p s F h c D rest y2 tr :
  cstate ran y p s F h c -> rev_todo h y (Some endRev) = D ++ rest ->
  rest = [] /\ y2 = endRev \/ D <> [] /\ y2 = pass_rev y D ->
  Repr dir (tr_view tr) (fold_left compact_step D h) (pass_rev c D) ->
  cstate ran y2 p (tr_view tr) F (fold_left compact_step D h) (pass_rev c D) /\ y <= y2.
Proof.
  intros [HR Hcut Hext Hup Hend Hy Hc] Hitems Hy2 HR2. pose proof (R_sorted _ _ _ _ HR) as Hs.
  destruct (pass_records h y D rest Hs Hitems y2 Hy2) as [HD Hle].
  assert (HDs : StronglySorted rev_lt D).
  { apply (StronglySorted_app_1_l rev_lt D rest). rewrite <-Hitems. by apply (ssorted_filter rev_lt). }
  assert (Hlast : forall x, last D = Some x -> x ∈ h0 /\ x.1 <= endRev /\ y < x.1).
  { intros x Hx%last_Some_elem_of. apply HD in Hx as [Hx Hxr]. split; [|lia].
    apply (cm_old _ _ _ _ _ Hcut); [by apply (cm_sub _ _ _ _ _ Hcut)|lia]. }
  assert (Hyy : y <= y2).
  { destruct Hy2 as [[_ ->]|[Hne ->]]; [lia|]. unfold pass_rev.
    destruct (last D) as [x|] eqn:El; [|lia]. destruct (Hlast x eq_refl) as (_ & _ & ?). lia. }
  split; [|done]. split; [done|by apply (compacting_pass h0 endRev y)|done| |done|lia|].
  - rewrite Forall_forall in *. intros x Hx. apply Hup.
    apply elem_of_compact_pass in Hx as [? _]; [done..|]. intros z Hz. by apply HD in Hz as [? _].
  - unfold pass_rev. destruct (last D) as [x|] eqn:El; [|done]. right. exists x.
    destruct (Hlast x eq_refl) as (? & ? & _). done.
Qed.

Lemma pass_length ran y p s F h c D rest :
  cstate ran y p s F h c -> rev_todo h y (Some endRev) = D ++ rest -> (length D <= length h0)%nat.
Proof.
  intros [HR Hcut _ _ _ _ _] Hitems. apply submseteq_length, NoDup_submseteq.
  - apply (ssorted_NoDup rev_lt). apply (StronglySorted_app_1_l rev_lt D rest). rewrite <-Hitems.
    apply (ssorted_filter rev_lt), HR.
  - intros x Hx. assert (Hin : x ∈ rev_todo h y (Some endRev)) by (rewrite Hitems; apply elem_of_app; by left).
    apply list_elem_of_filter in Hin as [[_ Hle] Hxh].
    apply (cm_old _ _ _ _ _ Hcut); [by apply (cm_sub _ _ _ _ _ Hcut)|done].
Qed.

(** The end of a batch, after the attempts [ran]. *)
Definition batch_done (te : TransactEnv BatchEnv) (ran later : list (Attempt BatchEnv))
    (res : batchResult) (s : store) (cs : compactProcessor) : Prop :=
  cp_f cs = f /\ exists y p F h c, cstate ran y p s F h c /\ others_ok p later /\
    if collectorNeedsMore res then
      lastReadKey res = Some (after_rev_key dir y) /\ 0 < y /\
      exists b, b ∈ te_attempts te /\ (b_budget (at_env b) < length h0)%nat
    else y = endRev /\ cp_lastTr cs <> None.

(** An attempt on the store it finds. *)
Lemma attempt_done te ran later b rest y s F h c (cs : compactProcessor) :
  b ∈ te_attempts te -> others_ok (at_version b) (rest ++ later) ->
  cstate ran y (at_version b) s F h c -> cp_f cs = f ->
  exists res tr cs2,
    batch_body (pass_range y endRev) (no_fault (at_env b)) (begin_tr s (at_read_version b)) cs =
      (Ok (res, tr), cs2) /\ cp_f cs2 = f /\ plain tr /\
    (exists h2 c2, cstate ran y (at_version b) (tr_view tr) F h2 c2) /\
    batch_done te ran later res (tr_view tr) cs2.
Proof.
  intros Hb Hoth Hst Hf.
  destruct (compact_body s h c (at_read_version b) (b_budget (at_env b)) cs y endRev)
    as (D & rest2 & tr & res & cs2 & Hbody & Hf2 & Hlt & Hitems & Hp & HR2 & Hend);
    [apply Hst|done| |done|].
  { pose proof (cs_y _ _ _ _ _ _ _ Hst). lia. }
  exists res, tr, cs2. split; [done|]. split; [done|]. split; [done|].
  assert (Hpass : forall y2, rest2 = [] /\ y2 = endRev \/ D <> [] /\ y2 = pass_rev y D -> _) by
    exact (fun y2 Hy2 => cstate_pass ran y _ s F h c D rest2 y2 tr Hst Hitems Hy2 HR2).
  assert (Hback : forall y2, cstate ran y2 (at_version b) (tr_view tr) F (fold_left compact_step D h) (pass_rev c D) ->
    y <= y2 -> cstate ran y (at_version b) (tr_view tr) F (fold_left compact_step D h) (pass_rev c D)).
  { intros y2 [] Hle. split; try done; [by eapply compacting_back|]. apply Hst. }
  destruct (collectorNeedsMore res) eqn:Em.
  - destruct Hend as [Hlen Hkey].
    destruct (last D) as [x|] eqn:El; [|apply last_None in El; by rewrite El in Hlen].
    destruct (Hpass x.1) as [Hst2 Hle].
    { right. split; [by intros ->|]. by rewrite (pass_rev_last y D x). }
    split; [eauto|]. split; [done|]. eexists x.1, _, _, _, _. split; [exact Hst2|].
    split; [by eapply others_ok_skip|]. rewrite Em. split; [done|].
    pose proof (pass_length _ _ _ _ _ _ _ _ _ Hst Hitems).
    assert (Hx : x ∈ rev_todo h y (Some endRev)).
    { rewrite Hitems. apply elem_of_app. left. by apply last_Some_elem_of. }
    apply list_elem_of_filter in Hx as [[Hyx _] _]. pose proof (cs_y _ _ _ _ _ _ _ Hst).
    split; [lia|]. exists b. split; [done|]. lia.
  - destruct (Hpass endRev) as [Hst2 Hle]; [by left|].
    split; [eauto|]. split; [done|]. eexists endRev, _, _, _, _. split; [exact Hst2|].
    split; [by eapply others_ok_skip|]. rewrite Em. split; [done|]. by rewrite Hlt.
Qed.

Lemma next_cp_f tr it (cs : compactProcessor) : cp_f (next tr it cs).2 = cp_f cs.
Proof.
  cbn [next compactProcessor_Processor]. unfold compactProcessor_next.
  destruct (ByRevision_GetFromIterator _ it) as [[[[r record]|] it2]|e|]; [|done..].
  destruct (getLast _ tr _) as [[lr|]|e|]; [|done..].
  by destruct (bool_decide _ || IsDelete record); [destruct (ByRevision_Delete _ _ _)|].
Qed.

Lemma body_cp_f sel env tr (cs : compactProcessor) : cp_f (batch_body sel env tr cs).2 = cp_f cs.
Proof.
  assert (Hloop : forall budget fault tr it (c : compactProcessor),
    cp_f (batch_loop budget fault tr it c).2 = cp_f c).
  { induction budget as [|budget IH]; intros fault tr0 it c; cbn [batch_loop];
      (destruct fault as [[[|n] code]|]; [done|..]); pose proof (next_cp_f tr0 it c) as Hn;
      (destruct (next tr0 it c) as [[[[[k more] tr2] it2]|e|] c2]; cbn [snd] in Hn; try done);
      (destruct (collectorNeedsMore _); [by rewrite IH|done]). }
  unfold batch_body.
  pose proof (Hloop (b_budget env) (b_fault env) tr (tr_GetRange tr sel) (startBatch cs)) as Hl.
  destruct (batch_loop _ _ _ _ _) as [[[res tr2]|e|] c2]; exact Hl.
Qed.

Lemma compact_batch te ran later y p s F h c (cs : compactProcessor) :
  batch_ok te -> cstate ran y p s F h c -> others_ok p (te_attempts te ++ later) ->
  cp_f cs = f ->
  exists res s2 cs2,
    processBatch te (pass_range y endRev) s cs = (Some (Ok res), s2, cs2) /\
    batch_done te (ran ++ transact_run (batch_body (pass_range y endRev)) te s cs) later res s2 cs2.
Proof.
  intros (Hcreate & pre & a & Hatt & Hre & Hfault & Hbf & Hcom & Hforce) Hst Hoth Hf.
  unfold processBatch, transact, transact_run. rewrite Hcreate, Hatt.
  destruct (retryable_commits (batch_body (pass_range y endRev))
    (fun l s cs => cp_f cs = f /\ exists pre2, te_attempts te = pre2 ++ l /\
       exists p F h c, cstate (ran ++ pre2) y p s F h c /\ others_ok p (l ++ later))
    (fun b rest s cs => cp_f cs = f /\ exists pre2, te_attempts te = (pre2 ++ [b]) ++ rest /\
       exists F h c, cstate (ran ++ pre2 ++ [b]) y (at_version b) s F h c /\ others_ok (at_version b) (rest ++ later))
    (fun rest res s cs => exists r, te_attempts te = r ++ rest /\ batch_done te (ran ++ r) later res s cs) (fun b => b_fault (at_env b) <> None)) with (pre := pre) (a := a) (s := s) (c := cs)
    as (rest & res & stamp & s2 & cs2 & -> & (r & Hr & Hdone) & Hrun); try done.
  - intros b rest s1 cs1 (Hf1 & pre2 & Hpre & p1 & F1 & h1 & c1 & Hst1 & Hoth1). split; [done|].
    exists pre2. split; [by rewrite <-app_assoc|].
    eexists _, _, _. split; [rewrite app_assoc; by eapply cstate_others|]. apply Hoth1.
  - intros b rest s1 cs1 (Hf1 & pre2 & Hpre & F1 & h1 & c1 & Hst1 & Hoth1). split; [done|].
    exists (pre2 ++ [b]). eauto 10.
  - intros b rest s1 cs1 (Hf1 & pre2 & Hpre & F1 & h1 & c1 & Hst1 & Hoth1).
    assert (Hb : b ∈ te_attempts te) by (rewrite Hpre, !elem_of_app; left; right; left).
    destruct (attempt_done te (ran ++ pre2 ++ [b]) later b rest y s1 F1 h1 c1 cs1 Hb Hoth1 Hst1 Hf1)
      as (res & tr & cs2 & Hbody & Hf2 & Hp & (h2 & c2 & Hst2) & Hdone).
    pose proof (body_cp_f (pass_range y endRev) (at_env b) (begin_tr s1 (at_read_version b)) cs1) as Hbf1.
    destruct (batch_body_fault (pass_range y endRev) (at_env b) (begin_tr s1 (at_read_version b)) cs1)
      as [[code Hcode]|Hsame].
    + destruct (batch_body _ (at_env b) _ cs1) as [r cs3] eqn:Eb. cbn [fst snd] in Hcode, Hbf1. subst r. cbn.
      split; [|split; [congruence|]; exists (pre2 ++ [b]); by eauto 10].
      intros Hn. assert (E : no_fault (at_env b) = at_env b) by (unfold no_fault; rewrite <-Hn; by destruct (at_env b)).
      rewrite E in Hbody. congruence.
    + rewrite Hsame, Hbody. cbn. rewrite plain_commit by done.
      split_and!; try done; try (exists (pre2 ++ [b]); by eauto 10).
  - by intros [].
  - split; [done|]. exists []. split; [by rewrite Hatt|]. rewrite app_nil_r, <-Hatt. eauto 10.
  - exists res, s2, cs2. split; [done|]. rewrite Hatt, <-Hrun in Hr. apply app_inv_tail in Hr as ->. exact Hdone.
Qed.

Lemma compact_run envs :
  timely (length h0) envs -> forall ran y p s F h c (cs : compactProcessor),
  cstate ran y p s F h c -> others_ok p (envs ≫= te_attempts) -> cp_f cs = f ->
  exists s2 cs2 p2 F2 h2 c2,
    processRange envs (Begin (pass_range y endRev)) (End (pass_range y endRev)) s cs =
      (Some (Ok tt), s2, cs2) /\
    cp_lastTr cs2 <> None /\
    cstate (ran ++ processRange_run envs (Begin (pass_range y endRev)) (End (pass_range y endRev)) s cs) endRev p2 s2 F2 h2 c2.
Proof.
  induction envs as [|te envs IH]; [intros [_ (pre & te & E & _)]; by destruct pre|].
  intros [Hte Htime]%timely_cons ran y p s F h c cs Hst Hoth Hf. rewrite bind_cons in Hoth.
  destruct (compact_batch te ran (envs ≫= te_attempts) y p s F h c cs Hte Hst Hoth Hf)
    as (res & s2 & cs2 & Hbatch & Hf2 & y2 & p2 & F2 & h2 & c2 & Hst2 & Hoth2 & Hend).
  cbn [processRange processRange_run]. change (mkSelectorRange (Begin ?r) (End ?r)) with r. rewrite Hbatch.
  destruct (collectorNeedsMore res).
  - destruct Hend as (-> & Hy2 & b & Hb & Hlt).
    destruct Htime as [[-> Hbud]|Htime].
    { rewrite Forall_forall in Hbud. specialize (Hbud b Hb). cbn in Hbud. lia. }
    replace (FirstGreaterThan (after_rev_key dir y2)) with (Begin (pass_range y2 endRev)).
    { change (End (pass_range y endRev)) with (End (pass_range y2 endRev)). rewrite app_assoc. by eapply (IH Htime). }
    unfold pass_range, pass_begin. cbn [Begin]. by rewrite (proj2 (Z.eqb_neq y2 0)) by lia.
  - destruct Hend as [-> Hlt]. rewrite app_nil_r. eexists _, _, _, _, _, _. split; [done|]. by split.
Qed.
End Run.

(** The attempts that a compaction runs. *)
Definition compact_attempts (envs : list (TransactEnv BatchEnv)) (endRev : Z) (s : store) : list (Attempt BatchEnv) :=
  processRange_run envs (Begin (pass_range 0 endRev)) (End (pass_range 0 endRev)) s (newCompactProcessor f).

(** The conditions of a compaction: the store holds a history known up to
    revision [p], and the compaction is not ahead of it. *)
Record compact_ok (h0 : history) (c0 p endRev : Z) (s : store) (envs : list (TransactEnv BatchEnv)) : Prop :=
  mkCompactOk {
  co_repr : Repr dir s h0 c0;
  co_upto : Forall (fun e => e.1 <= p) h0;
  co_end : 0 <= endRev <= p;
  co_max : endRev <= int64_max;
  co_others : others_ok p (envs ≫= te_attempts);
  co_timely : timely (length h0) envs
}.

Lemma Compact_spec h0 c0 p endRev s envs version :
  compact_ok h0 c0 p endRev s envs ->
  exists v s2 p2 F h c, Compact f envs version endRev s = (Some (Ok v), s2) /\
    cstate h0 c0 p endRev (compact_attempts envs endRev s) endRev p2 s2 F h c.
Proof.
  intros [HR Hup Hend Hmax Hoth Htime]. pose proof (R_sorted _ _ _ _ HR) as Hs.
  destruct (compact_run h0 c0 p endRev Hs ltac:(lia) envs Htime [] 0 p s h0 h0 c0 (newCompactProcessor f))
    as (s2 & cs2 & p2 & F & h & c & Hproc & Hlt & Hst); [|done..|].
  { split; [done| | |done|lia|lia|by left].
    - apply compacting_init; [done|]. eapply Forall_impl; [apply HR|]. by intros x [[? _] _].
    - cbn. by rewrite app_nil_r. }
  unfold Compact. rewrite Hmode.
  change (FirstGreaterOrEqual (FDBRangeKeys (byRevision f)).1) with (Begin (pass_range 0 endRev)).
  change (FirstGreaterThan (Pack (byRevision f) [TVersionstamp (int64ToVersionstamp endRev)]))
    with (End (pass_range 0 endRev)).
  rewrite Hproc. destruct (cp_lastTr cs2) as [tr|]; [|done].
  eexists _, _, _, _, _, _. by split.
Qed.

(** What is left is a part of the history as it was, followed by what other
    clients wrote before the attempts that ran. *)
Lemma Compact_kept h0 c0 p endRev s envs version :
  compact_ok h0 c0 p endRev s envs ->
  let ext := compact_attempts envs endRev s ≫= written in
  exists v s2 kept c, Compact f envs version endRev s = (Some (Ok v), s2) /\
    Forall (fun e => p < e.1) ext /\ kept `sublist_of` h0 /\
    Repr dir s2 (kept ++ ext) c /\ compacting h0 endRev endRev (h0 ++ ext) (kept ++ ext) /\
    (c = c0 \/ exists e, e ∈ h0 /\ e.1 <= endRev /\ c = e.1).
Proof.
  intros Hok ext. destruct (Compact_spec h0 c0 p endRev s envs version Hok) as (v & s2 & p2 & F & h & c & Hc & Hst).
  destruct Hst as [HR Hcut [-> Hext] _ Hend _ Hcomp]. fold ext in Hcut, Hext.
  exists v, s2, (filter (.∈ h) h0), c.
  assert (Hh : h = filter (.∈ h) h0 ++ ext).
  { rewrite <-(filter_every (.∈ h) ext), <-filter_app.
    - apply (ssorted_ext rev_lt); [apply HR|apply (ssorted_filter rev_lt), (cm_sorted _ _ _ _ _ Hcut)|].
      intros e. rewrite list_elem_of_filter. split; [|by intros [? _]]. intros He. split; [done|].
      by apply (cm_sub _ _ _ _ _ Hcut).
    - intros e He. rewrite Forall_forall in Hext. specialize (Hext e He).
      destruct (decide (e ∈ h)) as [|Hn]; [done|exfalso].
      destruct (cm_gone _ _ _ _ _ Hcut e) as [Hle _]; [apply elem_of_app; by right|done|]. cbn in Hext. lia. }
  rewrite <-Hh. split_and!; try done. apply sublist_filter.
Qed.

(** C18: a compaction at a known revision returns, and no key loses or changes
    its live record and no deleted key comes back.  It leaves a part of the
    records of before, in their order, and after them all the records that
    other clients wrote before the attempts it runs; and every key has the live
    record that it has in the whole history with those records. *)
Theorem Compact_keeps_live h0 c0 p endRev s envs version :
  compact_ok h0 c0 p endRev s envs ->
  let ext := compact_attempts envs endRev s ≫= written in
  exists v s2 kept c, Compact f envs version endRev s = (Some (Ok v), s2) /\
    kept `sublist_of` h0 /\
    Repr dir s2 (kept ++ ext) c /\ forall key, live (latest (kept ++ ext) key) = live (latest (h0 ++ ext) key).
Proof.
  intros Hok ext. destruct (Compact_kept h0 c0 p endRev s envs version Hok)
    as (v & s2 & kept & c & Hc & _ & Hsub & HR & Hcut & _).
  exists v, s2, kept, c. split; [done|]. split; [done|]. split; [done|].
  intros key. eapply compacting_live; [exact Hcut|apply HR].
Qed.

(** C19: a compaction removes every tombstone and every superseded record up
    to its revision, and nothing else: of the history it leaves every record
    after its revision and every record that is live in the end, what it
    leaves up to its revision was live when it began, and when nobody else
    writes meanwhile it leaves exactly these. *)
Theorem Compact_removes h0 c0 p endRev s envs version :
  compact_ok h0 c0 p endRev s envs ->
  let ext := compact_attempts envs endRev s ≫= written in
  exists v s2 kept c, Compact f envs version endRev s = (Some (Ok v), s2) /\
    Repr dir s2 (kept ++ ext) c /\
    (forall e, e ∈ kept -> e ∈ h0 /\ (endRev < e.1 \/ live (latest h0 (Key e.2)) = Some e)) /\
    (forall e, e ∈ h0 -> endRev < e.1 \/ live (latest (h0 ++ ext) (Key e.2)) = Some e -> e ∈ kept) /\
    (ext = [] -> kept = filter (fun e => endRev < e.1 \/ live (latest h0 (Key e.2)) = Some e) h0) /\
    (c = c0 \/ exists e, e ∈ h0 /\ e.1 <= endRev /\ c = e.1).
Proof.
  intros Hok ext. destruct (Compact_kept h0 c0 p endRev s envs version Hok)
    as (v & s2 & kept & c & Hc & Hext & Hsub & HR & Hcut & Hcomp). fold ext in Hext, HR, Hcut.
  exists v, s2, kept, c. split; [done|].
  destruct Hcut as [HF Hold _ Hin Hgone _ Hvis].
  assert (Hleft : forall e, e ∈ kept -> e ∈ h0 /\ (endRev < e.1 \/ live (latest h0 (Key e.2)) = Some e)).
  { intros e He. split; [by eapply elem_of_sublist|]. destruct (decide (endRev < e.1)); [by left|right].
    apply live_Some, Hvis; [apply elem_of_app; by left|lia]. }
  assert (Hkeep : forall e, e ∈ h0 -> endRev < e.1 \/ live (latest (h0 ++ ext) (Key e.2)) = Some e -> e ∈ kept).
  { intros e He Hkeep. destruct (decide (e ∈ kept ++ ext)) as [[|Hx]%elem_of_app|Hn]; [done|exfalso..].
    - rewrite Forall_forall in Hext. specialize (Hext e Hx). pose proof (co_upto _ _ _ _ _ _ Hok) as Hup.
      rewrite Forall_forall in Hup. specialize (Hup e He). cbn in *. lia.
    - destruct (Hgone e ltac:(apply elem_of_app; by left) Hn) as [Hle Hwhy].
      destruct Hkeep as [|[Hl Hd]%live_Some]; [lia|]. destruct Hwhy; congruence. }
  split_and!; try done. intros Hnil. rewrite Hnil, app_nil_r in *.
  apply (ssorted_ext rev_lt); [apply HR|apply (ssorted_filter rev_lt), (co_repr _ _ _ _ _ _ Hok)|].
  intros e. rewrite list_elem_of_filter. split; [|by intros [? ?]; apply Hkeep].
  intros He. destruct (Hleft e He). by split.
Qed.

(** A record that is the newest of its key at [R], but not now, is gone after
    a compaction at a revision between. *)
Lemma compacted_away h0 endRev R kept ext key e :
  compacting h0 endRev endRev (h0 ++ ext) (kept ++ ext) -> StronglySorted rev_lt h0 -> endRev <= R ->
  Forall (fun e => R < e.1) ext -> kept `sublist_of` h0 ->
  latest (upto R h0) key = Some e -> e.1 <= endRev -> latest h0 key <> Some e ->
  latest (upto R (kept ++ ext)) key = None.
Proof.
  intros Hcut Hs HR Hext Hsub He Hle Hnew.
  assert (Hsu : StronglySorted rev_lt (upto R h0)) by (by apply (ssorted_filter rev_lt)).
  apply (latest_iff _ _ _ Hsu) in He as (Hin & Hk & Hmax).
  destruct (latest (upto R (kept ++ ext)) key) as [x|] eqn:Ex; [exfalso|done]. apply latest_Some in Ex as [Hx Hkx].
  apply list_elem_of_filter in Hx as [HxR [Hx|Hx]%elem_of_app].
  - assert (Hx0 : x ∈ h0) by (by eapply elem_of_sublist).
    assert (Hxe : x.1 <= e.1) by (apply Hmax; [by apply list_elem_of_filter|done]).
    destruct (cm_visited _ _ _ _ _ Hcut x) as [Hl _]; [apply elem_of_app; by left|lia|].
    rewrite Hkx in Hl. pose proof Hl as Hl2. apply (latest_iff _ _ _ Hs) in Hl2 as (_ & _ & Hmax2).
    apply list_elem_of_filter in Hin as [_ Hin]. specialize (Hmax2 e Hin Hk).
    apply Hnew. rewrite Hl. f_equal. apply (ssorted_rev_inj h0); [done..|lia].
  - rewrite Forall_forall in Hext. specialize (Hext x Hx). cbn in *. lia.
Qed.

(** C23: compaction loses history that is still served.  When a key was changed
    after the compaction revision, its record of before is removed, although
    it is the one that reads at the compaction revision need: a get at any
    revision from the compaction's on that returned this record returns
    nothing afterwards, and is not refused, since the compaction revision
    does not exceed the one asked for; this for every history, every run of the
    compaction and every read. *)
Theorem Compact_loses_history h0 c0 p endRev s envs version key e R :
  compact_ok h0 c0 p endRev s envs -> has_slash_suffix key = false -> c0 <= endRev -> endRev <= R <= p -> 0 < R ->
  live (latest (upto R h0) key) = Some e -> e.1 <= endRev -> latest h0 key <> Some e ->
  (forall grow renvs, read_run dir grow c0 p h0 s renvs ->
     exists rv s2, Get f renvs key [] R false s = (Some (Ok (rv, Some (kv_of false e))), s2)) /\
  exists v s2 h c, Compact f envs version endRev s = (Some (Ok v), s2) /\ Repr dir s2 h c /\ c <= R /\
    forall grow p2 renvs, p <= p2 -> read_run dir grow c p2 h s2 renvs ->
      exists rv s3, Get f renvs key [] R false s2 = (Some (Ok (rv, None)), s3).
Proof.
  intros Hok Hslash Hc0 HRp HR0 Hlive Hle Hnew.
  assert (Hget : forall grow c p2 h s1 renvs, read_run dir grow c p2 h s1 renvs -> c <= R <= p2 ->
    exists rv s3, Get f renvs key [] R false s1 = (Some (Ok (rv, kv_of false <$> live (latest (upto R h) key))), s3)).
  { intros grow c p2 h s1 renvs Hrun Hcr.
    destruct (Get_spec dir Hmode grow c p2 h s1 renvs Hrun key R false Hslash)
      as (rv & h1 & s3 & h3 & (_ & (s4 & [_ (more & -> & Hmore) Hle2 _]) & _) & ->); [right; lia|].
    exists rv, s3. unfold read_at. rewrite (proj2 (Z.eqb_neq R 0)) by lia. rewrite upto_newer; [done|].
    eapply Forall_impl; [exact Hmore|]. cbn. lia. }
  split.
  - intros grow renvs Hrun. destruct (Hget grow c0 p h0 s renvs Hrun) as (rv & s3 & ->); [lia|].
    rewrite Hlive. by exists rv, s3.
  - destruct (Compact_kept h0 c0 p endRev s envs version Hok)
      as (v & s2 & kept & c & Hc & Hext & Hsub & HR2 & Hcut & Hcomp).
    assert (Hcr : c <= R) by (destruct Hcomp as [-> |(x & _ & ? & ->)]; lia).
    exists v, s2, (kept ++ compact_attempts envs endRev s ≫= written), c. split_and!; try done.
    intros grow p2 renvs Hp2 Hrun. destruct (Hget _ _ _ _ _ _ Hrun) as (rv & s3 & ->); [lia|].
    apply live_Some in Hlive as [Hl _].
    rewrite (compacted_away h0 endRev R kept _ key e Hcut); try done; [by exists rv, s3|apply (co_repr _ _ _ _ _ _ Hok)|lia|].
    eapply Forall_impl; [exact Hext|]. cbn. lia.
Qed.
End CompactSpec.

(** * Runs *)

Definition compact_attempt (others : gmap bytes bytes -> gmap bytes bytes) (version : Z) (budget : nat)
    (commit : CommitOutcome) : Attempt BatchEnv :=
  mkAttempt others (mkBatchEnv budget None) None version commit version 0 false None.

(** A first batch of two records whose commit is unknown but applied, then
    the rest after another client's write. *)
Definition sample_compaction : list (TransactEnv BatchEnv) :=
  [mkTransactEnv None [compact_attempt id 12 1 (CommitUnknown true); compact_attempt id 13 1 Committed];
   mkTransactEnv None [compact_attempt sample_other 15 5 Committed]].

(** The other client's write before the attempt at 15. *)
Definition sample_written (a : Attempt BatchEnv) : history :=
  if at_version a =? 15 then [(14, sample_tombstone)] else [].

Lemma sample_compact_ok :
  compact_ok sample_dir sample_written sample_history 0 12 10 sample_store sample_compaction.
Proof.
  assert (Hid : forall (s : gmap bytes bytes) h c, Repr sample_dir s h c -> Repr sample_dir (id s) (h ++ []) c).
  { intros s h c HR. by rewrite app_nil_r. }
  split.
  - exact sample_repr.
  - by apply (bool_decide_eq_true_1 (Forall (fun e : entry => e.1 <= 12) sample_history)).
  - lia.
  - unfold int64_max. lia.
  - cbn. split_and!; try lia; try (intros; by apply Hid); try done.
    + apply Forall_singleton. cbn. lia.
    + intros s h c HR Hup. by apply sample_other_repr.
  - split.
    + repeat apply Forall_cons_2; [..|apply Forall_nil_2].
      * split; [done|]. exists [compact_attempt id 12 1 (CommitUnknown true)], (compact_attempt id 13 1 Committed).
        split_and!; try done. by apply Forall_singleton.
      * split; [done|]. exists [], (compact_attempt sample_other 15 5 Committed). by split_and!.
    + exists [mkTransactEnv None [compact_attempt id 12 1 (CommitUnknown true); compact_attempt id 13 1 Committed]],
        (mkTransactEnv None [compact_attempt sample_other 15 5 Committed]). split; [done|].
      apply Forall_singleton. cbn. lia.
Qed.

(** All three attempts run, and the other client's write is in. *)
Example sample_compaction_ext :
  compact_attempts (KV := map_store) (CF := sample_config) sample_dir sample_compaction 10 sample_store ≫= sample_written =
    [(14, sample_tombstone)].
Proof. vm_compute. reflexivity. Qed.

Lemma Compact_keeps_live_witness :
  let ext := compact_attempts (KV := map_store) (CF := sample_config) sample_dir sample_compaction 10 sample_store ≫= sample_written in
  exists v s2 kept c,
    Compact (openSubspaces sample_dir) sample_compaction 15 10 sample_store = (Some (Ok v), s2) /\
    kept `sublist_of` sample_history /\
    Repr sample_dir s2 (kept ++ ext) c /\
    forall key, live (latest (kept ++ ext) key) = live (latest (sample_history ++ ext) key).
Proof.
  apply (Compact_keeps_live (KV := map_store) (CF := sample_config) sample_dir eq_refl sample_written sample_history
    0 12 10 sample_store sample_compaction 15).
  - exact sample_compact_ok.
Defined.

Lemma Compact_removes_witness :
  let ext := compact_attempts (KV := map_store) (CF := sample_config) sample_dir sample_compaction 10 sample_store ≫= sample_written in
  exists v s2 kept c,
    Compact (openSubspaces sample_dir) sample_compaction 15 10 sample_store = (Some (Ok v), s2) /\
    Repr sample_dir s2 (kept ++ ext) c /\
    (forall e, e ∈ kept -> e ∈ sample_history /\ (10 < e.1 \/ live (latest sample_history (Key e.2)) = Some e)) /\
    (forall e, e ∈ sample_history ->
       10 < e.1 \/ live (latest (sample_history ++ ext) (Key e.2)) = Some e -> e ∈ kept) /\
    (ext = [] -> kept = filter (fun e => 10 < e.1 \/ live (latest sample_history (Key e.2)) = Some e) sample_history) /\
    (c = 0 \/ exists e, e ∈ sample_history /\ e.1 <= 10 /\ c = e.1).
Proof.
  apply (Compact_removes (KV := map_store) (CF := sample_config) sample_dir eq_refl sample_written sample_history
    0 12 10 sample_store sample_compaction 15).
  - exact sample_compact_ok.
Defined.

(** One undisturbed transaction. *)
Definition quiet_compaction (budget : nat) : list (TransactEnv BatchEnv) :=
  [mkTransactEnv None [compact_attempt id 12 budget Committed]].

Definition compacted_to (s : gmap bytes bytes) : res Z :=
  let? v := CompactRev_Get (compactRev (openSubspaces sample_dir)) (begin_tr s 0) in VersionstampToInt64 v.

Definition get_at (s : gmap bytes bytes) (key : bytes) (revision : Z) : option (res (Z * option KeyValue)) :=
  (Get (openSubspaces sample_dir) [mkTransactEnv None [read_attempt id 20 9 None]] key [] revision false s).1.

(** [/a], written at 3 and at 7, is lost at revision 6 by a compaction at 6. *)
Lemma quiet_compact_ok : compact_ok sample_dir (fun _ => []) sample_history 0 12 6 sample_store (quiet_compaction 5).
Proof.
  split.
  - exact sample_repr.
  - by apply (bool_decide_eq_true_1 (Forall (fun e : entry => e.1 <= 12) sample_history)).
  - lia.
  - unfold int64_max. lia.
  - cbn. split_and!; try done. intros s h c HR _. by rewrite app_nil_r.
  - split.
    + apply Forall_singleton. split; [done|]. exists [], (compact_attempt id 12 5 Committed). by split_and!.
    + exists [], (mkTransactEnv None [compact_attempt id 12 5 Committed]). split; [done|].
      apply Forall_singleton. cbn. lia.
Qed.

Lemma Compact_loses_history_witness :
  exists e, live (latest (upto 6 sample_history) (str "/a")) = Some e /\ Value e.2 = str "one" /\
  (forall grow renvs, read_run sample_dir grow 0 12 sample_history sample_store renvs ->
     exists rv s2, Get (CF := sample_config) (openSubspaces sample_dir) renvs (str "/a") [] 6 false sample_store
       = (Some (Ok (rv, Some (kv_of false e))), s2)) /\
  exists v s2 h c, Compact (openSubspaces sample_dir) (quiet_compaction 5) 13 6 sample_store = (Some (Ok v), s2) /\
    Repr sample_dir s2 h c /\ c <= 6 /\
    forall grow p2 renvs, 12 <= p2 -> read_run sample_dir grow c p2 h s2 renvs ->
      exists rv s3, Get (CF := sample_config) (openSubspaces sample_dir) renvs (str "/a") [] 6 false s2
        = (Some (Ok (rv, None)), s3).
Proof.
  destruct (live (latest (upto 6 sample_history) (str "/a"))) as [e|] eqn:He; [|by vm_compute in He].
  exists e. split; [done|]. assert (Hv : (Value ∘ snd <$> Some e) = Some (str "one")) by (rewrite <-He; by vm_compute).
  assert (Hr : (fst <$> Some e) = Some 3) by (rewrite <-He; by vm_compute).
  split; [by injection Hv|].
  apply (Compact_loses_history (KV := map_store) (CF := sample_config) sample_dir eq_refl (fun _ => []) sample_history
    0 12 6 sample_store (quiet_compaction 5) 13 (str "/a") e 6).
  - exact quiet_compact_ok.
  - reflexivity.
  - lia.
  - lia.
  - lia.
  - exact He.
  - injection Hr as ->. lia.
  - intros Hl. assert (H7 : (fst <$> latest sample_history (str "/a")) = Some 7) by (by vm_compute).
    rewrite Hl in H7. congruence.
Defined.

(** The run: the compaction revision is 5, and a get of [/a] at revision 6
    returns nothing. *)
Example loses_history_run :
  let s2 := (Compact (openSubspaces sample_dir) (quiet_compaction 5) 13 6 sample_store).2 in
  compacted_to s2 = Ok 5 /\
  get_at sample_store (str "/a") 6 = Some (Ok (20, Some (mkKeyValue (str "/a") 3 3 (str "one") 0))) /\
  get_at s2 (str "/a") 6 = Some (Ok (20, None)).
Proof. vm_compute. repeat split. Qed.

(** A compaction at an older revision moves the compaction revision back:
    after one at 10 it is 9, after another at 8 it is 7, and a get at revision
    8, whose history the first one removed, is no longer refused. *)
Theorem Compact_goes_back :
  let s2 := (Compact (openSubspaces sample_dir) (quiet_compaction 5) 13 10 sample_store).2 in
  let s3 := (Compact (openSubspaces sample_dir) (quiet_compaction 5) 14 8 s2).2 in
  compacted_to s2 = Ok 9 /\ get_at s2 (str "/b") 8 = Some (Err ErrCompacted) /\
  compacted_to s3 = Ok 7 /\ get_at s3 (str "/b") 8 = Some (Ok (20, None)) /\
  get_at sample_store (str "/b") 8 = Some (Ok (20, Some (mkKeyValue (str "/b") 5 5 (str "two") 0))).
Proof. vm_compute. repeat split. Qed.

(** A compaction ahead of the current revision can bring a deleted key
    back: when [/c] is deleted between two of its transactions, it removes the
    tombstone and leaves the record that it had visited before. *)
Theorem Compact_ahead_resurrects :
  let run := [mkTransactEnv None [compact_attempt id 12 4 Committed];
              mkTransactEnv None [compact_attempt sample_other 15 5 Committed]] in
  let s2 := (Compact (openSubspaces sample_dir) run 15 100 sample_store).2 in
  get_at (sample_other sample_store) (str "/c") 0 = Some (Ok (20, None)) /\
  get_at s2 (str "/c") 0 = Some (Ok (20, Some (mkKeyValue (str "/c") 11 11 (str "four") 0))).
Proof. vm_compute. repeat split. Qed.
