(* ===== verification/Counts.v ===== *)
(** pkg/drivers/fdb/fdb_count.go: object counts per prefix, seeded by a scan
    and kept up to date by the poll loop; and Count of fdb_read.go. *)
From stdpp Require Import base strings list gmap sorting.
From Stdlib Require Import Strings.Byte ZArith Lia.
From S2P Require Import Prelude FdbApi Util Subspaces Transact Read.

Record countEntry := mkCountEntry { ce_count : Z; ce_seedRev : Z }.

(** The entries of the tracker; every method runs under its mutex. *)
Abbreviation countTracker := (gmap bytes countEntry).

Definition newCountTracker : countTracker := ∅.
Definition reset (t : countTracker) : countTracker := ∅.

Definition counts_get (t : countTracker) (prefix : bytes) : Z * Z * bool :=
  match t !! prefix with
  | None => (0, 0, false)
  | Some e => (ce_count e, ce_seedRev e, true)
  end.

Definition seed (t : countTracker) (prefix : bytes) (count seedRev : Z) : countTracker :=
  match t !! prefix with
  | None => <[prefix := mkCountEntry count seedRev]> t
  | Some _ => t
  end.

(** [doesEventHavePrefix] of fdb_watch.go. *)
Definition doesEventHavePrefix (key prefix : bytes) : bool :=
  (has_slash_suffix prefix && bool_decide (prefix `prefix_of` key)) || bool_decide (key = prefix).

(** One event at one entry. *)
Definition apply_entry (event : Event) (prefix : bytes) (e : countEntry) : countEntry :=
  if (kv_ModRevision (ev_KV event) <=? ce_seedRev e) ||
     negb (doesEventHavePrefix (kv_Key (ev_KV event)) prefix) then e
  else if ev_Create event then mkCountEntry (to_int64 (ce_count e + 1)) (ce_seedRev e)
  else mkCountEntry (to_int64 (ce_count e - 1)) (ce_seedRev e).

(** The entries are visited in any order, each is changed alone. *)
Definition apply_event (t : countTracker) (event : Event) : countTracker :=
  if negb (ev_Create event) && negb (ev_Delete event) then t
  else map_imap (fun prefix e => Some (apply_entry event prefix e)) t.

Definition apply (t : countTracker) (events : list Event) : countTracker :=
  if decide (t = ∅) then t else fold_left apply_event events t.

Section CountDefs.
Context `{FB : FdbBindings, KV : KVStore, CF : Config}.

(** [Count].  [pollActive] and the tracker are read first, the cursor after
    them; [meanwhile] is what the poll loop does to the tracker until the
    scan is over. *)
Definition Count (f : FDB) (envs : list (TransactEnv BatchEnv)) (prefix startKey : bytes) (revision : Z)
    (pollActive : bool) (lastWatchRev : Z) (meanwhile : countTracker -> countTracker)
    (t : countTracker) (s : store) : option (res (Z * Z)) * store * countTracker :=
  let cacheable := (revision =? 0) && bool_decide (prefix = startKey) && pollActive in
  let '(cached, seedRev, ok) := counts_get t prefix in
  if cacheable && ok && (seedRev <=? lastWatchRev) then (Some (Ok (lastWatchRev, cached)), s, t)
  else
    match listWithCollector f envs prefix startKey revision (mkCountCollector 0 0) s with
    | (Some (Ok rev), s, collector) =>
        let t := meanwhile t in
        (Some (Ok (rev, totalCount collector)), s,
         if cacheable then seed t prefix (totalCount collector) rev else t)
    | (Some (Err e), s, _) => (Some (Err e), s, meanwhile t)
    | (Some Panic, s, _) => (Some Panic, s, meanwhile t)
    | (None, s, _) => (None, s, meanwhile t)
    end.
End CountDefs.
