(* ===== verification/Watch.v ===== *)
(** pkg/drivers/fdb/fdb_watch.go: the collector of events after a revision,
    the poll loop that publishes every event, and the watches that start with
    the events of the past and go on with those of the loop. *)
From stdpp Require Import base strings list gmap sorting.
From Stdlib Require Import Strings.Byte ZArith Lia.
From S2P Require Import Prelude FdbApi Util Subspaces Transact Read Counts.

Definition maxBatchSize : Z := 1000.

(** [AfterResult] *)
Record AfterResult := mkAfterResult {
  ar_currentRevision : Z;
  ar_compactRevision : Z;
  ar_events : list Event
}.

Record afterCollector := mkAfterCollector {
  ac_f : FDB;
  ac_limit : Z;
  ac_checkCompacted : bool;
  ac_minRevision : Z;
  ac_takeKey : bytes -> bool;
  ac_batchEvents : list Event;
  ac_events : list Event;
  ac_compactRevision : Z;
  ac_batchCompactRev : Z;
  ac_latestRev : Z;
  ac_batchLatestRev : Z
}.

Section WatchDefs.
Context `{FB : FdbBindings, KV : KVStore, CF : Config}.

Definition newAfterCollector (f : FDB) (minRevision : Z) (checkCompacted : bool) (limit : Z)
    (takeKey : bytes -> bool) : afterCollector :=
  mkAfterCollector f limit checkCompacted minRevision takeKey [] [] 0 0 0 0.

Definition ac_set_batch (c : afterCollector) (batchEvents : list Event)
    (batchCompactRev batchLatestRev : Z) : afterCollector :=
  mkAfterCollector (ac_f c) (ac_limit c) (ac_checkCompacted c) (ac_minRevision c) (ac_takeKey c)
    batchEvents (ac_events c) (ac_compactRevision c) batchCompactRev (ac_latestRev c) batchLatestRev.

Definition ac_needMore (c : afterCollector) : bool :=
  (ac_limit c =? 0) || (zlength (ac_batchEvents c) + zlength (ac_events c) <? ac_limit c).

Definition with_PrevKV (e : Event) (prev : option KeyValue) : Event :=
  mkEvent (ev_Delete e) (ev_Create e) (ev_KV e) prev.

(** The event of a record, with the previous key-value when its record is
    still there. *)
Definition record_event (f : FDB) (tr : Transaction) (rev : Versionstamp) (record : Rec) : res Event :=
  let? event := revRecordToEvent (mkRevRecord rev record) in
  if decide (PrevRevision record <> dummyVersionstamp) then
    let? prevRecord := ByRevision_Get (byRevision f) tr (PrevRevision record) in
    match prevRecord with
    | Some prevRecord =>
        let? prev := revRecordToEvent (mkRevRecord (PrevRevision record) prevRecord) in
        Ok (with_PrevKV event (Some (ev_KV prev)))
    | None => Ok (with_PrevKV event None)
    end
  else Ok event.

Definition afterCollector_next (tr : Transaction) (it : RangeIterator) (c : afterCollector)
    : res (option bytes * bool * Transaction * RangeIterator) * afterCollector :=
  match ByRevision_GetFromIterator (byRevision (ac_f c)) it with
  | Err e => (Err e, c)
  | Panic => (Panic, c)
  | Ok (None, it) => (Ok (None, false, tr, it), c)
  | Ok (Some (rev, record), it) =>
      let lastKey := Pack (byRevision (ac_f c)) [TVersionstamp rev; TInt int64_max] in
      match
        (if negb (ac_latestRev c =? 0) then
           let? r := VersionstampToInt64 rev in Ok (ac_latestRev c <? r)
         else Ok false)
      with
      | Err e => (Err e, c)
      | Panic => (Panic, c)
      | Ok true => (Ok (Some lastKey, false, tr, it), c)
      | Ok false =>
          if ac_takeKey c (Key record) then
            match record_event (ac_f c) tr rev record with
            | Err e => (Err e, c)
            | Panic => (Panic, c)
            | Ok event =>
                let c := ac_set_batch c (ac_batchEvents c ++ [event])
                           (ac_batchCompactRev c) (ac_batchLatestRev c) in
                (Ok (Some lastKey, ac_needMore c, tr, it), c)
            end
          else (Ok (Some lastKey, ac_needMore c, tr, it), c)
      end
  end.

(** The check of [endBatch] that the revision is not compacted. *)
Definition afterCollector_compacted (tr : Transaction) (c : afterCollector)
    : res Transaction * afterCollector :=
  if ac_checkCompacted c then
    match (let? v := CompactRev_Get (compactRev (ac_f c)) tr in VersionstampToInt64 v) with
    | Err e => (Err e, c)
    | Panic => (Panic, c)
    | Ok compactRev =>
        if (0 <? ac_minRevision c) && (ac_minRevision c <? compactRev) then
          (Err ErrCompacted,
           ac_set_batch c (ac_batchEvents c) compactRev (ac_batchLatestRev c))
        else (Ok tr, c)
    end
  else (Ok tr, c).

Definition afterCollector_endBatch (tr : Transaction) (c : afterCollector)
    : res Transaction * afterCollector :=
  match (if ac_latestRev c =? 0 then
           let? latestRev := GetLatestRev (rev (ac_f c)) tr in
           Ok (ac_set_batch c (ac_batchEvents c) (ac_batchCompactRev c) latestRev)
         else Ok c)
  with
  | Err e => (Err e, c)
  | Panic => (Panic, c)
  | Ok c => afterCollector_compacted tr c
  end.

#[global] Instance afterCollector_Processor : Processor RangeIterator afterCollector := {
  startBatch c := ac_set_batch c [] 0 0;
  next := afterCollector_next;
  endBatch tr _ c := afterCollector_endBatch tr c;
  postBatch c :=
    mkAfterCollector (ac_f c) (ac_limit c) (ac_checkCompacted c) (ac_minRevision c) (ac_takeKey c)
      (ac_batchEvents c) (ac_events c ++ ac_batchEvents c) (ac_batchCompactRev c) (ac_batchCompactRev c)
      (ac_batchLatestRev c) (ac_batchLatestRev c)
}.

Definition afterRevisionSelector (f : FDB) (minRevision : Z) : SelectorRange :=
  mkSelectorRange
    (FirstGreaterThan (Pack (byRevision f) [TVersionstamp (int64ToVersionstamp minRevision); TInt int64_max]))
    (FirstGreaterOrEqual (FDBRangeKeys (byRevision f)).2).

Definition last_ModRevision (events : list Event) (default : Z) : Z :=
  match last events with Some e => kv_ModRevision (ev_KV e) | None => default end.

(** [afterAll]: the result is filled in also when there is an error. *)
Definition afterAll (f : FDB) (envs : list (TransactEnv BatchEnv)) (minRevision : Z)
    (takeKey : bytes -> bool) (s : store) : option (res unit * AfterResult) * store :=
  let selector := afterRevisionSelector f minRevision in
  match processRange envs (Begin selector) (End selector) s
          (newAfterCollector f minRevision true 0 takeKey) with
  | (Some r, s, c) =>
      (Some (r, mkAfterResult (last_ModRevision (ac_events c) (ac_latestRev c))
                  (ac_compactRevision c) (ac_events c)), s)
  | (None, s, _) => (None, s)
  end.

Definition afterBatch (f : FDB) (te : TransactEnv BatchEnv) (minRevision : Z)
    (takeKey : bytes -> bool) (s : store) : option (res (Z * list Event)) * store :=
  match processBatch te (afterRevisionSelector f minRevision) s
          (newAfterCollector f minRevision false maxBatchSize takeKey) with
  | (Some (Ok _), s, c) => (Some (Ok (ac_latestRev c, ac_events c)), s)
  | (Some (Err e), s, _) => (Some (Err e), s)
  | (Some Panic, s, _) => (Some Panic, s)
  | (None, s, _) => (None, s)
  end.

(** * The poll loop *)

(** The shared variables of the loop: the cursor, the counts, and what was
    sent to the broadcaster. *)
Record pollState := mkPollState {
  ps_lastWatchRev : Z;
  ps_counts : countTracker;
  ps_result : list (list Event)
}.

Definition poll_start (pollStart : Z) : pollState :=
  mkPollState pollStart newCountTracker [].

(** The transaction that registers the watch writes nothing. *)
Definition watch_body (_ : unit) (tr : Transaction) (c : unit) : res (unit * Transaction) * unit :=
  (Ok (tt, tr), c).

(** One pass of the loop: the watch is registered, the events after the
    cursor are read and sent.  After an error the pass is over; the wait for
    a change or a kick changes nothing. *)
Definition poll_step (f : FDB) (register : TransactEnv unit) (te : TransactEnv BatchEnv)
    (st : pollState) (s : store) : option pollState * store :=
  match transact watch_body register s tt with
  | (Some (Ok _), s, _) =>
      match afterBatch f te (ps_lastWatchRev st) (fun _ => true) s with
      | (Some (Ok (lastRev, events)), s) =>
          (Some (match events with
                 | [] => mkPollState lastRev (ps_counts st) (ps_result st)
                 | _ => mkPollState (last_ModRevision events 0) (apply (ps_counts st) events)
                          (ps_result st ++ [events])
                 end), s)
      | (Some _, s) => (Some st, s)
      | (None, s) => (None, s)
      end
  | (Some _, s, _) => (Some st, s)
  | (None, s, _) => (None, s)
  end.

(** The passes there are. *)
Fixpoint poll (f : FDB) (envs : list (TransactEnv unit * TransactEnv BatchEnv)) (st : pollState) (s : store)
    : option pollState * store :=
  match envs with
  | [] => (Some st, s)
  | (register, te) :: rest =>
      match poll_step f register te st s with
      | (Some st, s) => poll f rest st s
      | (None, s) => (None, s)
      end
  end.

(** [startWatch]: the loop begins at the current revision of the driver. *)
Definition startWatch (f : FDB) (te : TransactEnv unit) (lastWatchRev : Z) (s : store)
    : option (res pollState) * store :=
  match CurrentRevision f te lastWatchRev s with
  | (Some (Ok pollStart), s) => (Some (Ok (poll_start pollStart)), s)
  | (Some (Err e), s) => (Some (Err e), s)
  | (Some Panic, s) => (Some Panic, s)
  | (None, s) => (None, s)
  end.

(** * Watches *)

(** [innerWatch]: the batches of the loop with the events of a prefix. *)
Definition filter_batch (prefix : bytes) (events : list Event) : list Event :=
  filter (fun e => doesEventHavePrefix (kv_Key (ev_KV e)) prefix = true) events.

Definition innerWatch (prefix : bytes) (values : list (list Event)) : list (list Event) :=
  filter (fun b => b <> []) (filter_batch prefix <$> values).

(** [for len(events) > 0 && events[0].KV.ModRevision <= lastRevision] *)
Fixpoint skip_sent (lastRevision : Z) (events : list Event) : list Event :=
  match events with
  | e :: rest => if kv_ModRevision (ev_KV e) <=? lastRevision then skip_sent lastRevision rest else events
  | [] => []
  end.

(** The result of [Watch] without its channels. *)
Record WatchResult := mkWatchResult {
  wr_CurrentRevision : Z;
  wr_CompactRevision : Z;
  wr_Errorc : option error
}.

Definition ErrGRPCUnhealthy : error := ErrMessage "etcdserver: unhealthy".

(** [Watch], given the batches [values] that the loop sends from the
    subscription on: its result and the batches it sends. *)
Definition Watch (f : FDB) (envs : list (TransactEnv BatchEnv)) (prefix : bytes) (minRevision : Z)
    (values : list (list Event)) (s : store)
    : option (res (WatchResult * list (list Event))) * store :=
  let prefix := if decide (prefix = [Byte.x00]) then [Byte.x2f] else prefix in
  let readChan := innerWatch prefix values in
  let minRevision := if 0 <? minRevision then minRevision - 1 else minRevision in
  match afterAll f envs minRevision (fun key => doesEventHavePrefix key prefix) s with
  | (Some (Ok _, afterResult), s) =>
      let lastRevision := last_ModRevision (ar_events afterResult) minRevision in
      (Some (Ok (mkWatchResult 0 0 None,
         (match ar_events afterResult with [] => [] | events => [events] end) ++
         filter (fun b => b <> []) (skip_sent lastRevision <$> readChan))), s)
  | (Some (Err e, afterResult), s) =>
      (Some (Ok (if decide (e = ErrCompacted)
                 then mkWatchResult (ar_currentRevision afterResult) (ar_compactRevision afterResult) None
                 else mkWatchResult 0 0 (Some ErrGRPCUnhealthy), [])), s)
  | (Some (Panic, _), s) => (Some Panic, s)
  | (None, s) => (None, s)
  end.
End WatchDefs.
