(* ===== verification/WatchSpec.v ===== *)
(** What the poll loop and the watches of fdb_watch.go promise: every event
    once, in the order of the revisions, without gaps. *)
From stdpp Require Import base strings list gmap sorting.
From Stdlib Require Import Strings.Byte ZArith Lia.
From S2P Require Import Prelude FdbApi KeyOrder FdbInstance Util Subspaces SubspaceFacts Transact History Samples RevScan Scan Write Read ScanSpec ReadSpec Counts Watch.

(** * Events of a history *)

(** The record of a revision. *)
Definition at_rev (h : history) (r : Z) : option entry := head (filter (fun x => x.1 = r) h).

Lemma at_rev_Some h r e : StronglySorted rev_lt h -> at_rev h r = Some e <-> e ∈ h /\ e.1 = r.
Proof.
  intros Hs. unfold at_rev. split.
  - intros He%head_Some_elem_of. apply list_elem_of_filter in He. tauto.
  - intros [Hin Hr]. destruct (filter (fun x => x.1 = r) h) as [|x l] eqn:Ef.
    + assert (Hx : e ∈ filter (fun x => x.1 = r) h) by (by apply list_elem_of_filter).
      rewrite Ef in Hx. by apply not_elem_of_nil in Hx.
    + assert (Hx : x ∈ filter (fun x => x.1 = r) h) by (rewrite Ef; left).
      apply list_elem_of_filter in Hx as [Hxr Hx]. cbn. f_equal. apply (ssorted_rev_inj h); [done..|congruence].
Qed.

(** The event of a record: the previous key-value is that of the record it
    links to, when the history still has it. *)
Definition event_at `{Config} (h : history) (e : entry) : Event :=
  with_PrevKV (event_of e)
    (if decide (PrevRevision e.2 <> dummyVersionstamp)
     then (fun p => ev_KV (event_of p)) <$> at_rev h (link_rev (PrevRevision e.2)) else None).

Section After.
Context `{FB : FdbBindings, KV : KVStore, CF : Config}.
Context (dir : bytes).
Abbreviation f := (openSubspaces dir).

#[global] Instance afterCollector_laws : BatchLaws RangeIterator afterCollector.
Proof.
  split; [done|..].
  - intros tr it c. cbn [next startBatch afterCollector_Processor]. unfold afterCollector_next.
    destruct (ByRevision_GetFromIterator _ it) as [[[[r record]|] it2]|e|]; [|done..].
    destruct (if negb (ac_latestRev c =? 0) then _ else _) as [[|]|e|]; [done| |done..].
    destruct (ac_takeKey c (Key record)); [|done]. by destruct (record_event _ _ _ _).
  - intros tr b c. cbn [endBatch startBatch afterCollector_Processor]. unfold afterCollector_endBatch.
    assert (Hc : forall c2, startBatch (afterCollector_compacted tr c2).2 = startBatch c2).
    { intros c2. unfold afterCollector_compacted. destruct (ac_checkCompacted c2); [|done].
      destruct (rbind _ _) as [z|e|]; [|done..]. by destruct (_ && _). }
    destruct (ac_latestRev c =? 0); [|apply Hc]. destruct (GetLatestRev _ tr) as [z|e|]; [|done..].
    cbn [rbind]. apply Hc.
Qed.

#[global] Instance afterCollector_ro : ReadOnly RangeIterator afterCollector.
Proof.
  split.
  - intros tr it c k more tr2 it2 c2. cbn [next afterCollector_Processor]. unfold afterCollector_next.
    destruct (ByRevision_GetFromIterator _ it) as [[[[r record]|] it3]|e|]; [|by intros [= _ _ <- _ _]|done..].
    destruct (if negb (ac_latestRev c =? 0) then _ else _) as [[|]|e|]; [by intros [= _ _ <- _ _]| |done..].
    destruct (ac_takeKey c (Key record)); [|by intros [= _ _ <- _ _]].
    destruct (record_event _ _ _ _); [by intros [= _ _ <- _ _]|done..].
  - intros tr b c tr2 c2. cbn [endBatch afterCollector_Processor]. unfold afterCollector_endBatch.
    assert (Hc : forall c0 c3, afterCollector_compacted tr c0 = (Ok tr2, c3) -> tr2 = tr).
    { intros c0 c3. unfold afterCollector_compacted. destruct (ac_checkCompacted c0); [|by intros [= <- _]].
      destruct (rbind _ _) as [z|e|]; [|done..]. destruct (_ && _); [done|by intros [= <- _]]. }
    destruct (ac_latestRev c =? 0); [|apply Hc]. destruct (GetLatestRev _ tr) as [z|e|]; [|done..].
    cbn [rbind]. apply Hc.
Qed.

(** Reading a revision that the history does not have. *)
Lemma ByRevision_Get_None tr h c r :
  Repr dir (tr_view tr) h c -> 0 < r <= int64_max -> at_rev h r = None ->
  ByRevision_Get (byRevision f) tr (int64ToVersionstamp r) = Ok None.
Proof.
  intros HR Hr Hnone. unfold ByRevision_Get, ByRevision_GetIterator, PrefixRange.
  destruct (Strinc_key (byRevision f) [TVersionstamp (int64ToVersionstamp r)]) as [q Hq]; [done|].
  rewrite Hq. cbn [of_option rbind]. unfold tr_GetRange, prefix_selectors. cbn [Begin End selector_key fst snd].
  pose proof (R_ok _ _ _ _ HR) as Hok. rewrite Forall_forall in Hok.
  assert (Hnil : srange (tr_view tr) (Pack (byRevision f) [TVersionstamp (int64ToVersionstamp r)]) q = []).
  { destruct (srange _ _ q) as [|[k v] l] eqn:E; [done|exfalso].
    assert (Hin : (k, v) ∈ srange (tr_view tr) (Pack (byRevision f) [TVersionstamp (int64ToVersionstamp r)]) q)
      by (rewrite E; left).
    apply srange_spec in Hin as (Hget & Hrange). rewrite (Strinc_Some _ _ Hq k) in Hrange.
    apply (R_byRev _ _ _ _ HR) in Hget as (x & Hx & Hkv); [|etrans; [apply Pack_region|exact Hrange]].
    destruct (rev_entries_key _ x _ Hkv) as [t Et]. cbn [fst] in Et. subst k.
    apply pack_stamp_prefix in Hrange; [|apply int64ToVersionstamp_ok..].
    apply int64ToVersionstamp_inj in Hrange; [|unfold is_int64, int64_min; lia|by apply entry_ok_stamp, Hok].
    assert (He : at_rev h r = Some x) by (apply at_rev_Some; [apply HR|done]). congruence. }
  by rewrite Hnil.
Qed.

Lemma event_of_view e : event_of (e.1, byRevision_view e.2) = event_of e.
Proof. reflexivity. Qed.

Lemma record_event_spec tr h c e :
  Repr dir (tr_view tr) h c -> e ∈ h ->
  record_event f tr (int64ToVersionstamp e.1) (byRevision_view e.2) = Ok (event_at h e).
Proof.
  intros HR He. pose proof (R_ok _ _ _ _ HR) as Hok. rewrite Forall_forall in Hok.
  assert (Hev : forall x, x ∈ h -> revRecordToEvent (mkRevRecord (int64ToVersionstamp x.1) (byRevision_view x.2)) =
    Ok (event_of x)).
  { intros x Hx. destruct (Hok x Hx) as (Hr & _ & _ & _ & Hlc & Hlp).
    rewrite <-event_of_view. by apply (revRecordToEvent_spec (x.1, byRevision_view x.2));
      [unfold is_int64, int64_min; cbn; lia|..]. }
  unfold record_event, event_at. rewrite Hev by done. cbn [rbind].
  change (PrevRevision (byRevision_view e.2)) with (PrevRevision e.2).
  destruct (Hok e He) as (_ & _ & _ & _ & _ & Hlink).
  destruct (decide (PrevRevision e.2 <> dummyVersionstamp)) as [Hn|Hd].
  - destruct Hlink as [?|(r & Hr & Elink)]; [done|]. rewrite Elink.
    rewrite link_rev_stamp by (unfold is_int64, int64_min; lia).
    destruct (at_rev h r) as [p|] eqn:Ep.
    + apply at_rev_Some in Ep as [Hp <-]; [|apply HR].
      rewrite (ByRevision_Get_Repr dir tr h c p) by done. cbn [rbind]. by rewrite Hev by done.
    + by rewrite (ByRevision_Get_None tr h c r).
  - f_equal. apply dec_stable in Hd. unfold event_of. rewrite decide_False; [done|]. by intros [].
Qed.

(** * One batch of the collector *)

Definition taken (takeKey : bytes -> bool) (D : list entry) : list entry :=
  filter (fun e => takeKey (Key e.2) = true) D.

(** Records past the revision of the first batch end the scan. *)
Definition beyond (c : afterCollector) (x : entry) : bool :=
  negb (ac_latestRev c =? 0) && (ac_latestRev c <? x.1).

(** The collector with the events of [D] added to the batch. *)
Definition add_events (h : history) (c : afterCollector) (D : list entry) : afterCollector :=
  ac_set_batch c (ac_batchEvents c ++ (event_at h <$> taken (ac_takeKey c) D))
    (ac_batchCompactRev c) (ac_batchLatestRev c).

Lemma add_events_nil h c : add_events h c [] = c.
Proof. unfold add_events. rewrite app_nil_r. by destruct c. Qed.

Lemma add_events_app h c D D2 : add_events h c (D ++ D2) = add_events h (add_events h c D) D2.
Proof.
  unfold add_events. cbn [ac_set_batch ac_batchEvents ac_takeKey ac_batchCompactRev ac_batchLatestRev].
  unfold taken. by rewrite filter_app, fmap_app, app_assoc.
Qed.

Lemma after_next tr h comp x it (c : afterCollector) :
  Repr dir (tr_view tr) h comp -> x ∈ h -> ac_f c = f ->
  next tr (rev_entries (byRevision f) x ++ it) c =
  if beyond c x then (Ok (Some (after_rev_key dir x.1), false, tr, it), c)
  else (Ok (Some (after_rev_key dir x.1), ac_needMore (add_events h c [x]), tr, it), add_events h c [x]).
Proof.
  intros HR Hx Hf. pose proof (R_ok _ _ _ _ HR) as Hok. rewrite Forall_forall in Hok.
  pose proof (Hok x Hx) as (_ & Hrec & _). pose proof (entry_ok_stamp x (Hok x Hx)) as [_ Hi].
  cbn [next afterCollector_Processor]. unfold afterCollector_next. rewrite Hf.
  unfold rev_entries. rewrite ByRevision_GetFromIterator_entries by (done || apply int64ToVersionstamp_ok).
  rewrite VersionstampToInt64_int64ToVersionstamp by done. cbn [rbind].
  fold (after_rev_key dir x.1). unfold beyond, add_events, taken.
  change (Key (byRevision_view x.2)) with (Key x.2).
  rewrite filter_cons, filter_nil.
  assert (Hsame : ac_takeKey c (Key x.2) = false -> ac_set_batch c (ac_batchEvents c ++ [])
    (ac_batchCompactRev c) (ac_batchLatestRev c) = c) by (rewrite app_nil_r; by destruct c).
  destruct (negb (ac_latestRev c =? 0)); cbn [andb]; [destruct (ac_latestRev c <? x.1); [done|]|];
    (destruct (ac_takeKey c (Key x.2)) eqn:Et;
      [rewrite (record_event_spec tr h comp x HR Hx); by rewrite decide_True by done
      |rewrite decide_False by done; cbn [fmap list_fmap]; by rewrite Hsame by done]).
Qed.

(** How the loop of a batch over [D ++ rest] ends: out of time, at the end of
    the range, at a record past the bound, or with as many events as wanted. *)
Inductive after_end (budget : nat) (c : afterCollector) (D rest : list entry) : batchResult -> Prop :=
| ae_time x : last D = Some x -> length D = S budget ->
    after_end budget c D rest (mkBatchResult (Some (after_rev_key dir x.1)) true)
| ae_range k : rest = [] -> after_end budget c D rest (mkBatchResult k false)
| ae_beyond k x : head rest = Some x -> beyond c x = true -> after_end budget c D rest (mkBatchResult k false)
| ae_enough k : D <> [] -> ac_limit c <> 0 -> after_end budget c D rest (mkBatchResult k false).

Lemma ac_needMore_limit h c D : ac_needMore (add_events h c D) = false -> ac_limit c <> 0.
Proof. unfold ac_needMore. cbn. by destruct (Z.eqb_spec (ac_limit c) 0). Qed.

Lemma after_loop budget tr h comp items (c : afterCollector) :
  Repr dir (tr_view tr) h comp -> (forall x, x ∈ items -> x ∈ h) -> ac_f c = f ->
  exists D rest res,
    batch_loop budget None tr (items ≫= rev_part dir None) c = (Ok (res, tr), add_events h c D) /\
    items = D ++ rest /\ Forall (fun x => beyond c x = false) D /\ after_end budget c D rest res.
Proof.
  intros HR. revert budget c. induction items as [|x items IH]; intros budget c Hin Hf.
  - exists [], [], (mkBatchResult None false). rewrite add_events_nil.
    split; [by destruct budget|]. split_and!; [done|constructor|by constructor].
  - rewrite bind_cons. pose proof (after_next tr h comp x (items ≫= rev_part dir None) c HR (Hin x ltac:(left)) Hf) as Hn.
    change (rev_part dir None x) with (rev_entries (byRevision f) x).
    destruct (beyond c x) eqn:Eb.
    { exists [], (x :: items), (mkBatchResult (Some (after_rev_key dir x.1)) false). rewrite add_events_nil.
      split; [destruct budget; cbn [batch_loop]; by rewrite Hn|].
      split_and!; [done|constructor|by eapply ae_beyond]. }
    destruct (ac_needMore (add_events h c [x])) eqn:Em; [destruct budget as [|budget]|].
    + exists [x], items, (mkBatchResult (Some (after_rev_key dir x.1)) true). cbn [batch_loop].
      rewrite Hn, bool_decide_eq_true_2 by done.
      split_and!; [done|done|by apply Forall_singleton|by apply ae_time].
    + destruct (IH budget (add_events h c [x])) as (D & rest & res & Hloop & -> & HD & Hend); [|done|].
      { intros z Hz. apply Hin. by right. }
      exists (x :: D), rest, res. cbn [batch_loop]. rewrite Hn, bool_decide_eq_true_2 by done.
      cbn [andb collectorNeedsMore]. change (prod_map pred id <$> None) with (@None (nat * Z)).
      rewrite Hloop, <-add_events_app.
      split_and!; [done|done|by apply Forall_cons_2|].
      destruct Hend as [z Hl Hlen|k Hr|k z Hr Hz|k HD2 Hlim]; [|by apply ae_range|by eapply ae_beyond|by apply ae_enough].
      apply ae_time; [|cbn; lia]. rewrite last_cons. by rewrite Hl.
    + exists [x], items, (mkBatchResult (Some (after_rev_key dir x.1)) false).
      split; [destruct budget; cbn [batch_loop]; by rewrite Hn|].
      split_and!; [done|by apply Forall_singleton|]. apply ae_enough; [done|by eapply ac_needMore_limit].
Qed.

(** The range of records after a revision. *)
Definition after_range (y : Z) : SelectorRange :=
  mkSelectorRange (FirstGreaterThan (after_rev_key dir y)) (FirstGreaterOrEqual (FDBRangeKeys (byRevision f)).2).

Lemma after_GetRange s h comp y :
  Repr dir s h comp -> 0 <= y <= int64_max ->
  srange s (selector_key (Begin (after_range y))) (selector_key (End (after_range y))) =
  rev_todo h y None ≫= rev_part dir None.
Proof.
  intros HR Hy. unfold after_range. cbn [Begin End selector_key]. rewrite FDBRangeKeys_spec. cbn [snd].
  apply (srange_revs dir s h comp _ y None); [done..| |by right]. done.
Qed.

(** The result of [endBatch]. *)
Definition after_done (comp rv : Z) (c : afterCollector) : res unit * afterCollector :=
  let c := if ac_latestRev c =? 0 then ac_set_batch c (ac_batchEvents c) (ac_batchCompactRev c) rv else c in
  if ac_checkCompacted c && (0 <? ac_minRevision c) && (ac_minRevision c <? comp)
  then (Err ErrCompacted, ac_set_batch c (ac_batchEvents c) comp (ac_batchLatestRev c))
  else (Ok tt, c).

Lemma after_body s h comp rv budget y (c : afterCollector) :
  UseSequentialId = false -> Repr dir s h comp -> 0 <= y <= int64_max -> ac_f c = f ->
  exists D rest res,
    batch_body (after_range y) (mkBatchEnv budget None) (begin_tr s rv) c =
      (let '(r, c2) := after_done comp rv (add_events h (startBatch c) D) in
       (let? _ := r in Ok (res, begin_tr s rv), c2)) /\
    rev_todo h y None = D ++ rest /\ Forall (fun x => beyond c x = false) D /\ after_end budget c D rest res.
Proof.
  intros Hmode HR Hy Hf. unfold batch_body. cbn [b_budget b_fault]. unfold tr_GetRange.
  change (tr_view (begin_tr s rv)) with s. rewrite (after_GetRange s h comp) by done.
  destruct (after_loop budget (begin_tr s rv) h comp (rev_todo h y None) (startBatch c))
    as (D & rest & res & Hloop & Hitems & HD & Hend); [done| |done|].
  { intros x [_ Hx]%list_elem_of_filter. done. }
  rewrite Hloop. exists D, rest, res. split_and!; [|done..|].
  - cbn [endBatch afterCollector_Processor]. unfold afterCollector_endBatch, after_done.
    set (c1 := add_events h (startBatch c) D).
    assert (Hf1 : ac_f c1 = f) by done.
    assert (Hcomp : forall c2, ac_f c2 = f -> afterCollector_compacted (begin_tr s rv) c2 =
      if ac_checkCompacted c2 && (0 <? ac_minRevision c2) && (ac_minRevision c2 <? comp)
      then (Err ErrCompacted, ac_set_batch c2 (ac_batchEvents c2) comp (ac_batchLatestRev c2))
      else (Ok (begin_tr s rv), c2)).
    { intros c2 Hf2. unfold afterCollector_compacted. rewrite Hf2, (compact_Get dir comp s h) by done.
      cbn [rbind]. rewrite VersionstampToInt64_int64ToVersionstamp.
      - destruct (ac_checkCompacted c2); [|done]. cbn [andb]. by destruct (_ && _).
      - destruct (R_compact _ _ _ _ HR) as [Hc _]. unfold is_int64, int64_min. lia. }
    destruct (ac_latestRev c1 =? 0).
    + rewrite Hf1, (GetLatestRev_spec dir s (begin_tr s rv) rv) by (done || (unfold head_rev; by rewrite Hmode)).
      cbn [rbind]. rewrite Hcomp by done. by destruct (_ && _ && _).
    + rewrite Hcomp by done. by destruct (_ && _ && _).
  - destruct Hend; [by apply ae_time|by apply ae_range|by eapply ae_beyond|by apply ae_enough].
Qed.
End After.


(** * The poll loop *)

(** An event without its previous key-value. *)
Definition core (e : Event) : bool * bool * KeyValue := (ev_Delete e, ev_Create e, ev_KV e).

Section Poll.
Context `{FB : FdbBindings, KV : KVStore, CF : Config}.
Context (dir : bytes) (Hmode : UseSequentialId = false) (comp : Z) (grow : nat).
Abbreviation f := (openSubspaces dir).

Definition record_core (e : entry) : bool * bool * KeyValue := core (event_of e).

Lemma core_event_at h e : core (event_at h e) = record_core e.
Proof. reflexivity. Qed.

Lemma cores h (l : list entry) : core <$> (event_at h <$> l) = record_core <$> l.
Proof. by rewrite <-list_fmap_compose. Qed.

Lemma taken_all l : taken (fun _ => true) l = l.
Proof. unfold taken. by apply filter_every. Qed.

Lemma last_ModRevision_events h (l : list entry) d :
  last_ModRevision (event_at h <$> l) d = match last l with Some x => x.1 | None => d end.
Proof. unfold last_ModRevision. rewrite last_fmap. by destruct (last l). Qed.

(** One read of the events after a cursor: all there are, or the first of
    them. *)
Lemma afterBatch_spec te later s h p y takeKey :
  batch_ok te -> Repr dir s h comp -> Forall (fun e => e.1 <= p) h -> 0 <= y <= int64_max ->
  reads_ok dir comp grow p (te_attempts te ++ later) ->
  exists a s2 h2 D rest, a ∈ te_attempts te /\
    since dir comp h p s2 h2 (at_read_version a) /\
    reads_ok dir comp grow (at_read_version a) later /\
    rev_todo h2 y None = D ++ rest /\ (D = [] -> rest = []) /\
    afterBatch f te y takeKey s =
      (Some (Ok (at_read_version a, event_at h2 <$> taken takeKey D)), s2).
Proof.
  intros Hte HR Hup Hy Hreads.
  set (c := newAfterCollector f y false maxBatchSize takeKey).
  assert (Hbody : forall a s2 h2, since dir comp h p s2 h2 (at_read_version a) -> _) by
    exact (fun a s2 h2 Hs2 => after_body dir s2 h2 comp (at_read_version a) (b_budget (at_env a)) y c
             Hmode (sn_repr _ _ _ _ _ _ _ Hs2) Hy eq_refl).
  destruct (processBatch_since dir comp grow h p te later s h p (after_range dir y) c _ Hte
    (since_refl _ _ _ _ _ HR Hup) Hreads ltac:(reflexivity))
    as (a & s2 & h2 & Ha & _ & Hs2 & Hr2 & _ & Hbatch).
  { intros a s2 h2 Hs2 _. destruct (Hbody a s2 h2 Hs2) as (D & rest & res & Hb & _).
    unfold no_fault. by rewrite Hb. }
  destruct (Hbody a s2 h2 Hs2) as (D & rest & res & Hb & Hitems & _ & Hend).
  unfold no_fault in Hbatch. rewrite Hb in Hbatch. cbn in Hbatch.
  exists a, s2, h2, D, rest. split_and!; [done..| |].
  - intros ->. by inversion Hend.
  - unfold afterBatch. change (afterRevisionSelector f y) with (after_range dir y). fold c.
    by rewrite Hbatch.
Qed.

(** The passes: registering a watch ends, reads go on from growing versions. *)
Fixpoint polls_ok (p : Z) (envs : list (TransactEnv unit * TransactEnv BatchEnv)) : Prop :=
  match envs with
  | [] => p <= int64_max
  | (register, te) :: rest =>
      exists p1 p2,
        (forall s h, Repr dir s h comp -> Forall (fun e => e.1 <= p) h ->
           exists r s2 h2, transact watch_body register s tt = (Some r, s2, tt) /\ since dir comp h p s2 h2 p1) /\
        batch_ok te /\ reads_ok dir comp grow p1 (te_attempts te) /\ p <= p1 <= p2 /\
        Forall (fun a => at_read_version a <= p2) (te_attempts te) /\ polls_ok p2 rest
  end.

Lemma since_weaken h1 p1 p0 s h p : p0 <= p1 -> since dir comp h1 p1 s h p -> since dir comp h1 p0 s h p.
Proof.
  intros Hle [HR (ext & -> & Hext) Hp Hup]. split; [done| |lia|done]. exists ext. split; [done|].
  eapply Forall_impl; [exact Hext|]. cbn. lia.
Qed.

Lemma polls_ok_le p p0 envs : p0 <= p -> polls_ok p envs -> polls_ok p0 envs.
Proof.
  destruct envs as [|[register te] rest]; [cbn; lia|]. intros Hle (p1 & p2 & Hreg & Hte & Hr & Hp & Hall & Hrest).
  exists p1, p2. split_and!; try done; [|lia..]. intros s h HR Hup.
  destruct (Hreg s h HR) as (r & s2 & h2 & Ht & Hs2); [eapply Forall_impl; [exact Hup|]; cbn; lia|].
  exists r, s2, h2. split; [done|]. by eapply since_weaken.
Qed.

Lemma polls_ok_max p envs : polls_ok p envs -> p <= int64_max.
Proof.
  revert p; induction envs as [|[register te] rest IH]; intros p; [done|].
  intros (p1 & p2 & _ & _ & _ & Hp & _ & Hrest). apply IH in Hrest. lia.
Qed.

(** The state of the loop: what was sent are the events up to the cursor. *)
Record poll_inv (start : Z) (s : store) (h : history) (p : Z) (st : pollState) : Prop := mkPollInv {
  pi_repr : Repr dir s h comp;
  pi_upto : Forall (fun e => e.1 <= p) h;
  pi_cursor : 0 <= start <= ps_lastWatchRev st /\ ps_lastWatchRev st <= p;
  pi_sent : core <$> mjoin (ps_result st) =
            record_core <$> rev_todo h start (Some (ps_lastWatchRev st))
}.

(** Other clients write. *)
Lemma poll_inv_since start s h p st s2 h2 p2 :
  poll_inv start s h p st -> since dir comp h p s2 h2 p2 -> poll_inv start s2 h2 p2 st.
Proof.
  intros [_ _ Hcur Hsent] [HR (ext & -> & Hext) Hle Hup]. split; [done..|lia|].
  rewrite rev_todo_extend; [done|apply HR|]. eapply Forall_impl; [exact Hext|]. cbn. lia.
Qed.

(** A pass without events moves the cursor to its read version. *)
Lemma poll_inv_idle start s h p st :
  poll_inv start s h p st -> rev_todo h (ps_lastWatchRev st) None = [] ->
  poll_inv start s h p (mkPollState p (ps_counts st) (ps_result st)).
Proof.
  intros [HR Hup Hcur Hsent] Hnone. split; [done..|cbn; lia|]. cbn [ps_result ps_lastWatchRev].
  rewrite Hsent. f_equal. symmetry.
  rewrite (rev_todo_next h start (ps_lastWatchRev st) p []); [by rewrite app_nil_r|apply HR|constructor|lia|lia|].
  intros x. split; [by intros ?%not_elem_of_nil|]. intros [Hx Hr].
  rewrite <-Hnone. apply elem_of_rev_todo. split; [done|]. unfold in_revs. tauto.
Qed.

(** A pass with events sends them and moves the cursor to the last one. *)
Lemma poll_inv_events start s h p st D rest x counts :
  poll_inv start s h p st -> rev_todo h (ps_lastWatchRev st) None = D ++ rest -> last D = Some x ->
  poll_inv start s h p (mkPollState x.1 counts (ps_result st ++ [event_at h <$> D])).
Proof.
  intros [HR Hup Hcur Hsent] Hitems Hlast. pose proof (R_sorted _ _ _ _ HR) as Hs.
  pose proof (todo_prefix h _ None D rest x Hs Hitems Hlast) as HD.
  destruct (proj1 (HD x) (last_Some_elem_of _ _ Hlast)) as [Hx Hr].
  assert (Hxp : x.1 <= p) by (rewrite Forall_forall in Hup; by apply Hup).
  split; [done..|cbn; lia|]. cbn [ps_result ps_lastWatchRev].
  rewrite (rev_todo_next h start (ps_lastWatchRev st) x.1 D); [|done| |lia|lia|done].
  - rewrite join_app, !fmap_app, <-Hsent. f_equal. change (mjoin [?l]) with (l ++ []).
    by rewrite app_nil_r, cores.
  - apply (StronglySorted_app_1_l rev_lt D rest). rewrite <-Hitems. by apply rev_todo_sorted.
Qed.

(** Registering the watch succeeds when it ends. *)
Definition registers (register : TransactEnv unit) : Prop :=
  forall s r s2, transact watch_body register s tt = (Some r, s2, tt) -> exists x, r = Ok x.

(** The first record that is pending stays the first. *)
Lemma head_since h p s2 h2 p2 y x :
  since dir comp h p s2 h2 p2 ->
  head (rev_todo h y None) = Some x -> head (rev_todo h2 y None) = Some x.
Proof.
  intros [_ (ext & -> & _) _ _]. unfold rev_todo. rewrite filter_app.
  by destruct (filter (in_revs y None) h).
Qed.

Lemma poll_step_spec register te rest start s h p st :
  polls_ok p ((register, te) :: rest) -> poll_inv start s h p st ->
  exists st2 s2 h2 p2, poll_step f register te st s = (Some st2, s2) /\
    poll_inv start s2 h2 p2 st2 /\ since dir comp h p s2 h2 p2 /\ polls_ok p2 rest /\
    ps_lastWatchRev st <= ps_lastWatchRev st2 /\
    (registers register -> forall x, head (rev_todo h (ps_lastWatchRev st) None) = Some x -> x.1 <= ps_lastWatchRev st2).
Proof.
  intros Hok Hinv. pose proof (polls_ok_max _ _ Hok) as Hmax.
  destruct Hok as (p1 & p2 & Hreg & Hte & Hreads & Hp & Hall & Hrest).
  destruct (Hreg s h (pi_repr _ _ _ _ _ Hinv) (pi_upto _ _ _ _ _ Hinv)) as (r & s1 & h1 & Ht & Hs1).
  pose proof (poll_inv_since _ _ _ _ _ _ _ _ Hinv Hs1) as Hinv1.
  unfold poll_step. rewrite Ht.
  destruct r as [[[] stamp]|e|].
  2,3: exists st, s1, h1, p1; split_and!; [done..| |done|
    by intros Hr; destruct (Hr _ _ _ Ht)]; eapply polls_ok_le; [|exact Hrest]; lia.
  rewrite <-(app_nil_r (te_attempts te)) in Hreads.
  destruct (afterBatch_spec te [] s1 h1 p1 (ps_lastWatchRev st) (fun _ => true) Hte
    (pi_repr _ _ _ _ _ Hinv1) (pi_upto _ _ _ _ _ Hinv1)) as (a & s2 & h2 & D & rest2 & Ha & Hs2 & _ & Hitems & Hnil & ->).
  { destruct (pi_cursor _ _ _ _ _ Hinv). lia. }
  { done. }
  rewrite taken_all. pose proof (poll_inv_since _ _ _ _ _ _ _ _ Hinv1 Hs2) as Hinv2.
  assert (Hnext : polls_ok (at_read_version a) rest).
  { eapply polls_ok_le; [|exact Hrest]. rewrite Forall_forall in Hall. by apply Hall. }
  pose proof (since_trans _ _ _ _ _ _ _ _ _ _ Hs1 Hs2) as Hsince.
  destruct D as [|d D].
  - eexists _, s2, h2, _. split; [done|]. split_and!; [|done..|apply (pi_cursor _ _ _ _ _ Hinv2)|].
    + apply poll_inv_idle; [done|]. by rewrite Hitems, Hnil.
    + intros _ x Hx%(head_since _ _ _ _ _ _ _ Hsince). by rewrite Hitems, Hnil in Hx.
  - destruct (last (d :: D)) as [x|] eqn:El; [|by apply last_None in El].
    eexists _, s2, h2, _. split; [done|].
    rewrite (last_ModRevision_events h2 (d :: D)), El. pose proof (todo_prefix h2 _ None _ _ x (R_sorted _ _ _ _ (pi_repr _ _ _ _ _ Hinv2)) Hitems El) as HD.
    destruct (proj1 (HD x) (last_Some_elem_of _ _ El)) as [_ Hx].
    split_and!; [by eapply poll_inv_events|done..|cbn; lia|]. intros _ z Hz. cbn [ps_lastWatchRev].
    pose proof (head_since _ _ _ _ _ _ _ Hsince Hz) as Hhead.
    rewrite Hitems in Hhead. injection Hhead as <-. apply (HD d). left.
Qed.

(** The loop from any start. *)
Lemma poll_spec envs start s h p :
  Repr dir s h comp -> Forall (fun e => e.1 <= p) h -> 0 <= start <= p ->
  polls_ok p envs ->
  exists st2 s2 h2 p2, poll f envs (poll_start start) s = (Some st2, s2) /\
    since dir comp h p s2 h2 p2 /\ start <= ps_lastWatchRev st2 /\
    core <$> mjoin (ps_result st2) = record_core <$> rev_todo h2 start (Some (ps_lastWatchRev st2)).
Proof.
  intros HR Hup Hstart Hok.
  assert (Hinv : poll_inv start s h p (poll_start start)).
  { split; [done..|cbn; lia|]. cbn. unfold rev_todo. rewrite filter_none; [done|].
    intros x _ [H1 H2]. lia. }
  pose proof (since_refl dir comp _ _ _ HR Hup) as Hsince.
  revert Hinv Hsince Hok. generalize (poll_start start) as st. intros st.
  assert (Hgen : forall envs s1 h1 p1 st1, poll_inv start s1 h1 p1 st1 -> since dir comp h p s1 h1 p1 ->
    polls_ok p1 envs -> exists st2 s2 h2 p2, poll f envs st1 s1 = (Some st2, s2) /\
      since dir comp h p s2 h2 p2 /\ poll_inv start s2 h2 p2 st2).
  { intros envs2; induction envs2 as [|[register te] rest IH]; intros s1 h1 p1 st1 Hinv Hs Hok.
    - exists st1, s1, h1, p1. done.
    - destruct (poll_step_spec _ _ _ _ _ _ _ _ Hok Hinv) as (st2 & s2 & h2 & p2 & Hstep & Hinv2 & Hs2 & Hok2 & _ & _).
      cbn [poll]. rewrite Hstep. eapply IH; [done| |done]. by eapply since_trans. }
  intros Hinv Hsince Hok. destruct (Hgen envs s h p st Hinv Hsince Hok) as (st2 & s2 & h2 & p2 & Hp & Hs2 & Hinv2).
  exists st2, s2, h2, p2. split_and!; [done..| |]; apply Hinv2.
Qed.

(** C14: the poll loop sends every event once and in order: after any passes,
    with failed registrations, reads split by time or by the batch size and
    other clients writing, what it has sent are the events of exactly the
    records after its start up to its cursor, in the order of their revisions,
    and the cursor has not passed a record that it has not sent. *)
Theorem poll_exactly_once envs start s h p :
  Repr dir s h comp -> Forall (fun e => e.1 <= p) h -> 0 <= start <= p ->
  polls_ok p envs ->
  exists st2 s2 h2 p2, poll f envs (poll_start start) s = (Some st2, s2) /\
    since dir comp h p s2 h2 p2 /\ start <= ps_lastWatchRev st2 /\
    core <$> mjoin (ps_result st2) = record_core <$> rev_todo h2 start (Some (ps_lastWatchRev st2)).
Proof. apply poll_spec. Qed.

(** The attempts of a transaction without input: failures that are retried,
    then one that commits. *)
Definition attempts_ok (te : TransactEnv unit) : Prop :=
  te_create te = None /\
  exists pre a, te_attempts te = pre ++ [a] /\ Forall (fun b => at_on_error b = None) pre /\
    at_fault a = None /\ at_commit a = Committed /\ at_force_retry a = false.

(** A driver without a cursor asks the store: it learns a revision that no
    record of the store exceeds. *)
Lemma CurrentRevision_spec te s h p :
  Repr dir s h comp -> Forall (fun e => e.1 <= p) h -> attempts_ok te -> reads_ok dir comp grow p (te_attempts te) ->
  exists r s2 h2, CurrentRevision f te 0 s = (Some (Ok r), s2) /\ since dir comp h p s2 h2 r /\
    exists a, a ∈ te_attempts te /\ r = at_read_version a.
Proof.
  intros HR Hup (Hcreate & pre & a & Hatt & Hre & Hfault & Hcom & Hforce) Hok. rewrite Hatt in Hok.
  destruct (retryable_commits (E := unit) (C := unit)
    (fun _ tr (_ : unit) => (let? r := GetLatestRev (rev f) tr in Ok (r, tr), tt))
    (fun rest s _ => rest ⊆ te_attempts te /\ exists h1 p1, since dir comp h p s h1 p1 /\ reads_ok dir comp grow p1 rest)
    (fun b rest s _ => b :: rest ⊆ te_attempts te /\ exists h1, since dir comp h p s h1 (at_read_version b) /\
       reads_ok dir comp grow (at_read_version b) rest)
    (fun _ r s _ => exists h1, since dir comp h p s h1 r /\ exists a, a ∈ te_attempts te /\ r = at_read_version a)
    (fun _ => False)) with (pre := pre) (a := a) (s := s) (c := tt)
    as (_ & r & stamp & s2 & [] & Hrun & (h2 & Hs2) & _); try done.
  - intros b rest s1 _ (Hin & h1 & p1 & Hs & Hr). destruct (since_step _ _ _ _ _ _ _ _ _ _ Hs Hr) as (h3 & Hs3 & _).
    split; [done|]. exists h3. split; [done|]. apply Hr.
  - intros b rest s1 _ (Hin & h1 & Hs & Hr). split; [set_solver|eauto].
  - intros b rest s1 _ (Hin & h1 & Hs & Hr).
    rewrite (GetLatestRev_spec dir s1 (begin_tr s1 (at_read_version b)) (at_read_version b))
      by (done || (unfold head_rev; by rewrite Hmode)).
    assert (rest ⊆ te_attempts te /\ b ∈ te_attempts te) as [??] by set_solver. cbn. split_and!; eauto 6.
  - tauto.
  - split; [by rewrite Hatt|]. exists h, p. split; [by apply since_refl|done].
  - exists r, s2, h2. split; [|done]. unfold CurrentRevision, transact. cbn [Z.eqb negb].
    rewrite Hcreate, Hatt. by rewrite Hrun.
Qed.

(** C16: starting the loop loses and repeats nothing.  A driver that starts its
    loop reads the current revision, with any failed attempts and with writers
    in between; what the loop has sent after any passes is then exactly the
    events of the records that were written after the start, up to its cursor,
    each once and in order, and none of the records that were there before. *)
Theorem startWatch_exactly_once te envs s h p q :
  Repr dir s h comp -> Forall (fun e => e.1 <= p) h -> 0 <= p ->
  attempts_ok te -> reads_ok dir comp grow p (te_attempts te) ->
  Forall (fun a => at_read_version a <= q) (te_attempts te) -> polls_ok q envs ->
  exists st1 s1 before st2 s2 after,
    startWatch f te 0 s = (Some (Ok st1), s1) /\ Repr dir s1 (h ++ before) comp /\
    poll f envs st1 s1 = (Some st2, s2) /\ Repr dir s2 ((h ++ before) ++ after) comp /\
    Forall (fun e => e.1 <= ps_lastWatchRev st1) (h ++ before) /\ ps_lastWatchRev st1 <= ps_lastWatchRev st2 /\
    core <$> mjoin (ps_result st2) = record_core <$> filter (fun e => e.1 <= ps_lastWatchRev st2) after.
Proof.
  intros HR Hup Hp Hte Hreads Hq Hpolls.
  destruct (CurrentRevision_spec te s h p HR Hup Hte Hreads) as (r & s1 & h1 & Hcur & Hs1 & a & Ha & Hra).
  assert (Hrq : r <= q) by (rewrite Hra; by eapply Forall_forall in Hq).
  destruct Hs1 as [HR1 (before & -> & _) Hpr Hup1].
  destruct (poll_spec envs r s1 (h ++ before) q) as (st2 & s2 & h2 & p2 & Hpoll & Hs2 & Hcursor & Hsent);
    [done|eapply Forall_impl; [exact Hup1|cbn; lia]|lia|done|].
  destruct Hs2 as [HR2 (after & -> & Hafter) _ _].
  exists (poll_start r), s1, before, st2, s2, after. unfold startWatch. rewrite Hcur. split_and!; try done.
  rewrite Hsent. f_equal. unfold rev_todo. rewrite filter_app. rewrite filter_none.
  - cbn [app]. apply filter_same. intros x Hx. eapply (proj1 (Forall_forall _ _)) in Hafter; [|exact Hx].
    unfold in_revs. cbn in *. lia.
  - intros x Hx [Hlt _]. eapply (proj1 (Forall_forall _ _)) in Hup1; [|exact Hx]. cbn in Hup1. lia.
Qed.

(** A pass with a record pending leaves fewer of them. *)
Lemma pending_fewer h y y2 x l :
  rev_todo h y None = x :: l -> y <= y2 -> x.1 <= y2 -> (length (rev_todo h y2 None) <= length l)%nat.
Proof.
  intros Hl Hy Hx.
  assert (E : rev_todo h y2 None = filter (in_revs y2 None) (rev_todo h y None)).
  { unfold rev_todo. rewrite list_filter_filter. apply list_filter_iff. intros z. unfold in_revs. lia. }
  rewrite E, Hl, filter_cons, decide_False by (unfold in_revs; lia). apply length_filter.
Qed.

Lemma poll_progress envs start h p s1 h1 p1 st :
  poll_inv start s1 h1 p1 st -> since dir comp h p s1 h1 p1 -> polls_ok p1 envs ->
  Forall (fun pass => registers pass.1) envs ->
  (length (rev_todo h (ps_lastWatchRev st) None) <= length envs)%nat ->
  exists st2 s2 h2 p2, poll f envs st s1 = (Some st2, s2) /\ since dir comp h p s2 h2 p2 /\
    poll_inv start s2 h2 p2 st2 /\ rev_todo h (ps_lastWatchRev st2) None = [].
Proof.
  revert s1 h1 p1 st; induction envs as [|[register te] rest IH]; intros s1 h1 p1 st Hinv Hs Hok Hreg Hlen.
  - exists st, s1, h1, p1. split_and!; [done..|]. by apply nil_length_inv, Nat.le_0_r.
  - apply Forall_cons in Hreg as [Hr Hreg].
    destruct (poll_step_spec _ _ _ _ _ _ _ _ Hok Hinv) as (st2 & s2 & h2 & p2 & Hstep & Hinv2 & Hs2 & Hok2 & Hle & Hprog).
    cbn [poll]. rewrite Hstep. eapply IH; [done|by eapply since_trans|done..|].
    destruct (rev_todo h (ps_lastWatchRev st) None) as [|x l] eqn:El.
    + assert (Hl : (length (rev_todo h (ps_lastWatchRev st2) None) <= 0)%nat); [|lia].
      assert (E : rev_todo h (ps_lastWatchRev st2) None = filter (in_revs (ps_lastWatchRev st2) None) (rev_todo h (ps_lastWatchRev st) None)).
      { unfold rev_todo. rewrite list_filter_filter. apply list_filter_iff. intros z. unfold in_revs. lia. }
      by rewrite E, El.
    + assert (Hhead : head (rev_todo h1 (ps_lastWatchRev st) None) = Some x).
      { apply (head_since _ _ _ _ _ _ _ Hs). by rewrite El. }
      specialize (Hprog Hr x Hhead). cbn in Hlen.
      pose proof (pending_fewer h _ _ x l El Hle Hprog). lia.
Qed.

(** C17: the poll loop catches up: of passes whose registrations succeed, as
    many as there are records pending at the start are enough to send the
    events of all of them, whatever other clients write meanwhile. *)
Theorem poll_catches_up envs start s h p :
  Repr dir s h comp -> Forall (fun e => e.1 <= p) h -> 0 <= start <= p -> polls_ok p envs ->
  Forall (fun pass => registers pass.1) envs -> (length (rev_todo h start None) <= length envs)%nat ->
  exists st2 s2, poll f envs (poll_start start) s = (Some st2, s2) /\
    (record_core <$> rev_todo h start None) `prefix_of` (core <$> mjoin (ps_result st2)).
Proof.
  intros HR Hup Hstart Hok Hreg Hlen.
  assert (Hinv : poll_inv start s h p (poll_start start)).
  { split; [done..|cbn; lia|]. cbn. unfold rev_todo. rewrite filter_none; [done|]. intros x _ [H1 H2]. lia. }
  destruct (poll_progress envs start h p s h p (poll_start start) Hinv (since_refl dir comp _ _ _ HR Hup) Hok Hreg Hlen)
    as (st2 & s2 & h2 & p2 & Hpoll & [_ (ext & -> & _) _ _] & Hinv2 & Hnone).
  exists st2, s2. split; [done|]. rewrite (pi_sent _ _ _ _ _ Hinv2). unfold rev_todo at 2. rewrite filter_app, fmap_app.
  assert (E : rev_todo h start None = filter (in_revs start (Some (ps_lastWatchRev st2))) h).
  { unfold rev_todo. apply filter_same. intros x Hx. unfold in_revs. split; [|tauto]. intros [Hlt _]. split; [done|].
    destruct (Z.le_gt_cases x.1 (ps_lastWatchRev st2)); [done|exfalso].
    assert (Hin : x ∈ rev_todo h (ps_lastWatchRev st2) None) by (apply elem_of_rev_todo; unfold in_revs; split; [done|lia]).
    rewrite Hnone in Hin. by apply not_elem_of_nil in Hin. }
  rewrite E. by apply prefix_app_r.
Qed.
End Poll.

(** * Reading all events after a revision *)

Section AfterAll.
Context `{FB : FdbBindings, KV : KVStore, CF : Config}.
Context (dir : bytes) (Hmode : UseSequentialId = false) (comp : Z) (grow : nat).
Context (takeKey : bytes -> bool) (minRevision : Z) (h0 : history) (p0 : Z).
Context (Hmin : 0 <= minRevision <= p0) (Hmax : minRevision <= int64_max)
        (Hcomp : minRevision = 0 \/ comp <= minRevision).
Abbreviation f := (openSubspaces dir).

(** The events of the records up to [R]. *)
Definition events_upto (h : history) (R : Z) (events : list Event) : Prop :=
  core <$> events = record_core <$> taken takeKey (rev_todo h minRevision (Some R)).

(** The collector between batches. *)
Record after_inv (h : history) (p y : Z) (c : afterCollector) : Prop := mkAfterInv {
  ai_f : ac_f c = f;
  ai_limit : ac_limit c = 0;
  ai_check : ac_checkCompacted c = true;
  ai_min : ac_minRevision c = minRevision;
  ai_take : ac_takeKey c = takeKey;
  ai_y : minRevision <= y <= p /\ y <= int64_max;
  ai_events : events_upto h y (ac_events c);
  ai_latest : ac_latestRev c = 0 \/ y <= ac_latestRev c <= p /\ p0 <= ac_latestRev c
}.

Lemma taken_app D E : taken takeKey (D ++ E) = taken takeKey D ++ taken takeKey E.
Proof. apply filter_app. Qed.

Lemma after_inv_since h p y c s2 h2 p2 :
  after_inv h p y c -> since dir comp h p s2 h2 p2 -> after_inv h2 p2 y c.
Proof.
  intros [? ? ? ? ? [? ?]] [HR (ext & -> & Hext) Hle _]. split; try done; [lia| |naive_solver lia].
  unfold events_upto. rewrite rev_todo_extend; [done|apply HR|].
  eapply Forall_impl; [exact Hext|]. cbn. lia.
Qed.

(** The collector after a batch over [D]. *)
Definition after_batch (h : history) (rv : Z) (c : afterCollector) (D : list entry) : afterCollector :=
  postBatch (let c1 := add_events h (startBatch c) D in
             if ac_latestRev c =? 0 then ac_set_batch c1 (ac_batchEvents c1) (ac_batchCompactRev c1) rv else c1).

Lemma not_below : (0 <? minRevision) && (minRevision <? comp) = false.
Proof.
  destruct Hcomp as [->|]; [done|]. rewrite (proj2 (Z.ltb_ge minRevision comp)) by lia. apply andb_false_r.
Qed.

Lemma after_done_batch h p y rv c D :
  after_inv h p y c ->
  (let '(r, c2) := after_done comp rv (add_events h (startBatch c) D) in (r, postBatch c2)) =
  (Ok tt, after_batch h rv c D).
Proof.
  intros [Hf Hl Hch Hmn Ht _ _ _]. unfold after_done, after_batch.
  assert (Hc : forall c2, ac_checkCompacted c2 = ac_checkCompacted c -> ac_minRevision c2 = ac_minRevision c ->
    ac_checkCompacted c2 && (0 <? ac_minRevision c2) && (ac_minRevision c2 <? comp) = false).
  { intros c2 -> ->. rewrite Hch, Hmn. cbn [andb]. apply not_below. }
  change (ac_latestRev (add_events h (startBatch c) D)) with (ac_latestRev c).
  destruct (ac_latestRev c =? 0); by rewrite Hc by done.
Qed.

Lemma after_batch_events h rv c D :
  ac_events (after_batch h rv c D) = ac_events c ++ (event_at h <$> taken (ac_takeKey c) D).
Proof. unfold after_batch. by destruct (ac_latestRev c =? 0). Qed.

Lemma after_batch_latest h rv c D :
  ac_latestRev (after_batch h rv c D) = if ac_latestRev c =? 0 then rv else 0.
Proof. unfold after_batch. by destruct (ac_latestRev c =? 0). Qed.

Lemma events_upto_next h y R c rv D :
  StronglySorted rev_lt h -> StronglySorted rev_lt D -> ac_takeKey c = takeKey ->
  events_upto h y (ac_events c) -> minRevision <= y -> y <= R ->
  (forall x, x ∈ D <-> x ∈ h /\ y < x.1 <= R) ->
  events_upto h R (ac_events (after_batch h rv c D)).
Proof.
  intros Hs HDs Ht Hev Hy HR HD. unfold events_upto.
  rewrite after_batch_events, Ht, fmap_app, (rev_todo_next h minRevision y R D) by done.
  rewrite taken_app, fmap_app. f_equal; [exact Hev|apply cores].
Qed.

(** A scan that ended as it should: with all events up to a revision that
    was current when it was read. *)
Definition after_finished (h : history) (p : Z)
    (result : option (res unit) * store * afterCollector) : Prop :=
  exists s2 h2 p2 c2 R, result = (Some (Ok tt), s2, c2) /\ since dir comp h p s2 h2 p2 /\
    p0 <= R <= p2 /\ events_upto h2 R (ac_events c2).

(** The records before the first one past the bound. *)
Lemma beyond_records h y c D rest x :
  StronglySorted rev_lt h -> rev_todo h y None = D ++ rest -> head rest = Some x ->
  ac_latestRev c <> 0 -> ac_latestRev c < x.1 -> Forall (fun z => beyond c z = false) D ->
  forall z, z ∈ D <-> z ∈ h /\ y < z.1 <= ac_latestRev c.
Proof.
  intros Hs Hitems Hx Hne Hlt Hbeyond z.
  assert (Hso : StronglySorted rev_lt (D ++ rest)) by (rewrite <-Hitems; by apply rev_todo_sorted).
  assert (Hrest : exists rest2, rest = x :: rest2) by (destruct rest; [done|]; injection Hx as ->; eauto).
  destruct Hrest as [rest2 ->]. split.
  - intros Hz. rewrite Forall_forall in Hbeyond. specialize (Hbeyond z Hz). unfold beyond in Hbeyond.
    rewrite (proj2 (Z.eqb_neq _ _) Hne) in Hbeyond. cbn in Hbeyond. apply Z.ltb_ge in Hbeyond.
    assert (Hz2 : z ∈ rev_todo h y None) by (rewrite Hitems; apply elem_of_app; by left).
    apply elem_of_rev_todo in Hz2 as [Hzh [Hzy _]]. split; [done|lia].
  - intros [Hzh Hzr].
    assert (Hz : z ∈ D ++ x :: rest2) by (rewrite <-Hitems; apply elem_of_rev_todo; unfold in_revs; split; [done|lia]).
    apply elem_of_app in Hz as [?|[->|Hz]%elem_of_cons]; [done|lia|].
    apply StronglySorted_app_1_r, StronglySorted_cons in Hso as [Hx2 _]. rewrite Forall_forall in Hx2.
    specialize (Hx2 z Hz). unfold rev_lt in Hx2. lia.
Qed.

(** From the end of a batch on. *)
Lemma after_next_batch envs N s h rv y c budget D rest res :
  Repr dir s h comp -> Forall (fun e => e.1 <= rv) h -> p0 <= rv -> 0 < rv -> (length h <= N)%nat ->
  after_inv h rv y c -> rev_todo h y None = D ++ rest -> Forall (fun x => beyond c x = false) D ->
  after_end dir budget c D rest res ->
  (N <= budget)%nat \/
  (forall y2 c x, after_inv h rv y2 c -> last D = Some x -> y2 = x.1 ->
     after_finished h rv (processRange envs (Begin (after_range dir y2)) (End (after_range dir y2)) s c)) ->
  after_finished h rv
    (if collectorNeedsMore res then
       match lastReadKey res with
       | Some k => processRange envs (FirstGreaterThan k) (End (after_range dir y)) s (after_batch h rv c D)
       | None => (Some Panic, s, after_batch h rv c D)
       end
     else (Some (Ok tt), s, after_batch h rv c D)).
Proof.
  intros HR Hup Hp0 Hpos HN Hinv Hitems Hbeyond Hend Hnext. pose proof (R_sorted _ _ _ _ HR) as Hs.
  pose proof Hinv as [Hf Hl Hch Hmn Ht Hy Hev Hlat].
  assert (HDs : StronglySorted rev_lt D).
  { apply (StronglySorted_app_1_l rev_lt D rest). rewrite <-Hitems. by apply rev_todo_sorted. }
  pose proof Hup as Hup2. rewrite Forall_forall in Hup2.
  assert (Hdone : forall R, y <= R -> p0 <= R <= rv -> (forall x, x ∈ D <-> x ∈ h /\ y < x.1 <= R) ->
    after_finished h rv (Some (Ok tt), s, after_batch h rv c D)).
  { intros R HyR HR2 HD. exists s, h, rv, (after_batch h rv c D), R. split; [done|].
    split; [by apply since_refl|]. split; [lia|]. apply (events_upto_next h y); try done; lia. }
  destruct Hend as [x Hlast Hlen|k ->|k x Hx Hb|k _ Hlim]; cbn [collectorNeedsMore lastReadKey]; [| | |done].
  - destruct Hnext as [Hn|Hnext].
    { assert (Hle : (length D <= length (rev_todo h y None))%nat) by (rewrite Hitems, length_app; lia).
      pose proof (length_filter (in_revs y None) h). unfold rev_todo in Hle. lia. }
    pose proof (todo_prefix h y None D rest x Hs Hitems Hlast) as HD.
    destruct (proj1 (HD x) (last_Some_elem_of _ _ Hlast)) as [Hxh Hxy]. specialize (Hup2 x Hxh). cbn in Hup2.
    apply (Hnext x.1 _ x); [|done|done]. split; try (unfold after_batch; by destruct (ac_latestRev c =? 0)).
    + pose proof (R_ok _ _ _ _ HR) as Hok. rewrite Forall_forall in Hok. destruct (Hok x Hxh) as [? _]. lia.
    + apply (events_upto_next h y); try done; lia.
    + rewrite after_batch_latest. destruct (Z.eqb_spec (ac_latestRev c) 0); [right; lia|by left].
  - rewrite app_nil_r in Hitems. apply (Hdone rv); [lia|lia|]. intros x. rewrite <-Hitems, elem_of_rev_todo.
    unfold in_revs. split; [|tauto]. intros [Hx [Hlt _]]. specialize (Hup2 x Hx). cbn in Hup2. split; [done|lia].
  - unfold beyond in Hb. apply andb_true_iff in Hb as [Hne Hlt].
    apply negb_true_iff, Z.eqb_neq in Hne. apply Z.ltb_lt in Hlt.
    destruct Hlat as [?|[HyL HpL]]; [done|]. apply (Hdone (ac_latestRev c)); [lia|lia|].
    by apply (beyond_records h y c D rest x).
Qed.

(** * The whole scan *)

(** One attempt of a batch, on the store it finds. *)
Lemma after_attempt h p y c rv budget s2 h2 :
  after_inv h p y c -> since dir comp h p s2 h2 rv ->
  exists D rest res c2,
    batch_body (after_range dir y) (mkBatchEnv budget None) (begin_tr s2 rv) c = (Ok (res, begin_tr s2 rv), c2) /\
    postBatch c2 = after_batch h2 rv c D /\
    rev_todo h2 y None = D ++ rest /\ Forall (fun x => beyond c x = false) D /\ after_end dir budget c D rest res.
Proof.
  intros Hinv Hs2. pose proof (ai_y _ _ _ _ Hinv) as [Hy Hymax].
  pose proof (after_inv_since _ _ _ _ _ _ _ Hinv Hs2) as Hinv2.
  destruct (after_body dir s2 h2 comp rv budget y c Hmode (sn_repr _ _ _ _ _ _ _ Hs2) ltac:(lia) (ai_f _ _ _ _ Hinv))
    as (D & rest & res & Hb & Hrest).
  pose proof (after_done_batch h2 rv y rv c D Hinv2) as Hd.
  destruct (after_done _ _ _) as [r c2]. pose proof (f_equal fst Hd) as Hr.
  pose proof (f_equal snd Hd) as Hc2. cbn [fst snd] in Hr, Hc2. subst r. cbn [rbind] in Hb.
  destruct Hrest as (? & ? & ?). exists D, rest, res, c2. by split_and!.
Qed.

Lemma after_run N envs : forall s h p y c,
  enough N (length (rev_todo h y None)) (length h) envs ->
  Repr dir s h comp -> Forall (fun e => e.1 <= p) h -> p0 <= p ->
  reads_ok dir comp grow p (envs ≫= te_attempts) ->
  (length h + grow * length (envs ≫= te_attempts) <= N)%nat -> after_inv h p y c ->
  after_finished h p (processRange envs (Begin (after_range dir y)) (End (after_range dir y)) s c).
Proof.
  induction envs as [|te envs IH]; intros s h p y c Htime HR Hup Hp0 Hreads HN Hinv.
  { exfalso. eapply not_enough; [|exact Htime]. cbn in HN. lia. }
  apply enough_cons in Htime as [Hte Htime]. rewrite bind_cons in Hreads, HN.
  destruct (processBatch_since dir comp grow h p te (envs ≫= te_attempts) s h p (after_range dir y) c N Hte
    (since_refl _ _ _ _ _ HR Hup) Hreads HN) as (a & s2 & h2 & Ha & Hpos & Hs2 & Hr2 & Hn2 & Hbatch).
  { intros a s2 h2 Hs2 _.
    destruct (after_attempt h p y c (at_read_version a) (b_budget (at_env a)) s2 h2 Hinv Hs2)
      as (D & rest & res & c2 & Hb & _). unfold no_fault. by rewrite Hb. }
  destruct (after_attempt h p y c (at_read_version a) (b_budget (at_env a)) s2 h2 Hinv Hs2)
    as (D & rest & res & c2 & Hb & Hc2 & Hitems & Hbey & Hend).
  unfold no_fault in Hbatch. rewrite Hb, Hc2 in Hbatch. cbn [res_map fst] in Hbatch.
  cbn [processRange]. change (mkSelectorRange (Begin ?r) (End ?r)) with r. rewrite Hbatch.
  pose proof (after_inv_since _ _ _ _ _ _ _ Hinv Hs2) as Hinv2. pose proof Hs2 as [HR2 Hext Hle Hup2].
  destruct (after_next_batch envs N s2 h2 (at_read_version a) y c (b_budget (at_env a)) D rest res)
    as (s3 & h3 & p3 & c3 & R & Hres & Hs3 & HR3 & Hev); try done; [lia|lia| |].
  { destruct Htime as [[-> Hbud]|Htime]; [left|right].
    - rewrite Forall_forall in Hbud. by apply Hbud.
    - intros y2 c3 x Hinv3 Hlast ->. apply IH; try done; [|lia].
      destruct Hext as (ext & -> & _). rewrite length_app. apply Htime.
      eapply rev_todo_progress; [apply HR2|done..]. }
  exists s3, h3, p3, c3, R. split; [exact Hres|]. split; [by eapply since_trans|done].
Qed.

Lemma afterAll_spec envs s :
  read_run dir grow comp p0 h0 s envs ->
  exists s2 h2 p2 R result, since dir comp h0 p0 s2 h2 p2 /\ p0 <= R <= p2 /\
    afterAll f envs minRevision takeKey s = (Some (Ok tt, result), s2) /\
    events_upto h2 R (ar_events result).
Proof.
  intros [HR Hup Hreads Htime].
  destruct (after_run _ envs s h0 p0 minRevision (newAfterCollector f minRevision true 0 takeKey)
    (enough_le _ _ _ _ _ (length_filter _ _) Htime) HR Hup
    ltac:(lia) Hreads ltac:(reflexivity)) as (s2 & h2 & p2 & c2 & R & Hres & Hs2 & HRp & Hev).
  { split; try done; [lia| |by left]. unfold events_upto, rev_todo. rewrite filter_none; [done|].
    intros x _ [? ?]. lia. }
  eexists s2, h2, p2, R, _. split; [done|]. split; [done|]. split.
  - unfold afterAll. change (afterRevisionSelector f minRevision) with (after_range dir minRevision).
    rewrite Hres. reflexivity.
  - exact Hev.
Qed.
End AfterAll.

(** * Watches *)

Lemma mjoin_nonempty {A} (l : list (list A)) : mjoin (filter (fun b => b <> []) l) = mjoin l.
Proof.
  induction l as [|b l IH]; [done|]. rewrite filter_cons. change (mjoin (?x :: ?k)) with (x ++ mjoin k).
  case_decide as Hb; [change (mjoin (?x :: ?k)) with (x ++ mjoin k); by rewrite IH|].
  subst b. by rewrite IH.
Qed.

Lemma mjoin_fmap_filter {A} (P : A -> Prop) `{!forall x, Decision (P x)} (l : list (list A)) :
  mjoin (filter P <$> l) = filter P (mjoin l).
Proof.
  induction l as [|b l IH]; [done|]. rewrite fmap_cons. change (mjoin (?x :: ?k)) with (x ++ mjoin k).
  by rewrite IH, filter_app.
Qed.

Definition rev_of_event (e : Event) : Z := kv_ModRevision (ev_KV e).
Definition event_lt (a b : Event) : Prop := rev_of_event a < rev_of_event b.

Lemma skip_sent_filter r events :
  StronglySorted event_lt events -> skip_sent r events = filter (fun e => r < rev_of_event e) events.
Proof.
  induction 1 as [|e l Hs IH He]; [done|]. cbn [skip_sent]. rewrite filter_cons. fold (rev_of_event e).
  destruct (Z.leb_spec (rev_of_event e) r) as [Hle|Hlt].
  - by rewrite IH, decide_False by lia.
  - rewrite decide_True by done. f_equal. symmetry. apply filter_every. rewrite Forall_forall in He.
    intros x Hx. specialize (He x Hx). unfold event_lt in He. lia.
Qed.

Lemma skip_sent_batches r (l : list (list Event)) :
  StronglySorted event_lt (mjoin l) ->
  mjoin (skip_sent r <$> l) = filter (fun e => r < rev_of_event e) (mjoin l).
Proof.
  induction l as [|b l IH]; [done|]. rewrite fmap_cons. change (mjoin (?x :: ?k)) with (x ++ mjoin k).
  intros Hs. rewrite filter_app, <-IH, skip_sent_filter; [done|..].
  - by apply StronglySorted_app_1_l in Hs.
  - by apply StronglySorted_app_1_r in Hs.
Qed.

Lemma filter_core (P : KeyValue -> Prop) `{!forall x, Decision (P x)} `{Config} (events : list Event) (l : list entry) :
  core <$> events = record_core <$> l ->
  core <$> filter (fun e => P (ev_KV e)) events = record_core <$> filter (fun e => P (ev_KV (event_of e))) l.
Proof.
  revert l; induction events as [|e events IH]; intros [|x l]; try done. rewrite !fmap_cons. intros E.
  assert (E1 : core e = record_core x) by congruence.
  assert (E2 : core <$> events = record_core <$> l) by congruence.
  assert (Ek : ev_KV e = ev_KV (event_of x)) by exact (f_equal snd E1).
  rewrite !filter_cons, Ek. case_decide; [rewrite !fmap_cons; f_equal; auto|auto].
Qed.

Section Watching.
Context `{FB : FdbBindings, KV : KVStore, CF : Config}.
Context (dir : bytes) (Hmode : UseSequentialId = false).
Abbreviation f := (openSubspaces dir).

(** What the poll loop sends from a subscription on: the events of all
    records of [h] between two revisions. *)
Definition stream (h : history) (start cursor : Z) (values : list (list Event)) : Prop :=
  core <$> mjoin values = record_core <$> rev_todo h start (Some cursor).

Lemma stream_sorted h start cursor values :
  StronglySorted rev_lt h -> stream h start cursor values -> StronglySorted event_lt (mjoin values).
Proof.
  intros Hs Hst. apply (rev_todo_sorted h start (Some cursor)) in Hs.
  apply (ssorted_fmap_inv Z.lt rev_of_event).
  assert (E : rev_of_event <$> mjoin values = fst <$> rev_todo h start (Some cursor)).
  { transitivity ((fun c : bool * bool * KeyValue => kv_ModRevision c.2) <$> (core <$> mjoin values)).
    - by rewrite <-list_fmap_compose.
    - rewrite Hst, <-list_fmap_compose. done. }
  rewrite E. by apply (ssorted_fmap_on rev_lt).
Qed.

(** The events that a watch forwards. *)
Lemma forwarded h start cursor values prefix r :
  StronglySorted rev_lt h -> stream h start cursor values ->
  core <$> mjoin (filter (fun b => b <> []) (skip_sent r <$> innerWatch prefix values)) =
  record_core <$> filter (fun e => doesEventHavePrefix (Key e.2) prefix = true /\ r < e.1)
                    (rev_todo h start (Some cursor)).
Proof.
  intros Hs Hst. rewrite mjoin_nonempty. unfold innerWatch.
  pose proof (stream_sorted _ _ _ _ Hs Hst) as Hso.
  rewrite skip_sent_batches; rewrite mjoin_nonempty; unfold filter_batch; rewrite mjoin_fmap_filter.
  - rewrite list_filter_filter.
    pose proof (filter_core (fun kv => doesEventHavePrefix (kv_Key kv) prefix = true /\ r < kv_ModRevision kv)
      _ _ Hst) as Hc. etransitivity; [|etransitivity; [exact Hc|]].
    + f_equal; apply list_filter_iff; intros e; unfold rev_of_event; tauto.
    + f_equal; by apply list_filter_iff.
  - by apply (ssorted_filter event_lt).
Qed.

(** The last event of the past, from which on the watch forwards. *)
Lemma last_taken takeKey minRevision h R events :
  StronglySorted rev_lt h -> events_upto takeKey minRevision h R events -> minRevision <= R ->
  minRevision <= last_ModRevision events minRevision <= R /\
  forall x, x ∈ taken takeKey (rev_todo h minRevision (Some R)) -> x.1 <= last_ModRevision events minRevision.
Proof.
  intros Hs Hev HR. unfold events_upto in Hev. set (l := taken takeKey (rev_todo h minRevision (Some R))) in *.
  assert (Hlast : last_ModRevision events minRevision =
                  match last l with Some x => x.1 | None => minRevision end).
  { assert (E : kv_ModRevision ∘ snd <$> last (core <$> events) = fst <$> last l).
    { rewrite Hev, last_fmap, <-option_fmap_compose. done. }
    unfold last_ModRevision. rewrite last_fmap in E.
    destruct (last events), (last l); cbn in E; congruence. }
  assert (Hso : StronglySorted rev_lt l).
  { unfold l, taken. by apply (ssorted_filter rev_lt), rev_todo_sorted. }
  rewrite Hlast. destruct (last l) as [x|] eqn:El.
  - assert (Hx : x ∈ l) by (by apply last_Some_elem_of). split.
    + unfold l, taken in Hx. apply list_elem_of_filter in Hx as [_ [_ [Hlt Hle]]%elem_of_rev_todo]. lia.
    + intros z Hz. apply last_Some in El as [l2 El]. rewrite El in Hz, Hso.
      apply elem_of_app in Hz as [Hz| ->%list_elem_of_singleton]; [|lia].
      pose proof (StronglySorted_app_1_elem_of rev_lt _ _ z x Hso Hz ltac:(left)) as Hlt. unfold rev_lt in Hlt. lia.
  - split; [lia|]. apply last_None in El. rewrite El. by intros z ?%not_elem_of_nil.
Qed.

(** The past up to [R], and the loop's events after the last one sent. *)
Lemma past_and_stream takeKey minRevision h h3 R start cursor lr :
  StronglySorted rev_lt h3 -> StronglySorted rev_lt h -> minRevision <= R -> start <= R ->
  (forall x, x ∈ h3 -> x.1 <= R -> x ∈ h) -> (forall x, x ∈ h -> x ∈ h3) ->
  minRevision <= lr ->
  (forall x, x ∈ taken takeKey (rev_todo h minRevision (Some R)) -> x.1 <= lr) ->
  (lr <= R) ->
  taken takeKey (rev_todo h minRevision (Some R)) ++
    filter (fun e => takeKey (Key e.2) = true /\ lr < e.1) (rev_todo h3 start (Some cursor)) =
  taken takeKey (rev_todo h3 minRevision (Some (Z.max R cursor))).
Proof.
  intros Hs3 Hs HminR HstR Hold Hnew Hlr Hlast HlrR. unfold taken in *. apply (ssorted_ext rev_lt).
  - apply StronglySorted_app_2.
    + intros a b Ha [[_ Hb] _]%list_elem_of_filter. specialize (Hlast a Ha). unfold rev_lt. lia.
    + by apply (ssorted_filter rev_lt), rev_todo_sorted.
    + by apply (ssorted_filter rev_lt), rev_todo_sorted.
  - by apply (ssorted_filter rev_lt), rev_todo_sorted.
  - intros x. rewrite elem_of_app, !list_elem_of_filter, !elem_of_rev_todo. unfold in_revs. split.
    + intros [(Ht & Hx & H1 & H2)|((Ht & Hl) & Hx & H1 & H2)]; (split; [done|]); (split; [by auto|]); lia.
    + intros (Ht & Hx & H1 & H2). destruct (Z.le_gt_cases x.1 R) as [Hle|Hgt].
      * left. split_and!; auto.
      * right. split; [split; [done|lia]|]. split; [done|lia].
Qed.

(** The prefix and the revision that a watch reads with. *)
Definition watch_prefix (prefix : bytes) : bytes := if decide (prefix = [Byte.x00]) then [Byte.x2f] else prefix.
Definition watch_after (minRevision : Z) : Z := if 0 <? minRevision then minRevision - 1 else minRevision.

(** What a watch sends, between its first read and the loop. *)
Lemma Watch_sends grow comp p0 h0 s envs prefix minRevision values :
  read_run dir grow comp p0 h0 s envs -> 0 <= minRevision <= int64_max -> watch_after minRevision <= p0 ->
  watch_after minRevision = 0 \/ comp <= watch_after minRevision ->
  exists s2 h2 p2 R sent, since dir comp h0 p0 s2 h2 p2 /\ p0 <= R <= p2 /\
    Watch f envs prefix minRevision values s = (Some (Ok (mkWatchResult 0 0 None, sent)), s2) /\
    forall ext start cursor, StronglySorted rev_lt (h2 ++ ext) -> Forall (fun e => p2 < e.1) ext ->
      start <= p0 -> stream (h2 ++ ext) start cursor values ->
      core <$> mjoin sent =
      record_core <$> taken (fun key => doesEventHavePrefix key (watch_prefix prefix))
                        (rev_todo (h2 ++ ext) (watch_after minRevision) (Some (Z.max R cursor))).
Proof.
  intros Hrun Hmin Hafter Hcomp. set (takeKey := fun key => doesEventHavePrefix key (watch_prefix prefix)).
  assert (Hpos : 0 <= watch_after minRevision <= int64_max).
  { unfold watch_after. destruct (Z.ltb_spec 0 minRevision); lia. }
  destruct (afterAll_spec dir Hmode comp grow takeKey (watch_after minRevision) h0 p0 ltac:(lia) ltac:(lia) Hcomp envs s Hrun)
    as (s2 & h2 & p2 & R & result & Hs2 & HR & Hall & Hev).
  eexists s2, h2, p2, R, _. split; [done|]. split; [done|]. split.
  { unfold Watch. fold (watch_prefix prefix) (watch_after minRevision) takeKey. rewrite Hall. reflexivity. }
  intros ext start cursor Hs3 Hext Hstart Hst. pose proof (R_sorted _ _ _ _ (sn_repr _ _ _ _ _ _ _ Hs2)) as Hsh.
  destruct (last_taken takeKey _ h2 R (ar_events result) Hsh Hev ltac:(lia)) as [Hlr Hlast].
  rewrite join_app, fmap_app, (forwarded _ _ _ _ _ _ Hs3 Hst).
  assert (Hpast : core <$> mjoin (match ar_events result with [] => [] | events => [events] end) =
                  record_core <$> taken takeKey (rev_todo h2 (watch_after minRevision) (Some R))).
  { unfold events_upto in Hev. rewrite <-Hev. destruct (ar_events result); [done|].
    change (mjoin [?l]) with (l ++ []). by rewrite app_nil_r. }
  rewrite Hpast, <-fmap_app. f_equal.
  rewrite Forall_forall in Hext. apply past_and_stream; try done; try lia.
  - intros x [Hx|Hx]%elem_of_app Hle; [done|]. specialize (Hext x Hx). cbn in Hext. lia.
  - intros x Hx. apply elem_of_app. by left.
Qed.

(** C15: a watch that starts at a known revision that is not compacted sends
    every event of its prefix from that revision on exactly once and in order:
    the events of the past that its first read finds, and then those of the
    poll loop it subscribed to before that read, without gap or repetition,
    whatever was written between the two. *)
Theorem Watch_complete grow comp p0 h0 s envs prefix minRevision values :
  read_run dir grow comp p0 h0 s envs -> 0 <= minRevision <= int64_max -> watch_after minRevision <= p0 ->
  watch_after minRevision = 0 \/ comp <= watch_after minRevision ->
  exists s2 h2 p2 R sent, since dir comp h0 p0 s2 h2 p2 /\ p0 <= R <= p2 /\
    Watch f envs prefix minRevision values s = (Some (Ok (mkWatchResult 0 0 None, sent)), s2) /\
    forall ext start cursor, StronglySorted rev_lt (h2 ++ ext) -> Forall (fun e => p2 < e.1) ext ->
      start <= p0 -> stream (h2 ++ ext) start cursor values ->
      core <$> mjoin sent =
      record_core <$> taken (fun key => doesEventHavePrefix key (watch_prefix prefix))
                        (rev_todo (h2 ++ ext) (watch_after minRevision) (Some (Z.max R cursor))).
Proof. apply Watch_sends. Qed.

(** A watch from a compacted revision reports the compaction revision
    and sends nothing. *)
Theorem Watch_compacted grow comp p0 h0 s envs prefix minRevision values :
  read_run dir grow comp p0 h0 s envs -> 0 < watch_after minRevision < comp ->
  exists s2 h2 p2 current, since dir comp h0 p0 s2 h2 p2 /\
    Watch f envs prefix minRevision values s = (Some (Ok (mkWatchResult current comp None, [])), s2).
Proof.
  intros Hrun Hlow. destruct (read_run_first _ _ _ _ _ _ _ Hrun) as (te1 & envs2 & -> & Hte).
  destruct Hrun as [HR Hup Hreads _].
  rewrite bind_cons in Hreads. apply reads_ok_take in Hreads.
  set (takeKey := fun key => doesEventHavePrefix key (watch_prefix prefix)).
  set (y := watch_after minRevision) in *. set (c := newAfterCollector f y true 0 takeKey).
  pose proof (R_compact _ _ _ _ HR) as [Hcmax _].
  assert (Hbody : forall rv budget s2 h2, Repr dir s2 h2 comp ->
    exists c2, batch_body (after_range dir y) (mkBatchEnv budget None) (begin_tr s2 rv) c = (Err ErrCompacted, c2) /\
      ac_compactRevision (postBatch c2) = comp).
  { intros rv budget s2 h2 HR2.
    destruct (after_body dir s2 h2 comp rv budget y c Hmode HR2 ltac:(lia) eq_refl) as (D & rest & res & -> & _).
    unfold after_done, c. cbn. rewrite (proj2 (Z.ltb_lt 0 y)), (proj2 (Z.ltb_lt y comp)) by lia.
    cbn [andb rbind]. eexists. by split. }
  rewrite <-(app_nil_r (te_attempts te1)) in Hreads.
  destruct (processBatch_since dir comp grow h0 p0 te1 [] s h0 p0 (after_range dir y) c _ Hte
    (since_refl _ _ _ _ _ HR Hup) Hreads ltac:(reflexivity)) as (a & s2 & h2 & _ & _ & Hs2 & _ & _ & Hbatch).
  { intros a s2 h2 Hs2 _. destruct (Hbody (at_read_version a) (b_budget (at_env a)) s2 h2 (sn_repr _ _ _ _ _ _ _ Hs2))
      as (c2 & Hb & _). unfold no_fault. by rewrite Hb. }
  destruct (Hbody (at_read_version a) (b_budget (at_env a)) s2 h2 (sn_repr _ _ _ _ _ _ _ Hs2)) as (c2 & Hb & Hcr).
  unfold no_fault in Hbatch. rewrite Hb in Hbatch. cbn [res_map] in Hbatch.
  eexists s2, h2, (at_read_version a), _. split; [done|].
  unfold Watch. fold (watch_prefix prefix) (watch_after minRevision) takeKey y. unfold afterAll.
  change (afterRevisionSelector f y) with (after_range dir y). cbn [processRange].
  change (mkSelectorRange (Begin ?r) (End ?r)) with r. fold c. rewrite Hbatch.
  rewrite decide_True by done. cbn [ar_compactRevision ar_currentRevision]. by rewrite Hcr.
Qed.
End Watching.

(** * Runs *)

(** A pass of the loop whose registration commits, and one whose batch fails
    once and then is cut short; another client writes before the second. *)
Definition sample_register (others : gmap bytes bytes -> gmap bytes bytes) (rv : Z) : TransactEnv unit :=
  mkTransactEnv None [mkAttempt others tt None rv Committed rv 0 false None].

Definition sample_polls : list (TransactEnv unit * TransactEnv BatchEnv) :=
  [(sample_register id 12,
    mkTransactEnv None [read_attempt id 12 5 (Some (1%nat, 1007)); read_attempt id 12 1 None]);
   (sample_register id 12, mkTransactEnv None [read_attempt sample_other 15 8 None])].

Lemma sample_polls_ok : polls_ok (KV := map_store) (CF := sample_config) sample_dir 0 1 12 sample_polls.
Proof.
  assert (Hid : forall p rv s h, Repr sample_dir s h 0 -> exists ext : history,
    Repr sample_dir (id s) (h ++ ext) 0 /\ (length ext <= 1)%nat /\ Forall (fun e => p < e.1 <= rv) ext).
  { intros p rv s h HR. exists []. rewrite app_nil_r. split_and!; [done|cbn; lia|constructor]. }
  assert (Hreg : forall s h, Repr sample_dir s h 0 -> Forall (fun e => e.1 <= 12) h ->
    exists r s2 h2, transact watch_body (sample_register id 12) s tt = (Some r, s2, tt) /\
      since sample_dir 0 h 12 s2 h2 12).
  { intros s h HR Hup. eexists _, s, h. split; [reflexivity|]. by apply since_refl. }
  exists 12, 12. split; [exact Hreg|]. split.
  { split; [done|]. exists [read_attempt id 12 5 (Some (1%nat, 1007))], (read_attempt id 12 1 None).
    split_and!; try done. by apply Forall_singleton. }
  split. { cbn. split_and!; try lia; intros; by apply Hid. }
  split; [lia|]. split; [repeat apply Forall_cons_2; [cbn; lia..|apply Forall_nil_2]|].
  exists 12, 15. split; [exact Hreg|]. split.
  { split; [done|]. exists [], (read_attempt sample_other 15 8 None). by split_and!. }
  split; [|split; [lia|split; [apply Forall_singleton; cbn; lia|cbn; unfold int64_max; lia]]].
  cbn. split_and!; try lia. intros s h HR Hup. exists [(14, sample_tombstone)]. split_and!.
  - apply sample_other_repr; [done|]. eapply Forall_impl; [exact Hup|]. cbn. lia.
  - cbn. lia.
  - apply Forall_singleton. cbn. lia.
Qed.

Lemma poll_exactly_once_witness :
  exists st2 s2 h2 p2,
    poll (openSubspaces sample_dir) sample_polls (poll_start 4) sample_store = (Some st2, s2) /\
    since sample_dir 0 sample_history 12 s2 h2 p2 /\ 4 <= ps_lastWatchRev st2 /\
    core <$> mjoin (ps_result st2) = record_core <$> rev_todo h2 4 (Some (ps_lastWatchRev st2)).
Proof.
  apply (poll_exactly_once (KV := map_store) (CF := sample_config) sample_dir eq_refl 0 1 sample_polls 4
    sample_store sample_history 12).
  - exact sample_repr.
  - by apply (bool_decide_eq_true_1 (Forall (fun e : entry => e.1 <= 12) sample_history)).
  - lia.
  - exact sample_polls_ok.
Defined.

Lemma startWatch_exactly_once_witness :
  exists st1 s1 before st2 s2 after,
    startWatch (CF := sample_config) (openSubspaces sample_dir) (sample_register id 12) 0 sample_store
      = (Some (Ok st1), s1) /\ Repr sample_dir s1 (sample_history ++ before) 0 /\
    poll (CF := sample_config) (openSubspaces sample_dir) sample_polls st1 s1 = (Some st2, s2) /\
    Repr sample_dir s2 ((sample_history ++ before) ++ after) 0 /\
    Forall (fun e => e.1 <= ps_lastWatchRev st1) (sample_history ++ before) /\
    ps_lastWatchRev st1 <= ps_lastWatchRev st2 /\
    core <$> mjoin (ps_result st2) = record_core <$> filter (fun e => e.1 <= ps_lastWatchRev st2) after.
Proof.
  apply (startWatch_exactly_once (KV := map_store) (CF := sample_config) sample_dir eq_refl 0 1 (sample_register id 12)
    sample_polls sample_store sample_history 12 12).
  - exact sample_repr.
  - by apply (bool_decide_eq_true_1 (Forall (fun e : entry => e.1 <= 12) sample_history)).
  - lia.
  - split; [done|]. exists [], (mkAttempt id tt None 12 Committed 12 0 false None). by split_and!.
  - cbn. split_and!; try lia; try done. intros s h HR _. exists []. rewrite app_nil_r. split_and!; [done|cbn; lia|constructor].
  - apply Forall_singleton. cbn. lia.
  - exact sample_polls_ok.
Defined.

Lemma sample_registers others rv : registers (sample_register others rv).
Proof. intros s r s2 [= <- _]. eauto. Qed.

Lemma poll_catches_up_witness :
  exists st2 s2, poll (openSubspaces sample_dir) sample_polls (poll_start 8) sample_store = (Some st2, s2) /\
    (record_core <$> rev_todo sample_history 8 None) `prefix_of` (core <$> mjoin (ps_result st2)).
Proof.
  apply (poll_catches_up (KV := map_store) (CF := sample_config) sample_dir eq_refl 0 1 sample_polls 8
    sample_store sample_history 12).
  - exact sample_repr.
  - by apply (bool_decide_eq_true_1 (Forall (fun e : entry => e.1 <= 12) sample_history)).
  - lia.
  - exact sample_polls_ok.
  - repeat apply Forall_cons_2; [apply sample_registers..|apply Forall_nil_2].
  - vm_compute. lia.
Defined.

Lemma Watch_complete_witness :
  exists s2 h2 p2 R sent, since sample_dir 0 sample_history 12 s2 h2 p2 /\ 12 <= R <= p2 /\
    Watch (openSubspaces sample_dir) sample_scan (str "/") 5 [] sample_store =
      (Some (Ok (mkWatchResult 0 0 None, sent)), s2) /\
    forall ext start cursor, StronglySorted rev_lt (h2 ++ ext) -> Forall (fun e => p2 < e.1) ext ->
      start <= 12 -> stream (h2 ++ ext) start cursor [] ->
      core <$> mjoin sent =
      record_core <$> taken (fun key => doesEventHavePrefix key (watch_prefix (str "/")))
                        (rev_todo (h2 ++ ext) (watch_after 5) (Some (Z.max R cursor))).
Proof.
  apply (Watch_complete (KV := map_store) (CF := sample_config) sample_dir eq_refl 1 0 12 sample_history sample_store
    sample_scan (str "/") 5 []).
  - exact sample_read_run.
  - unfold int64_max. lia.
  - vm_compute. discriminate.
  - right. vm_compute. discriminate.
Defined.

Lemma Watch_compacted_witness :
  exists s2 h2 p2 current, since sample_dir 6 sample_history 12 s2 h2 p2 /\
    Watch (openSubspaces sample_dir) (quiet_scan 5) (str "/") 4 [] compacted_store =
      (Some (Ok (mkWatchResult current 6 None, [])), s2).
Proof.
  apply (Watch_compacted (KV := map_store) (CF := sample_config) sample_dir eq_refl 0 6 12 sample_history
    compacted_store (quiet_scan 5) (str "/") 4 []).
  - apply (quiet_read_run 6 compacted_store sample_history).
    + eapply Repr_set_compact; [exact sample_repr|unfold int64_max; lia].
    + by apply (bool_decide_eq_true_1 (Forall (fun e : entry => e.1 <= 12) sample_history)).
  - vm_compute. done.
Defined.
