(* ===== verification/CountSpec.v ===== *)
(** What Count of fdb_read.go and the tracker of fdb_count.go promise: the
    number of live keys of a prefix, by a scan or kept up to date from the
    events of the poll loop. *)
From stdpp Require Import base strings list gmap sorting.
From Stdlib Require Import Strings.Byte ZArith Lia.
From S2P Require Import Prelude FdbApi KeyOrder FdbInstance Util Subspaces SubspaceFacts Transact History Samples RevScan Scan Write Read ReadFacts ScanSpec ReadSpec Counts Watch WatchSpec.

(** * Live keys *)

Section LiveSet.
Context (K : bytes -> Prop) `{!forall k, Decision (K k)}.

Definition live_set (h : history) : gset bytes :=
  filter (fun k => K k /\ is_Some (live (latest h k))) (list_to_set ((fun e : entry => Key e.2) <$> h)).

Lemma elem_of_live_set h k : k ∈ live_set h <-> K k /\ is_Some (live (latest h k)).
Proof.
  unfold live_set. rewrite elem_of_filter, elem_of_list_to_set, list_elem_of_fmap.
  split; [tauto|]. intros [HK Hl]. split; [done|]. destruct Hl as [e He].
  apply live_Some in He as [He _]. apply latest_Some in He as [Hin Hk]. by exists e.
Qed.

(** The number of keys of [K] live at a revision. *)
Definition live_count (R : Z) (h : history) : Z := Z.of_nat (length (live_list K R h)).

Lemma live_list_set R h :
  StronglySorted rev_lt h -> live_set (upto R h) = list_to_set ((fun e : entry => Key e.2) <$> live_list K R h).
Proof.
  intros Hs. apply set_eq. intros k. rewrite elem_of_live_set, elem_of_list_to_set, list_elem_of_fmap.
  unfold live_list. setoid_rewrite list_elem_of_filter. setoid_rewrite elem_of_by_key. split.
  - intros [HK [e He]]. pose proof He as Hin. apply live_Some in Hin as [Hin _].
    apply latest_Some in Hin as [[_ Hin]%list_elem_of_filter Hk]. exists e. rewrite Hk. done.
  - intros (e & -> & [HK He] & _). eauto.
Qed.

Lemma live_count_size R h :
  StronglySorted rev_lt h -> live_count R h = Z.of_nat (size (live_set (upto R h))).
Proof.
  intros Hs. rewrite live_list_set, size_list_to_set; [by unfold live_count; rewrite length_fmap| |done].
  apply NoDup_fmap_2_strong.
  - unfold live_list. intros x y [[_ Hx] _]%list_elem_of_filter [[_ Hy] _]%list_elem_of_filter Hk. congruence.
  - apply NoDup_filter. unfold by_key. rewrite merge_sort_Permutation. by apply (ssorted_NoDup rev_lt).
Qed.

(** What an event adds to the count. *)
Definition delta (e : entry) : Z :=
  if bool_decide (K (Key e.2)) then
    if IsCreate e.2 then 1 else if IsDelete e.2 then -1 else 0
  else 0.

(** A key is created when it is not live, updated and deleted when it is. *)
Definition event_ok (h : history) (e : entry) : Prop :=
  IsCreate e.2 && IsDelete e.2 = false /\ (IsCreate e.2 = true <-> live (latest h (Key e.2)) = None).

Lemma live_set_step h e :
  event_ok h e -> Z.of_nat (size (live_set (h ++ [e]))) = Z.of_nat (size (live_set h)) + delta e.
Proof.
  intros [Hcd Hc]. unfold delta. set (k := Key e.2) in *.
  assert (Hother : forall x, x <> k -> x ∈ live_set (h ++ [e]) <-> x ∈ live_set h).
  { intros x Hx. rewrite !elem_of_live_set, latest_app, decide_False by done. done. }
  assert (Hthis : k ∈ live_set (h ++ [e]) <-> K k /\ IsDelete e.2 = false).
  { rewrite elem_of_live_set, latest_app, decide_True by done. cbn. destruct (IsDelete e.2).
    - split; [intros [_ [? [=]]]|by intros [_ [=]]].
    - split; intros [HK _]; eauto. }
  assert (Hold : k ∈ live_set h <-> K k /\ IsCreate e.2 = false).
  { rewrite elem_of_live_set. destruct (IsCreate e.2).
    - rewrite (proj1 Hc eq_refl). split; [intros [_ [? [=]]]|by intros [_ [=]]].
    - split; intros [HK _]; [done|]. split; [done|]. destruct (live (latest h k)); [eauto|].
      by specialize (proj2 Hc eq_refl). }
  assert (Hsame : (k ∈ live_set (h ++ [e]) <-> k ∈ live_set h) -> live_set (h ++ [e]) = live_set h).
  { intros Hk. apply set_eq. intros x. destruct (decide (x = k)) as [->|Hx]; [done|by apply Hother]. }
  case_bool_decide as HK; [destruct (IsCreate e.2) eqn:Ec; [|destruct (IsDelete e.2) eqn:Ed]|].
  - replace (live_set (h ++ [e])) with ({[k]} ∪ live_set h).
    + rewrite size_union, size_singleton; [lia|]. apply disjoint_singleton_l. rewrite Hold. by intros [_ [=]].
    + apply set_eq. intros x. rewrite elem_of_union, elem_of_singleton. destruct (decide (x = k)) as [->|Hx].
      * rewrite Hthis. destruct (IsDelete e.2); [done|]. tauto.
      * rewrite Hother by done. tauto.
  - replace (live_set h) with ({[k]} ∪ live_set (h ++ [e])).
    + rewrite size_union, size_singleton; [lia|]. apply disjoint_singleton_l. rewrite Hthis. by intros [_ [=]].
    + apply set_eq. intros x. rewrite elem_of_union, elem_of_singleton. destruct (decide (x = k)) as [->|Hx].
      * rewrite Hold. tauto.
      * rewrite Hother by done. tauto.
  - rewrite Hsame; [lia|]. rewrite Hthis, Hold. tauto.
  - rewrite Hsame; [lia|]. rewrite Hthis, Hold. tauto.
Qed.

Definition deltas (l : list entry) : Z := foldr (fun e n => delta e + n) 0 l.

Lemma deltas_app l l2 : deltas (l ++ l2) = deltas l + deltas l2.
Proof. unfold deltas. induction l as [|e l IH]; cbn; [done|]. rewrite IH. lia. Qed.

(** The events after a revision follow the life cycle of keys. *)
Definition lifecycle (R : Z) (h : history) : Prop :=
  forall h1 e h2, h = h1 ++ e :: h2 -> R < e.1 -> event_ok h1 e.

Lemma live_set_deltas R h D :
  lifecycle R (h ++ D) -> Forall (fun e => R < e.1) D ->
  Z.of_nat (size (live_set (h ++ D))) = Z.of_nat (size (live_set h)) + deltas D.
Proof.
  induction D as [|e D IH] using rev_ind; intros Hl HD; [rewrite app_nil_r; cbn; lia|].
  apply Forall_app in HD as [HD He]. rewrite Forall_singleton in He. rewrite app_assoc in Hl |- *.
  assert (Hstep : event_ok (h ++ D) e) by (apply (Hl (h ++ D) e []); [done|exact He]). rewrite live_set_step by done. rewrite IH, deltas_app; [cbn; lia| |done].
  intros h1 x h2 Hh Hx. apply (Hl h1 x (h2 ++ [e])); [|done]. rewrite Hh, <-app_assoc. done.
Qed.

(** The counts at two revisions differ by the events between them. *)
Lemma live_count_next R1 R2 h :
  StronglySorted rev_lt h -> lifecycle R1 h -> R1 <= R2 ->
  live_count R2 h = live_count R1 h + deltas (rev_todo h R1 (Some R2)).
Proof.
  intros Hs Hl Hle. rewrite !live_count_size by done.
  assert (Hsplit : upto R2 h = upto R1 h ++ rev_todo h R1 (Some R2)).
  { apply (ssorted_ext rev_lt); [by apply (ssorted_filter rev_lt)| |].
    - apply StronglySorted_app. split; [|split; apply (ssorted_filter rev_lt), Hs].
      intros x y [Hx _]%list_elem_of_filter [[Hy _] _]%list_elem_of_filter. unfold rev_lt. lia.
    - intros x. rewrite elem_of_app. unfold upto, rev_todo. rewrite !list_elem_of_filter. unfold in_revs.
      destruct (Z.le_gt_cases x.1 R1); split; intuition lia. }
  rewrite Hsplit. apply (live_set_deltas R1).
  - intros h1 x h2 Hh Hx.
    assert (Hfull : exists rest, h = h1 ++ x :: rest).
    { assert (Hpre : upto R2 h `prefix_of` h).
      { clear -Hs. induction Hs as [|e h Hs IH He]; [done|]. unfold upto. rewrite filter_cons. case_decide as Hd.
        - by apply prefix_cons.
        - rewrite filter_none; [apply prefix_nil|]. rewrite Forall_forall in He.
          intros y Hy. specialize (He y Hy). unfold rev_lt in He. lia. }
      rewrite Hsplit, Hh in Hpre. destruct Hpre as [k Hk]. exists (h2 ++ k). rewrite Hk, <-app_assoc. done. }
    destruct Hfull as [rest Hrest]. by apply (Hl h1 x rest).
  - rewrite Forall_forall. intros x [[Hx _] _]%list_elem_of_filter. done.
Qed.
End LiveSet.

(** * Counting by a scan *)

Section CountScan.
Context `{FB : FdbBindings, KV : KVStore, CF : Config}.
Context (dir : bytes).
Abbreviation f := (openSubspaces dir).

Definition count_good (P X : list entry) (c : countCollector) : Prop :=
  totalCount c = to_int64 (Z.of_nat (length P + length X)).

Lemma push_all_count ps c n :
  batchCount c = to_int64 n ->
  push_all ps c = mkCountCollector (totalCount c) (to_int64 (n + Z.of_nat (length ps))).
Proof.
  revert c n; induction ps as [|p ps IH]; intros c n Hn.
  - cbn. rewrite Z.add_0_r, <-Hn. by destruct c.
  - change (push_all (p :: ps) c) with (push_all ps (push (bk_of p) c)).
    rewrite (IH _ (n + 1)).
    + cbn [totalCount push countCollector_acc]. do 2 f_equal. rewrite length_cons. lia.
    + cbn [batchCount push countCollector_acc]. by rewrite Hn, to_int64_add.
Qed.

#[global] Instance countCollector_inner : InnerSpec dir countCollector (fun _ => true) count_good.
Proof.
  split; [apply _..|done|done|].
  intros P c h comp tr isLast ps xs _ Hg _ _. rewrite (push_all_count _ _ 0) by done.
  eexists. split; [reflexivity|]. unfold count_good in *.
  cbn [postBatch countCollector_Processor totalCount startBatch batchCount]. rewrite Hg.
  rewrite to_int64_add, Z.add_comm, to_int64_add. f_equal.
  rewrite !length_app, !length_fmap. cbn. lia.
Qed.
End CountScan.

(** * The tracker *)

(** An event counts for a prefix when a scan of the prefix finds its key. *)
Lemma doesEventHavePrefix_scan key prefix :
  doesEventHavePrefix key prefix = bool_decide (scan_keys prefix prefix key).
Proof.
  unfold doesEventHavePrefix. apply eq_true_iff_eq.
  rewrite orb_true_iff, andb_true_iff, !bool_decide_eq_true. unfold scan_keys.
  destruct (has_slash_suffix prefix); [rewrite decide_True by done|naive_solver].
  split; [|tauto]. by intros [[_ ?]| ->].
Qed.

Abbreviation counted prefix := (scan_keys prefix prefix).

(** What a count entry holds: the number of keys live at the cursor, or at
    its seed revision when that is newer. *)
Definition tracker_ok (h : history) (p cursor : Z) (t : countTracker) : Prop :=
  map_Forall (fun prefix e => ce_seedRev e <= p /\
    ce_count e = to_int64 (live_count (counted prefix) (Z.max cursor (ce_seedRev e)) h)) t.

Lemma tracker_ok_empty h p cursor : tracker_ok h p cursor ∅.
Proof. apply map_Forall_empty. Qed.

Section Tracker.
Context `{FB : FdbBindings, KV : KVStore, CF : Config}.

Lemma apply_event_lookup t event e prefix n r :
  core event = record_core e -> t !! prefix = Some (mkCountEntry (to_int64 n) r) ->
  apply_event t event !! prefix =
  Some (mkCountEntry (to_int64 (n + if r <? e.1 then delta (counted prefix) e else 0)) r).
Proof.
  intros Hc Ht. unfold core, record_core in Hc. destruct event as [d c kv prev]. cbn in Hc.
  injection Hc as -> -> ->. unfold apply_event, apply_entry, delta. cbn [ev_Create ev_Delete ev_KV event_of kv_ModRevision kv_Key].
  destruct (negb (IsCreate e.2) && negb (IsDelete e.2)) eqn:E.
  { rewrite andb_true_iff, !negb_true_iff in E. destruct E as [-> ->].
    rewrite Ht. do 3 f_equal. destruct (r <? e.1), (bool_decide (counted prefix (Key e.2))); lia. }
  rewrite map_lookup_imap, Ht. cbn [mbind option_bind ce_seedRev ce_count]. f_equal.
  rewrite doesEventHavePrefix_scan, Z.leb_antisym. destruct (r <? e.1); cbn [negb orb]; [|by rewrite Z.add_0_r].
  destruct (bool_decide (counted prefix (Key e.2))); cbn [negb]; [|by rewrite Z.add_0_r].
  destruct (IsCreate e.2); [by rewrite to_int64_add|]. destruct (IsDelete e.2); [|done].
  unfold Z.sub. by rewrite to_int64_add.
Qed.

Lemma apply_event_None t event prefix : t !! prefix = None -> apply_event t event !! prefix = None.
Proof.
  intros Ht. unfold apply_event. destruct (_ && _); [done|]. by rewrite map_lookup_imap, Ht.
Qed.

Lemma apply_fold t events : apply t events = fold_left apply_event events t.
Proof.
  unfold apply. case_decide as Ht; [|done]. subst t. induction events as [|e events IH]; [done|]. cbn [fold_left].
  assert (E : apply_event ∅ e = ∅) by (unfold apply_event; destruct (_ && _); [done|apply map_imap_empty]).
  by rewrite E.
Qed.

Lemma apply_None t events prefix : t !! prefix = None -> apply t events !! prefix = None.
Proof.
  rewrite apply_fold. revert t; induction events as [|e events IH]; intros t Ht; [done|].
  cbn [fold_left]. by apply IH, apply_event_None.
Qed.

(** A batch of events at an entry. *)
Lemma apply_lookup t events D prefix n r :
  core <$> events = record_core <$> D -> t !! prefix = Some (mkCountEntry (to_int64 n) r) ->
  apply t events !! prefix =
  Some (mkCountEntry (to_int64 (n + deltas (counted prefix) (filter (fun e => r < e.1) D))) r).
Proof.
  rewrite apply_fold. revert t D n; induction events as [|event events IH]; intros t D n HD Ht.
  - destruct D; [|done]. cbn. by rewrite Z.add_0_r.
  - destruct D as [|e D]; [done|]. rewrite !fmap_cons in HD.
    pose proof (inj Some _ _ (f_equal head HD : Some (core event) = Some (record_core e))) as He.
    pose proof (f_equal tail HD : core <$> events = record_core <$> D) as HD2.
    cbn [fold_left]. rewrite (IH _ D _ HD2 (apply_event_lookup _ _ _ _ _ _ He Ht)), filter_cons.
    do 3 f_equal. destruct (Z.ltb_spec r e.1).
    + rewrite decide_True by done. change (deltas ?K (e :: ?l)) with (delta K e + deltas K l). lia.
    + rewrite decide_False by lia. lia.
Qed.

Lemma lifecycle_le R R2 h : R <= R2 -> lifecycle R h -> lifecycle R2 h.
Proof. intros Hle Hl h1 e h2 Hh He. apply (Hl h1 e h2); [done|lia]. Qed.

(** A pass of the loop keeps the counts exact. *)
Lemma tracker_pass h p cursor cursor2 t events :
  StronglySorted rev_lt h -> lifecycle cursor h -> cursor <= cursor2 -> tracker_ok h p cursor t ->
  core <$> events = record_core <$> rev_todo h cursor (Some cursor2) ->
  tracker_ok h p cursor2 (apply t events).
Proof.
  intros Hs Hl Hle Hok HD prefix e2 He2. destruct (t !! prefix) as [[n r]|] eqn:Et.
  - destruct (Hok prefix _ Et) as [Hr Hn]. cbn in Hr, Hn. subst n.
    rewrite (apply_lookup _ _ _ _ _ _ HD Et) in He2. injection He2 as <-. cbn [ce_seedRev ce_count].
    split; [done|]. f_equal. rewrite (live_count_next _ (Z.max cursor r) (Z.max cursor2 r)); try done; [|eapply lifecycle_le; [|done]; lia|lia].
    f_equal. f_equal. unfold rev_todo. rewrite list_filter_filter. apply list_filter_iff.
    intros x. unfold in_revs. lia.
  - by rewrite apply_None in He2.
Qed.

Lemma live_count_extend K `{!forall k, Decision (K k)} R h ext :
  StronglySorted rev_lt (h ++ ext) -> Forall (fun x => R < x.1) ext ->
  live_count K R (h ++ ext) = live_count K R h.
Proof.
  intros Hs Hext. rewrite !live_count_size; [|by eapply StronglySorted_app_1_l|done].
  by rewrite upto_newer.
Qed.

(** Other clients write. *)
Lemma tracker_since dir comp h p cursor t s2 h2 p2 :
  cursor <= p -> tracker_ok h p cursor t -> since dir comp h p s2 h2 p2 -> tracker_ok h2 p2 cursor t.
Proof.
  intros Hcur Hok [HR (ext & -> & Hext) Hle _] prefix e He. destruct (Hok prefix e He) as [Hr Hn].
  split; [lia|]. rewrite live_count_extend; [done|apply HR|]. eapply Forall_impl; [exact Hext|]. cbn. lia.
Qed.

(** A scan seeds an exact entry when the loop has not passed its revision. *)
Lemma tracker_seed h p cursor t prefix rv :
  cursor <= rv <= p -> tracker_ok h p cursor t ->
  tracker_ok h p cursor (seed t prefix (to_int64 (live_count (counted prefix) rv h)) rv).
Proof.
  intros Hrv Hok. unfold seed. destruct (t !! prefix); [done|].
  apply map_Forall_insert_2; [|done]. cbn. split; [lia|]. do 2 f_equal. lia.
Qed.
End Tracker.

(** * The tracker beside the loop *)

Section Counting.
Context `{FB : FdbBindings, KV : KVStore, CF : Config}.
Context (dir : bytes) (Hmode : UseSequentialId = false) (comp : Z) (grow : nat).
Abbreviation f := (openSubspaces dir).

(** A pass applies to the counts what it sends. *)
Lemma poll_step_counts register te st s st2 s2 :
  poll_step f register te st s = (Some st2, s2) ->
  exists new, mjoin (ps_result st2) = mjoin (ps_result st) ++ new /\ ps_counts st2 = apply (ps_counts st) new.
Proof.
  assert (Hnone : exists new, mjoin (ps_result st) = mjoin (ps_result st) ++ new /\ ps_counts st = apply (ps_counts st) new).
  { exists []. rewrite app_nil_r, apply_fold. done. }
  unfold poll_step. destruct (transact _ _ _ _) as [[[[[[] stamp]|e|]|] s1] u]; try by intros [= <- <-].
  destruct (afterBatch _ _ _ _ _) as [[[[r [|e events]]|e|]|] s3]; try by intros [= <- <-].
  intros [= <- <-]. exists (e :: events). split; [|done]. cbn [ps_result]. rewrite join_app.
  change (mjoin [?l]) with (l ++ []). by rewrite app_nil_r.
Qed.

Lemma poll_step_tracker register te st s st2 s2 start h p h2 p2 :
  poll_step f register te st s = (Some st2, s2) ->
  poll_inv dir comp start s h p st -> poll_inv dir comp start s2 h2 p2 st2 -> since dir comp h p s2 h2 p2 ->
  ps_lastWatchRev st <= ps_lastWatchRev st2 -> lifecycle start h2 ->
  tracker_ok h p (ps_lastWatchRev st) (ps_counts st) ->
  tracker_ok h2 p2 (ps_lastWatchRev st2) (ps_counts st2).
Proof.
  intros Hstep Hinv Hinv2 Hs2 Hle Hl Hok.
  destruct (poll_step_counts _ _ _ _ _ _ Hstep) as (new & Hnew & ->).
  destruct (pi_cursor _ _ _ _ _ _ _ Hinv) as [Hst Hcur].
  pose proof (R_sorted _ _ _ _ (sn_repr _ _ _ _ _ _ _ Hs2)) as Hsort.
  apply (tracker_pass h2 p2 (ps_lastWatchRev st)); [done| |done| |].
  - eapply lifecycle_le; [|exact Hl]. lia.
  - by eapply tracker_since.
  - pose proof (pi_sent _ _ _ _ _ _ _ Hinv2) as Hsent.
    pose proof (pi_sent _ _ _ _ _ _ _ (poll_inv_since _ _ _ _ _ _ _ _ _ _ Hinv Hs2)) as Hbefore.
    rewrite Hnew, fmap_app, Hbefore in Hsent.
    rewrite (rev_todo_next h2 start (ps_lastWatchRev st) (ps_lastWatchRev st2)
               (rev_todo h2 (ps_lastWatchRev st) (Some (ps_lastWatchRev st2)))) in Hsent;
      [|done|by apply rev_todo_sorted|lia|lia|intros x; by rewrite elem_of_rev_todo].
    rewrite fmap_app in Hsent. by apply app_inv_head in Hsent.
Qed.

Lemma lifecycle_prefix R h ext : lifecycle R (h ++ ext) -> lifecycle R h.
Proof.
  intros Hl h1 e h2 Hh He. apply (Hl h1 e (h2 ++ ext)); [|done]. by rewrite Hh, <-app_assoc.
Qed.

Lemma poll_tracker envs start s h p st :
  poll_inv dir comp start s h p st ->
  (lifecycle start h -> tracker_ok h p (ps_lastWatchRev st) (ps_counts st)) ->
  polls_ok dir comp grow p envs ->
  exists st2 s2 h2 p2, poll f envs st s = (Some st2, s2) /\ since dir comp h p s2 h2 p2 /\
    ps_lastWatchRev st <= ps_lastWatchRev st2 /\
    (lifecycle start h2 -> tracker_ok h2 p2 (ps_lastWatchRev st2) (ps_counts st2)).
Proof.
  revert s h p st; induction envs as [|[register te] rest IH]; intros s h p st Hinv Hok Hpolls.
  - exists st, s, h, p. split; [done|]. split; [|done].
    apply since_refl; [apply (pi_repr _ _ _ _ _ _ _ Hinv)|apply (pi_upto _ _ _ _ _ _ _ Hinv)].
  - destruct (poll_step_spec dir Hmode comp grow _ _ _ _ _ _ _ _ Hpolls Hinv)
      as (st1 & s1 & h1 & p1 & Hstep & Hinv1 & Hs1 & Hrest & Hle & _).
    destruct (IH s1 h1 p1 st1 Hinv1) as (st2 & s2 & h2 & p2 & Hpoll & Hs2 & Hle2 & Hok2); [|done|].
    { intros Hl. eapply poll_step_tracker; try done. apply Hok.
      destruct Hs1 as [_ (ext & -> & _) _ _]. by eapply lifecycle_prefix. }
    exists st2, s2, h2, p2. cbn [poll]. rewrite Hstep. split; [done|]. split; [by eapply since_trans|].
    split; [lia|done].
Qed.

(** C22: the counts of the tracker follow the poll loop: after any passes,
    every entry holds the number of live keys of its prefix at the loop's
    cursor (at its seed revision while the loop has not reached it), when the
    events since the start create only keys that are not live and update and
    delete only live ones. *)
Theorem poll_counts_exact envs start s h p st :
  poll_inv dir comp start s h p st -> tracker_ok h p (ps_lastWatchRev st) (ps_counts st) ->
  polls_ok dir comp grow p envs ->
  exists st2 s2 h2 p2, poll f envs st s = (Some st2, s2) /\ since dir comp h p s2 h2 p2 /\
    ps_lastWatchRev st <= ps_lastWatchRev st2 /\
    (lifecycle start h2 -> tracker_ok h2 p2 (ps_lastWatchRev st2) (ps_counts st2)).
Proof. intros Hinv Hok Hpolls. by apply poll_tracker. Qed.

(** ** Count *)

(** The count is not served from the tracker. *)
Definition uncached (t : countTracker) (prefix startKey : bytes) (revision : Z) (pollActive : bool) (cursor : Z) : Prop :=
  revision <> 0 \/ prefix <> startKey \/ pollActive = false \/
  match t !! prefix with Some e => cursor < ce_seedRev e | None => True end.

(** The tracker after a count by a scan. *)
Definition seeded (t : countTracker) (prefix startKey : bytes) (revision : Z) (pollActive : bool) (n rv : Z) : countTracker :=
  if (revision =? 0) && bool_decide (prefix = startKey) && pollActive then seed t prefix n rv else t.

Lemma Count_scans envs prefix startKey revision pollActive cursor meanwhile t s :
  uncached t prefix startKey revision pollActive cursor ->
  Count f envs prefix startKey revision pollActive cursor meanwhile t s =
  match listWithCollector f envs prefix startKey revision (mkCountCollector 0 0) s with
  | (Some (Ok rv), s, c) =>
      (Some (Ok (rv, totalCount c)), s, seeded (meanwhile t) prefix startKey revision pollActive (totalCount c) rv)
  | (Some (Err e), s, _) => (Some (Err e), s, meanwhile t)
  | (Some Panic, s, _) => (Some Panic, s, meanwhile t)
  | (None, s, _) => (None, s, meanwhile t)
  end.
Proof.
  intros Hun. unfold Count, seeded, counts_get, uncached in *.
  destruct (t !! prefix) as [e|]; cbn zeta beta iota.
  - assert (Hno : (revision =? 0) && bool_decide (prefix = startKey) && pollActive && true && (ce_seedRev e <=? cursor) = false).
    { destruct (Z.eqb_spec revision 0); [|done]. case_bool_decide; [|done].
      destruct pollActive; [|done]. cbn. apply Z.leb_gt. naive_solver. }
    by rewrite Hno.
  - by rewrite andb_false_r.
Qed.

Context (p0 : Z) (h0 : history) (s : store) (envs : list (TransactEnv BatchEnv)).
Context (Hrun : read_run dir grow comp p0 h0 s envs).

Lemma count_scan prefix startKey revision :
  has_slash_suffix prefix = true \/ startKey = prefix ->
  revision = 0 \/ 0 < revision /\ comp <= revision <= p0 ->
  exists rv h1 s2 h2 c2, snapshot dir comp p0 h0 envs rv h1 s2 h2 /\
    totalCount c2 = to_int64 (live_count (scan_keys prefix startKey) (read_at revision rv) h1) /\
    listWithCollector f envs prefix startKey revision (mkCountCollector 0 0) s = (Some (Ok rv), s2, c2).
Proof.
  intros Hargs Hrev.
  destruct (listWithCollector_spec dir Hmode (good := count_good) grow comp p0 h0 s envs Hrun
    prefix startKey revision (mkCountCollector 0 0))
    as (rv & h1 & s2 & h2 & P & X & c2 & Hsnap & Hgood & (_ & _ & _ & Hres) & Heq); [done|tauto|done..|].
  pose proof (snapshot_reached _ _ _ _ _ _ _ Hrun _ _ _ _ _ Hsnap Hrev) as Hle.
  exists rv, h1, s2, h2, c2. split; [done|]. rewrite (proj2 (Z.ltb_ge rv revision)) in Heq by done.
  split; [|done]. destruct Hres as [[-> ->]|]; [|done]. rewrite Hgood. unfold live_count.
  rewrite read_at_window by done. f_equal. cbn. lia.
Qed.

(** C20: a count that is not served from the tracker is the number of keys
    that were live at one revision, together with the revision of the scan's
    first transaction, and it seeds the tracker when it may. *)
Theorem Count_snapshot prefix startKey revision pollActive cursor meanwhile t :
  has_slash_suffix prefix = true \/ startKey = prefix ->
  revision = 0 \/ 0 < revision /\ comp <= revision <= p0 ->
  uncached t prefix startKey revision pollActive cursor ->
  exists rv h1 s2 h2, snapshot dir comp p0 h0 envs rv h1 s2 h2 /\
    let n := to_int64 (live_count (scan_keys prefix startKey) (read_at revision rv) h1) in
    Count f envs prefix startKey revision pollActive cursor meanwhile t s =
      (Some (Ok (rv, n)), s2, seeded (meanwhile t) prefix startKey revision pollActive n rv).
Proof.
  intros Hargs Hrev Hun. destruct (count_scan prefix startKey revision Hargs Hrev)
    as (rv & h1 & s2 & h2 & c2 & Hsnap & Hc & Heq).
  exists rv, h1, s2, h2. split; [done|]. cbv zeta. by rewrite Count_scans, Heq, Hc by done.
Qed.

(** C21: a count of a prefix that the passes of the poll loop do not overlap
    is exact, from the tracker or by a scan: it is the number of keys live at
    the revision it returns, and the entries of the tracker stay exact. *)
Theorem Count_exact prefix pollActive cursor t :
  0 <= cursor <= p0 -> tracker_ok h0 p0 cursor t ->
  exists rv n s2 h2 p2 t2,
    Count f envs prefix prefix 0 pollActive cursor id t s = (Some (Ok (rv, n)), s2, t2) /\
    since dir comp h0 p0 s2 h2 p2 /\ rv <= p2 /\
    n = to_int64 (live_count (counted prefix) rv h2) /\ tracker_ok h2 p2 cursor t2.
Proof.
  intros Hcur Hok.
  assert (Hdec : uncached t prefix prefix 0 pollActive cursor \/
    pollActive = true /\ exists e, t !! prefix = Some e /\ ce_seedRev e <= cursor).
  { unfold uncached. destruct pollActive; [|tauto]. destruct (t !! prefix) as [e|]; [|tauto].
    destruct (Z.lt_ge_cases cursor (ce_seedRev e)); eauto 6. }
  destruct Hdec as [Hun|(-> & e & He & Hseed)].
  - destruct (count_scan prefix prefix 0 ltac:(by right) ltac:(by left))
      as (rv & h1 & s2 & h2 & c2 & (Hin & (s1 & Hs1) & (p2 & Hs2)) & Hc & Heq).
    change (read_at 0 rv) with rv in Hc.
    assert (Hcount : live_count (counted prefix) rv h2 = live_count (counted prefix) rv h1).
    { destruct Hs2 as [HR2 (ext & -> & Hext) _ _]. apply live_count_extend; [apply HR2|done]. }
    pose proof (sn_le _ _ _ _ _ _ _ Hs1). pose proof (sn_le _ _ _ _ _ _ _ Hs2).
    exists rv, (totalCount c2), s2, h2, p2, (seeded t prefix prefix 0 pollActive (totalCount c2) rv).
    rewrite Count_scans, Heq by done. split; [done|].
    assert (Hsince : since dir comp h0 p0 s2 h2 p2) by (by eapply since_trans).
    split; [done|]. split; [done|]. rewrite Hc, <-Hcount. split; [done|].
    assert (Hok2 : tracker_ok h2 p2 cursor t) by (eapply tracker_since; [|done..]; lia).
    unfold seeded. destruct (_ && _); [|done]. apply tracker_seed; [lia|done].
  - destruct (Hok prefix e He) as [_ Hn].
    exists cursor, (ce_count e), s, h0, p0, t. split.
    + unfold Count, counts_get. rewrite He, bool_decide_true by done. cbn.
      by rewrite (proj2 (Z.leb_le _ _) Hseed).
    + destruct Hrun as [HR Hup _ _]. split; [by apply since_refl|]. split; [lia|]. split; [|done].
      rewrite Hn. do 2 f_equal. lia.
Qed.
End Counting.

(** * The driver's writes follow the life cycle *)

Lemma event_ok_key h e : event_ok (key_part (Key e.2) h) e <-> event_ok h e.
Proof.
  unfold event_ok, latest, key_part. rewrite list_filter_filter.
  by rewrite (list_filter_iff _ (of_key (Key e.2))) by tauto.
Qed.

(** The events of one key. *)
Definition key_lifecycle (R : Z) (key : bytes) (h : history) : Prop :=
  forall h1 e h2, key_part key h = h1 ++ e :: h2 -> R < e.1 -> event_ok h1 e.

Lemma key_part_split key (h : history) h1 e h2 :
  key_part key h = h1 ++ e :: h2 -> exists g1 g2, h = g1 ++ e :: g2 /\ key_part key g1 = h1.
Proof.
  unfold key_part. revert h1; induction h as [|x h IH]; intros h1 Hh; [by destruct h1|].
  rewrite filter_cons in Hh. case_decide as Hx.
  - destruct h1 as [|y h1]; cbn in Hh; injection Hh as -> Hh.
    + exists [], h. done.
    + destruct (IH h1 Hh) as (g1 & g2 & -> & Hg). exists (y :: g1), g2. split; [done|].
      by rewrite filter_cons, decide_True, Hg.
  - destruct (IH h1 Hh) as (g1 & g2 & -> & Hg). exists (x :: g1), g2. split; [done|].
    by rewrite filter_cons, decide_False.
Qed.

(** It is the keys' own. *)
Lemma lifecycle_keys R h : lifecycle R h <-> forall key, key_lifecycle R key h.
Proof.
  split.
  - intros Hl key h1 e h2 Hh He. pose proof Hh as Hk.
    apply key_part_split in Hh as (g1 & g2 & -> & <-).
    assert (Key e.2 = key) as <-.
    { assert (e ∈ key_part key (g1 ++ e :: g2)) as Hin by (rewrite Hk; apply elem_of_app; right; left).
      by apply list_elem_of_filter in Hin as [? _]. }
    rewrite event_ok_key. by apply (Hl g1 e g2).
  - intros Hk h1 e h2 -> He. rewrite <-event_ok_key.
    apply (Hk (Key e.2) (key_part (Key e.2) h1) e (key_part (Key e.2) h2)); [|done].
    rewrite key_part_app. f_equal. unfold key_part. by rewrite filter_cons, decide_True.
Qed.

Lemma key_lifecycle_write R key h ext e :
  key_lifecycle R key h -> key_part key ext = [e] -> Key e.2 = key -> event_ok h e ->
  key_lifecycle R key (h ++ ext).
Proof.
  intros Hl Hext <- He h1 x h2 Hh Hx. rewrite key_part_app, Hext in Hh.
  destruct h2 as [|y h2 _] using rev_ind.
  - apply app_inj_tail in Hh as [<- <-]. by rewrite event_ok_key.
  - rewrite app_comm_cons, app_assoc in Hh. apply app_inj_tail in Hh as [Hh _]. by apply (Hl h1 x h2).
Qed.

(** What Create, Update and Delete write keeps the life cycle of their
    key that the counts rely on, whatever other clients write to other keys
    meanwhile. *)
Theorem writes_keep_lifecycle `{FB : FdbBindings, CF : Config} R key h ext r record :
  key_lifecycle R key h -> key_part key ext = [(r, record)] ->
  (exists value lease uuid, live (latest h key) = None /\ record = created h key value lease uuid) \/
  (exists e, latest h key = Some e /\ IsDelete e.2 = false /\
     ((exists value lease uuid, record = updated key value lease e uuid) \/
      exists uuid, record = deleted key e uuid)) ->
  key_lifecycle R key (h ++ ext).
Proof.
  intros Hl Hext Hrec. apply (key_lifecycle_write R key h ext (r, record)); [done..| |].
  - destruct Hrec as [(v & l & u & _ & ->)|(e & _ & _ & [(v & l & u & ->)|[u ->]])]; done.
  - destruct Hrec as [(v & l & u & Hlive & ->)|(e & He & Hd & Hrec)].
    + split; [done|]. cbn. split; done.
    + assert (Hlive : live (latest h key) = Some e) by (by rewrite He; cbn; rewrite Hd).
      destruct Hrec as [(v & l & u & ->)|[u ->]]; (split; [done|]); cbn; by rewrite Hlive.
Qed.

(** * Runs *)

Lemma sample_poll_inv :
  poll_inv (KV := map_store) (CF := sample_config) sample_dir 0 4 sample_store sample_history 12
    (mkPollState 4 {[str "/" := mkCountEntry 1 4]} []).
Proof.
  split.
  - exact sample_repr.
  - by apply (bool_decide_eq_true_1 (Forall (fun e : entry => e.1 <= 12) sample_history)).
  - cbn. lia.
  - vm_compute. reflexivity.
Qed.

Lemma poll_counts_exact_witness :
  exists st2 s2 h2 p2,
    poll (openSubspaces sample_dir) sample_polls (mkPollState 4 {[str "/" := mkCountEntry 1 4]} []) sample_store =
      (Some st2, s2) /\
    since sample_dir 0 sample_history 12 s2 h2 p2 /\ 4 <= ps_lastWatchRev st2 /\
    (lifecycle 4 h2 -> tracker_ok h2 p2 (ps_lastWatchRev st2) (ps_counts st2)).
Proof.
  apply (poll_counts_exact (KV := map_store) (CF := sample_config) sample_dir eq_refl 0 1 sample_polls 4
    sample_store sample_history 12 (mkPollState 4 {[str "/" := mkCountEntry 1 4]} [])).
  - exact sample_poll_inv.
  - apply map_Forall_singleton. vm_compute. done.
  - exact sample_polls_ok.
Defined.

Lemma Count_snapshot_witness :
  exists rv h1 s2 h2, snapshot sample_dir 0 12 sample_history sample_scan rv h1 s2 h2 /\
    let n := to_int64 (live_count (scan_keys (str "/") (str "/")) (read_at 6 rv) h1) in
    Count (openSubspaces sample_dir) sample_scan (str "/") (str "/") 6 true 9 id newCountTracker sample_store =
      (Some (Ok (rv, n)), s2, seeded newCountTracker (str "/") (str "/") 6 true n rv).
Proof.
  apply (Count_snapshot (KV := map_store) (CF := sample_config) sample_dir eq_refl 0 1 12 sample_history
    sample_store sample_scan sample_read_run (str "/") (str "/") 6 true 9 id newCountTracker).
  - by left.
  - lia.
  - by left.
Defined.

Lemma Count_exact_witness :
  exists rv n s2 h2 p2 t2,
    Count (openSubspaces sample_dir) sample_scan (str "/") (str "/") 0 true 4 id newCountTracker sample_store =
      (Some (Ok (rv, n)), s2, t2) /\
    since sample_dir 0 sample_history 12 s2 h2 p2 /\ rv <= p2 /\
    n = to_int64 (live_count (counted (str "/")) rv h2) /\ tracker_ok h2 p2 4 t2.
Proof.
  apply (Count_exact (KV := map_store) (CF := sample_config) sample_dir eq_refl 0 1 12 sample_history
    sample_store sample_scan sample_read_run (str "/") true 4 newCountTracker).
  - lia.
  - apply map_Forall_empty.
Defined.

Lemma writes_keep_lifecycle_witness :
  key_lifecycle 0 (str "/c") (sample_history ++ [(14, deleted (str "/c")
    (11, sample_rec (str "/c") (str "four") false true dummyVersionstamp dummyVersionstamp Byte.x05)
    (sample_uuid Byte.x06))]).
Proof.
  apply (writes_keep_lifecycle 0 (str "/c") sample_history _ 14 (deleted (str "/c")
    (11, sample_rec (str "/c") (str "four") false true dummyVersionstamp dummyVersionstamp Byte.x05)
    (sample_uuid Byte.x06))).
  - intros h1 e h2 Hh _. assert (Hk : key_part (str "/c") sample_history =
      [(11, sample_rec (str "/c") (str "four") false true dummyVersionstamp dummyVersionstamp Byte.x05)]) by (vm_compute; reflexivity).
    rewrite Hk in Hh. destruct h1 as [|x h1]; [|by destruct h1]. injection Hh as <- _.
    split; [done|]. split; done.
  - vm_compute. reflexivity.
  - right. eexists. split; [vm_compute; reflexivity|]. split; [reflexivity|]. right. eexists. reflexivity.
Defined.

(** A pass of the loop that overlaps a count makes later counts wrong: a
    scan at revision 12 finds [/a] and [/c]; before it seeds the tracker, the
    loop passes the deletion of [/c] at 14, which no entry records; counts
    served from then on say that two keys are live at 15, where one is. *)
Theorem Count_seed_race :
  let f := openSubspaces sample_dir in
  let deletion := event_of (14, sample_tombstone) in
  let '(first, s, t) := Count f (quiet_scan 5) (str "/") (str "/") 0 true 12
    (fun t => apply t [deletion]) newCountTracker sample_store in
  let '(later, _, _) := Count f (quiet_scan 5) (str "/") (str "/") 0 true 15 id t s in
  first = Some (Ok (12, 2)) /\ later = Some (Ok (15, 2)) /\
  live_count (counted (str "/")) 15 (sample_history ++ [(14, sample_tombstone)]) = 1.
Proof. vm_compute. repeat split. Qed.
