(* ===== verification/Ttl.v ===== *)
(** pkg/drivers/fdb/fdb_ttl.go: the expiry of keys with a lease.

    Two goroutines share a map of the leased keys and a delaying queue: the
    loop of [ttl] stores what the events say and queues the key for its time;
    [handleTTLEvents] takes keys from the queue and deletes those that have
    expired.  The queue is a library's, an interface with its documented
    promises.  Times are nanoseconds. *)
From stdpp Require Import base strings list gmap.
From Stdlib Require Import Strings.Byte ZArith Lia.
From S2P Require Import Prelude FdbApi Util Subspaces Transact Write.

Definition second : Z := 1000000000.
Definition retryInterval : Z := 250 * 1000000.

Record ttlEventKV := mkTtlEventKV {
  te_key : bytes;
  te_modRevision : Z;
  te_expiredAt : Z
}.

Abbreviation ttlStore := (gmap bytes ttlEventKV).

(** [workqueue.DelayingInterface].  A key is awaited from the time it is
    added until it is taken; one that is added while it is being worked on is
    handed out again afterwards. *)
Class DelayingQueue := {
  queue : Type;
  NewDelayingQueue : queue;
  AddAfter : Z -> queue -> bytes -> Z -> queue;
  queue_Get : Z -> queue -> option (bytes * queue);
  queue_Done : queue -> bytes -> queue;
  awaited : queue -> bytes -> Prop;
  awaited_add now q key d : awaited (AddAfter now q key d) key;
  awaited_add_other now q key d k2 : awaited q k2 -> awaited (AddAfter now q key d) k2;
  awaited_get now q key q2 k2 : queue_Get now q = Some (key, q2) -> k2 <> key -> awaited q k2 -> awaited q2 k2;
  awaited_done q key k2 : awaited q k2 -> awaited (queue_Done q key) k2
}.

(** [time.Until]: a [Duration] is a saturated difference. *)
Definition Until (now t : Z) : Z := Z.max int64_min (Z.min int64_max (t - now)).

(** [time.Duration(lease) * time.Second], on 64 bits. *)
Definition lease_duration (lease : Z) : Z := to_int64 (lease * second).

Definition loadTTLEventKV (st : ttlStore) (key : bytes) : option ttlEventKV := st !! key.

Definition storeTTLEventKV (now : Z) (st : ttlStore) (eventKV : KeyValue) : Z * ttlStore :=
  let expires := lease_duration (kv_Lease eventKV) in
  (expires, <[kv_Key eventKV := mkTtlEventKV (kv_Key eventKV) (kv_ModRevision eventKV) (now + expires)]> st).

(** Whether the loop of [ttl] stores an event, given what is stored. *)
Definition ttl_stores (event : Event) (eventKV : option ttlEventKV) : bool :=
  negb (ev_Delete event) &&
  match eventKV with
  | None => true
  | Some e => te_modRevision e <? kv_ModRevision (ev_KV event)
  end.

Section TtlDefs.
Context `{FB : FdbBindings, KV : KVStore, CF : Config, DQ : DelayingQueue}.

(** [handleTTLEvents] after it has loaded the entry of its key: the entry to
    delete, or the queue to go on with. *)
Definition handle_check (now : Z) (q : queue) (key : bytes) (eventKV : option ttlEventKV)
    : queue * option ttlEventKV :=
  match eventKV with
  | None => (q, None)
  | Some e =>
      let expires := Until now (te_expiredAt e) in
      if 0 <? expires then (AddAfter now q key expires, None) else (q, Some e)
  end.

(** [deleteTTLEvent] after its call of [Delete]; the entry of the key is used
    without a check that it is there. *)
Definition delete_finish (now : Z) (q : queue) (st : ttlStore) (preEventKV : ttlEventKV) (err : option error)
    : res (queue * ttlStore) :=
  match st !! te_key preEventKV with
  | None => Panic
  | Some curEventKV =>
      let expires := Until now (te_expiredAt preEventKV) in
      if 0 <? expires then Ok (AddAfter now q (te_key curEventKV) expires, st)
      else match err with
           | Some _ => Ok (AddAfter now q (te_key curEventKV) retryInterval, st)
           | None => Ok (q, delete (te_key curEventKV) st)
           end
  end.

Definition err_of {A} (r : res A) : option error :=
  match r with Err e => Some e | _ => None end.

(** [handleTTLEvents] in one go, from the call that gets a key: [now] is the
    time of its check, [now2] that after the deletion.  [None]: the queue has
    nothing yet, or the deletion does not return. *)
Definition handleTTLEvents (f : FDB) (te : TransactEnv bytes) (uuid0 : bytes) (now now2 : Z)
    (q : queue) (st : ttlStore) (s : store) (pollKick : bool)
    : option (res (queue * ttlStore)) * store * bool :=
  match queue_Get now q with
  | None => (None, s, pollKick)
  | Some (key, q) =>
      match handle_check now q key (loadTTLEventKV st key) with
      | (q, None) => (Some (Ok (queue_Done q key, st)), s, pollKick)
      | (q, Some e) =>
          match Delete f te uuid0 (te_key e) (te_modRevision e) s pollKick with
          | (Some Panic, s, pollKick) => (Some Panic, s, pollKick)
          | (Some r, s, pollKick) =>
              (Some (let? '(q, st) := delete_finish now2 q st e (err_of r) in Ok (queue_Done q key, st)), s, pollKick)
          | (None, s, pollKick) => (None, s, pollKick)
          end
      end
  end.

(** * The two goroutines together *)

(** Where the loop of [ttl] is: it has loaded the entry of an event's key, or
    stored a new one that it has still to queue. *)
Inductive loopState :=
| LIdle
| LLoaded (event : Event) (eventKV : option ttlEventKV)
| LStored (key : bytes) (expires : Z).

(** Where the handler is: it has a key, its entry, an entry to delete, or the
    answer of [Delete]. *)
Inductive handlerState :=
| HIdle
| HGot (key : bytes)
| HLoaded (key : bytes) (eventKV : option ttlEventKV)
| HDeleting (key : bytes) (preEventKV : ttlEventKV)
| HDeleted (key : bytes) (preEventKV : ttlEventKV) (err : option error).

(** The shared state with the database; [ts_stored] and [ts_deletes] record
    what was stored when and which deletions were called when. *)
Record ttlState := mkTtlState {
  ts_now : Z;
  ts_queue : queue;
  ts_store : ttlStore;
  ts_loop : loopState;
  ts_handler : handlerState;
  ts_db : store;
  ts_stored : list (KeyValue * Z);
  ts_deletes : list (bytes * Z * Z)
}.

Definition ttl_start (now : Z) (s : store) : ttlState :=
  mkTtlState now NewDelayingQueue ∅ LIdle HIdle s [] [].

Definition set_queue (st : ttlState) (q : queue) (l : loopState) (h : handlerState) : ttlState :=
  mkTtlState (ts_now st) q (ts_store st) l h (ts_db st) (ts_stored st) (ts_deletes st).

(** What can happen next: time passes, other clients write, and the steps of
    the two goroutines between their locks and calls. *)
Inductive action :=
| Tick (d : N)
| Others (g : store -> store)
| Receive (event : Event)
| LoopStore
| LoopQueue
| HandlerGet
| HandlerLoad
| HandlerCheck
| HandlerDelete (te : TransactEnv bytes) (uuid0 : bytes)
| HandlerFinish.

(** The steps of the loop. *)
Definition loop_act (a : action) (st : ttlState) : option (res ttlState) :=
  match a, ts_loop st with
  | Receive event, LIdle =>
      Some (Ok (set_queue st (ts_queue st)
        (LLoaded event (loadTTLEventKV (ts_store st) (kv_Key (ev_KV event)))) (ts_handler st)))
  | LoopStore, LLoaded event eventKV =>
      if ttl_stores event eventKV then
        let '(expires, m) := storeTTLEventKV (ts_now st) (ts_store st) (ev_KV event) in
        Some (Ok (mkTtlState (ts_now st) (ts_queue st) m (LStored (kv_Key (ev_KV event)) expires)
          (ts_handler st) (ts_db st) ((ev_KV event, ts_now st) :: ts_stored st) (ts_deletes st)))
      else Some (Ok (set_queue st (ts_queue st) LIdle (ts_handler st)))
  | LoopQueue, LStored key expires =>
      Some (Ok (set_queue st (AddAfter (ts_now st) (ts_queue st) key expires) LIdle (ts_handler st)))
  | _, _ => None
  end.

(** The steps of the handler. *)
Definition handler_act (f : FDB) (a : action) (st : ttlState) : option (res ttlState) :=
  match a, ts_handler st with
  | HandlerGet, HIdle =>
      '(key, q) ← queue_Get (ts_now st) (ts_queue st);
      Some (Ok (set_queue st q (ts_loop st) (HGot key)))
  | HandlerLoad, HGot key =>
      Some (Ok (set_queue st (ts_queue st) (ts_loop st) (HLoaded key (loadTTLEventKV (ts_store st) key))))
  | HandlerCheck, HLoaded key eventKV =>
      match handle_check (ts_now st) (ts_queue st) key eventKV with
      | (q, None) => Some (Ok (set_queue st (queue_Done q key) (ts_loop st) HIdle))
      | (q, Some e) => Some (Ok (set_queue st q (ts_loop st) (HDeleting key e)))
      end
  | HandlerDelete te uuid0, HDeleting key e =>
      match Delete f te uuid0 (te_key e) (te_modRevision e) (ts_db st) false with
      | (Some Panic, _, _) => Some Panic
      | (Some r, s, _) =>
          Some (Ok (mkTtlState (ts_now st) (ts_queue st) (ts_store st) (ts_loop st)
            (HDeleted key e (err_of r)) s (ts_stored st)
            ((te_key e, te_modRevision e, ts_now st) :: ts_deletes st)))
      | (None, _, _) => None
      end
  | HandlerFinish, HDeleted key e err =>
      Some (let? '(q, m) := delete_finish (ts_now st) (ts_queue st) (ts_store st) e err in
            Ok (mkTtlState (ts_now st) (queue_Done q key) m (ts_loop st) HIdle
                  (ts_db st) (ts_stored st) (ts_deletes st)))
  | _, _ => None
  end.

Definition act (f : FDB) (a : action) (st : ttlState) : option (res ttlState) :=
  match a with
  | Tick d => Some (Ok (mkTtlState (ts_now st + Z.of_N d) (ts_queue st) (ts_store st) (ts_loop st)
                          (ts_handler st) (ts_db st) (ts_stored st) (ts_deletes st)))
  | Others g => Some (Ok (mkTtlState (ts_now st) (ts_queue st) (ts_store st) (ts_loop st)
                            (ts_handler st) (g (ts_db st)) (ts_stored st) (ts_deletes st)))
  | Receive _ | LoopStore | LoopQueue => loop_act a st
  | _ => handler_act f a st
  end.

Definition ttl_step (f : FDB) (st st2 : ttlState) : Prop := exists a, act f a st = Some (Ok st2).

(** Any interleaving from the start. *)
Definition ttl_reachable (f : FDB) (st : ttlState) : Prop :=
  exists now s, rtc (ttl_step f) (ttl_start now s) st.

(** A given interleaving, when each step can be taken. *)
Fixpoint acts (f : FDB) (l : list action) (st : ttlState) : option (res ttlState) :=
  match l with
  | [] => Some (Ok st)
  | a :: l =>
      match act f a st with
      | Some (Ok st2) => acts f l st2
      | r => r
      end
  end.
End TtlDefs.
