(* ===== verification/TtlSpec.v ===== *)
(** What the expiry of leases (fdb_ttl.go) promises, over every interleaving
    of its two goroutines with each other, with time and with other clients. *)
From stdpp Require Import base strings list gmap sorting.
From Stdlib Require Import Strings.Byte ZArith Lia.
From S2P Require Import Prelude FdbApi KeyOrder FdbInstance Util Subspaces SubspaceFacts Transact History Samples Write WriteSpec Ttl.

Lemma Until_pos now t : 0 < Until now t <-> now < t.
Proof. unfold Until, int64_min, int64_max. lia. Qed.

Section TtlSpec.
Context `{FB : FdbBindings, KV : KVStore, CF : Config, DQ : DelayingQueue}.
Context (dir : bytes).
Abbreviation f := (openSubspaces dir).

(** * The invariant *)

(** An entry is what the loop stored for an event. *)
Definition stored_as (log : list (KeyValue * Z)) (e : ttlEventKV) : Prop :=
  exists kv t, (kv, t) ∈ log /\ kv_Key kv = te_key e /\ kv_ModRevision kv = te_modRevision e /\
    te_expiredAt e = t + lease_duration (kv_Lease kv).

(** One of the goroutines has the key in hand. *)
Definition loop_has (l : loopState) (key : bytes) : Prop :=
  match l with LStored k _ => k = key | _ => False end.

Definition handler_has (h : handlerState) (key : bytes) : Prop :=
  match h with
  | HGot k | HLoaded k (Some _) | HDeleting k _ | HDeleted k _ _ => k = key
  | HIdle | HLoaded _ None => False
  end.

(** Some goroutine will look at the key again. *)
Definition in_hand (st : ttlState) (key : bytes) : Prop :=
  awaited (ts_queue st) key \/ loop_has (ts_loop st) key \/ handler_has (ts_handler st) key.

(** The entry that the handler works on. *)
Definition working (log : list (KeyValue * Z)) (m : ttlStore) (key : bytes) (e : ttlEventKV) : Prop :=
  te_key e = key /\ stored_as log e /\ is_Some (m !! key).

Definition handler_ok (log : list (KeyValue * Z)) (m : ttlStore) (now : Z) (h : handlerState) : Prop :=
  match h with
  | HIdle | HGot _ | HLoaded _ None => True
  | HLoaded key (Some e) => working log m key e
  | HDeleting key e | HDeleted key e _ => working log m key e /\ te_expiredAt e <= now
  end.

(** A deletion was called for a stored event when its time was over. *)
Definition was_expired (log : list (KeyValue * Z)) (d : bytes * Z * Z) : Prop :=
  exists kv t, (kv, t) ∈ log /\ kv_Key kv = d.1.1 /\ kv_ModRevision kv = d.1.2 /\
    t + lease_duration (kv_Lease kv) <= d.2.

Record ttl_inv (st : ttlState) : Prop := mkTtlInv {
  ti_store : forall key e, ts_store st !! key = Some e -> te_key e = key /\ stored_as (ts_stored st) e;
  ti_hand : forall key, is_Some (ts_store st !! key) -> in_hand st key;
  ti_handler : handler_ok (ts_stored st) (ts_store st) (ts_now st) (ts_handler st);
  ti_deletes : Forall (was_expired (ts_stored st)) (ts_deletes st)
}.

Lemma ttl_inv_start now s : ttl_inv (ttl_start now s).
Proof. split; cbn; try done. by intros key [e ?]. Qed.

(** ** The log and the map only grow in the loop *)

Lemma stored_as_cons log x e : stored_as log e -> stored_as (x :: log) e.
Proof. intros (kv & t & Hin & ?). exists kv, t. split; [by right|done]. Qed.

Lemma was_expired_cons log x d : was_expired log d -> was_expired (x :: log) d.
Proof. intros (kv & t & Hin & ?). exists kv, t. split; [by right|done]. Qed.

Lemma handler_ok_grow log m now x key e h :
  handler_ok log m now h -> handler_ok (x :: log) (<[key := e]> m) now h.
Proof.
  assert (Hw : forall k y, working log m k y -> working (x :: log) (<[key := e]> m) k y).
  { intros k y (Hk & Hs & Hm). split; [done|]. split; [by apply stored_as_cons|].
    destruct (decide (key = k)) as [->|]; [by rewrite lookup_insert_eq; eauto|by rewrite lookup_insert_ne]. }
  destruct h as [|k|k [y|]|k y|k y err]; cbn; try done; [apply Hw|intros [? ?]; split; [by apply Hw|done]..].
Qed.

Lemma handler_ok_later log m now now2 h : now <= now2 -> handler_ok log m now h -> handler_ok log m now2 h.
Proof.
  intros Hle. destruct h as [|k|k [y|]|k y|k y err]; cbn; try done; intros [? ?]; (split; [done|lia]).
Qed.

(** ** Every step keeps it *)

(** A step of the loop leaves the handler's keys in hand, and the other way
    round. *)
Lemma in_hand_loop st st2 key :
  ts_loop st = LIdle \/ (exists e o, ts_loop st = LLoaded e o) ->
  ts_queue st2 = ts_queue st -> ts_handler st2 = ts_handler st -> in_hand st key -> in_hand st2 key.
Proof.
  unfold in_hand. intros Hl -> -> [?|[Hk|?]]; [by left| |by right; right].
  destruct Hl as [Hl|(e & o & Hl)]; by rewrite Hl in Hk.
Qed.

Lemma in_hand_handler st q h key :
  (awaited (ts_queue st) key -> awaited q key \/ handler_has h key) ->
  (handler_has (ts_handler st) key -> awaited q key \/ handler_has h key) ->
  in_hand st key -> in_hand (set_queue st q (ts_loop st) h) key.
Proof. unfold in_hand. cbn. tauto. Qed.

Lemma loop_act_inv a st st2 : ttl_inv st -> loop_act a st = Some (Ok st2) -> ttl_inv st2.
Proof.
  intros [Hs Hh Hok Hd] Hact. unfold loop_act in Hact.
  destruct a; try done; destruct (ts_loop st) as [|ev old|key expires] eqn:El; try done.
  - injection Hact as <-. split; try done. intros key Hk. eapply in_hand_loop; eauto.
  - destruct (ttl_stores ev old); injection Hact as <-.
    + split; cbn [ts_store ts_stored ts_now ts_handler ts_deletes].
      * intros key e. destruct (decide (kv_Key (ev_KV ev) = key)) as [<-|Hne].
        -- rewrite lookup_insert_eq. intros [= <-]. split; [done|].
           exists (ev_KV ev), (ts_now st). split; [by left|done].
        -- rewrite lookup_insert_ne by done. intros He. destruct (Hs key e He). split; [done|by apply stored_as_cons].
      * intros key Hk. destruct (decide (kv_Key (ev_KV ev) = key)) as [<-|Hne]; [by right; left|].
        rewrite lookup_insert_ne in Hk by done. apply (in_hand_loop st); [|done..|by apply Hh]. eauto.
      * by apply handler_ok_grow.
      * eapply Forall_impl; [exact Hd|]. intros d. apply was_expired_cons.
    + split; try done. intros key Hk. eapply in_hand_loop; eauto.
  - injection Hact as <-. split; try done. intros k Hk. unfold in_hand. cbn.
    destruct (Hh k Hk) as [?|[Hl|?]]; [left; by apply awaited_add_other| |by right; right].
    rewrite El in Hl. cbn in Hl. subst k. left. apply awaited_add.
Qed.

Lemma handler_check_inv st key old q o :
  ttl_inv st -> ts_handler st = HLoaded key old -> handle_check (ts_now st) (ts_queue st) key old = (q, o) ->
  ttl_inv (set_queue st (match o with Some _ => q | None => queue_Done q key end) (ts_loop st)
             (match o with Some e => HDeleting key e | None => HIdle end)).
Proof.
  intros [Hs Hh Hok Hd] Eh Hc. rewrite Eh in Hok. unfold handle_check in Hc. destruct old as [e|].
  - pose proof (Until_pos (ts_now st) (te_expiredAt e)) as Hu.
    destruct (Z.ltb_spec 0 (Until (ts_now st) (te_expiredAt e))) as [Hp|Hp]; injection Hc as <- <-.
    + split; try done. intros k Hk. apply in_hand_handler; [| |by apply Hh].
      * intros ?. left. by apply awaited_done, awaited_add_other.
      * rewrite Eh. cbn. intros ->. left. apply awaited_done, awaited_add.
    + split; try done.
      * intros k Hk. apply in_hand_handler; [by left| |by apply Hh]. rewrite Eh. cbn. by right.
      * cbn. split; [done|]. lia.
  - injection Hc as <- <-. split; try done. intros k Hk. apply in_hand_handler; [| |by apply Hh].
    + left. by apply awaited_done.
    + by rewrite Eh.
Qed.

Lemma delete_finish_inv st key e err q m :
  ttl_inv st -> ts_handler st = HDeleted key e err ->
  delete_finish (ts_now st) (ts_queue st) (ts_store st) e err = Ok (q, m) ->
  ttl_inv (mkTtlState (ts_now st) (queue_Done q key) m (ts_loop st) HIdle (ts_db st) (ts_stored st) (ts_deletes st)).
Proof.
  intros [Hs Hh Hok Hd] Eh Hf. rewrite Eh in Hok. destruct Hok as [(<- & _ & Hm) Hexp].
  destruct Hm as [cur Hcur]. unfold delete_finish in Hf. rewrite Hcur in Hf.
  destruct (Hs _ _ Hcur) as [Hkey _]. rewrite Hkey in Hf.
  pose proof (Until_pos (ts_now st) (te_expiredAt e)) as Hu.
  destruct (Z.ltb_spec 0 (Until (ts_now st) (te_expiredAt e))) as [Hp|Hp]; [lia|].
  destruct err as [x|]; injection Hf as <- <-; split; cbn [ts_store ts_stored ts_deletes ts_now ts_handler]; try done.
  - intros k Hk. destruct (Hh k Hk) as [?|[?|Hl]]; [left|by right; left|left]; cbn [ts_queue].
    + by apply awaited_done, awaited_add_other.
    + rewrite Eh in Hl. cbn in Hl. subst k. apply awaited_done, awaited_add.
  - intros k y. rewrite lookup_delete_Some. intros [_ Hy]. by apply Hs.
  - intros k Hk. destruct (decide (te_key e = k)) as [<-|Hne]; [by rewrite lookup_delete_eq in Hk; destruct Hk|].
    rewrite lookup_delete_ne in Hk by done.
    destruct (Hh k Hk) as [?|[?|Hl]]; [left|by right; left|]; cbn [ts_queue]; [by apply awaited_done|].
    by rewrite Eh in Hl.
Qed.

Lemma handler_act_inv a st st2 : ttl_inv st -> handler_act f a st = Some (Ok st2) -> ttl_inv st2.
Proof.
  intros Hinv Hact. pose proof Hinv as [Hs Hh Hok Hd]. unfold handler_act in Hact.
  destruct a; try done; destruct (ts_handler st) as [|key|key old|key e|key e err] eqn:Eh; try done.
  - destruct (queue_Get _ _) as [[key q]|] eqn:Eg; [|done]. injection Hact as <-. split; try done.
    intros k Hk. apply in_hand_handler; [|by rewrite Eh|by apply Hh]. intros Ha.
    destruct (decide (k = key)) as [->|Hne]; [by right|left]. by eapply awaited_get.
  - injection Hact as <-. unfold loadTTLEventKV. split; try done.
    + intros k Hk. apply in_hand_handler; [by left| |by apply Hh]. rewrite Eh. cbn. intros ->.
      cbn in Hk. destruct Hk as [e ->]. by right.
    + cbn. destruct (ts_store st !! key) as [e|] eqn:Em; [|done]. destruct (Hs key e Em).
      unfold working. rewrite Em. eauto.
  - destruct (handle_check _ _ _ _) as [q o] eqn:Ec. pose proof (handler_check_inv _ _ _ _ _ Hinv Eh Ec) as Hc.
    destruct o; by injection Hact as <-.
  - destruct (Delete _ _ _ _ _ _ _) as [[[r|] s] pk]; [|done].
    assert (Hst : st2 = mkTtlState (ts_now st) (ts_queue st) (ts_store st) (ts_loop st)
      (HDeleted key e (err_of r)) s (ts_stored st) ((te_key e, te_modRevision e, ts_now st) :: ts_deletes st))
      by (destruct r as [?|?|]; [by injection Hact as <-..|done]).
    subst st2. cbn in Hok. split; try done.
    + intros k Hk. destruct (Hh k Hk) as [?|[?|Hl]]; [by left|by right; left|]. rewrite Eh in Hl. by right; right.
    + constructor; [|done]. destruct Hok as [(_ & (kv & t & Hin & Hk & Hr & Ht) & _) Hexp].
      exists kv, t. cbn. split_and!; try done. lia.
  - destruct (delete_finish _ _ _ _ _) as [[q m]|x|] eqn:Ef; try done. injection Hact as <-.
    by eapply delete_finish_inv.
Qed.
Lemma act_inv a st st2 : ttl_inv st -> act f a st = Some (Ok st2) -> ttl_inv st2.
Proof.
  intros Hinv Hact. destruct a as [d|g|ev| | | | | |te u|];
    try exact (loop_act_inv _ _ _ Hinv Hact); try exact (handler_act_inv _ _ _ Hinv Hact).
  - injection Hact as <-. destruct Hinv as [Hs Hh Hok Hd]. split; try done.
    cbn. eapply handler_ok_later; [|exact Hok]. lia.
  - injection Hact as <-. by destruct Hinv.
Qed.

Lemma reachable_inv st : ttl_reachable f st -> ttl_inv st.
Proof.
  intros (now & s & Hr). pose proof (ttl_inv_start now s) as Hinv. revert Hinv.
  induction Hr as [|st st1 st2 [a Ha] _ IH]; [done|]. intros Hinv. by eapply IH, act_inv.
Qed.

(** C29: a key is never deleted early: over every interleaving, a deletion is
    called only with the key and revision of an event that was stored, and at
    or after the time it was stored plus its lease, for leases of up to
    9223372036 seconds. *)
Theorem ttl_never_early st key revision t :
  ttl_reachable f st -> (key, revision, t) ∈ ts_deletes st ->
  exists kv t0, (kv, t0) ∈ ts_stored st /\ kv_Key kv = key /\ kv_ModRevision kv = revision /\
    (0 <= kv_Lease kv <= 9223372036 -> t0 + kv_Lease kv * second <= t).
Proof.
  intros Hr Hin. pose proof (ti_deletes _ (reachable_inv _ Hr)) as Hd. rewrite Forall_forall in Hd.
  destruct (Hd _ Hin) as (kv & t0 & Hkv & Hk & Hrev & Ht). cbn in Hk, Hrev, Ht.
  exists kv, t0. split_and!; try done. intros Hl. unfold lease_duration in Ht.
  rewrite to_int64_id in Ht; [done|]. unfold is_int64, int64_min, int64_max, second. lia.
Qed.

(** C30: no tracked key is forgotten: over every interleaving, the key of
    every entry is waiting in the queue, or a goroutine has it in hand. *)
Theorem ttl_tracked st key e :
  ttl_reachable f st -> ts_store st !! key = Some e -> te_key e = key /\ in_hand st key.
Proof.
  intros Hr He. destruct (reachable_inv _ Hr) as [Hs Hh _ _].
  destruct (Hs key e He). split; [done|]. apply Hh. eauto.
Qed.

(** The handler finds the entry that it uses without a check: after a
    deletion it goes on without a nil dereference, whatever happened during
    the call. *)
Theorem ttl_finish_safe st : ttl_reachable f st -> act f HandlerFinish st <> Some Panic.
Proof.
  intros Hr. destruct (reachable_inv _ Hr) as [_ _ Hok _]. cbn. unfold handler_act.
  destruct (ts_handler st) as [| | | |key e err]; try done. destruct Hok as [(<- & _ & [cur Hcur]) _].
  unfold delete_finish. rewrite Hcur. destruct (0 <? _); [done|]. by destruct err.
Qed.
(** * The handler and the database *)

Lemma handle_expired now now2 q q2 m key e te uuid0 s pollKick r s2 pk2 :
  queue_Get now q = Some (key, q2) -> m !! key = Some e -> te_key e = key ->
  te_expiredAt e <= now -> now <= now2 ->
  Delete f te uuid0 key (te_modRevision e) s pollKick = (Some (Ok r), s2, pk2) ->
  handleTTLEvents f te uuid0 now now2 q m s pollKick =
    (Some (Ok (queue_Done q2 key, delete key m)), s2, pk2).
Proof.
  intros Hget Hm Hkey Hexp Hnow Hdel. unfold handleTTLEvents, loadTTLEventKV. rewrite Hget, Hm.
  unfold handle_check.
  pose proof (Until_pos now (te_expiredAt e)). rewrite (proj2 (Z.ltb_ge _ _)) by lia.
  rewrite Hkey, Hdel. unfold delete_finish. rewrite Hkey, Hm.
  pose proof (Until_pos now2 (te_expiredAt e)). rewrite (proj2 (Z.ltb_ge _ _)) by lia.
  cbn. by rewrite Hkey.
Qed.

(** C31: the handler deletes an expired key: when the queue hands out a key
    whose time is over and whose record is still the one that was stored, the
    key gets one tombstone, whatever commits fail or have an unknown outcome,
    and its entry is dropped. *)
Theorem handleTTL_deletes now now2 q q2 m key e x h0 c te uuid0 s pollKick :
  queue_Get now q = Some (key, q2) -> m !! key = Some e -> te_key e = key ->
  te_expiredAt e <= now -> now <= now2 ->
  Repr dir s h0 c -> latest h0 key = Some x -> IsDelete x.2 = false -> te_modRevision e = x.1 ->
  good_run dir key h0 c te ->
  exists r ext uuid s2,
    handleTTLEvents f te uuid0 now now2 q m s pollKick =
      (Some (Ok (queue_Done q2 key, delete key m)), s2, true) /\
    Repr dir s2 (h0 ++ ext) c /\ key_part key ext = [(r, deleted key x uuid)].
Proof.
  intros Hget Hm Hkey Hexp Hnow HR Hlast Hlive Hrev Hrun.
  pose proof (delete_writes_once dir h0 c key (te_modRevision e) x Hlast Hlive ltac:(by right)) as Honce.
  destruct (transact_once _ _ _ _ _ _ _ te s uuid0 Honce HR Hrun)
    as (w & stamp & s2 & last2 & ext & z & uuid & Ht & HR2 & Hk & Hres).
  exists z, ext, uuid, s2. split; [|done]. eapply handle_expired; try done.
  unfold Delete, write_call. by rewrite Ht, Hres.
Qed.

(** The handler does not delete a key that was written again: when the
    key has another revision than the one that was stored, or is gone, the
    database does not change. *)
Theorem handleTTL_keeps_renewed now now2 q q2 m key e h c n te a uuid0 s pollKick :
  queue_Get now q = Some (key, q2) -> m !! key = Some e -> te_key e = key ->
  te_expiredAt e <= now -> now <= now2 ->
  Repr dir (at_others a s) h c -> first_attempt te a -> at_commit a = Committed ->
  head_rev dir (at_others a s) (at_read_version a) n -> stale_delete h key (te_modRevision e) uuid0 ->
  handleTTLEvents f te uuid0 now now2 q m s pollKick =
    (Some (Ok (queue_Done q2 key, delete key m)), at_others a s, true).
Proof.
  intros Hget Hm Hkey Hexp Hnow HR Hfirst Hcom Hn Hst. eapply handle_expired; try done.
  destruct (delete_body_stale dir _ h c _ n key (te_modRevision e) (at_env a) uuid0 HR Hn Hst)
    as (w & Hbody & Hres).
  unfold Delete, write_call.
  destruct (transact_first _ te a s uuid0 w uuid0 Hfirst Hcom Hbody) as [stamp ->]. by rewrite Hres.
Qed.

(** * Leases that are too long *)

(** Up to 292 years a lease is its duration in nanoseconds; from there on to
    584 years the product is negative. *)
Lemma lease_duration_exact lease : 0 <= lease <= 9223372036 -> lease_duration lease = lease * second.
Proof. intros H. apply to_int64_id. unfold is_int64, int64_min, int64_max, second. lia. Qed.

Lemma lease_duration_negative lease : 9223372037 <= lease <= 18446744073 -> lease_duration lease < 0.
Proof.
  intros H. unfold lease_duration, to_int64, second. rewrite <-(Z_mod_plus_full _ (-1)), Z.mod_small; lia.
Qed.

(** C32: a lease of more than 292 years is no lease: the product of its seconds
    with a second overflows 64 bits and is negative, for every lease from
    9223372037 to 18446744073 seconds, and when the queue hands its key out the
    handler deletes the key without any time passing, whatever commits fail or
    have an unknown outcome. *)
Theorem ttl_lease_overflow st event old q2 te uuid0 x h0 c :
  ts_loop st = LLoaded event old -> ttl_stores event old = true -> ts_handler st = HIdle ->
  9223372037 <= kv_Lease (ev_KV event) <= 18446744073 ->
  queue_Get (ts_now st) (AddAfter (ts_now st) (ts_queue st) (kv_Key (ev_KV event))
    (lease_duration (kv_Lease (ev_KV event)))) = Some (kv_Key (ev_KV event), q2) ->
  Repr dir (ts_db st) h0 c -> latest h0 (kv_Key (ev_KV event)) = Some x -> IsDelete x.2 = false ->
  kv_ModRevision (ev_KV event) = x.1 -> good_run dir (kv_Key (ev_KV event)) h0 c te ->
  lease_duration (kv_Lease (ev_KV event)) < 0 /\
  exists st2 ext r uuid,
    acts f [LoopStore; LoopQueue; HandlerGet; HandlerLoad; HandlerCheck; HandlerDelete te uuid0; HandlerFinish] st
      = Some (Ok st2) /\
    ts_now st2 = ts_now st /\
    ts_deletes st2 = (kv_Key (ev_KV event), kv_ModRevision (ev_KV event), ts_now st) :: ts_deletes st /\
    Repr dir (ts_db st2) (h0 ++ ext) c /\
    key_part (kv_Key (ev_KV event)) ext = [(r, deleted (kv_Key (ev_KV event)) x uuid)].
Proof.
  intros Hloop Hstores Hhandler Hlease Hget HR Hlast Hlive Hrev Hrun.
  pose proof (lease_duration_negative _ Hlease) as Hneg. split; [done|].
  pose proof (delete_writes_once dir h0 c (kv_Key (ev_KV event)) (kv_ModRevision (ev_KV event)) x Hlast Hlive
    ltac:(by right)) as Honce.
  destruct (transact_once _ _ _ _ _ _ _ te (ts_db st) uuid0 Honce HR Hrun)
    as (w & stamp & s2 & last2 & ext & z & uuid & Ht & HR2 & Hk & Hres).
  assert (Hexp : (0 <? Until (ts_now st) (ts_now st + lease_duration (kv_Lease (ev_KV event)))) = false).
  { apply Z.ltb_ge. pose proof (Until_pos (ts_now st) (ts_now st + lease_duration (kv_Lease (ev_KV event)))). lia. }
  destruct st as [now q m loop handler db stored deletes]. cbn in Hloop, Hhandler, Hget, Ht, Hexp. subst loop handler.
  do 7 (cbn [acts act]; unfold loop_act, handler_act, set_queue, loadTTLEventKV, storeTTLEventKV, handle_check;
        cbn [ts_now ts_queue ts_store ts_loop ts_handler ts_db ts_stored ts_deletes];
        rewrite ?Hstores, ?Hget; cbn [mbind option_bind te_key te_modRevision te_expiredAt];
        rewrite ?lookup_insert_eq; cbn [te_expiredAt]; rewrite ?Hexp).
  unfold Delete, write_call. rewrite Ht, Hres. unfold delete_finish. cbn. rewrite lookup_insert_eq, Hexp. cbn.
  eexists _, ext, z, uuid. split; [done|]. by split_and!.
Qed.
End TtlSpec.

(** * Runs *)

(** A queue: the times at which the waiting keys are due, and the keys that
    are being worked on. *)
Record mapQueue := mkMapQueue {
  mq_waiting : gmap bytes Z;
  mq_processing : gset bytes
}.

Definition mq_due (now : Z) (q : mapQueue) : list (bytes * Z) :=
  filter (fun x => x.2 <= now /\ x.1 ∉ mq_processing q) (map_to_list (mq_waiting q)).

Definition mq_add (now : Z) (q : mapQueue) (key : bytes) (d : Z) : mapQueue :=
  let due := now + Z.max 0 d in
  mkMapQueue (<[key := match mq_waiting q !! key with Some t => Z.min t due | None => due end]> (mq_waiting q))
    (mq_processing q).

Definition mq_get (now : Z) (q : mapQueue) : option (bytes * mapQueue) :=
  match mq_due now q with
  | [] => None
  | (key, _) :: _ => Some (key, mkMapQueue (delete key (mq_waiting q)) ({[key]} ∪ mq_processing q))
  end.

#[global] Program Instance map_queue : DelayingQueue := {|
  queue := mapQueue;
  NewDelayingQueue := mkMapQueue ∅ ∅;
  AddAfter := mq_add;
  queue_Get := mq_get;
  queue_Done q key := mkMapQueue (mq_waiting q) (mq_processing q ∖ {[key]});
  awaited q key := is_Some (mq_waiting q !! key)
|}.
Next Obligation. intros now q key d. cbn. rewrite lookup_insert_eq. eauto. Qed.
Next Obligation.
  intros now q key d k2 Hk. cbn. destruct (decide (key = k2)) as [->|];
    [rewrite lookup_insert_eq; eauto|by rewrite lookup_insert_ne].
Qed.
Next Obligation.
  intros now q key q2 k2 Hget Hne Hk. unfold mq_get in Hget. destruct (mq_due now q) as [|[k t] l]; [done|].
  injection Hget as -> <-. cbn. by rewrite lookup_delete_ne.
Qed.
Next Obligation. done. Qed.

(** A lease of one second on [/a], whose record is the one at 7, and another
    client that writes [/a] again at 16 with a lease of 100 seconds. *)
Definition lease_event (revision lease : Z) : Event :=
  mkEvent false false (mkKeyValue (str "/a") 3 revision (str "three") lease) None.

Definition renewal : Rec :=
  mkRec (str "/a") false false 100 (int64ToVersionstamp 3) (int64ToVersionstamp 7) 4 (sample_uuid Byte.x30)
    (str "more") false.

Definition renew (s : gmap bytes bytes) : gmap bytes bytes :=
  apply_log (Some (TransactionVersion (int64ToVersionstamp 16))) s
    (append_log sample_dir [] (IncompleteVersionstamp 0) renewal 5).

Definition delete_run (version : Z) : TransactEnv bytes :=
  mkTransactEnv None [sample_attempt version Byte.x31 Committed].

(** The queue hands out the key and the handler finds that it has expired. *)
Definition expire : list action := [HandlerGet; HandlerLoad; HandlerCheck].

Definition lease_of (revision lease : Z) : list action :=
  [Receive (lease_event revision lease); LoopStore; LoopQueue].

Definition deletion : list action := [HandlerDelete (delete_run 18) (sample_uuid Byte.x32); HandlerFinish].

(** A lease of a second that runs out. *)
Definition plain_expiry : list action := lease_of 7 1 ++ [Tick 1000000000] ++ expire ++ deletion.

(** The key is written again while the handler is about to delete it. *)
Definition renewed_during_delete : list action :=
  lease_of 7 1 ++ [Tick 1000000000] ++ expire ++ [Others renew] ++ lease_of 16 100 ++ deletion ++
  [Tick 200000000000] ++ expire.

Definition run_from (s : gmap bytes bytes) (l : list action) : option (res ttlState) :=
  acts (openSubspaces sample_dir) l (ttl_start 0 s).

Lemma acts_reachable `{FB : FdbBindings, KV : KVStore, CF : Config, DQ : DelayingQueue} f l now s st :
  acts f l (ttl_start now s) = Some (Ok st) -> ttl_reachable f st.
Proof.
  intros H. exists now, s. revert H. generalize (ttl_start now s) as st0.
  induction l as [|a l IH]; intros st0; cbn [acts]; [by intros [= <-]|].
  destruct (act f a st0) as [[st1|e|]|] eqn:Ea; try done. intros H. eapply rtc_l; [by exists a|by apply IH].
Qed.

Definition final (l : list action) : ttlState :=
  match run_from sample_store l with Some (Ok st) => st | _ => ttl_start 0 sample_store end.

Lemma final_reachable l :
  (exists st, run_from sample_store l = Some (Ok st)) -> ttl_reachable (openSubspaces sample_dir) (final l).
Proof. intros [st Hst]. unfold final. rewrite Hst. by eapply acts_reachable. Qed.

Definition succeeds (l : list action) : bool :=
  match run_from sample_store l with Some (Ok _) => true | _ => false end.

Lemma succeeds_final l : succeeds l = true -> exists st, run_from sample_store l = Some (Ok st).
Proof. unfold succeeds. destruct (run_from _ _) as [[st|e|]|]; try done. eauto. Qed.

Lemma ttl_never_early_witness :
  exists kv t0, (kv, t0) ∈ ts_stored (final plain_expiry) /\ kv_Key kv = str "/a" /\ kv_ModRevision kv = 7 /\
    (0 <= kv_Lease kv <= 9223372036 -> t0 + kv_Lease kv * second <= 1000000000).
Proof.
  apply (ttl_never_early (CF := sample_config) sample_dir (final plain_expiry) (str "/a") 7 1000000000).
  - apply final_reachable, succeeds_final. vm_compute. reflexivity.
  - apply list_elem_of_In. vm_compute. left. reflexivity.
Defined.

Lemma ttl_tracked_witness :
  te_key (mkTtlEventKV (str "/a") 7 1000000000) = str "/a" /\ in_hand (final (lease_of 7 1)) (str "/a").
Proof.
  apply (ttl_tracked (CF := sample_config) sample_dir (final (lease_of 7 1)) (str "/a") (mkTtlEventKV (str "/a") 7 1000000000)).
  - apply final_reachable, succeeds_final. vm_compute. reflexivity.
  - vm_compute. reflexivity.
Defined.

Lemma ttl_finish_safe_witness :
  act (openSubspaces sample_dir) HandlerFinish
    (final (lease_of 7 1 ++ [Tick 1000000000] ++ expire ++ [HandlerDelete (delete_run 18) (sample_uuid Byte.x32)])) <> Some Panic.
Proof.
  apply (ttl_finish_safe (CF := sample_config) sample_dir).
  apply final_reachable, succeeds_final. vm_compute. reflexivity.
Defined.

(** The queue and the map of a key [/a] that is due. *)
Definition due_queue : mapQueue := mkMapQueue {[str "/a" := 10]} ∅.
Definition due_store (revision : Z) : ttlStore := {[str "/a" := mkTtlEventKV (str "/a") revision 10]}.

Lemma handleTTL_deletes_witness :
  exists r ext uuid s2,
    handleTTLEvents (openSubspaces sample_dir) (sample_run true) (sample_uuid Byte.x22) 20 21 due_queue (due_store 7)
      sample_store false =
      (Some (Ok (@queue_Done map_queue (mkMapQueue ∅ {[str "/a"]}) (str "/a"), delete (str "/a") (due_store 7))), s2, true) /\
    Repr sample_dir s2 (sample_history ++ ext) 0 /\
    key_part (str "/a") ext = [(r, deleted (str "/a") (sample_last (str "/a")) uuid)].
Proof.
  apply (handleTTL_deletes (KV := map_store) (CF := sample_config) (DQ := map_queue) sample_dir 20 21 due_queue (mkMapQueue ∅ {[str "/a"]}) (due_store 7) (str "/a")
    (mkTtlEventKV (str "/a") 7 10) (sample_last (str "/a")) sample_history 0 (sample_run true)
    (sample_uuid Byte.x22) sample_store false).
  - vm_compute. reflexivity.
  - vm_compute. reflexivity.
  - reflexivity.
  - cbn. lia.
  - lia.
  - exact sample_repr.
  - vm_compute. reflexivity.
  - vm_compute. reflexivity.
  - vm_compute. reflexivity.
  - apply sample_good_run.
Defined.

Lemma handleTTL_keeps_renewed_witness :
  handleTTLEvents (openSubspaces sample_dir) (delete_run 18) (sample_uuid Byte.x22) 20 21 due_queue (due_store 3)
    sample_store false =
  (Some (Ok (@queue_Done map_queue (mkMapQueue ∅ {[str "/a"]}) (str "/a"), delete (str "/a") (due_store 3))), sample_store, true).
Proof.
  apply (handleTTL_keeps_renewed (KV := map_store) (CF := sample_config) (DQ := map_queue) sample_dir 20 21 due_queue (mkMapQueue ∅ {[str "/a"]}) (due_store 3) (str "/a")
    (mkTtlEventKV (str "/a") 3 10) sample_history 0 17 (delete_run 18) (sample_attempt 18 Byte.x31 Committed)
    (sample_uuid Byte.x22) sample_store false).
  - vm_compute. reflexivity.
  - vm_compute. reflexivity.
  - reflexivity.
  - cbn. lia.
  - lia.
  - exact sample_repr.
  - split; [done|]. split; [by exists []|done].
  - reflexivity.
  - reflexivity.
  - vm_compute. split; congruence.
Defined.

(** What [/a] is in a store. *)
Definition current_lease (s : gmap bytes bytes) : res (option (Z * Z)) :=
  let? r := getLast (openSubspaces sample_dir) (begin_tr s 20) (str "/a") in
  match r with
  | Some b =>
      let? revision := VersionstampToInt64 (kr_Rev (bk_Key b)) in
      Ok (if IsDelete (bk_Value b) then None else Some (revision, Lease (bk_Value b)))
  | None => Ok None
  end.

(** A lease that is renewed while the handler deletes the key is lost:
    the deletion finds the newer record and does nothing, but the handler then
    drops the entry of the renewal, and when the renewed lease has run out the
    key is still there and nothing waits for it. *)
Theorem ttl_renewal_lost :
  let st := final renewed_during_delete in
  succeeds renewed_during_delete = true /\
  current_lease (ts_db st) = Ok (Some (16, 100)) /\
  100 * second <= ts_now st - 1 * second /\
  ts_store st = ∅ /\ mq_waiting (ts_queue st) = ∅ /\ ts_loop st = LIdle /\ ts_handler st = HIdle /\
  ts_deletes st = [(str "/a", 7, 1000000000)].
Proof. vm_compute. repeat split. discriminate. Qed.

(** The event of a lease of 292 years, which the loop has just loaded. *)
Definition long_lease : ttlState := final [Receive (lease_event 7 9223372037)].

Lemma ttl_lease_overflow_witness :
  lease_duration 9223372037 < 0 /\
  exists st2 ext r uuid,
    acts (CF := sample_config) (openSubspaces sample_dir)
      [LoopStore; LoopQueue; HandlerGet; HandlerLoad; HandlerCheck;
       HandlerDelete (sample_run true) (sample_uuid Byte.x22); HandlerFinish] long_lease = Some (Ok st2) /\
    ts_now st2 = ts_now long_lease /\ ts_deletes st2 = (str "/a", 7, ts_now long_lease) :: ts_deletes long_lease /\
    Repr sample_dir (ts_db st2) (sample_history ++ ext) 0 /\
    key_part (str "/a") ext = [(r, deleted (str "/a") (sample_last (str "/a")) uuid)].
Proof.
  apply (ttl_lease_overflow (KV := map_store) (CF := sample_config) (DQ := map_queue) sample_dir long_lease
    (lease_event 7 9223372037) None (mkMapQueue ∅ {[str "/a"]}) (sample_run true) (sample_uuid Byte.x22)
    (sample_last (str "/a")) sample_history 0).
  - vm_compute. reflexivity.
  - vm_compute. reflexivity.
  - vm_compute. reflexivity.
  - cbn. lia.
  - vm_compute. reflexivity.
  - exact sample_repr.
  - vm_compute. reflexivity.
  - vm_compute. reflexivity.
  - vm_compute. reflexivity.
  - apply sample_good_run.
Defined.
