(* ===== verification/Wal.v ===== *)
(** pkg/drivers/fdb/fdb_wal.go: the export of all records in the order of
    their revisions. *)
From stdpp Require Import base strings list gmap sorting.
From Stdlib Require Import Strings.Byte ZArith Lia.
From S2P Require Import Prelude FdbApi Util Subspaces Transact.

Record walCollector := mkWalCollector {
  wc_f : FDB;
  wc_batchEvents : list RevRecord;
  wc_records : list RevRecord
}.

Section WalDefs.
Context `{FB : FdbBindings, KV : KVStore, CF : Config}.

Definition newWalCollector (f : FDB) : walCollector := mkWalCollector f [] [].

Definition walCollector_next (tr : Transaction) (it : RangeIterator) (c : walCollector)
    : res (option bytes * bool * Transaction * RangeIterator) * walCollector :=
  match ByRevision_GetFromIterator (byRevision (wc_f c)) it with
  | Err e => (Err e, c)
  | Panic => (Panic, c)
  | Ok (None, it) => (Ok (None, false, tr, it), c)
  | Ok (Some (rev, record), it) =>
      (Ok (Some (Pack (byRevision (wc_f c)) [TVersionstamp rev; TInt int64_max]), true, tr, it),
       mkWalCollector (wc_f c) (wc_batchEvents c ++ [mkRevRecord rev record]) (wc_records c))
  end.

#[global] Instance walCollector_Processor : Processor RangeIterator walCollector := {
  startBatch c := mkWalCollector (wc_f c) [] (wc_records c);
  next := walCollector_next;
  endBatch tr _ c := (Ok tr, c);
  postBatch c := mkWalCollector (wc_f c) (wc_batchEvents c) (wc_records c ++ wc_batchEvents c)
}.

(** [ReadWAL]: the records collected so far are returned also with an
    error. *)
Definition ReadWAL (f : FDB) (envs : list (TransactEnv BatchEnv)) (s : store)
    : option (list RevRecord * res unit) * store :=
  let '(b, e) := FDBRangeKeys (byRevision f) in
  match processRange envs (FirstGreaterOrEqual b) (FirstGreaterOrEqual e) s (newWalCollector f) with
  | (Some r, s, c) => (Some (wc_records c, r), s)
  | (None, s, _) => (None, s)
  end.
End WalDefs.
