(* ===== verification/WalSpec.v ===== *)
(** What the export of fdb_wal.go promises: the history of one revision,
    over any number of transactions and with other clients writing. *)
From stdpp Require Import base strings list gmap sorting.
From Stdlib Require Import Strings.Byte ZArith Lia.
From S2P Require Import Prelude FdbApi KeyOrder FdbInstance Util Subspaces SubspaceFacts Transact History Samples RevScan Scan Write Read ScanSpec ReadSpec Wal.

(** A record as the by-revision subspace gives it back. *)
Definition exported (e : entry) : RevRecord := mkRevRecord (int64ToVersionstamp e.1) (byRevision_view e.2).

Section WalSpec.
Context `{FB : FdbBindings, KV : KVStore, CF : Config}.
Context (dir : bytes).
Abbreviation f := (openSubspaces dir).

#[global] Instance walCollector_laws : BatchLaws RangeIterator walCollector.
Proof.
  split; [done| |done]. intros tr it c. cbn [next startBatch walCollector_Processor]. unfold walCollector_next.
  by destruct (ByRevision_GetFromIterator _ it) as [[[[r record]|] it2]|e|].
Qed.

#[global] Instance walCollector_ro : ReadOnly RangeIterator walCollector.
Proof.
  split; [|by intros tr b c tr2 c2 [= <- _]]. intros tr it c k more tr2 it2 c2.
  cbn [next walCollector_Processor]. unfold walCollector_next.
  destruct (ByRevision_GetFromIterator _ it) as [[[[r record]|] it3]|e|]; by try intros [= _ _ <- _ _].
Qed.

(** The collector with records added to the batch. *)
Definition wal_add (c : walCollector) (D : list entry) : walCollector :=
  mkWalCollector (wc_f c) (wc_batchEvents c ++ (exported <$> D)) (wc_records c).

Lemma wal_next tr x it (c : walCollector) :
  entry_ok x -> wc_f c = f ->
  next tr (rev_part dir None x ++ it) c = (Ok (Some (after_rev_key dir x.1), true, tr, it), wal_add c [x]).
Proof.
  intros Hx Hf. cbn [next walCollector_Processor]. unfold walCollector_next. rewrite Hf.
  destruct (GetFromIterator_part dir None x it Hx ltac:(done)) as (r & -> & _ & _ & Hr).
  unfold wal_add. by rewrite (Hr eq_refl), Hf.
Qed.

Lemma wal_loop budget tr items (c : walCollector) :
  Forall entry_ok items -> wc_f c = f ->
  exists D rest res,
    batch_loop budget None tr (items ≫= rev_part dir None) c = (Ok (res, tr), wal_add c D) /\ items = D ++ rest /\
    (if collectorNeedsMore res
     then length D = S budget /\ lastReadKey res = (fun x => after_rev_key dir x.1) <$> last D else rest = []).
Proof.
  revert budget c. induction items as [|x items IH]; intros budget c Hok Hf.
  - exists [], [], (mkBatchResult None false). unfold wal_add. rewrite app_nil_r.
    split; [destruct budget; by destruct c|done].
  - apply Forall_cons in Hok as [Hx Hok]. rewrite bind_cons.
    pose proof (wal_next tr x (items ≫= rev_part dir None) c Hx Hf) as Hn.
    destruct budget as [|budget]; cbn [batch_loop]; rewrite Hn, bool_decide_eq_true_2 by done.
    + exists [x], items, (mkBatchResult (Some (after_rev_key dir x.1)) true). done.
    + destruct (IH budget (wal_add c [x]) Hok) as (D & rest & res & Hloop & -> & Hend); [done|].
      exists (x :: D), rest, res. cbn [andb collectorNeedsMore].
      change (prod_map pred id <$> None) with (@None (nat * Z)). rewrite Hloop.
      split; [unfold wal_add; cbn; by rewrite <-app_assoc|]. split; [done|].
      destruct (collectorNeedsMore res); [|done]. destruct Hend as [Hlen ->]. split; [cbn; lia|].
      destruct D as [|z D]; [done|]. by rewrite last_cons_cons.
Qed.

Definition wal_range (y : Z) : SelectorRange :=
  mkSelectorRange (if y =? 0 then FirstGreaterOrEqual (FDBRangeKeys (byRevision f)).1
                   else FirstGreaterThan (after_rev_key dir y))
    (FirstGreaterOrEqual (FDBRangeKeys (byRevision f)).2).

Lemma wal_body s h comp rv budget y (c : walCollector) :
  Repr dir s h comp -> wc_f c = f -> 0 <= y <= int64_max ->
  exists D rest res,
    batch_body (wal_range y) (mkBatchEnv budget None) (begin_tr s rv) c = (Ok (res, begin_tr s rv), wal_add (startBatch c) D) /\
    rev_todo h y None = D ++ rest /\
    (if collectorNeedsMore res
     then length D = S budget /\ lastReadKey res = (fun x => after_rev_key dir x.1) <$> last D else rest = []).
Proof.
  intros HR Hf Hy. unfold batch_body. cbn [b_budget b_fault]. unfold tr_GetRange.
  change (tr_view (begin_tr s rv)) with s.
  assert (Hsel : srange s (selector_key (Begin (wal_range y))) (selector_key (End (wal_range y)))
                 = rev_todo h y None ≫= rev_part dir None).
  { unfold wal_range. cbn [Begin End selector_key]. rewrite FDBRangeKeys_spec. cbn [fst snd].
    apply (srange_revs dir s h comp _ y None); [done..|]. left. unfold rev_begin. by destruct (y =? 0). }
  rewrite Hsel. destruct (wal_loop budget (begin_tr s rv) (rev_todo h y None) (startBatch c))
    as (D & rest & res & Hloop & Hitems & Hend); [|done|].
  { rewrite Forall_forall. intros x [_ Hx]%list_elem_of_filter.
    pose proof (R_ok _ _ _ _ HR) as Hok. rewrite Forall_forall in Hok. by apply Hok. }
  rewrite Hloop. exists D, rest, res. by split.
Qed.

(** ** The whole export *)

Context (comp : Z) (grow : nat).

(** Between batches: the records up to [y] are there. *)
Definition wal_inv (h : history) (y : Z) (c : walCollector) : Prop :=
  wc_f c = f /\ wc_records c = exported <$> rev_todo h 0 (Some y).

Lemma wal_inv_since h p y c s2 h2 p2 :
  y <= p -> wal_inv h y c -> since dir comp h p s2 h2 p2 -> wal_inv h2 y c.
Proof.
  intros Hy [Hf Hr] [HR (ext & -> & Hext) Hle _]. split; [done|].
  rewrite rev_todo_extend; [done|apply HR|]. eapply Forall_impl; [exact Hext|]. cbn. lia.
Qed.

(** What is up to a revision and what is after it. *)
Lemma rev_todo_halves h y :
  StronglySorted rev_lt h -> (forall u, u ∈ h -> 0 < u.1) -> rev_todo h 0 (Some y) ++ rev_todo h y None = h.
Proof.
  intros Hs Hpos. apply (ssorted_ext rev_lt); [|done|].
  - apply StronglySorted_app. split; [|split; by apply rev_todo_sorted].
    intros u v [_ [_ Hu]]%elem_of_rev_todo [_ [Hv _]]%elem_of_rev_todo. unfold rev_lt. lia.
  - intros u. rewrite elem_of_app, !elem_of_rev_todo. unfold in_revs. split; [tauto|]. intros Hu.
    specialize (Hpos u Hu). destruct (Z.le_gt_cases u.1 y); [left|right]; split; try done; lia.
Qed.

Lemma wal_run N envs : forall s h p y c,
  enough N (length (rev_todo h y None)) (length h) envs ->
  Repr dir s h comp -> Forall (fun e => e.1 <= p) h -> 0 <= y <= p -> y <= int64_max ->
  reads_ok dir comp grow p (envs ≫= te_attempts) ->
  (length h + grow * length (envs ≫= te_attempts) <= N)%nat -> wal_inv h y c ->
  exists s2 h2 p2 c2, processRange envs (Begin (wal_range y)) (End (wal_range y)) s c = (Some (Ok tt), s2, c2) /\
    since dir comp h p s2 h2 p2 /\ wc_records c2 = exported <$> h2.
Proof.
  induction envs as [|te envs IH]; intros s h p y c Htime HR Hup Hy Hmax Hreads HN Hinv.
  { exfalso. eapply not_enough; [|exact Htime]. cbn in HN. lia. }
  apply enough_cons in Htime as [Hte Htime]. rewrite bind_cons in Hreads, HN.
  assert (Hbody : forall a s2 h2, since dir comp h p s2 h2 (at_read_version a) -> _) by
    exact (fun a s2 h2 Hs2 => wal_body s2 h2 comp (at_read_version a) (b_budget (at_env a)) y c
             (sn_repr _ _ _ _ _ _ _ Hs2) (proj1 Hinv) ltac:(lia)).
  destruct (processBatch_since dir comp grow h p te (envs ≫= te_attempts) s h p (wal_range y) c N Hte
    (since_refl _ _ _ _ _ HR Hup) Hreads HN) as (a & s2 & h2 & Ha & Hpos & Hs2 & Hr2 & Hn2 & Hbatch).
  { intros a s2 h2 Hs2 _. destruct (Hbody a s2 h2 Hs2) as (D & rest & res & Hb & _). unfold no_fault. by rewrite Hb. }
  destruct (Hbody a s2 h2 Hs2) as (D & rest & res & Hb & Hitems & Hend).
  unfold no_fault in Hbatch. rewrite Hb in Hbatch. cbn [res_map fst] in Hbatch.
  cbn [processRange]. change (mkSelectorRange (Begin ?r) (End ?r)) with r. rewrite Hbatch.
  destruct (wal_inv_since _ _ _ _ _ _ _ (proj2 Hy) Hinv Hs2) as [_ Hrec].
  pose proof Hs2 as [HR2 _ Hle Hup2]. pose proof (R_sorted _ _ _ _ HR2) as Hsort.
  pose proof (R_ok _ _ _ _ HR2) as Hok. rewrite Forall_forall in Hok.
  set (c2 := postBatch (wal_add (startBatch c) D)).
  assert (Hc2 : wc_records c2 = exported <$> rev_todo h2 0 (Some y) ++ D) by (cbn; by rewrite Hrec, fmap_app).
  assert (HDs : StronglySorted rev_lt D).
  { apply (StronglySorted_app_1_l rev_lt D rest). rewrite <-Hitems. by apply rev_todo_sorted. }
  destruct (collectorNeedsMore res).
  - destruct Hend as [Hlen Hkey]. destruct (last D) as [x|] eqn:El; [|apply last_None in El; by subst D].
    rewrite Hkey. cbn [fmap option_fmap option_map].
    pose proof (todo_prefix h2 y None D rest x Hsort Hitems El) as HD.
    destruct (proj1 (HD x) (last_Some_elem_of _ _ El)) as [Hxh Hxy].
    destruct (Hok x Hxh) as [Hxr _].
    destruct Htime as [[-> Hbud]|Htime].
    { rewrite Forall_forall in Hbud. specialize (Hbud a Ha). cbn in Hbud.
      assert (Hl2 : (length D <= length (rev_todo h2 y None))%nat) by (rewrite Hitems, length_app; lia).
      pose proof (length_filter (in_revs y None) h2). unfold rev_todo in Hl2. lia. }
    assert (Hxp : x.1 <= at_read_version a) by (rewrite Forall_forall in Hup2; by apply Hup2).
    destruct (IH s2 h2 (at_read_version a) x.1 c2) as (s3 & h3 & p3 & c3 & Hproc & Hs3 & Hr3);
      try done; [|lia|lia| |].
    { destruct (sn_ext _ _ _ _ _ _ _ Hs2) as (ext & -> & _). rewrite length_app. apply Htime.
      by eapply rev_todo_progress. }
    { split; [apply Hinv|]. by rewrite Hc2, (rev_todo_next h2 0 y x.1 D) by (done || lia). }
    exists s3, h3, p3, c3. split; [|split; [by eapply since_trans|done]].
    unfold wal_range in Hproc at 1. cbn [Begin] in Hproc. rewrite (proj2 (Z.eqb_neq x.1 0)) in Hproc by lia. exact Hproc.
  - subst rest. rewrite app_nil_r in Hitems. exists s2, h2, (at_read_version a), c2. split; [done|]. split; [done|].
    rewrite Hc2. f_equal. rewrite <-Hitems. apply rev_todo_halves; [done|].
    intros u Hu. destruct (Hok u Hu) as [Hur _]. lia.
Qed.

Lemma ReadWAL_spec p0 h0 s envs :
  read_run dir grow comp p0 h0 s envs -> 0 <= p0 ->
  exists s2 h2 p2, since dir comp h0 p0 s2 h2 p2 /\
    ReadWAL f envs s = (Some (exported <$> h2, Ok tt), s2).
Proof.
  intros [HR Hup Hreads Htime] Hp0.
  destruct (wal_run _ envs s h0 p0 0 (newWalCollector f) (enough_le _ _ _ _ _ (length_filter _ _) Htime) HR Hup ltac:(lia) ltac:(done) Hreads ltac:(reflexivity))
    as (s2 & h2 & p2 & c2 & Hproc & Hs2 & Hrec).
  { split; [done|]. cbn. unfold rev_todo. rewrite filter_none; [done|]. intros x _ [? ?]. lia. }
  exists s2, h2, p2. split; [done|]. unfold ReadWAL. rewrite (surjective_pairing (FDBRangeKeys _)).
  change (FirstGreaterOrEqual (FDBRangeKeys (byRevision f)).1) with (Begin (wal_range 0)).
  change (FirstGreaterOrEqual (FDBRangeKeys (byRevision f)).2) with (End (wal_range 0)).
  by rewrite Hproc, Hrec.
Qed.

(** C25: the export returns the whole history of one revision, every record
    with its value and in the order of the revisions, whatever transactions
    it needs, the attempts that fail and the records that other clients write
    meanwhile. *)
Theorem ReadWAL_history p0 h0 s envs :
  read_run dir grow comp p0 h0 s envs -> 0 <= p0 ->
  exists s2 h2 p2, since dir comp h0 p0 s2 h2 p2 /\
    ReadWAL f envs s = (Some (exported <$> h2, Ok tt), s2).
Proof. apply ReadWAL_spec. Qed.
End WalSpec.

Lemma ReadWAL_history_witness :
  exists s2 h2 p2, since sample_dir 0 sample_history 12 s2 h2 p2 /\
    ReadWAL (openSubspaces sample_dir) sample_scan sample_store = (Some (exported <$> h2, Ok tt), s2).
Proof.
  apply (ReadWAL_history (KV := map_store) (CF := sample_config) sample_dir 0 1 12 sample_history sample_store sample_scan).
  - exact sample_read_run.
  - lia.
Defined.
