(* ===== verification/KeySpace.v ===== *)
(** The abstract specification of the backend: an etcd key space.

    A state is a revision and the current key-values; a call replies and
    changes the state as server.Backend documents it.  Other clients put and
    delete keys between and during calls, each at a higher revision. *)
From stdpp Require Import base strings list gmap sorting.
From Stdlib Require Import Strings.Byte ZArith Lia.
From S2P Require Import Prelude FdbApi KeyOrder Util Subspaces SubspaceFacts Transact History Scan Write Read ReadFacts.

Record space := mkSpace {
  sp_rev : Z;
  sp_map : gmap bytes KeyValue
}.

(** The calls of the backend's interface that read or change current keys. *)
Inductive call :=
| CCreate (key value : bytes) (lease : Z)
| CUpdate (key value : bytes) (revision lease : Z)
| CDelete (key : bytes) (revision : Z)
| CGet (key : bytes)
| CList (prefix : bytes).

Inductive reply :=
| RCreated (revision : Z)
| RKeyExists
| RWrite (revision : Z) (kv : option KeyValue) (succeeded : bool)
| RGet (revision : Z) (kv : option KeyValue)
| RList (revision : Z) (kvs : list KeyValue).

(** An update or a delete of a revision applies when the key is at it; a
    delete of revision 0 to any live key. *)
Definition update_applies (revision : Z) (cur : option KeyValue) : option KeyValue :=
  match cur with
  | Some kv => if kv_ModRevision kv =? revision then Some kv else None
  | None => None
  end.

Definition delete_applies (revision : Z) (cur : option KeyValue) : option KeyValue :=
  if revision =? 0 then cur else update_applies revision cur.

Definition kv_before (a b : KeyValue) : Prop := kv_Key a <b kv_Key b.

(** What a call may reply and do.  In the mode for API tests a delete does not
    return the deleted value. *)
Inductive spec_step `{CF : Config} : space -> call -> reply -> space -> Prop :=
| spec_create sp key value lease r :
    sp_map sp !! key = None -> sp_rev sp < r ->
    spec_step sp (CCreate key value lease) (RCreated r)
      (mkSpace r (<[key := mkKeyValue key r r value lease]> (sp_map sp)))
| spec_create_exists sp key value lease kv :
    sp_map sp !! key = Some kv -> spec_step sp (CCreate key value lease) RKeyExists sp
| spec_update sp key value revision lease kv r :
    update_applies revision (sp_map sp !! key) = Some kv -> sp_rev sp < r ->
    let new := mkKeyValue key (kv_CreateRevision kv) r value lease in
    spec_step sp (CUpdate key value revision lease) (RWrite r (Some new) true)
      (mkSpace r (<[key := new]> (sp_map sp)))
| spec_update_fails sp key value revision lease n :
    update_applies revision (sp_map sp !! key) = None -> sp_rev sp <= n ->
    spec_step sp (CUpdate key value revision lease) (RWrite n (sp_map sp !! key) false) sp
| spec_delete sp key revision kv r :
    delete_applies revision (sp_map sp !! key) = Some kv -> sp_rev sp < r ->
    spec_step sp (CDelete key revision)
      (RWrite r (Some (mkKeyValue key (kv_CreateRevision kv) r (if APITest then [] else kv_Value kv) (kv_Lease kv))) true)
      (mkSpace r (delete key (sp_map sp)))
| spec_delete_fails sp key revision n :
    delete_applies revision (sp_map sp !! key) = None -> sp_rev sp <= n ->
    spec_step sp (CDelete key revision) (RWrite n (sp_map sp !! key) false) sp
| spec_get sp key n :
    sp_rev sp <= n -> spec_step sp (CGet key) (RGet n (sp_map sp !! key)) sp
| spec_list sp prefix n kvs :
    sp_rev sp <= n -> StronglySorted kv_before kvs ->
    (forall kv, kv ∈ kvs <-> exists key, sp_map sp !! key = Some kv /\ scan_keys prefix prefix key) ->
    spec_step sp (CList prefix) (RList n kvs) sp.

(** Another client's write of a key of [P]. *)
Inductive other_step (P : bytes -> Prop) : space -> space -> Prop :=
| other_put sp r kv : sp_rev sp < r -> kv_ModRevision kv = r -> P (kv_Key kv) ->
    other_step P sp (mkSpace r (<[kv_Key kv := kv]> (sp_map sp)))
| other_delete sp r key : sp_rev sp < r -> P key ->
    other_step P sp (mkSpace r (delete key (sp_map sp))).

(** The keys that other clients may write while a call runs. *)
Definition disturbs (c : call) (key : bytes) : Prop :=
  match c with
  | CCreate k _ _ | CUpdate k _ _ _ | CDelete k _ => key <> k
  | CGet _ | CList _ => True
  end.

(** A call takes effect at one moment between its start and its end. *)
Definition atomically `{CF : Config} (sp : space) (c : call) (r : reply) (sp2 : space) : Prop :=
  exists sp1 sp1', rtc (other_step (disturbs c)) sp sp1 /\ spec_step sp1 c r sp1' /\
    rtc (other_step (disturbs c)) sp1' sp2.

(** Other clients write any keys, the written one too, until the call takes
    effect. *)
Definition linearized `{CF : Config} (sp : space) (c : call) (r : reply) (sp2 : space) : Prop :=
  exists sp0, rtc (other_step (fun _ => True)) sp sp0 /\ atomically sp0 c r sp2.

(** A sequence of calls. *)
Inductive spec_run `{CF : Config} : space -> list call -> list reply -> space -> Prop :=
| spec_run_nil sp : spec_run sp [] [] sp
| spec_run_cons sp c r sp1 cs rs sp2 :
    linearized sp c r sp1 -> spec_run sp1 cs rs sp2 -> spec_run sp (c :: cs) (r :: rs) sp2.

(** * The key space of a history *)

Section Abstraction.
Context `{CF : Config}.

(** The key-value of a live record. *)
Definition entry_kv (e : entry) : KeyValue := ev_KV (event_of e).

Definition space_add (sp : space) (e : entry) : space :=
  mkSpace e.1 (if IsDelete e.2 then delete (Key e.2) (sp_map sp) else <[Key e.2 := entry_kv e]> (sp_map sp)).

Definition space_of (h : history) : space := fold_left space_add h (mkSpace 0 ∅).

Lemma space_of_app h e : space_of (h ++ [e]) = space_add (space_of h) e.
Proof. unfold space_of. by rewrite fold_left_app. Qed.

(** The current key-value of a key is that of its live record. *)
Lemma space_lookup h key : sp_map (space_of h) !! key = entry_kv <$> live (latest h key).
Proof.
  induction h as [|e h IH] using rev_ind; [done|]. rewrite space_of_app, latest_app. cbn [space_add sp_map].
  case_decide as Hk.
  - cbn [live]. destruct (IsDelete e.2); subst key; [by rewrite lookup_delete_eq|by rewrite lookup_insert_eq].
  - rewrite <-IH. destruct (IsDelete e.2); [by rewrite lookup_delete_ne|by rewrite lookup_insert_ne].
Qed.

(** The revision is that of the last record. *)
Lemma space_rev_lt h r :
  0 < r -> Forall (fun e => e.1 < r) h -> sp_rev (space_of h) < r.
Proof.
  intros Hr Hh. destruct h as [|e h _] using rev_ind; [done|]. rewrite space_of_app. cbn.
  apply Forall_app in Hh as [_ He]. by rewrite Forall_singleton in He.
Qed.

Lemma space_rev_le h r : 0 <= r -> Forall (fun e => e.1 <= r) h -> sp_rev (space_of h) <= r.
Proof.
  intros Hr Hh. destruct h as [|e h _] using rev_ind; [done|]. rewrite space_of_app. cbn.
  apply Forall_app in Hh as [_ He]. by rewrite Forall_singleton in He.
Qed.

(** Appended records are writes of other clients. *)
Lemma others_append P h ext :
  StronglySorted rev_lt (h ++ ext) -> Forall (fun e => 0 < e.1) (h ++ ext) -> Forall (fun e => P (Key e.2)) ext ->
  rtc (other_step P) (space_of h) (space_of (h ++ ext)).
Proof.
  induction ext as [|e ext IH] using rev_ind; intros Hs Hpos HP; [rewrite app_nil_r; constructor|].
  rewrite app_assoc in Hs, Hpos |- *. apply Forall_app in HP as [HP He]. rewrite Forall_singleton in He.
  apply Forall_app in Hpos as [Hpos Hr]. rewrite Forall_singleton in Hr.
  eapply rtc_r; [apply IH; [by apply StronglySorted_app_1_l in Hs|done..]|].
  rewrite space_of_app. unfold space_add.
  assert (Hlt : sp_rev (space_of (h ++ ext)) < e.1).
  { apply space_rev_lt; [done|]. rewrite Forall_forall. intros x Hx.
    exact (StronglySorted_app_1_elem_of rev_lt _ _ x e Hs Hx ltac:(left)). }
  destruct (IsDelete e.2); [by constructor|].
  change (Key e.2) with (kv_Key (entry_kv e)) at 1. by constructor.
Qed.
End Abstraction.
