(* ===== verification/Refine.v ===== *)
(** The driver refines the key space of KeySpace.v: every call of a session
    takes effect at one moment between its start and its end, whatever
    attempts fail and whatever other clients write meanwhile.  Once an attempt
    of a write may have been applied, other clients leave its key alone until
    the call returns.  Gets and lists are of the current revision; the list is
    of a whole prefix, without a limit, the get of a key without a trailing
    slash.  Reads at older revisions, from a start key and with a limit are
    the subject of ReadSpec.v. *)
From stdpp Require Import base strings list gmap sorting.
From Stdlib Require Import Strings.Byte ZArith Lia.
From S2P Require Import Prelude FdbApi KeyOrder FdbInstance Util Subspaces SubspaceFacts Transact History Samples Write WriteSpec Read Scan ReadFacts ListValues ScanSpec ReadSpec RevScan KeySpace.

(** The latest revision that a transaction sees: the counter of sequential
    ids, or its read version. *)
Definition head_revision `{CF : Config} (h : history) (rv : Z) : Z :=
  if UseSequentialId then 1 + Z.of_nat (length h) else rv.

Lemma head_rev_head `{FB : FdbBindings, KV : KVStore, CF : Config} dir s h c rv :
  Repr dir s h c -> head_rev dir s rv (head_revision h rv).
Proof.
  intros HR. unfold head_rev, head_revision. destruct UseSequentialId eqn:Es; [|done]. by apply (R_seq _ _ _ _ HR).
Qed.

Lemma numbered_le h e : numbered h -> e ∈ h -> e.1 <= 1 + Z.of_nat (length h).
Proof.
  intros Hnum He. assert (Hin : e.1 ∈ h.*1) by (by apply list_elem_of_fmap_2).
  rewrite Hnum, elem_of_seqZ in Hin. lia.
Qed.

(** All revisions are up to a read version; the numbers of sequential ids do
    not depend on it. *)
Definition known `{CF : Config} (p : Z) (h : history) : Prop := UseSequentialId = false -> Forall (fun e => e.1 <= p) h.

Lemma head_le `{FB : FdbBindings, KV : KVStore, CF : Config} dir s h c rv :
  Repr dir s h c -> 0 <= rv -> known rv h -> 0 <= head_revision h rv /\ Forall (fun e => e.1 <= head_revision h rv) h.
Proof.
  intros HR Hrv Hup. unfold head_revision. destruct UseSequentialId eqn:Es; [|by split; [|apply Hup]]. split; [lia|].
  rewrite Forall_forall. intros e. apply numbered_le, (R_seq _ _ _ _ HR Es).
Qed.

(** A record continues its key: a create one that is not live, another one
    the live record that it links to. *)
Definition linked_entry (h : history) (e : entry) : Prop :=
  if IsCreate e.2 then live (latest h (Key e.2)) = None
  else exists x, live (latest h (Key e.2)) = Some x /\ PrevRevision e.2 = int64ToVersionstamp x.1.

(** * Writes that do not apply *)

Section Rejected.
Context `{FB : FdbBindings, KV : KVStore, CF : Config}.
Context (dir : bytes) (key : bytes) (h0 : history) (c : Z).

(** Attempts at growing read versions, before which other clients write other
    keys. *)
Fixpoint steady (prev : Z) (attempts : list (Attempt bytes)) : Prop :=
  match attempts with
  | [] => True
  | a :: rest =>
      prev <= at_read_version a /\
      (forall s h, Repr dir s h c -> known prev h ->
         exists ext, Repr dir (at_others a s) (h ++ ext) c /\ known (at_read_version a) ext /\
           Forall (fun e => Key e.2 <> key) ext) /\
      steady (at_read_version a) rest
  end.

Context (body : bytes -> Transaction -> bytes -> res (writeResult * Transaction) * bytes).
Context (last : bytes) (out : Z -> res (Z * option KeyValue * bool)).

(** The body writes nothing and has the outcome [out] of the latest
    revision. *)
Definition rejects : Prop :=
  forall s h rv uuid, Repr dir s h c -> key_part key h = key_part key h0 ->
    match body uuid (begin_tr s rv) last with
    | (Ok (w, tr), l) => tr = open_tr s rv /\ l = last /\ forall stamp, getResult stamp w = out (head_revision h rv)
    | (Err e, l) => l = last /\ (forall code, e <> FDBError code) /\ out (head_revision h rv) = Err e
    | (Panic, _) => False
    end.

Definition rejected (p : Z) (result : option (res (writeResult * bytes)) * store * bytes) : Prop :=
  exists r s2 ext rv, result = (Some r, s2, last) /\ Repr dir s2 (h0 ++ ext) c /\
    Forall (fun e => Key e.2 <> key) ext /\ known rv (h0 ++ ext) /\ p <= rv /\
    let n := head_revision (h0 ++ ext) rv in
    match r with Ok (w, stamp) => getResult stamp w = out n | Err e => out n = Err e | Panic => False end.

Lemma key_part_avoids ext : Forall (fun e : entry => Key e.2 <> key) ext -> key_part key ext = [].
Proof.
  intros He. apply (key_part_others key ext (1 + foldr (fun e m => Z.max e.1 m) 0 ext)).
  induction He as [|e ext Hk _ IH]; [done|]. constructor; [cbn; split; [lia|done]|].
  eapply Forall_impl; [exact IH|]. cbn. intros x [? ?]. split; [lia|done].
Qed.

Lemma retryable_rejected pre a s ext p :
  rejects -> Forall retries pre -> commits a -> steady p (pre ++ [a]) ->
  Repr dir s (h0 ++ ext) c -> known p (h0 ++ ext) -> Forall (fun e => Key e.2 <> key) ext ->
  rejected p (retryable body (pre ++ [a]) s last).
Proof.
  intros Hrej Hre (Hfault & Hcom & Hforce). revert s ext p.
  assert (Hothers : forall b rest s ext p, steady p (b :: rest) ->
    Repr dir s (h0 ++ ext) c -> known p (h0 ++ ext) -> Forall (fun e => Key e.2 <> key) ext ->
    exists ext2, Repr dir (at_others b s) (h0 ++ ext2) c /\
      known (at_read_version b) (h0 ++ ext2) /\ Forall (fun e => Key e.2 <> key) ext2).
  { intros b rest s ext p (Hp & Hoth & _) HR Hup Hk. destruct (Hoth s _ HR Hup) as (more & HR2 & Hmore & Hk2).
    exists (ext ++ more). rewrite app_assoc. split; [done|]. split; [|by apply Forall_app].
    intros Es. apply Forall_app. split; [|by apply Hmore]. eapply Forall_impl; [by apply Hup|]. cbn. lia. }
  assert (Hbody : forall b s ext, Repr dir s (h0 ++ ext) c -> Forall (fun e => Key e.2 <> key) ext -> _) by
    exact (fun b s ext HR Hk => Hrej s (h0 ++ ext) (at_read_version b) (at_env b) HR
             ltac:(by rewrite key_part_app, (key_part_avoids _ Hk), app_nil_r)).
  induction pre as [|b pre IH]; intros s ext p Hst HR Hup Hk; cbn [app retryable] in *.
  - destruct (Hothers _ _ _ _ _ Hst HR Hup Hk) as (ext2 & HR2 & Hup2 & Hk2). destruct Hst as [Hp _].
    pose proof (Hbody a _ _ HR2 Hk2) as Hb. unfold wrapped. rewrite Hfault.
    destruct (body _ _ _) as [[[w tr]|e|] l]; [| |done].
    + destruct Hb as (-> & -> & Hres). rewrite Hcom, tr_commit_open. unfold retry_decision. rewrite Hforce.
      eexists _, _, ext2, (at_read_version a). split_and!; [done..|apply Hres].
    + destruct Hb as (-> & Hne & Hres). unfold retry_decision. rewrite Hforce.
      destruct e; try (eexists _, _, ext2, (at_read_version a); by split_and!). by destruct (Hne code).
  - apply Forall_cons in Hre as [Hreb Hre].
    destruct (Hothers _ _ _ _ _ Hst HR Hup Hk) as (ext2 & HR2 & Hup2 & Hk2). destruct Hst as (Hp & _ & Hrest).
    assert (Hgo : forall r, rejected (at_read_version b) r -> rejected p r).
    { intros r (x & s2 & ext3 & rv & ? & ? & ? & ? & ? & ?). exists x, s2, ext3, rv. split_and!; try done. lia. }
    assert (Hretry : forall code, retry_decision (T := writeResult) b (Err (FDBError code)) = None).
    { intros code. unfold retry_decision. rewrite Hreb. by destruct (at_force_retry b). }
    assert (Hnext : rejected p (retryable body (pre ++ [a]) (at_others b s) last)) by (by apply Hgo, (IH Hre _ ext2)).
    unfold wrapped. destruct (at_fault b) as [code|]; [by rewrite Hretry|].
    pose proof (Hbody b _ _ HR2 Hk2) as Hb.
    destruct (body _ _ _) as [[[w tr]|e|] l]; [| |done].
    + destruct Hb as (-> & -> & Hres). rewrite tr_commit_open.
      destruct (at_commit b) as [|code|[]]; rewrite ?Hretry; [|done..].
      unfold retry_decision. destruct (at_force_retry b); [by rewrite Hreb|].
      eexists _, _, ext2, (at_read_version b). split_and!; [done..|apply Hres].
    + destruct Hb as (-> & Hne & Hres). unfold retry_decision. destruct (at_force_retry b); [by rewrite Hreb|].
      destruct e; try (eexists _, _, ext2, (at_read_version b); by split_and!). by destruct (Hne code).
Qed.
End Rejected.

(** * Calls *)

(** What a call meets: the attempts of its transaction and the UUID it starts
    with, or the transactions of its scan. *)
Record callEnv `{KVStore} := mkCallEnv {
  en_te : TransactEnv bytes;
  en_uuid : bytes;
  en_scan : list (TransactEnv BatchEnv)
}.

Section Refine.
Context `{FB : FdbBindings, KV : KVStore, CF : Config}.
Context (dir : bytes) (Hmode : UseSequentialId = false).
Abbreviation f := (openSubspaces dir).

(** The reply of a call to the driver; no reply for an error that the
    specification does not have, or while the call runs. *)
Definition exec (c : call) (en : callEnv) (s : store) : option reply * store :=
  match c with
  | CCreate key value lease =>
      match Create f (en_te en) (en_uuid en) key value lease s false with
      | (Some (Ok r), s, _) => (Some (RCreated r), s)
      | (Some (Err ErrKeyExists), s, _) => (Some RKeyExists, s)
      | (_, s, _) => (None, s)
      end
  | CUpdate key value revision lease =>
      match Update f (en_te en) (en_uuid en) key value revision lease s false with
      | (Some (Ok (r, kv, ok)), s, _) => (Some (RWrite r kv ok), s)
      | (_, s, _) => (None, s)
      end
  | CDelete key revision =>
      match Delete f (en_te en) (en_uuid en) key revision s false with
      | (Some (Ok (r, kv, ok)), s, _) => (Some (RWrite r kv ok), s)
      | (_, s, _) => (None, s)
      end
  | CGet key =>
      match Get f (en_scan en) key [] 0 false s with
      | (Some (Ok (r, kv)), s) => (Some (RGet r kv), s)
      | (_, s) => (None, s)
      end
  | CList prefix =>
      match List f (en_scan en) prefix prefix 0 0 false s with
      | (Some (Ok (r, kvs)), s) => (Some (RList r kvs), s)
      | (_, s) => (None, s)
      end
  end.

(** The run of a write of a key: commits that fail or have an unknown outcome
    and one that succeeds, read versions that do not go back, and a UUID that
    is not in use. *)
Definition write_env (key : bytes) (h : history) (c : Z) (en : callEnv) : Prop :=
  good_run dir key h c (en_te en) /\
  (exists p, 0 <= p /\ known p h /\ steady dir key c p (te_attempts (en_te en))) /\
  Forall (fun e => WriteUUID e.2 <> en_uuid en) h.

Definition env_ok (s : store) (h : history) (c : Z) (cl : call) (en : callEnv) : Prop :=
  match cl with
  | CCreate key value lease => is_int64 lease /\ zlength value <= maxRecordSize /\ write_env key h c en
  | CUpdate key value _ lease => is_int64 lease /\ zlength value <= maxRecordSize /\ write_env key h c en
  | CDelete key _ => write_env key h c en
  | CGet key => has_slash_suffix key = false /\ exists grow p, 0 <= p /\ read_run dir grow c p h s (en_scan en)
  | CList _ => exists grow p, 0 <= p /\ read_run dir grow c p h s (en_scan en)
  end.

Lemma Repr_pos s h c : Repr dir s h c -> Forall (fun e => 0 < e.1) h.
Proof. intros HR. eapply Forall_impl; [apply HR|]. by intros e [[? _] _]. Qed.

(** ** When a call takes effect *)

Lemma key_part_nil key (l : history) : key_part key l = [] -> Forall (fun e => Key e.2 <> key) l.
Proof.
  intros Hl. rewrite Forall_forall. intros e He Hk.
  assert (Hin : e ∈ key_part key l) by (by apply list_elem_of_filter). rewrite Hl in Hin. by apply not_elem_of_nil in Hin.
Qed.

Lemma key_part_one key (ext : history) e :
  key_part key ext = [e] -> exists e1 e2, ext = e1 ++ e :: e2 /\ Key e.2 = key /\
    Forall (fun x => Key x.2 <> key) e1 /\ Forall (fun x => Key x.2 <> key) e2.
Proof.
  intros Hext.
  assert (Hin : e ∈ key_part key ext) by (rewrite Hext; left).
  apply list_elem_of_filter in Hin as [Hk Hin]. apply list_elem_of_split in Hin as (e1 & e2 & ->).
  exists e1, e2. split; [done|]. split; [done|]. rewrite key_part_app in Hext.
  unfold key_part in Hext at 2. rewrite filter_cons, decide_True in Hext by done. fold (key_part key e2) in Hext.
  destruct (key_part key e1) as [|x l] eqn:E1; cbn in Hext; [|by destruct l].
  injection Hext as E2. split; by apply key_part_nil.
Qed.

Lemma latest_same key h g : key_part key h = key_part key g -> latest h key = latest g key.
Proof. unfold latest, key_part. by intros ->. Qed.

(** The revision that a reply carries. *)
Definition reply_rev (r : reply) : option Z :=
  match r with
  | RCreated n | RWrite n _ _ | RGet n _ | RList n _ => Some n
  | RKeyExists => None
  end.

Definition reply_applied (r : reply) : bool :=
  match r with RCreated _ | RWrite _ _ true => true | _ => false end.

(** A write of [key] takes effect: after records of other keys, it adds one
    record, or none when it does not apply; and other keys are written
    again.  With sequential ids its revision is the number of the record, or
    of the last one. *)
Definition takes_effect (key : bytes) (cl : call) (h : history) (r : reply) (h2 : history) : Prop :=
  exists pre mid post, h2 = h ++ pre ++ mid ++ post /\
    Forall (fun e => Key e.2 <> key) pre /\ Forall (fun e => Key e.2 <> key) post /\ length mid = (if reply_applied r then 1 else 0)%nat /\
    spec_step (space_of (h ++ pre)) cl r (space_of (h ++ pre ++ mid)) /\ Forall (linked_entry (h ++ pre)) mid /\
    (UseSequentialId = true -> forall n, reply_rev r = Some n -> n = 1 + Z.of_nat (length (h ++ pre ++ mid))).

Lemma takes_effect_atomically key cl h r s h2 c :
  (forall k, disturbs cl k <-> k <> key) -> Repr dir s h2 c -> takes_effect key cl h r h2 ->
  atomically (space_of h) cl r (space_of h2).
Proof.
  intros Hdist HR (pre & mid & post & -> & H1 & H2 & _ & Hstep & _).
  pose proof (R_sorted _ _ _ _ HR) as Hs. pose proof (Repr_pos _ _ _ HR) as Hpos.
  assert (Heq : h ++ pre ++ mid ++ post = ((h ++ pre) ++ mid) ++ post) by (by rewrite <-!app_assoc).
  rewrite Heq in Hs, Hpos |- *. rewrite (app_assoc h) in Hstep.
  pose proof Hs as Hs1. apply StronglySorted_app_1_l, StronglySorted_app_1_l in Hs1.
  pose proof Hpos as Hpos1. apply Forall_app in Hpos1 as [Hpos1 _]. apply Forall_app in Hpos1 as [Hpos1 _].
  eexists _, _. split_and!; [|exact Hstep|]; (apply others_append; [done..|]);
    (eapply Forall_impl; [eassumption|]); intros x; apply Hdist.
Qed.

Lemma takes_write cl key h ext z record r s c :
  Repr dir s (h ++ ext) c -> key_part key ext = [(z, record)] -> reply_rev r = Some z -> reply_applied r = true ->
  linked_entry h (z, record) ->
  (forall sp, sp_map sp !! key = sp_map (space_of h) !! key -> sp_rev sp < z ->
     spec_step sp cl r (space_add sp (z, record))) ->
  takes_effect key cl h r (h ++ ext).
Proof.
  intros HR Hext Hr Happ Hlink Hstep. apply key_part_one in Hext as (e1 & e2 & -> & Hk & H1 & H2).
  assert (Hl : latest (h ++ e1) key = latest h key).
  { apply latest_same. by rewrite key_part_app, (key_part_avoids key e1), app_nil_r. }
  exists e1, [(z, record)], e2. split; [done|]. split; [done|]. split; [done|]. split; [by rewrite Happ|].
  pose proof (R_sorted _ _ _ _ HR) as Hs. pose proof (Repr_pos _ _ _ HR) as Hpos.
  rewrite (app_assoc h e1 (_ :: _)) in Hs, Hpos. split_and!.
  - rewrite (app_assoc h e1), (space_of_app (h ++ e1)). apply Hstep.
    + by rewrite !space_lookup, Hl.
    + apply space_rev_lt; [by apply Forall_app in Hpos as [_ [? _]%Forall_cons]|].
      rewrite Forall_forall. intros x Hx.
      exact (StronglySorted_app_1_elem_of rev_lt _ _ x _ Hs Hx ltac:(left)).
  - apply Forall_singleton. unfold linked_entry in *. cbn [snd] in Hk, Hlink |- *. by rewrite Hk in Hlink |- *; rewrite Hl.
  - intros Es n. rewrite Hr. intros [= <-]. destruct (R_seq _ _ _ _ HR Es) as [_ Hnum].
    assert (Heq : h ++ e1 ++ (z, record) :: e2 = ((h ++ e1) ++ [(z, record)]) ++ e2) by (by rewrite <-!app_assoc).
    rewrite Heq in Hnum. apply numbered_prefix, numbered_snoc in Hnum as [_ ->].
    rewrite !length_app. cbn [length]. lia.
Qed.

Lemma takes_rejected cl key h ext r :
  reply_applied r = false ->
  Forall (fun e => Key e.2 <> key) ext -> spec_step (space_of (h ++ ext)) cl r (space_of (h ++ ext)) ->
  (UseSequentialId = true -> forall n, reply_rev r = Some n -> n = 1 + Z.of_nat (length (h ++ ext))) ->
  takes_effect key cl h r (h ++ ext).
Proof. intros Happ Hext Hstep Hn. exists ext, [], []. rewrite !app_nil_r, Happ. by split_and!. Qed.

(** A call is simulated: it replies, as the specification allows. *)
Definition simulated (cl : call) (en : callEnv) (s : store) (h : history) (c : Z) : Prop :=
  exists r s2 h2, exec cl en s = (Some r, s2) /\ Repr dir s2 h2 c /\ atomically (space_of h) cl r (space_of h2).

Definition write_simulated (key : bytes) (cl : call) (en : callEnv) (s : store) (h : history) (c : Z) : Prop :=
  exists r s2 h2, exec cl en s = (Some r, s2) /\ Repr dir s2 h2 c /\ takes_effect key cl h r h2.

Lemma write_simulated_atomically key cl en s h c :
  (forall k, disturbs cl k <-> k <> key) -> write_simulated key cl en s h c -> simulated cl en s h c.
Proof.
  intros Hdist (r & s2 & h2 & He & HR & Ht). exists r, s2, h2. split; [done|]. split; [done|].
  by eapply takes_effect_atomically.
Qed.

Lemma transact_rejected key h c p body last out te s :
  rejects dir key h c body last out -> good_run dir key h c te -> steady dir key c p (te_attempts te) ->
  Repr dir s h c -> known p h -> rejected dir key h c last out p (transact body te s last).
Proof.
  intros Hrej (Hcreate & pre & a & Hatt & _ & _ & _ & Hre & Hcommit) Hst HR Hup.
  unfold transact. rewrite Hcreate, Hatt in *.
  apply (retryable_rejected dir key h c body last out pre a s [] p); try done; by rewrite app_nil_r.
Qed.

(** ** The writes *)

(** Adding a record that is not a tombstone. *)
Lemma space_add_put sp z record kv :
  IsDelete record = false -> entry_kv (z, record) = kv -> kv_Key kv = Key record ->
  space_add sp (z, record) = mkSpace z (<[kv_Key kv := kv]> (sp_map sp)).
Proof. intros Hd Hkv Hk. unfold space_add. cbn [fst snd]. by rewrite Hd, Hkv, Hk. Qed.

Lemma fresh_uuid key h g u e :
  Forall (fun e => WriteUUID e.2 <> u) h -> key_part key g = key_part key h -> latest g key = Some e -> WriteUUID e.2 <> u.
Proof.
  intros Hu Hg He. rewrite (latest_same _ _ _ Hg) in He. apply latest_Some in He as [Hin _].
  rewrite Forall_forall in Hu. by apply Hu.
Qed.

Lemma write_create key value lease en s h c :
  Repr dir s h c -> env_ok s h c (CCreate key value lease) en -> write_simulated key (CCreate key value lease) en s h c.
Proof.
  intros HR (Hlease & Hsize & Hrun & (p & Hp & Hup & Hst) & Hu).
  assert (Hnot : (maxRecordSize <? zlength value) = false) by (by apply Z.ltb_ge).
  destruct (live (latest h key)) as [e|] eqn:El.
  - apply live_Some in El as [El Hd].
    destruct (transact_rejected key h c p (create_body f key value lease) (en_uuid en) (fun _ => Err ErrKeyExists)
      (en_te en) s) as (r & s2 & ext & rv & Ht & HR2 & Hk & Hle & _ & Hr); [|done..|].
    { intros s2 h2 rv uuid HR2 Hh2. pose proof (latest_same _ _ _ Hh2) as Hl. rewrite El in Hl.
      rewrite (create_body_exists dir s2 h2 c rv key value lease uuid (en_uuid en) e HR2 Hl Hd);
        [by split_and!|by eapply fresh_uuid]. }
    assert (Hres : exec (CCreate key value lease) en s = (Some RKeyExists, s2)).
    { unfold exec, Create. rewrite Hnot, Ht. destruct r as [[w stamp]|x|]; [by rewrite Hr|by injection Hr as <-|done]. }
    exists RKeyExists, s2, (h ++ ext). split; [done|]. split; [done|].
    apply (takes_rejected _ key h ext); [done|done| |done]. apply (spec_create_exists _ key value lease (entry_kv e)).
    rewrite space_lookup, (latest_same key (h ++ ext) h);
      [rewrite El; cbn [live]; by rewrite Hd|by rewrite key_part_app, (key_part_avoids key ext), app_nil_r].
  - pose proof (create_writes_once dir h c key value lease Hlease Hsize El) as Honce.
    destruct (transact_once dir _ _ _ _ _ _ (en_te en) s (en_uuid en) Honce HR Hrun)
      as (w & stamp & s2 & last2 & ext & z & uuid & Ht & HR2 & Hk & Hres).
    exists (RCreated z), s2, (h ++ ext). split; [unfold exec, Create; by rewrite Hnot, Ht, Hres|]. split; [done|].
    eapply (takes_write _ key); [exact HR2|exact Hk|done|done|done|]. intros sp Hsp Hz.
    rewrite (space_add_put sp z _ (mkKeyValue key z z value lease)); [|done| |done].
    + constructor; [|done]. by rewrite Hsp, space_lookup, El.
    + unfold entry_kv, event_of. cbn. by rewrite andb_false_r.
Qed.

Lemma update_applies_space revision h key :
  update_applies revision (sp_map (space_of h) !! key) =
  match live (latest h key) with
  | Some e => if e.1 =? revision then Some (entry_kv e) else None
  | None => None
  end.
Proof. rewrite space_lookup. by destruct (live (latest h key)). Qed.

Lemma delete_applies_space revision h key :
  delete_applies revision (sp_map (space_of h) !! key) =
  match live (latest h key) with
  | Some e => if (revision =? 0) || (e.1 =? revision) then Some (entry_kv e) else None
  | None => None
  end.
Proof.
  unfold delete_applies. rewrite update_applies_space, space_lookup.
  by destruct (revision =? 0), (live (latest h key)).
Qed.

Lemma space_avoids key h ext :
  Forall (fun e => Key e.2 <> key) ext -> latest (h ++ ext) key = latest h key.
Proof. intros Hk. apply latest_same. by rewrite key_part_app, (key_part_avoids key ext), app_nil_r. Qed.

Lemma current_kv_space h key : current_kv h key = sp_map (space_of h) !! key.
Proof. unfold current_kv. rewrite space_lookup. by destruct (live (latest h key)). Qed.

Lemma write_update key value revision lease en s h c :
  Repr dir s h c -> env_ok s h c (CUpdate key value revision lease) en ->
  write_simulated key (CUpdate key value revision lease) en s h c.
Proof.
  intros HR (Hlease & Hsize & Hrun & (p & Hp & Hup & Hst) & Hu).
  assert (Hnot : (maxRecordSize <? zlength value) = false) by (by apply Z.ltb_ge).
  destruct (update_applies revision (sp_map (space_of h) !! key)) as [kv|] eqn:Ea; pose proof Ea as Eb;
    rewrite update_applies_space in Eb.
  - destruct (live (latest h key)) as [e|] eqn:El; [|done]. destruct (Z.eqb_spec e.1 revision) as [<-|]; [|done].
    injection Eb as <-. apply live_Some in El as [El Hd].
    pose proof (update_writes_once dir h c key value lease e Hlease Hsize El Hd) as Honce.
    destruct (transact_once dir _ _ _ _ _ _ (en_te en) s (en_uuid en) Honce HR Hrun)
      as (w & stamp & s2 & last2 & ext & z & uuid & Ht & HR2 & Hk & Hres).
    pose proof (create_rev_successor e (latest_entry_ok _ _ _ _ _ _ HR El)) as Hcr.
    assert (Hkv : forall u, entry_kv (z, updated key value lease e u) = mkKeyValue key (create_rev e) z value lease).
    { intros u. unfold entry_kv, event_of, create_rev at 1. cbn -[link_rev]. by rewrite Hcr, andb_false_r. }
    exists (RWrite z (Some (mkKeyValue key (create_rev e) z value lease)) true), s2, (h ++ ext).
    split; [unfold exec, Update, write_call; rewrite Hnot, Ht, Hres; by rewrite <-(Hkv zeroUUID)|]. split; [done|].
    eapply (takes_write _ key); [exact HR2|exact Hk|done|done| |].
    { exists e. split; [|done]. apply live_Some. by split. }
    intros sp Hsp Hz.
    rewrite (space_add_put sp z _ (mkKeyValue key (create_rev e) z value lease)); [|done|apply Hkv|done].
    apply (spec_update sp key value e.1 lease (entry_kv e) z); [|done]. by rewrite Hsp.
  - destruct (transact_rejected key h c p (update_body f key value revision lease) (en_uuid en)
      (fun rv => Ok (rv, sp_map (space_of h) !! key, false)) (en_te en) s)
      as (r & s2 & ext & rv & Ht & HR2 & Hk & Hle & Hrv & Hr); [|done..|].
    { intros s2 h2 rv uuid HR2 Hh2. pose proof (latest_same _ _ _ Hh2) as Hl.
      destruct (update_body_stale dir s2 h2 c rv (head_revision h2 rv) key value revision lease uuid (en_uuid en) HR2)
        as (w & -> & Hw); [by eapply head_rev_head| |].
      - unfold stale_update. destruct (live (latest h2 key)) as [e|] eqn:El2; [|done].
        pose proof El2 as El3. rewrite Hl in El3. rewrite El3 in Eb. apply live_Some in El2 as [El2 _].
        split; [|by eapply fresh_uuid]. intros E. by rewrite (proj2 (Z.eqb_eq _ _) E) in Eb.
      - split_and!; [done..|]. intros stamp. rewrite Hw, current_kv_space, !space_lookup. by rewrite Hl. }
    exists (RWrite (head_revision (h ++ ext) rv) (sp_map (space_of h) !! key) false), s2, (h ++ ext). split.
    { unfold exec, Update, write_call. rewrite Hnot, Ht. destruct r as [[w stamp]|x|]; [by rewrite Hr|done..]. }
    split; [done|]. pose proof (space_avoids key h ext Hk) as Hl. apply (takes_rejected _ key h ext); [done|done| |].
    + replace (sp_map (space_of h) !! key) with (sp_map (space_of (h ++ ext)) !! key) by (by rewrite !space_lookup, Hl).
      constructor; [by rewrite update_applies_space, Hl|]. by apply space_rev_le; apply (head_le dir s2 _ c rv HR2); [lia|done|lia|done].
    + unfold head_revision. intros ->. by intros n [= <-].
Qed.

Lemma write_delete key revision en s h c :
  Repr dir s h c -> env_ok s h c (CDelete key revision) en -> write_simulated key (CDelete key revision) en s h c.
Proof.
  intros HR (Hrun & (p & Hp & Hup & Hst) & Hu).
  destruct (delete_applies revision (sp_map (space_of h) !! key)) as [kv|] eqn:Ea; pose proof Ea as Eb;
    rewrite delete_applies_space in Eb.
  - destruct (live (latest h key)) as [e|] eqn:El; [|done].
    assert (Hrev : revision = 0 \/ revision = e.1).
    { destruct (Z.eqb_spec revision 0); [by left|]. destruct (Z.eqb_spec e.1 revision); [by right|done]. }
    assert (kv = entry_kv e) as -> by (destruct (_ || _); congruence).
    apply live_Some in El as [El Hd].
    pose proof (delete_writes_once dir h c key revision e El Hd Hrev) as Honce.
    destruct (transact_once dir _ _ _ _ _ _ (en_te en) s (en_uuid en) Honce HR Hrun)
      as (w & stamp & s2 & last2 & ext & z & uuid & Ht & HR2 & Hk & Hres).
    pose proof (create_rev_successor e (latest_entry_ok _ _ _ _ _ _ HR El)) as Hcr.
    set (v := if APITest then [] else Value e.2).
    assert (Hkv : ev_KV (event_of (z, deleted key e zeroUUID)) = mkKeyValue key (create_rev e) z v (Lease e.2)).
    { unfold event_of, create_rev at 1. cbn -[link_rev]. by rewrite Hcr, andb_true_r. }
    rewrite Hkv in Hres.
    exists (RWrite z (Some (mkKeyValue key (create_rev e) z v (Lease e.2))) true), s2, (h ++ ext).
    split; [unfold exec, Delete, write_call; by rewrite Ht, Hres|]. split; [done|].
    eapply (takes_write _ key); [exact HR2|exact Hk|done|done| |].
    { exists e. split; [|done]. apply live_Some. by split. }
    intros sp Hsp Hz. assert (Hval : kv_Value (entry_kv e) = Value e.2) by (unfold entry_kv, event_of; cbn; by rewrite Hd, andb_false_r).
    unfold v. rewrite <-Hval. apply (spec_delete sp key revision (entry_kv e) z); [|done]. by rewrite Hsp.
  - destruct (transact_rejected key h c p (delete_body f key revision) (en_uuid en)
      (fun rv => Ok (rv, sp_map (space_of h) !! key, false)) (en_te en) s)
      as (r & s2 & ext & rv & Ht & HR2 & Hk & Hle & Hrv & Hr); [|done..|].
    { intros s2 h2 rv uuid HR2 Hh2. pose proof (latest_same _ _ _ Hh2) as Hl.
      destruct (delete_body_stale dir s2 h2 c rv (head_revision h2 rv) key revision uuid (en_uuid en) HR2)
        as (w & -> & Hw); [by eapply head_rev_head| |].
      - unfold stale_delete. destruct (latest h2 key) as [e|] eqn:El2; [|done]. rewrite <-Hl in Eb. cbn [live] in Eb.
        destruct (IsDelete e.2); [by eapply fresh_uuid|].
        destruct (Z.eqb_spec revision 0), (Z.eqb_spec e.1 revision); try done.
      - split_and!; [done..|]. intros stamp. rewrite Hw, current_kv_space, !space_lookup. by rewrite Hl. }
    exists (RWrite (head_revision (h ++ ext) rv) (sp_map (space_of h) !! key) false), s2, (h ++ ext). split.
    { unfold exec, Delete, write_call. rewrite Ht. destruct r as [[w stamp]|x|]; [by rewrite Hr|done..]. }
    split; [done|]. pose proof (space_avoids key h ext Hk) as Hl. apply (takes_rejected _ key h ext); [done|done| |].
    + replace (sp_map (space_of h) !! key) with (sp_map (space_of (h ++ ext)) !! key) by (by rewrite !space_lookup, Hl).
      constructor; [by rewrite delete_applies_space, Hl|]. by apply space_rev_le; apply (head_le dir s2 _ c rv HR2); [lia|done|lia|done].
    + unfold head_revision. intros ->. by intros n [= <-].
Qed.

(** The key of a write. *)
Definition call_key (cl : call) : option bytes :=
  match cl with
  | CCreate key _ _ | CUpdate key _ _ _ | CDelete key _ => Some key
  | CGet _ | CList _ => None
  end.

Lemma write_takes_effect cl key en s h c :
  call_key cl = Some key -> Repr dir s h c -> env_ok s h c cl en -> write_simulated key cl en s h c.
Proof.
  destruct cl; intros [= ->]; [apply write_create|apply write_update|apply write_delete].
Qed.

(** ** The reads *)

Lemma atomically_read cl p h h1 h2 rv s2 envs r c :
  (forall k, disturbs cl k) -> snapshot dir c p h envs rv h1 s2 h2 ->
  spec_step (space_of h1) cl r (space_of h1) -> atomically (space_of h) cl r (space_of h2).
Proof.
  intros Hdist (_ & (s1 & [HR1 (e1 & -> & _) _ _]) & (p2 & [HR2 (e2 & -> & _) _ _])) Hstep.
  exists (space_of (h ++ e1)), (space_of (h ++ e1)). split_and!; [|done|].
  - apply others_append; [apply HR1|by eapply Repr_pos|]. rewrite Forall_forall. intros x _. apply Hdist.
  - apply others_append; [apply HR2|by eapply Repr_pos|]. rewrite Forall_forall. intros x _. apply Hdist.
Qed.

(** The key-value that a read gives for a live record. *)
Lemma kv_of_entry e : IsDelete e.2 = false -> kv_of false e = entry_kv e.
Proof. intros Hd. unfold kv_of, entry_kv, event_of. cbn. by rewrite Hd, andb_false_r. Qed.

Lemma snapshot_upto p h envs rv h1 s2 h2 c :
  snapshot dir c p h envs rv h1 s2 h2 -> Repr dir s2 h2 c /\ p <= rv /\ Forall (fun e => e.1 <= rv) h1 /\
  StronglySorted rev_lt h1 /\ upto rv h1 = h1.
Proof.
  intros (_ & (s1 & [HR1 _ Hle Hup]) & (p2 & [HR2 _ _ _])). split_and!; try done; [apply HR1|].
  unfold upto. apply filter_every. by rewrite Forall_forall in Hup.
Qed.

Lemma simulated_get key en s h c :
  Repr dir s h c -> env_ok s h c (CGet key) en -> simulated (CGet key) en s h c.
Proof.
  intros HR (Hk & grow & p & Hp & Hrun).
  destruct (listKeyValue_spec dir Hmode grow c p h s (en_scan en) Hrun key key 1 0 false)
    as (rv & h1 & s2 & h2 & extra & Hsnap & Hlen & Hextra & Heq); [by right|lia|by left|].
  destruct (snapshot_upto _ _ _ _ _ _ _ _ Hsnap) as (HR2 & Hle & Hup & Hs1 & Hupto).
  assert (Hw : window 0 rv = rv) by done. rewrite Hw, live_list_key, Hupto in * by done.
  assert (Hget : exec (CGet key) en s = (Some (RGet rv (sp_map (space_of h1) !! key)), s2)).
  { unfold exec, Get. rewrite decide_False by auto. rewrite Heq, (proj2 (Z.ltb_ge rv 0)) by lia.
    rewrite space_lookup. destruct (live (latest h1 key)) as [e|] eqn:El.
    - apply live_Some in El as [_ Hd]. cbn [fmap option_fmap option_map]. by rewrite <-kv_of_entry.
    - destruct extra as [|x extra]; [done|]. destruct Hextra as [_ Hx]; [done|]. done. }
  eexists _, s2, h2. split; [exact Hget|]. split; [done|]. eapply atomically_read; [done|exact Hsnap|].
  constructor. apply space_rev_le; [lia|done].
Qed.

Lemma simulated_list prefix en s h c :
  Repr dir s h c -> env_ok s h c (CList prefix) en -> simulated (CList prefix) en s h c.
Proof.
  intros HR (grow & p & Hp & Hrun).
  destruct (listKeyValue_spec dir Hmode grow c p h s (en_scan en) Hrun prefix prefix 0 0 false)
    as (rv & h1 & s2 & h2 & extra & Hsnap & Hlen & Hextra & Heq); [by right|lia|by left|].
  destruct (snapshot_upto _ _ _ _ _ _ _ _ Hsnap) as (HR2 & Hle & Hup & Hs1 & Hupto).
  assert (Hw : window 0 rv = rv) by done. rewrite Hw in *.
  destruct extra as [|x extra]; [|by destruct Hextra]. rewrite app_nil_r in Heq.
  change (limited 0 ?l) with l in Heq. set (L := live_list (scan_keys prefix prefix) rv h1) in *.
  assert (HL : forall e, e ∈ L <-> scan_keys prefix prefix (Key e.2) /\ live (latest h1 (Key e.2)) = Some e).
  { intros e. unfold L, live_list. rewrite list_elem_of_filter, elem_of_by_key, Hupto. split; [tauto|].
    intros [HK Hl]. split; [done|]. apply live_Some in Hl as [Hl _]. by apply latest_Some in Hl as [? _]. }
  assert (Hkvs : kv_of false <$> L = entry_kv <$> L).
  { apply list_fmap_ext. intros i e He. apply list_elem_of_lookup_2, HL in He as [_ Hl].
    apply live_Some in Hl as [_ Hd]. by apply kv_of_entry. }
  exists (RList rv (entry_kv <$> L)), s2, h2. split.
  { unfold exec, List. by rewrite Heq, (proj2 (Z.ltb_ge rv 0)), Hkvs by lia. }
  split; [done|]. eapply atomically_read; [done|exact Hsnap|].
  constructor; [apply space_rev_le; [lia|done]| |].
  - assert (Hsorted : StronglySorted (fun x y : entry => Key x.2 <b Key y.2) L).
    { unfold L. rewrite <-emit_live by done. by apply emit_keys_sorted, todo_sorted. }
    by apply (ssorted_fmap_on (fun x y : entry => Key x.2 <b Key y.2) kv_before).
  - intros kv. rewrite list_elem_of_fmap. split.
    + intros (e & -> & [HK Hl]%HL). exists (Key e.2). by rewrite space_lookup, Hl.
    + intros (key & Hm & HK). rewrite space_lookup in Hm. destruct (live (latest h1 key)) as [e|] eqn:El; [|done].
      injection Hm as <-. exists e. split; [done|]. apply HL. pose proof El as Hl. apply live_Some in Hl as [Hl _].
      apply latest_Some in Hl as [_ <-]. done.
Qed.

Lemma call_simulated cl en s h c : Repr dir s h c -> env_ok s h c cl en -> simulated cl en s h c.
Proof.
  intros HR Henv. destruct (call_key cl) as [key|] eqn:Ek.
  - apply (write_simulated_atomically key); [by destruct cl; simplify_eq/=|by apply write_takes_effect].
  - destruct cl; try done; [by apply simulated_get|by apply simulated_list].
Qed.

(** ** Attempts that are lost

    Until an attempt of a write may have been applied, other clients may
    write the very key that it writes. *)

(** The transaction's body of a write. *)
Definition write_body (cl : call) : bytes -> Transaction -> bytes -> res (writeResult * Transaction) * bytes :=
  match cl with
  | CCreate key value lease => create_body f key value lease
  | CUpdate key value revision lease => update_body f key value revision lease
  | CDelete key revision => delete_body f key revision
  | CGet _ | CList _ => fun _ _ last => (Panic, last)
  end.

(** The attempt is retried, and was not applied: a call of the client library
    fails, the commit conflicts, or its outcome is unknown and it was not
    applied. *)
Definition lost (a : Attempt bytes) : Prop :=
  at_on_error a = None /\
  (at_fault a <> None \/ (exists code, at_commit a = NotCommitted code) \/ at_commit a = CommitUnknown false).

(** The attempt without what other clients do before it. *)
Definition alone (a : Attempt bytes) : Attempt bytes :=
  mkAttempt id (at_env a) (at_fault a) (at_read_version a) (at_commit a) (at_version a) (at_batch a)
    (at_force_retry a) (at_on_error a).

Definition retried (en : callEnv) (attempts : list (Attempt bytes)) (uuid : bytes) : callEnv :=
  mkCallEnv _ (mkTransactEnv None attempts) uuid (en_scan en).

(** What a call meets: any writes of other clients and lost attempts, and
    then a run in which other clients leave the written key alone. *)
Inductive call_env (c : Z) (cl : call) : store -> history -> callEnv -> Prop :=
| ce_run s h en : env_ok s h c cl en -> call_env c cl s h en
| ce_others key s h en a rest ext :
    call_key cl = Some key -> en_te en = mkTransactEnv None (a :: rest) -> Repr dir (at_others a s) (h ++ ext) c ->
    call_env c cl (at_others a s) (h ++ ext) (retried en (alone a :: rest) (en_uuid en)) ->
    call_env c cl s h en
| ce_lost key s h en a rest :
    call_key cl = Some key -> en_te en = mkTransactEnv None (a :: rest) -> at_others a s = s -> lost a ->
    length (at_env a) = 16%nat -> above h (at_version a) -> Forall (fun e => WriteUUID e.2 <> en_uuid en) h ->
    (forall uuid, uuid = en_uuid en \/ uuid = at_env a -> call_env c cl s h (retried en rest uuid)) ->
    call_env c cl s h en.

Definition args_ok (cl : call) : Prop :=
  match cl with
  | CCreate _ value lease | CUpdate _ value _ lease => is_int64 lease /\ zlength value <= maxRecordSize
  | _ => True
  end.

Lemma call_env_args c cl s h en : call_env c cl s h en -> args_ok cl.
Proof. induction 1 as [s h en Henv| |key s h en a rest _ _ _ _ _ _ _ _ IH]; [destruct cl; naive_solver|done|eauto]. Qed.

(** The body of a write runs to its end, and remembers the UUID it had or the
    one of this attempt; a create of a live key fails. *)
Lemma write_body_runs cl key a s h c u :
  call_key cl = Some key -> args_ok cl -> Repr dir s h c -> above h (at_version a) -> length (at_env a) = 16%nat ->
  Forall (fun e => WriteUUID e.2 <> u) h ->
  match write_body cl (at_env a) (begin_tr s (at_read_version a)) u with
  | (Ok _, u2) => u2 = u \/ u2 = at_env a
  | (Err e, u2) => e = ErrKeyExists /\ u2 = u /\
      exists value lease x, cl = CCreate key value lease /\ live (latest h key) = Some x
  | (Panic, _) => False
  end.
Proof.
  intros Hkey Hargs HR Habove Hlen Hu.
  assert (Happ : forall body mkrec kv, writes_once dir key h c body mkrec kv ->
    exists x, body (at_env a) (begin_tr s (at_read_version a)) u = (Ok x, at_env a)).
  { intros body mkrec kv Honce.
    destruct (body_appends dir key h c body mkrec kv a s h u Honce HR eq_refl Habove Hlen) as (_ & w & tr & Hb & _). eauto. }
  pose proof (head_rev_head dir s h c (at_read_version a) HR) as Hhead.
  destruct cl as [k value lease|k value revision lease|k revision| |]; try discriminate Hkey; injection Hkey as ->; cbn [write_body args_ok] in *.
  - destruct Hargs as [Hl Hv]. destruct (live (latest h key)) as [e|] eqn:El.
    + apply live_Some in El as [El Hd]. rewrite (create_body_exists dir s h c _ key value lease _ u e HR El Hd);
        [by eauto 10|by eapply fresh_uuid].
    + destruct (Happ _ _ _ (create_writes_once dir h c key value lease Hl Hv El)) as [x ->]. by right.
  - destruct Hargs as [Hl Hv]. destruct (update_applies revision (sp_map (space_of h) !! key)) eqn:Ea;
      rewrite update_applies_space in Ea; destruct (live (latest h key)) as [e|] eqn:El; try done.
    + destruct (Z.eqb_spec e.1 revision) as [<-|]; [|done]. apply live_Some in El as [El Hd].
      destruct (Happ _ _ _ (update_writes_once dir h c key value lease e Hl Hv El Hd)) as [x ->]. by right.
    + destruct (update_body_stale dir s h c _ _ key value revision lease (at_env a) u HR Hhead) as (w & -> & _); [|by left].
      unfold stale_update. rewrite El. apply live_Some in El as [El _]. split; [|by eapply fresh_uuid].
      intros E. by rewrite (proj2 (Z.eqb_eq _ _) E) in Ea.
    + destruct (update_body_stale dir s h c _ _ key value revision lease (at_env a) u HR Hhead) as (w & -> & _); [|by left].
      unfold stale_update. by rewrite El.
  - destruct (latest h key) as [e|] eqn:El; [destruct (IsDelete e.2) eqn:Hd|].
    + destruct (delete_body_stale dir s h c _ _ key revision (at_env a) u HR Hhead) as (w & -> & _); [|by left].
      unfold stale_delete. rewrite El, Hd. by eapply fresh_uuid.
    + destruct (decide (revision = 0 \/ revision = e.1)) as [Hrev|Hrev].
      * destruct (Happ _ _ _ (delete_writes_once dir h c key revision e El Hd Hrev)) as [x ->]. by right.
      * destruct (delete_body_stale dir s h c _ _ key revision (at_env a) u HR Hhead) as (w & -> & _); [|by left].
        unfold stale_delete. rewrite El, Hd. split; intros E; apply Hrev; auto.
    + destruct (delete_body_stale dir s h c _ _ key revision (at_env a) u HR Hhead) as (w & -> & _); [|by left].
      unfold stale_delete. by rewrite El.
Qed.

(** A lost attempt leaves the store to the next one, or a create fails at
    once because the key is live. *)
Lemma lost_attempt cl key a rest s h c u :
  call_key cl = Some key -> args_ok cl -> Repr dir s h c -> at_others a s = s -> lost a ->
  length (at_env a) = 16%nat -> above h (at_version a) -> Forall (fun e => WriteUUID e.2 <> u) h ->
  (exists u2, (u2 = u \/ u2 = at_env a) /\
     transact (write_body cl) (mkTransactEnv None (a :: rest)) s u = transact (write_body cl) (mkTransactEnv None rest) s u2) \/
  (transact (write_body cl) (mkTransactEnv None (a :: rest)) s u = (Some (Err ErrKeyExists), s, u) /\
   exists value lease x, cl = CCreate key value lease /\ live (latest h key) = Some x).
Proof.
  intros Hkey Hargs HR Hoth [Hre Hlost] Hlen Habove Hu. unfold transact. cbn [te_create te_attempts retryable].
  assert (Hretry : forall code, retry_decision (T := writeResult) a (Err (FDBError code)) = None).
  { intros code. unfold retry_decision. rewrite Hre. by destruct (at_force_retry a). }
  rewrite Hoth. unfold wrapped. destruct (at_fault a) as [code|]; [left; rewrite Hretry; by eauto|].
  pose proof (write_body_runs cl key a s h c u Hkey Hargs HR Habove Hlen Hu) as Hb.
  destruct (write_body cl _ _ u) as [[[w tr]|e|] u2]; [| |done].
  - left. exists u2. split; [done|].
    destruct Hlost as [?|[[code ->]| ->]]; [done|..]; by rewrite Hretry.
  - destruct Hb as (-> & -> & Hx). unfold retry_decision. rewrite Hre.
    destruct (at_force_retry a); [left; by eauto|by right].
Qed.

(** The reply of a write is decided by its transaction. *)
Lemma exec_transact cl key en en2 s s2 :
  call_key cl = Some key -> args_ok cl ->
  transact (write_body cl) (en_te en) s (en_uuid en) = transact (write_body cl) (en_te en2) s2 (en_uuid en2) ->
  exec cl en s = exec cl en2 s2.
Proof.
  intros Hkey Hargs. destruct cl; try done; cbn [write_body args_ok exec] in *; unfold Create, Update, Delete.
  - rewrite (proj2 (Z.ltb_ge _ _)) by apply Hargs. by intros ->.
  - rewrite (proj2 (Z.ltb_ge _ _)) by apply Hargs. by intros ->.
  - by intros ->.
Qed.

Definition call_linearized (cl : call) (en : callEnv) (s : store) (h : history) (c : Z) : Prop :=
  exists r s2 h2, exec cl en s = (Some r, s2) /\ Repr dir s2 h2 c /\ linearized (space_of h) cl r (space_of h2).

Lemma others_linearized cl en en2 s s2 h ext c :
  Repr dir s2 (h ++ ext) c -> exec cl en s = exec cl en2 s2 -> call_linearized cl en2 s2 (h ++ ext) c ->
  call_linearized cl en s h c.
Proof.
  intros HR He (r & s3 & h3 & Hx & HR3 & sp0 & Hpre & Hat). exists r, s3, h3. rewrite He. split; [done|]. split; [done|].
  exists sp0. split; [|done]. etrans; [|exact Hpre].
  apply others_append; [apply HR|by eapply Repr_pos|by rewrite Forall_forall].
Qed.

Lemma call_env_linearized cl en s h c : Repr dir s h c -> call_env c cl s h en -> call_linearized cl en s h c.
Proof.
  intros HR Henv. pose proof (call_env_args _ _ _ _ _ Henv) as Hargs. revert HR.
  induction Henv as [s h en Henv|key s h en a rest ext Ek Hte HR2 _ IH|key s h en a rest Ek Hte Hoth Hlost Hlen Habove Hu Hrest IH]; intros HR.
  - destruct (call_simulated cl en s h c HR Henv) as (r & s2 & h2 & He & HR2 & Hat).
    exists r, s2, h2. split; [done|]. split; [done|]. by exists (space_of h).
  - apply (others_linearized _ _ _ _ _ _ _ _ HR2) with (2 := IH HR2).
    apply (exec_transact cl key); [done..|]. by rewrite Hte.
  - destruct (lost_attempt cl key a rest s h c (en_uuid en)) as [(u & Hu2 & Ht)|(Ht & value & lease & x & -> & Hl)]; [done..| |].
    + destruct (IH u Hu2 HR) as (r & s2 & h2 & He & Hsim). exists r, s2, h2. split; [|done].
      rewrite (exec_transact cl key en (retried en rest u) s s); [done..|]. by rewrite Hte.
    + exists RKeyExists, s, h. split_and!; [|done|].
      * cbn [exec]. unfold Create. rewrite (proj2 (Z.ltb_ge _ _)) by apply Hargs. rewrite Hte.
        cbn [write_body] in Ht. by rewrite Ht.
      * exists (space_of h). split; [done|]. exists (space_of h), (space_of h). split_and!; [done| |done].
        eapply spec_create_exists. by rewrite space_lookup, Hl.
Qed.

(** ** Sessions *)

Fixpoint exec_all (cs : list (call * callEnv)) (s : store) : option (list reply) * store :=
  match cs with
  | [] => (Some [], s)
  | (c, en) :: cs =>
      match exec c en s with
      | (Some r, s) =>
          match exec_all cs s with
          | (Some rs, s) => (Some (r :: rs), s)
          | (None, s) => (None, s)
          end
      | (None, s) => (None, s)
      end
  end.

(** The environment of every call is as it should be for the history that its
    store represents then. *)
Fixpoint session_ok (cs : list (call * callEnv)) (s : store) (c : Z) : Prop :=
  match cs with
  | [] => True
  | (cl, en) :: cs =>
      (forall h, Repr dir s h c -> call_env c cl s h en) /\
      (forall r s2, exec cl en s = (Some r, s2) -> session_ok cs s2 c)
  end.

End Refine.

(** * The store determines the history *)

Section Unique.
Context `{FB : FdbBindings, KV : KVStore, CF : Config}.
Context (dir : bytes).
Abbreviation f := (openSubspaces dir).

Lemma Repr_same_entry s h g c d e :
  Repr dir s h c -> Repr dir s g d -> e ∈ h -> e ∈ g.
Proof.
  intros HR HG He. pose proof (R_ok _ _ _ _ HR) as Hok. pose proof (R_ok _ _ _ _ HG) as Gok.
  rewrite Forall_forall in Hok, Gok. destruct (Hok e He) as (_ & Hrec & Hl & _).
  destruct (entry_ok_stamp e (Hok e He)) as [_ Hi].
  pose proof (proj2 (R_byKey _ _ _ _ HR _ _ (Pack_region (byKeyAndRevision f) _)) (ex_intro _ e (conj He eq_refl))) as Hget.
  apply (R_byKey _ _ _ _ HG) in Hget as (x & Hx & Hkv); [|apply Pack_region].
  destruct (Gok x Hx) as (_ & Xrec & Xl & _). destruct (entry_ok_stamp x (Gok x Hx)) as [_ Xi].
  change ((_, _) = ?r) with (byKey_entry (byKeyAndRevision f) (int64ToVersionstamp e.1) e.2 = r) in Hkv.
  apply (f_equal (ByKey_parseKV (byKeyAndRevision f))) in Hkv.
  rewrite !ByKey_parseKV_entry in Hkv by (done || apply int64ToVersionstamp_ok).
  assert (Hr : e.1 = x.1).
  { apply int64ToVersionstamp_inj; [done..|].
    exact (f_equal (fun r => match r with Ok b => kr_Rev (bk_Key b) | _ => dummyVersionstamp end) Hkv). }
  assert (Hbk : byKey_view e.2 = byKey_view x.2).
  { exact (f_equal (fun r => match r with Ok b => bk_Value b | _ => byKey_view e.2 end) Hkv). }
  assert (Hval : byRevision_view e.2 = byRevision_view x.2).
  { pose proof (ByRevision_Get_Repr dir (begin_tr s 0) h c e HR He) as H1.
    pose proof (ByRevision_Get_Repr dir (begin_tr s 0) g d x HG Hx) as H2. rewrite Hr, H2 in H1.
    exact (eq_sym (f_equal (fun r => match r with Ok (Some v) => v | _ => byRevision_view e.2 end) H1)). }
  assert (E : e = x); [|by rewrite E]. destruct e as [r1 a], x as [r2 b]. cbn in *. subst r2. f_equal.
  destruct a, b. unfold byKey_view, byRevision_view in *. cbn in *. congruence.
Qed.

Lemma Repr_determines s h g c d : Repr dir s h c -> Repr dir s g d -> h = g.
Proof.
  intros HR HG. apply (ssorted_ext rev_lt); [apply HR|apply HG|].
  intros e. split; [by apply (Repr_same_entry s h g c d)|by apply (Repr_same_entry s g h d c)].
Qed.
End Unique.

(** * Runs *)

(** A create whose first commit is applied but unknown, a get of the key, a
    create of a live key, a list, and a delete whose first commit conflicts
    with another client that deletes the key first. *)
Definition session_create : callEnv := mkCallEnv _ (sample_run true) (sample_uuid Byte.x22) [].
Definition session_exists : callEnv :=
  mkCallEnv _ (mkTransactEnv None [sample_attempt 50 Byte.x24 Committed]) (sample_uuid Byte.x23) [].
Definition session_read : callEnv :=
  mkCallEnv _ (mkTransactEnv None []) [] (quiet_scan_at 40 9).
Definition race_lost : Attempt bytes := sample_attempt 60 Byte.x25 (NotCommitted 1020).
Definition race_last : Attempt bytes :=
  mkAttempt (peer_delete (str "/d") 65) (sample_uuid Byte.x26) None 69 Committed 70 0 false None.
Definition session_race : callEnv :=
  mkCallEnv _ (mkTransactEnv None [race_lost; race_last]) (sample_uuid Byte.x27) [].

Definition sample_session : list (call * callEnv) :=
  [(CCreate (str "/d") (str "new") 0, session_create); (CGet (str "/d"), session_read);
   (CCreate (str "/d") (str "again") 0, session_exists); (CList (str "/"), session_read);
   (CDelete (str "/d") 20, session_race)].

(** The history after the create. *)
Definition session_history : history :=
  sample_history ++ [(20, created sample_history (str "/d") (str "new") 0 (sample_uuid Byte.x20))].
Definition session_store : gmap bytes bytes := (exec (CF := sample_config) sample_dir (CCreate (str "/d") (str "new") 0) session_create sample_store).2.

Lemma session_repr : Repr sample_dir session_store session_history 0.
Proof.
  destruct (history_okb_ok session_history) as [H1 H2]; [vm_compute; reflexivity|].
  replace session_store with (build sample_dir (∅ : gmap bytes bytes) session_history)
    by (apply (bool_decide_eq_true_1 (_ = _)); vm_compute; reflexivity).
  apply build_repr; [intros k; apply lookup_empty|done..].
Qed.

(** The history after the other client's delete. *)
Definition raced_history : history :=
  session_history ++ [(65, deleted (str "/d") (20, created sample_history (str "/d") (str "new") 0 (sample_uuid Byte.x20))
                         (sample_uuid Byte.x30))].

Lemma raced_repr : Repr sample_dir (peer_delete (str "/d") 65 session_store) raced_history 0.
Proof.
  destruct (history_okb_ok raced_history) as [H1 H2]; [vm_compute; reflexivity|].
  replace (peer_delete (str "/d") 65 session_store) with (build sample_dir (∅ : gmap bytes bytes) raced_history)
    by (apply (bool_decide_eq_true_1 (_ = _)); vm_compute; reflexivity).
  apply build_repr; [intros k; apply lookup_empty|done..].
Qed.

Lemma represented s h g : Repr sample_dir s g 0 -> Repr sample_dir s h 0 -> h = g.
Proof. intros HG HR. exact (Repr_determines sample_dir s h g 0 0 HR HG). Qed.

Lemma steady_quiet `{CF : Config} key p v u commit rest :
  p <= v - 1 -> steady sample_dir key 0 (v - 1) rest -> steady sample_dir key 0 p (sample_attempt v u commit :: rest).
Proof.
  intros Hp Hrest. split; [done|]. split; [|done]. intros s h HR _. exists []. rewrite app_nil_r. split; [exact HR|]. split; [intros _|]; constructor.
Qed.

Lemma session_reads s h : Repr sample_dir s h 0 -> (length h <= 9)%nat -> Forall (fun e => e.1 <= 39) h ->
  exists grow p, 0 <= p /\ read_run sample_dir grow 0 p h s (en_scan session_read).
Proof.
  intros HR Hlen Hup. exists 0%nat, 40. split; [lia|]. apply quiet_scan_run; [lia|done| |done].
  eapply Forall_impl; [exact Hup|]. cbn. lia.
Qed.

Lemma create_env : write_env sample_dir (str "/d") sample_history 0 session_create.
Proof.
  split; [apply sample_good_run|]. split.
  - exists 12. split; [lia|]. split.
    + intros _. by apply (bool_decide_eq_true_1 (Forall (fun e : entry => e.1 <= 12) sample_history)).
    + apply steady_quiet; [lia|]. by apply steady_quiet.
  - by apply (bool_decide_eq_true_1 (Forall (fun e : entry => WriteUUID e.2 <> sample_uuid Byte.x22) sample_history)).
Qed.

Lemma exists_env : write_env sample_dir (str "/d") session_history 0 session_exists.
Proof.
  split; [|split].
  - split; [done|]. exists [], (sample_attempt 50 Byte.x24 Committed). split; [done|].
    split; [apply Forall_singleton, sample_attempt_ok; unfold int64_max; lia|].
    split; [repeat constructor|]. split; [|split; [constructor|done]].
    apply Forall_singleton.
    by apply (bool_decide_eq_true_1 (Forall (fun e : entry => e.1 < 50) session_history)).
  - exists 40. split; [lia|]. split.
    + intros _. by apply (bool_decide_eq_true_1 (Forall (fun e : entry => e.1 <= 40) session_history)).
    + apply steady_quiet; [lia|done].
  - by apply (bool_decide_eq_true_1 (Forall (fun e : entry => WriteUUID e.2 <> sample_uuid Byte.x23) session_history)).
Qed.

(** The run that is left once the other client has deleted the key. *)
Lemma race_env uuid : uuid = sample_uuid Byte.x27 \/ uuid = sample_uuid Byte.x25 ->
  write_env sample_dir (str "/d") raced_history 0 (retried (retried session_race [race_last] uuid) [alone race_last] uuid).
Proof.
  intros Huuid. change (alone race_last) with (sample_attempt 70 Byte.x26 Committed). split; [|split].
  - split; [done|]. exists [], (sample_attempt 70 Byte.x26 Committed). split; [done|].
    split; [apply Forall_singleton, sample_attempt_ok; unfold int64_max; lia|].
    split; [repeat constructor|]. split; [|split; [constructor|done]].
    apply Forall_singleton.
    by apply (bool_decide_eq_true_1 (Forall (fun e : entry => e.1 < 70) raced_history)).
  - exists 65. split; [lia|]. split.
    + intros _. by apply (bool_decide_eq_true_1 (Forall (fun e : entry => e.1 <= 65) raced_history)).
    + apply steady_quiet; [lia|done].
  - destruct Huuid as [-> | ->]; [by apply (bool_decide_eq_true_1 (Forall (fun e : entry => WriteUUID e.2 <> sample_uuid Byte.x27) raced_history))|
      by apply (bool_decide_eq_true_1 (Forall (fun e : entry => WriteUUID e.2 <> sample_uuid Byte.x25) raced_history))].
Qed.

Lemma race_call_env :
  call_env (KV := map_store) (CF := sample_config) sample_dir 0 (CDelete (str "/d") 20) session_store session_history session_race.
Proof.
  apply (ce_lost (KV := map_store) (CF := sample_config) sample_dir 0 (CDelete (str "/d") 20) (str "/d") session_store session_history session_race race_lost [race_last]);
    [done|done|done| |done| | |].
  - split; [done|]. right. left. by eexists.
  - split; [cbn; unfold int64_max; lia|].
    by apply (bool_decide_eq_true_1 (Forall (fun e : entry => e.1 < 60) session_history)).
  - by apply (bool_decide_eq_true_1 (Forall (fun e : entry => WriteUUID e.2 <> sample_uuid Byte.x27) session_history)).
  - intros uuid Huuid.
    apply (ce_others (KV := map_store) (CF := sample_config) sample_dir 0 (CDelete (str "/d") 20) (str "/d") session_store session_history (retried session_race [race_last] uuid)
      race_last [] [(65, deleted (str "/d") (20, created sample_history (str "/d") (str "new") 0 (sample_uuid Byte.x20))
                         (sample_uuid Byte.x30))]); [done|done|exact raced_repr|].
    apply ce_run. by apply race_env.
Qed.

(** The reads and the failed create leave the store as it is. *)
Definition leaves (cl : call) (en : callEnv) : bool :=
  bool_decide ((exec (CF := sample_config) sample_dir cl en session_store).2 = session_store).

Lemma leaves_store cl en r s2 :
  leaves cl en = true -> exec (CF := sample_config) sample_dir cl en session_store = (Some r, s2) -> s2 = session_store.
Proof. unfold leaves. rewrite bool_decide_eq_true. intros Hl He. by rewrite He in Hl. Qed.

Lemma sample_session_ok : session_ok (CF := sample_config) sample_dir sample_session sample_store 0.
Proof.
  pose proof session_repr as HS.
  assert (Hreads : forall h, Repr sample_dir session_store h 0 -> exists grow p, 0 <= p /\
    read_run sample_dir grow 0 p h session_store (en_scan session_read)).
  { intros h HR. apply session_reads; [done|..]; rewrite (represented _ _ _ HS HR); [by vm_compute; lia|].
    by apply (bool_decide_eq_true_1 (Forall (fun e : entry => e.1 <= 39) session_history)). }
  split; [|intros r s2 He; assert (s2 = session_store) as -> by (unfold session_store; by rewrite He); split].
  - intros h HR. rewrite (represented _ _ _ sample_repr HR). apply ce_run.
    split; [by vm_compute; split; congruence|]. split; [by vm_compute; congruence|apply create_env].
  - intros h HR. apply ce_run. split; [done|by apply Hreads].
  - intros r2 s2 He2. apply leaves_store in He2 as ->; [|vm_compute; reflexivity]. split.
    + intros h HR. rewrite (represented _ _ _ HS HR). apply ce_run.
      split; [by vm_compute; split; congruence|]. split; [by vm_compute; congruence|apply exists_env].
    + intros r3 s3 He3. apply leaves_store in He3 as ->; [|vm_compute; reflexivity]. split.
      * intros h HR. apply ce_run. by apply Hreads.
      * intros r4 s4 He4. apply leaves_store in He4 as ->; [|vm_compute; reflexivity]. split; [|done].
        intros h HR. rewrite (represented _ _ _ HS HR). exact race_call_env.
Qed.

