(* ===== verification/TtlEvents.v ===== *)
(** pkg/drivers/fdb/fdb_ttl.go: ttlEvents, the events that the loop of [ttl]
    receives.

    A goroutine lists the live keys in pages of 1000 and then watches from the
    revision of the first page; it passes on what has a lease.  The channel is
    the list of what was sent on it. *)
From stdpp Require Import base strings list gmap.
From Stdlib Require Import Strings.Byte ZArith Lia.
From S2P Require Import Prelude FdbApi Util Subspaces Transact Write Read Watch Ttl.

(** [newListCollector(f, 1000, true)] *)
Definition ttl_page_size : Z := 1000.
Definition ttl_root : bytes := str "/".

(** Why the channel is closed. *)
Inductive ttlEnd :=
| ListFailed (err : error)
| WatchCompacted
| WatchClosed.

Section TtlEventsDefs.
Context `{FB : FdbBindings, KV : KVStore, CF : Config}.

(** One page of the list; the revision that comes with an error is 0. *)
Definition ttl_page (f : FDB) (envs : list (TransactEnv BatchEnv)) (startKey : bytes) (maxRevision : Z)
    (s : store) : option (res Z) * store * list RevRecord :=
  let '(r, s, collector) :=
    listWithCollector f envs ttl_root startKey maxRevision (newListCollector f ttl_page_size true) s in
  (r, s, lc_records collector).

(** The events of the records of a page that have a lease. *)
Definition leased_records (revRecords : list RevRecord) : res (list Event) :=
  map_res revRecordToEvent (filter (fun r => 0 < Lease (rr_Record r)) revRecords).

(** The loop over the pages, [err] and [revRecords] being those of the last
    page read, [pages] the environments of the next ones: what it sends, and
    the error that makes the goroutine return. *)
Fixpoint ttl_pages (f : FDB) (rev : Z) (pages : list (list (TransactEnv BatchEnv)))
    (err : option error) (revRecords : list RevRecord) (s : store)
    : option (res (list Event * option error)) * store :=
  match last revRecords with
  | None => (Some (Ok ([], None)), s)
  | Some lastRecord =>
      match err with
      | Some e => (Some (Ok ([], Some e)), s)
      | None =>
          match leased_records revRecords, pages with
          | Panic, _ => (Some Panic, s)
          | Err e, _ => (Some (Err e), s)
          | Ok sent, [] => (None, s)
          | Ok sent, envs :: pages =>
              match ttl_page f envs (Key (rr_Record lastRecord)) rev s with
              | (None, s, _) => (None, s)
              | (Some Panic, s, _) => (Some Panic, s)
              | (Some r, s, records) =>
                  let '(out, s) := ttl_pages f rev pages (err_of r) records s in
                  ((fun x => let? '(more, e) := x in Ok (sent ++ more, e)) <$> out, s)
              end
          end
      end
  end.

(** The watch after the list: the events with a lease, and how it ends. *)
Definition ttl_watch (f : FDB) (envs : list (TransactEnv BatchEnv)) (rev : Z) (values : list (list Event))
    (s : store) : option (res (list Event * ttlEnd)) * store :=
  match Watch f envs ttl_root rev values s with
  | (None, s) => (None, s)
  | (Some Panic, s) => (Some Panic, s)
  | (Some (Err e), s) => (Some (Err e), s)
  | (Some (Ok (wr, batches)), s) =>
      (Some (Ok (if negb (wr_CompactRevision wr =? 0) then ([], WatchCompacted)
                 else (filter (fun e => 0 < kv_Lease (ev_KV e)) (mjoin batches), WatchClosed))), s)
  end.

(** [ttlEvents], with [values] the batches that the poll loop sends from the
    watch's subscription on. *)
Definition ttlEvents (f : FDB) (envs : list (TransactEnv BatchEnv)) (pages : list (list (TransactEnv BatchEnv)))
    (wenvs : list (TransactEnv BatchEnv)) (values : list (list Event)) (s : store)
    : option (res (list Event * ttlEnd)) * store :=
  match ttl_page f envs [] 0 s with
  | (None, s, _) => (None, s)
  | (Some Panic, s, _) => (Some Panic, s)
  | (Some r, s, revRecords) =>
      let rev := match r with Ok rev => rev | _ => 0 end in
      match ttl_pages f rev pages (err_of r) revRecords s with
      | (None, s) => (None, s)
      | (Some Panic, s) => (Some Panic, s)
      | (Some (Err e), s) => (Some (Err e), s)
      | (Some (Ok (sent, Some e)), s) => (Some (Ok (sent, ListFailed e)), s)
      | (Some (Ok (sent, None)), s) =>
          let '(out, s) := ttl_watch f wenvs rev values s in
          ((fun x => let? '(more, e) := x in Ok (sent ++ more, e)) <$> out, s)
      end
  end.
End TtlEventsDefs.
