(* ===== verification/TtlEventsSpec.v ===== *)
(** ttlEvents against the history: which leases the loop of [ttl] is told of.

    With a first page that is not full, every key that is live with a lease
    when the watch has caught up is announced with its newest revision.  A
    full first page and the key [/] break this. *)
From stdpp Require Import base strings list gmap sorting.
From Stdlib Require Import Strings.Byte ZArith Lia.
From S2P Require Import Prelude FdbApi KeyOrder FdbInstance Util Subspaces SubspaceFacts Transact History Samples Write Read Scan ReadFacts ListValues ScanSpec ReadSpec RevScan Counts Watch WatchSpec CountSpec Ttl TtlEvents Refine.

(** * Keys after the last one of a page *)

Lemma root_scanned k : ttl_root `prefix_of` k -> scan_keys ttl_root [] k.
Proof.
  intros [r ->]. unfold scan_keys. change (has_slash_suffix ttl_root) with true. cbv iota.
  rewrite decide_False by done. split; [done|]. split; [intros [k2 E]; by inversion E|]. right. by exists r.
Qed.

Lemma page_keys k lastKey :
  lastKey <> ttl_root -> scan_keys ttl_root [] lastKey -> scan_keys ttl_root lastKey k ->
  scan_keys ttl_root [] k /\ lastKey <b k.
Proof.
  intros Hroot. unfold scan_keys. change (has_slash_suffix ttl_root) with true. cbv iota.
  rewrite (decide_False (P := ttl_root = [])), (decide_False (P := ttl_root = lastKey)) by (done || auto).
  intros (Hpos & Hz & _) (Hlt & _ & Hin). split; [|done]. split; [by eapply blt_trans|]. split; [|done].
  intros [k2 ->]. destruct lastKey as [|b l]; [by apply blt_irrefl in Hpos|].
  cbn [app] in Hlt. apply blt_cons in Hlt as [Hb|[-> _]].
  - pose proof (byte_to_Z_range b). change (byte_to_Z Byte.x00) with 0 in Hb. lia.
  - apply Hz. by exists l.
Qed.

(** * Pages *)

Section TtlEventsSpec.
Context `{FB : FdbBindings, KV : KVStore, CF : Config}.
Context (dir : bytes) (Hmode : UseSequentialId = false).
Abbreviation f := (openSubspaces dir).

(** An event that announces the lease of a record. *)
Definition announces (e : entry) (ev : Event) : Prop :=
  ev_Delete ev = IsDelete e.2 /\ kv_Key (ev_KV ev) = Key e.2 /\
  kv_ModRevision (ev_KV ev) = e.1 /\ kv_Lease (ev_KV ev) = Lease e.2.

Definition leased (e : entry) : Prop := 0 < Lease e.2.
#[global] Instance leased_dec e : Decision (leased e).
Proof. unfold leased. apply _. Defined.

Lemma ttl_page_spec grow comp p0 h0 s envs startKey M :
  read_run dir grow comp p0 h0 s envs -> M = 0 \/ 0 < M /\ comp <= M <= p0 ->
  exists rv h1 s2 h2 records,
    snapshot dir comp p0 h0 envs rv h1 s2 h2 /\ M <= rv /\
    ttl_page f envs startKey M s = (Some (Ok rv), s2, records) /\
    let L := live_list (scan_keys ttl_root startKey) (read_at M rv) h1 in
    ((length records < 1000)%nat \/ L = [] -> Forall2 (listed true True) L records /\ Forall entry_ok L).
Proof.
  intros Hrun HM.
  destruct (listWithCollector_spec dir Hmode (good := list_good dir ttl_page_size true)
    grow comp p0 h0 s envs Hrun ttl_root startKey M (newListCollector f ttl_page_size true))
    as (rv & h1 & s2 & h2 & P & X & c2 & Hsnap & Hgood & Hres & Heq);
    [by left|tauto|apply new_list_good|by apply list_wants_0|].
  pose proof (snapshot_reached dir _ _ _ _ _ _ Hrun _ _ _ _ _ Hsnap HM) as Hle.
  exists rv, h1, s2, h2, (lc_records c2). split; [done|]. split; [done|]. split.
  { unfold ttl_page. rewrite Heq, (proj2 (Z.ltb_ge rv M)) by done. done. }
  cbv zeta. rewrite <-read_at_window by done.
  destruct Hgood as [_ _ _ Hok _ (rs & xs & Hrecs & HPr & HXr)]. apply Forall_app in Hok as [Hok _].
  destruct Hres as (Hpre & _ & _ & Hend). intros Hfew.
  assert (HP : P = live_list (scan_keys ttl_root startKey) (window M rv) h1 /\ X = []).
  { destruct Hend as [?|Hend]; [done|]. apply Z.ltb_ge in Hend. unfold ttl_page_size in Hend.
    destruct Hfew as [Hfew|Hnil].
    - rewrite Hrecs, length_app in Hfew. apply Forall2_length in HPr. lia.
    - rewrite Hnil in Hpre. apply prefix_nil_inv in Hpre as ->. cbn in Hend. lia. }
  destruct HP as [<- ->]. apply Forall2_nil_inv_l in HXr as ->. rewrite Hrecs, app_nil_r. done.
Qed.

Lemma live_list_live K `{!forall k, Decision (K k)} R h e :
  e ∈ live_list K R h <-> e ∈ h /\ K (Key e.2) /\ latest (upto R h) (Key e.2) = Some e /\ IsDelete e.2 = false.
Proof. unfold live_list. rewrite list_elem_of_filter, elem_of_by_key, live_Some. tauto. Qed.

(** What a page that is not full sends. *)
Lemma leased_records_spec L records :
  Forall2 (listed true True) L records -> Forall entry_ok L -> Forall (fun e => IsDelete e.2 = false) L ->
  exists sent, leased_records records = Ok sent /\ Forall2 announces (filter leased L) sent.
Proof.
  unfold leased_records. induction 1 as [|e r L records Hl _ IH]; intros Hok Hlive; [by exists []|].
  apply Forall_cons in Hok as [He Hok], Hlive as [Hle Hlive].
  destruct (IH Hok Hlive) as (sent & Hsent & Hall).
  destruct (listed_event _ _ _ _ Hl He Hle) as (ev & Hev & Hdel & Hkv).
  destruct Hl as [(_ & (_ & _ & _ & Hlease & _) & _) _]. rewrite !filter_cons. unfold leased at 1.
  destruct (decide (0 < Lease e.2)) as [Hpos|Hpos].
  - rewrite decide_True by congruence. cbn [map_res]. rewrite Hev. cbn [rbind]. rewrite Hsent. cbn [rbind].
    eexists. split; [done|]. apply Forall2_cons. split; [|done]. unfold announces. rewrite Hkv by done. split; [congruence|done].
  - rewrite decide_False by congruence. eauto.
Qed.

(** No key of the list comes after the last one of a page that is not full. *)
Lemma page_after_last rv h1 ext e :
  StronglySorted rev_lt h1 -> Forall (fun x => rv < x.1) ext ->
  last (live_list (scan_keys ttl_root []) rv h1) = Some e -> Key e.2 <> ttl_root ->
  live_list (scan_keys ttl_root (Key e.2)) rv (h1 ++ ext) = [].
Proof.
  intros Hs Hext Hlast Hroot. apply last_Some in Hlast as [pre HL].
  assert (He : e ∈ live_list (scan_keys ttl_root []) rv h1) by (rewrite HL; apply elem_of_app; right; left).
  apply live_list_live in He as (_ & HK & _).
  destruct (live_list _ rv (h1 ++ ext)) as [|x l] eqn:Hx; [done|]. exfalso.
  assert (Hin : x ∈ live_list (scan_keys ttl_root (Key e.2)) rv (h1 ++ ext)) by (rewrite Hx; left).
  apply live_list_live in Hin as (_ & HKx & Hlx & Hdx). rewrite upto_newer in Hlx by done.
  destruct (page_keys _ _ Hroot HK HKx) as [HKx1 Hlt].
  assert (Hin : x ∈ live_list (scan_keys ttl_root []) rv h1).
  { apply live_list_live. apply latest_Some in Hlx as Hh. unfold upto in Hh.
    rewrite list_elem_of_filter in Hh. tauto. }
  assert (Hsort : StronglySorted kr_lt (live_list (scan_keys ttl_root []) rv h1))
    by (apply (ssorted_filter kr_lt), by_key_sorted, Hs).
  rewrite HL in Hin, Hsort. apply elem_of_app in Hin as [Hin| ->%list_elem_of_singleton].
  - assert (Hkr : kr_lt x e) by (eapply (StronglySorted_app_1_elem_of kr_lt); [exact Hsort|done|left]).
    destruct Hkr as [Hk|[Hk _]]; [|rewrite Hk in Hlt; by apply blt_irrefl in Hlt].
    apply (blt_irrefl (Key e.2)). by eapply blt_trans.
  - by apply blt_irrefl in Hlt.
Qed.

Lemma since_later comp h0 p0 s1 h1 p1 p s2 h2 p2 :
  since dir comp h0 p0 s1 h1 p1 -> p0 <= p -> since dir comp h1 p s2 h2 p2 -> since dir comp h0 p0 s2 h2 p2.
Proof.
  intros [_ (ext & -> & Hext) _ _] Hp [HR (ext2 & -> & Hext2) Hle2 Hup]. split; [done| |lia|done].
  exists (ext ++ ext2). split; [by rewrite app_assoc|]. apply Forall_app. split; [done|].
  eapply Forall_impl; [exact Hext2|]. cbn. lia.
Qed.

(** A read that starts on a store can be made, from a revision on. *)
Definition readable (comp from : Z) (envs : list (TransactEnv BatchEnv)) (s : store) : Prop :=
  forall h, Repr dir s h comp -> exists grow p, from <= p /\ read_run dir grow comp p h s envs.

(** What the second page and the watch meet. *)
Definition ttl_run (comp : Z) (envs page wenvs : list (TransactEnv BatchEnv)) (s : store) : Prop :=
  forall rv s1 records, ttl_page f envs [] 0 s = (Some (Ok rv), s1, records) ->
    rv <= int64_max /\ (length records < 1000)%nat /\
    match last records with
    | None => readable comp rv wenvs s1
    | Some r => Key (rr_Record r) <> ttl_root /\ readable comp rv page s1 /\
        forall o s2 more, ttl_page f page (Key (rr_Record r)) rv s1 = (o, s2, more) -> readable comp rv wenvs s2
    end.

Lemma newer_than rv q (e : history) : Forall (fun x => q < x.1) e -> rv <= q -> Forall (fun x => rv < x.1) e.
Proof. intros He Hq. eapply Forall_impl; [exact He|]. cbn. lia. Qed.

(** The page after one that is not full is empty. *)
Lemma ttl_second_page comp page rv h1 s1 h2 p2 e :
  0 < rv -> comp <= rv -> StronglySorted rev_lt h1 -> since dir comp h1 rv s1 h2 p2 -> readable comp rv page s1 ->
  last (live_list (scan_keys ttl_root []) rv h1) = Some e -> Key e.2 <> ttl_root ->
  exists rv2 s2 h3 p3, ttl_page f page (Key e.2) rv s1 = (Some (Ok rv2), s2, []) /\
    since dir comp h1 rv s2 h3 p3.
Proof.
  intros Hpos Hcomp Hsort Hs2 Hread Hlast Hroot.
  destruct (Hread h2 (sn_repr _ _ _ _ _ _ _ Hs2)) as (grow2 & p & Hp & Hrun2).
  destruct (ttl_page_spec _ _ _ _ _ _ (Key e.2) rv Hrun2)
    as (rv2 & h3 & s3 & h4 & more & (_ & (sy & Hs3) & (p4 & Hs4)) & Hrv & Hpage2 & HL2); [lia|].
  cbv zeta in HL2. unfold read_at in HL2. rewrite (proj2 (Z.eqb_neq rv 0)) in HL2 by lia.
  exists rv2, s3, h4, p4. split.
  - destruct (sn_ext _ _ _ _ _ _ _ Hs2) as (e1 & -> & He1). destruct (sn_ext _ _ _ _ _ _ _ Hs3) as (e2 & -> & He2).
    rewrite <-app_assoc, (page_after_last rv h1 (e1 ++ e2) e Hsort) in HL2; [|apply Forall_app; split; eapply newer_than; done || lia|done|done].
    by destruct (HL2 (or_intror eq_refl)) as [->%Forall2_nil_inv_l _].
  - eapply since_later; [exact Hs2|exact Hp|]. by eapply since_trans.
Qed.

(** The list: the leased keys that were live at its revision. *)
Lemma ttl_list grow comp p0 h0 s envs page wenvs :
  read_run dir grow comp p0 h0 s envs -> comp <= p0 -> ttl_run comp envs page wenvs s ->
  exists rv h1 sx s1 s2 h2 p2 records sent,
    0 < rv <= int64_max /\ since dir comp h0 p0 sx h1 rv /\
    ttl_page f envs [] 0 s = (Some (Ok rv), s1, records) /\
    ttl_pages f rv [page] None records s1 = (Some (Ok (sent, None)), s2) /\
    since dir comp h1 rv s2 h2 p2 /\ readable comp rv wenvs s2 /\
    Forall2 announces (filter leased (live_list (scan_keys ttl_root []) rv h1)) sent.
Proof.
  intros Hrun Hcomp Henv.
  destruct (ttl_page_spec _ _ _ _ _ _ [] 0 Hrun) as (rv & h1 & s1 & h2 & records & Hsnap & _ & Hpage & HL); [by left|].
  destruct (Henv _ _ _ Hpage) as (Hmax & Hfew & Hrest). cbv zeta in HL. change (read_at 0 rv) with rv in HL.
  destruct (HL (or_introl Hfew)) as [Hlisted Hok]. set (L := live_list _ rv h1) in *.
  assert (Hlive : Forall (fun e => IsDelete e.2 = false) L).
  { rewrite Forall_forall. intros e He. apply live_list_live in He. tauto. }
  destruct (leased_records_spec L records Hlisted Hok Hlive) as (sent & Hsent & Hann).
  destruct Hsnap as (Hin & (sx & Hs1) & (p2 & Hs2)).
  assert (Hpos : 0 < rv).
  { apply list_elem_of_fmap in Hin as (a & -> & Ha). by apply (reads_ok_pos _ _ _ _ _ (rr_reads _ _ _ _ _ _ _ Hrun)). }
  pose proof (sn_le _ _ _ _ _ _ _ Hs1) as Hle. pose proof (Forall2_last _ _ _ Hlisted) as Hll.
  destruct (last records) as [r|] eqn:Hlast.
  - destruct Hrest as (Hroot & Hread & Hnext). destruct (last L) as [e|] eqn:HLe; [|by inversion Hll].
    assert (Hk : Key (rr_Record r) = Key e.2) by (inversion Hll as [? ? Hl|]; apply Hl).
    rewrite Hk in *.
    destruct (ttl_second_page comp page rv h1 s1 h2 p2 e) as (rv2 & s2 & h3 & p3 & Hpage2 & Hs3);
      [done|lia|apply (sn_repr _ _ _ _ _ _ _ Hs1)|done..|].
    exists rv, h1, sx, s1, s2, h3, p3, records, (sent ++ []). split; [done|]. split; [done|]. split; [done|].
    split; [cbn [ttl_pages]; by rewrite Hlast, Hsent, Hk, Hpage2|]. split; [done|].
    split; [by eapply Hnext|]. by rewrite app_nil_r.
  - exists rv, h1, sx, s1, s1, h2, p2, records, []. split; [done|]. split; [done|]. split; [done|].
    split; [cbn [ttl_pages]; by rewrite Hlast|]. split; [done|]. split; [done|].
    apply last_None in Hlast as ->. apply Forall2_nil_inv_r in Hlisted. fold L. rewrite Hlisted. constructor.
Qed.

(** * The whole channel *)

(** The leased events of a watch. *)
Lemma leased_cores (sent : list Event) (l : list entry) :
  core <$> sent = record_core <$> l ->
  Forall2 announces (filter leased l) (filter (fun ev => 0 < kv_Lease (ev_KV ev)) sent).
Proof.
  revert l; induction sent as [|ev sent IH]; intros [|e l]; cbn [fmap list_fmap]; [constructor|done..|].
  intros [Hcore Hrest]%(inj2 cons). specialize (IH l Hrest).
  assert (Hd : ev_Delete ev = IsDelete e.2) by exact (f_equal (fun c => c.1.1) Hcore).
  assert (Hkv : ev_KV ev = ev_KV (event_of e)) by exact (f_equal snd Hcore).
  rewrite !filter_cons. unfold leased at 1. rewrite Hkv. change (kv_Lease (ev_KV (event_of e))) with (Lease e.2).
  destruct (decide (0 < Lease e.2)); [|exact IH].
  apply Forall2_cons. split; [|exact IH]. unfold announces. by rewrite Hkv, Hd.
Qed.

(** The watch after the list. *)
Lemma ttl_watch_spec comp rv wenvs values s h :
  0 < rv -> rv <= int64_max -> comp <= rv - 1 \/ rv = 1 -> Repr dir s h comp -> readable comp rv wenvs s ->
  exists s2 h2 p p2 R sent, rv <= p /\ since dir comp h p s2 h2 p2 /\ rv <= R <= p2 /\
    ttl_watch f wenvs rv values s = (Some (Ok (sent, WatchClosed)), s2) /\
    forall ext start cursor, StronglySorted rev_lt (h2 ++ ext) -> Forall (fun e => p2 < e.1) ext ->
      start <= rv -> stream (h2 ++ ext) start cursor values ->
      Forall2 announces
        (filter leased (taken (fun key => doesEventHavePrefix key ttl_root)
           (rev_todo (h2 ++ ext) (rv - 1) (Some (Z.max R cursor))))) sent.
Proof.
  intros Hpos Hmax Hcomp HR Hread. destruct (Hread h HR) as (grow & p & Hp & Hrun).
  assert (Hafter : watch_after rv = rv - 1) by (unfold watch_after; by rewrite (proj2 (Z.ltb_lt 0 rv))).
  destruct (Watch_sends dir Hmode grow comp p h s wenvs ttl_root rv values Hrun)
    as (s2 & h2 & p2 & R & sent & Hs2 & HR2 & Hw & Hall); [lia|lia|lia|].
  exists s2, h2, p, p2, R. eexists. split; [done|]. split; [done|]. split; [lia|]. split.
  { unfold ttl_watch. rewrite Hw. reflexivity. }
  intros ext start cursor Hs Hext Hstart Hst. apply leased_cores.
  rewrite <-Hafter. by apply (Hall ext start cursor Hs Hext); [lia|].
Qed.

Lemma announced (l : list entry) (sent : list Event) e :
  Forall2 announces l sent -> e ∈ l -> exists ev, ev ∈ sent /\ announces e ev.
Proof.
  intros Hall [i Hi]%list_elem_of_lookup. destruct (Forall2_lookup_l _ _ _ _ _ Hall Hi) as (ev & Hev & Ha).
  exists ev. split; [|done]. by apply list_elem_of_lookup_2 in Hev.
Qed.

Lemma announced_only (l : list entry) (sent : list Event) ev :
  Forall2 announces l sent -> ev ∈ sent -> exists e, e ∈ l /\ announces e ev.
Proof.
  intros Hall [i Hi]%list_elem_of_lookup. destruct (Forall2_lookup_r _ _ _ _ _ Hall Hi) as (e & He & Ha).
  exists e. split; [|done]. by apply list_elem_of_lookup_2 in He.
Qed.

(** The list and the watch together. *)
Section Announced.
Context (rv R : Z) (h1 ext : history) (sent more : list Event).
Context (Hext : Forall (fun x => rv < x.1) ext) (HrvR : rv <= R) (Hs : StronglySorted rev_lt (h1 ++ ext)).
Context (Hsent : Forall2 announces (filter leased (live_list (scan_keys ttl_root []) rv h1)) sent).
Context (Hmore : Forall2 announces (filter leased (taken (fun key => doesEventHavePrefix key ttl_root)
    (rev_todo (h1 ++ ext) (rv - 1) (Some R)))) more).

(** Every leased key that is live when the watch has caught up. *)
Lemma newest_announced e :
  ttl_root `prefix_of` Key e.2 -> latest (upto R (h1 ++ ext)) (Key e.2) = Some e -> IsDelete e.2 = false -> leased e ->
  exists ev, ev ∈ sent ++ more /\ announces e ev.
Proof.
  intros Hroot Hlast Hdel Hl. apply latest_iff in Hlast as (Hin & _ & Hmax); [|by apply (ssorted_filter rev_lt)].
  unfold upto in Hin. rewrite list_elem_of_filter in Hin. destruct Hin as [HR Hin].
  destruct (Z.le_gt_cases e.1 rv) as [Hle|Hgt].
  - destruct (announced _ _ e Hsent) as (ev & Hev & Ha); [|exists ev; split; [apply elem_of_app; by left|done]].
    assert (Hlast : latest (upto rv (h1 ++ ext)) (Key e.2) = Some e).
    { apply latest_iff; [by apply (ssorted_filter rev_lt)|]. unfold upto. split; [by apply list_elem_of_filter|].
      split; [done|]. intros x [Hx Hxin]%list_elem_of_filter Hk. apply Hmax; [|done].
      unfold upto. apply list_elem_of_filter. split; [lia|done]. }
    rewrite upto_newer in Hlast by done. apply latest_Some in Hlast as Hh. unfold upto in Hh.
    rewrite list_elem_of_filter in Hh. apply list_elem_of_filter. split; [done|]. apply live_list_live.
    split; [tauto|]. split; [by apply root_scanned|done].
  - destruct (announced _ _ e Hmore) as (ev & Hev & Ha); [|exists ev; split; [apply elem_of_app; by right|done]].
    apply list_elem_of_filter. split; [done|]. unfold taken. apply list_elem_of_filter. split.
    + rewrite doesEventHavePrefix_scan. apply bool_decide_eq_true. unfold scan_keys.
      change (has_slash_suffix ttl_root) with true. by rewrite decide_True.
    + apply elem_of_rev_todo. split; [done|]. unfold in_revs. lia.
Qed.

(** Nothing else. *)
Lemma announced_recorded ev :
  ev ∈ sent ++ more -> exists e, e ∈ upto R (h1 ++ ext) /\ leased e /\ announces e ev.
Proof.
  intros [Hev|Hev]%elem_of_app.
  - destruct (announced_only _ _ ev Hsent Hev) as (e & [Hl He]%list_elem_of_filter & Ha).
    exists e. split; [|done]. apply live_list_live in He as (Hin & _ & Hlast & _).
    apply latest_Some in Hlast as [Hup _]. unfold upto in *. rewrite list_elem_of_filter in Hup.
    apply list_elem_of_filter. split; [lia|]. apply elem_of_app. by left.
  - destruct (announced_only _ _ ev Hmore Hev) as (e & [Hl He]%list_elem_of_filter & Ha).
    exists e. split; [|done]. unfold taken in He. rewrite list_elem_of_filter, elem_of_rev_todo in He.
    unfold upto, in_revs in *. apply list_elem_of_filter. tauto.
Qed.
End Announced.

(** C28: with a first page that is not full, the events that ttlEvents sends
    announce the lease of every key under [/] that is live with a lease once
    the watch has caught up, with the key's newest revision, and nothing that
    is not in the history; whatever other clients write and however the reads
    are split and retried. *)
Theorem ttlEvents_complete grow comp p0 h0 s envs page wenvs values :
  read_run dir grow comp p0 h0 s envs -> comp < p0 -> ttl_run comp envs page wenvs s ->
  exists s2 h2 p2 R sent, since dir comp h0 p0 s2 h2 p2 /\ p0 <= R <= p2 /\
    ttlEvents f envs [page] wenvs values s = (Some (Ok (sent, WatchClosed)), s2) /\
    forall ext start cursor, StronglySorted rev_lt (h2 ++ ext) -> Forall (fun e => p2 < e.1) ext ->
      start <= p0 -> stream (h2 ++ ext) start cursor values ->
      let known := upto (Z.max R cursor) (h2 ++ ext) in
      (forall e, ttl_root `prefix_of` Key e.2 -> latest known (Key e.2) = Some e ->
         IsDelete e.2 = false -> leased e -> exists ev, ev ∈ sent /\ announces e ev) /\
      (forall ev, ev ∈ sent -> exists e, e ∈ known /\ leased e /\ announces e ev).
Proof.
  intros Hrun Hcomp Henv.
  destruct (ttl_list _ _ _ _ _ _ _ _ Hrun ltac:(lia) Henv)
    as (rv & h1 & sx & s1 & s2 & h2 & p2 & records & sent & [Hpos Hmax] & Hs1 & Hpage & Hpages & Hs2 & Hread & Hsent).
  pose proof (sn_le _ _ _ _ _ _ _ Hs1) as Hle.
  destruct (ttl_watch_spec comp rv wenvs values s2 h2 Hpos Hmax ltac:(lia) (sn_repr _ _ _ _ _ _ _ Hs2) Hread)
    as (s3 & h3 & p & p3 & R & more & Hp & Hs3 & HR & Hw & Hmore).
  pose proof (since_later _ _ _ _ _ _ _ _ _ _ Hs2 Hp Hs3) as Hs13.
  exists s3, h3, p3, R, (sent ++ more). split; [by eapply since_trans|]. split; [lia|]. split.
  { unfold ttlEvents. rewrite Hpage. cbn [err_of]. rewrite Hpages, Hw. done. }
  intros ext start cursor Hs Hext Hstart Hst known. specialize (Hmore ext start cursor Hs Hext ltac:(lia) Hst).
  destruct (sn_ext _ _ _ _ _ _ _ Hs13) as (e1 & -> & He1). unfold known. rewrite <-app_assoc in *.
  pose proof (sn_le _ _ _ _ _ _ _ Hs13) as Hle3.
  assert (Hnew : Forall (fun x => rv < x.1) (e1 ++ ext)).
  { apply Forall_app. split; [done|]. eapply newer_than; [exact Hext|lia]. }
  split.
  - intros e. apply (newest_announced rv (Z.max R cursor) h1 (e1 ++ ext) sent more); [done|lia|done..].
  - intros ev. apply (announced_recorded rv (Z.max R cursor) h1 (e1 ++ ext) sent more); [lia|done..].
Qed.
End TtlEventsSpec.

(** * Runs *)

Definition leased_rec (key : bytes) (lease : Z) (create : bool) (prev : Versionstamp) : Rec :=
  mkRec key false create lease prev prev 0 (sample_uuid Byte.x07) [] false.

Definition built (h : history) : gmap bytes bytes := build sample_dir (∅ : gmap bytes bytes) h.

(** [/a] is created with a lease at 3 and renewed at 7, [/b] has none. *)
Definition lease_history : history :=
  [(3, leased_rec (str "/a") 5 true dummyVersionstamp); (5, leased_rec (str "/b") 0 true dummyVersionstamp);
   (7, leased_rec (str "/a") 6 false (int64ToVersionstamp 3))].

Lemma lease_repr : Repr sample_dir (built lease_history) lease_history 0.
Proof.
  destruct (history_okb_ok lease_history) as [H1 H2]; [vm_compute; reflexivity|].
  apply build_repr; [intros k; apply lookup_empty|done..].
Qed.

Definition lease_scan : list (TransactEnv BatchEnv) := quiet_scan_at 40 9.

Lemma lease_readable : readable sample_dir 0 40 lease_scan (built lease_history).
Proof.
  intros h HR. rewrite (represented _ _ _ lease_repr HR). exists 0%nat, 40. split; [lia|].
  apply quiet_scan_run; [lia|exact lease_repr| |cbn; lia].
  by apply (bool_decide_eq_true_1 (Forall (fun e : entry => e.1 <= 40) lease_history)).
Qed.

(** A page of the sample: the revision and the records that it returns; the
    store stays as it is. *)
Lemma lease_page startKey M rv s1 records :
  bool_decide ((ttl_page (CF := sample_config) (openSubspaces sample_dir) lease_scan startKey M (built lease_history)).1.2 =
    built lease_history) = true ->
  ttl_page (CF := sample_config) (openSubspaces sample_dir) lease_scan startKey M (built lease_history) = (rv, s1, records) ->
  s1 = built lease_history.
Proof. rewrite bool_decide_eq_true. intros Hs He. by rewrite He in Hs. Qed.

Lemma lease_run : ttl_run (CF := sample_config) sample_dir 0 lease_scan lease_scan lease_scan (built lease_history).
Proof.
  intros rv s1 records He. pose proof (lease_page [] 0 _ _ _ ltac:(vm_compute; reflexivity) He) as ->.
  assert (Hrv : Some (Ok rv) = Some (Ok 40)).
  { transitivity (ttl_page (CF := sample_config) (openSubspaces sample_dir) lease_scan [] 0 (built lease_history)).1.1;
      [by rewrite He|vm_compute; reflexivity]. }
  assert (Hrec : records = (ttl_page (CF := sample_config) (openSubspaces sample_dir) lease_scan [] 0 (built lease_history)).2)
    by (by rewrite He).
  injection Hrv as ->. split; [unfold int64_max; lia|].
  assert (Hlen : length records = 2%nat) by (rewrite Hrec; vm_compute; reflexivity).
  assert (Hkey : (fun r => Key (rr_Record r)) <$> last records = Some (str "/b")) by (rewrite Hrec; vm_compute; reflexivity).
  split; [lia|]. destruct (last records) as [r|]; [|done]. injection Hkey as Hkey. rewrite Hkey.
  split; [done|]. split; [apply lease_readable|]. intros o s2 more He2.
  pose proof (lease_page (str "/b") 40 _ _ _ ltac:(vm_compute; reflexivity) He2) as ->. apply lease_readable.
Qed.

Lemma ttlEvents_complete_witness :
  exists s2 h2 p2 R sent, since sample_dir 0 lease_history 40 s2 h2 p2 /\ 40 <= R <= p2 /\
    ttlEvents (CF := sample_config) (openSubspaces sample_dir) lease_scan [lease_scan] lease_scan [] (built lease_history) =
      (Some (Ok (sent, WatchClosed)), s2) /\
    forall ext start cursor, StronglySorted rev_lt (h2 ++ ext) -> Forall (fun e => p2 < e.1) ext ->
      start <= 40 -> stream (h2 ++ ext) start cursor [] ->
      let known := upto (Z.max R cursor) (h2 ++ ext) in
      (forall e, ttl_root `prefix_of` Key e.2 -> latest known (Key e.2) = Some e ->
         IsDelete e.2 = false -> leased e -> exists ev, ev ∈ sent /\ announces e ev) /\
      (forall ev, ev ∈ sent -> exists e, e ∈ known /\ leased e /\ announces e ev).
Proof.
  apply (ttlEvents_complete (KV := map_store) (CF := sample_config) sample_dir eq_refl 0 0 40 lease_history
    (built lease_history) lease_scan lease_scan lease_scan []).
  - apply quiet_scan_run; [lia|exact lease_repr| |cbn; lia].
    by apply (bool_decide_eq_true_1 (Forall (fun e : entry => e.1 <= 40) lease_history)).
  - lia.
  - exact lease_run.
Defined.

(** * A full page *)

(** The keys [/k000] to [/k999], and [/z] with a lease that is renewed. *)
Definition digit (n : nat) : byte := byte_of_Z (48 + Z.of_nat n).
Definition numbered (n : nat) : bytes := str "/k" ++ [digit (n / 100); digit (n / 10 mod 10); digit (n mod 10)].
Definition page_history : history :=
  ((fun i => (Z.of_nat (S i), leased_rec (numbered i) 0 true dummyVersionstamp)) <$> seq 0 1000) ++
  [(2000, leased_rec (str "/z") 5 true dummyVersionstamp);
   (2001, leased_rec (str "/z") 5 false (int64ToVersionstamp 2000))].

Definition page_scan : list (TransactEnv BatchEnv) := quiet_scan_at 3000 1500.

(** When the first page is full, it ends with the first record of the
    key after it, and the next page starts behind that key: the renewal of its
    lease is not announced, only the superseded revision is, at which the key
    cannot be deleted any more. *)
Theorem ttlEvents_renewal_missed :
  (fun e => (e.1, Lease e.2)) <$> latest page_history (str "/z") = Some (2001, 5) /\
  (fun o => res_map (fun p : list Event * ttlEnd => ev_KV <$> p.1) o) <$>
    (ttlEvents (CF := sample_config) (openSubspaces sample_dir) page_scan [page_scan; page_scan] page_scan []
       (built page_history)).1 =
    Some (Ok [mkKeyValue (str "/z") 2000 2000 [] 5]).
Proof. split; vm_compute; reflexivity. Qed.

(** * The key [/] *)

Definition root_history : history := [(3, leased_rec ttl_root 5 true dummyVersionstamp)].

Definition root_page (startKey : bytes) (M : Z) : option (res Z) * gmap bytes bytes * list RevRecord :=
  ttl_page (CF := sample_config) (openSubspaces sample_dir) lease_scan startKey M (built root_history).
Definition root_records : list RevRecord := (root_page [] 0).2.

(** The page after the key [/] is the same page again. *)
Lemma root_page_again :
  root_page [] 0 = (Some (Ok 40), built root_history, root_records) /\
  root_page ttl_root 40 = (Some (Ok 40), built root_history, root_records).
Proof.
  assert (H : forall x (y : option (res Z) * gmap bytes bytes * list RevRecord), x.1.1 = y.1.1 ->
    bool_decide (x.1.2 = y.1.2) = true -> x.2 = y.2 -> x = y).
  { intros [[a b] c] [[a2 b2] c2]. cbn. rewrite bool_decide_eq_true. congruence. }
  split; apply H; vm_compute; reflexivity.
Qed.

(** When [/] is the only live key, the list of ttlEvents never ends: a
    page that starts at [/] includes [/], so every page is the same, and the
    watch is not reached. *)
Theorem ttlEvents_root_never_ends n :
  (ttlEvents (CF := sample_config) (openSubspaces sample_dir) lease_scan (replicate n lease_scan) lease_scan []
     (built root_history)).1 = None.
Proof.
  destruct root_page_again as [H0 H1]. unfold root_page in H0, H1. unfold ttlEvents. rewrite H0. cbn [err_of].
  assert (Hlast : exists r, last root_records = Some r /\ Key (rr_Record r) = ttl_root)
    by (eexists; split; vm_compute; reflexivity).
  assert (Hsent : exists sent, leased_records (CF := sample_config) root_records = Ok sent)
    by (eexists; vm_compute; reflexivity).
  destruct Hlast as (r & Hlast & Hkey), Hsent as (sent & Hsent).
  enough (Hloop : ttl_pages (CF := sample_config) (openSubspaces sample_dir) 40 (replicate n lease_scan) None root_records
    (built root_history) = (None, built root_history)) by (by rewrite Hloop).
  induction n as [|n IH]; cbn [replicate ttl_pages]; rewrite Hlast, Hsent; [done|].
  rewrite Hkey, H1. cbn [err_of]. by rewrite IH.
Qed.
