(* ===== verification/Start.v ===== *)
(** pkg/drivers/fdb/fdb.go: how the driver starts.

    [Start] sets the options of the client library, opens the database and the
    directory, clears the directory when told to, and writes the key that the
    API server's health check reads.  What the library answers is an input.
    The check of the library's version (fdb.MustAPIVersion), the goroutine
    that closes the database and the one of [ttl] are not part of it. *)
From stdpp Require Import base strings list gmap sorting.
From Stdlib Require Import Strings.Byte ZArith Lia.
From S2P Require Import Prelude FdbApi KeyOrder FdbInstance Util Subspaces SubspaceFacts Transact History Samples Write WriteSpec Read Scan ReadFacts KeySpace Refine.

(** [tls.Config] of kine: the fields that the driver uses. *)
Record tls_Config := mkTlsConfig {
  CertFile : bytes;
  KeyFile : bytes;
  CAFile : bytes;
  SkipVerify : bool
}.

(** The options of the client library that are set. *)
Inductive NetworkOption :=
| TLSCertPath (path : bytes)
| TLSKeyPath (path : bytes)
| TLSCaPath (path : bytes)
| TLSVerifyPeers (pattern : bytes)
| TraceEnable (path : bytes)
| TraceFormat (format : bytes).

(** Setting options one after the other until one fails: those that were
    tried, and the error. *)
Fixpoint set_options (setOption : NetworkOption -> option error) (l : list NetworkOption)
    : list NetworkOption * option error :=
  match l with
  | [] => ([], None)
  | o :: l =>
      match setOption o with
      | Some e => ([o], Some e)
      | None => let '(done, e) := set_options setOption l in (o :: done, e)
      end
  end.

Definition given (path : bytes) (o : NetworkOption) : list NetworkOption :=
  if decide (path <> []) then [o] else [].

(** [setTLSConfig] *)
Definition setTLSConfig (setOption : NetworkOption -> option error) (c : tls_Config)
    : list NetworkOption * option error :=
  set_options setOption (
    given (CertFile c) (TLSCertPath (CertFile c)) ++ given (KeyFile c) (TLSKeyPath (KeyFile c)) ++
    given (CAFile c) (TLSCaPath (CAFile c)) ++
    (if SkipVerify c then [TLSVerifyPeers (str "Check.Valid=0")] else [])).

(** [logFDBTraces], up to its goroutine that copies the trace file. *)
Definition logFDBTraces (setOption : NetworkOption -> option error) (debug : bool)
    : list NetworkOption * option error :=
  if debug then set_options setOption [TraceEnable (str "/tmp"); TraceFormat (str "json")] else ([], None).

(** What [Start] meets: whether debug logs are on, the answers of the library,
    and the attempts of its two transactions. *)
Record startEnv `{KVStore} := mkStartEnv {
  se_debug : bool;
  se_setOption : NetworkOption -> option error;
  se_open : option error;
  se_timeout : option error;
  se_directory : res bytes;
  se_clear : TransactEnv unit;
  se_create : TransactEnv bytes;
  se_uuid : bytes
}.

Definition health_key : bytes := str "/registry/health".
Definition health_value : bytes :=
  let quote := [Byte.x22] in
  str "{" ++ quote ++ str "health" ++ quote ++ str ":" ++ quote ++ str "true" ++ quote ++ str "}".

Section StartDefs.
Context `{FB : FdbBindings, KV : KVStore, CF : Config}.

(** [tr.ClearRange(f.dir)] *)
Definition clear_body (dir : bytes) (_ : unit) (tr : Transaction) (c : unit) : res (Z * Transaction) * unit :=
  (Ok (0, tr_ClearRange tr (FDBRangeKeys dir).1 (FDBRangeKeys dir).2), c).

(** The directory, cleared or as it is. *)
Definition start_clear (CleanDirOnStart : bool) (dir : bytes) (te : TransactEnv unit) (s : store)
    : option (res unit) * store :=
  if CleanDirOnStart then
    match transact (clear_body dir) te s tt with
    | (Some (Ok _), s, _) => (Some (Ok tt), s)
    | (Some (Err e), s, _) => (Some (Err e), s)
    | (Some Panic, s, _) => (Some Panic, s)
    | (None, s, _) => (None, s)
    end
  else (Some (Ok tt), s).

(** The key of the health check; an error is only logged. *)
Definition start_health (f : FDB) (env : startEnv) (s : store) (pollKick : bool) : option (res FDB) * store * bool :=
  if APITest then (Some (Ok f), s, pollKick)
  else
    match Create f (se_create env) (se_uuid env) health_key health_value 0 s pollKick with
    | (Some Panic, s, pollKick) => (Some Panic, s, pollKick)
    | (Some _, s, pollKick) => (Some (Ok f), s, pollKick)
    | (None, s, pollKick) => (None, s, pollKick)
    end.

(** [Start]: the driver with its subspaces, or the first error. *)
Definition Start (CleanDirOnStart : bool) (tlsConfig : tls_Config) (env : startEnv) (s : store) (pollKick : bool)
    : option (res FDB) * store * bool :=
  match (logFDBTraces (se_setOption env) (se_debug env)).2,
        (setTLSConfig (se_setOption env) tlsConfig).2, se_open env, se_timeout env, se_directory env with
  | Some e, _, _, _, _ | None, Some e, _, _, _ | None, None, Some e, _, _ | None, None, None, Some e, _ 
  | None, None, None, None, Err e => (Some (Err e), s, pollKick)
  | None, None, None, None, Panic => (Some Panic, s, pollKick)
  | None, None, None, None, Ok dir =>
      match start_clear CleanDirOnStart dir (se_clear env) s with
      | (Some (Ok _), s) => start_health (openSubspaces dir) env s pollKick
      | (Some (Err e), s) => (Some (Err e), s, pollKick)
      | (Some Panic, s) => (Some Panic, s, pollKick)
      | (None, s) => (None, s, pollKick)
      end
  end.

(** [DbSize]: the library's estimate of the size of the directory. *)
Definition DbSize (GetEstimatedRangeSizeBytes : Transaction -> bytes * bytes -> res Z) (dir : bytes)
    (te : TransactEnv unit) (s : store) : option (res Z) * store :=
  match transact (fun _ tr (_ : unit) =>
          (let? n := GetEstimatedRangeSizeBytes tr (FDBRangeKeys dir) in Ok (n, tr), tt)) te s tt with
  | (Some (Ok (n, _)), s, _) => (Some (Ok n), s)
  | (Some (Err e), s, _) => (Some (Err e), s)
  | (Some Panic, s, _) => (Some Panic, s)
  | (None, s, _) => (None, s)
  end.
End StartDefs.

(** * What a start leaves *)

Section StartSpec.
Context `{FB : FdbBindings, KV : KVStore, CF : Config}.
Context (dir : bytes) (Htest : APITest = false).
Abbreviation f := (openSubspaces dir).

(** A clearing transaction that commits in the end, after attempts that fail
    or whose commit is unknown. *)
Definition clear_run (te : TransactEnv unit) : Prop :=
  te_create te = None /\ exists pre a, te_attempts te = pre ++ [a] /\
    Forall (fun b => at_on_error b = None) pre /\
    at_fault a = None /\ at_commit a = Committed /\ at_force_retry a = false.

(** The range of a directory holds the keys of its subspaces. *)
Lemma cleared_in_dir s k :
  (dir ++ [Byte.x02]) `prefix_of` k -> sget (sclear_range s (FDBRangeKeys dir).1 (FDBRangeKeys dir).2) k = None.
Proof.
  intros [r ->]. rewrite FDBRangeKeys_spec, sget_clear_range, <-app_assoc. cbn [fst snd app].
  apply decide_True. split; [apply blt_le|]; apply blt_app_l, blt_cons; left; cbn; lia.
Qed.

Lemma clear_empties te s :
  clear_run te -> exists s2, start_clear true dir te s = (Some (Ok tt), s2) /\ Repr dir s2 [] 0.
Proof.
  intros (Hcreate & pre & a & Hatt & Hpre & Hfault & Hcommit & Hforce).
  enough (H : exists x s2, retryable (clear_body dir) (te_attempts te) s tt = (Some (Ok x), s2, tt) /\ Repr dir s2 [] 0).
  { destruct H as (x & s2 & Hr & HR). exists s2. split; [|done]. unfold start_clear, transact. by rewrite Hcreate, Hr. }
  rewrite Hatt. clear Hatt. revert s. induction Hpre as [|b pre Hb _ IH]; intros s; cbn [app retryable].
  - unfold wrapped, clear_body, retry_decision. rewrite Hfault, Hcommit, Hforce.
    eexists _, _. split; [reflexivity|]. apply Repr_empty. intros k. apply cleared_in_dir.
  - unfold wrapped, clear_body, retry_decision. rewrite Hb.
    destruct (at_fault b); [destruct (at_force_retry b); apply IH|].
    destruct (at_commit b) as [| |[]], (at_force_retry b); try apply IH.
    eexists _, _. split; [reflexivity|]. apply Repr_empty. intros k. apply cleared_in_dir.
Qed.

(** Writes of other keys leave a key alone. *)
Lemma others_keep key sp sp2 :
  rtc (other_step (fun k => k <> key)) sp sp2 -> sp_map sp2 !! key = sp_map sp !! key.
Proof.
  induction 1 as [|sp sp1 sp2 Hstep _ IH]; [done|]. rewrite IH.
  destruct Hstep; cbn [sp_map]; [by rewrite lookup_insert_ne|by rewrite lookup_delete_ne].
Qed.

Lemma created_live key value lease sp r sp2 :
  atomically sp (CCreate key value lease) r sp2 -> is_Some (sp_map sp2 !! key).
Proof.
  intros (sp1 & sp1' & _ & Hstep & Hrest). cbn [disturbs] in Hrest. rewrite (others_keep key _ _ Hrest).
  inversion Hstep; subst; cbn [sp_map]; [rewrite lookup_insert_eq|]; eauto.
Qed.

(** The library and the clearing do not fail. *)
Record start_ok (env : startEnv) : Prop := mkStartOk {
  so_options o : se_setOption env o = None;
  so_open : se_open env = None;
  so_timeout : se_timeout env = None;
  so_directory : se_directory env = Ok dir;
  so_clear : clear_run (se_clear env)
}.

Lemma set_options_ok setOption l : (forall o, setOption o = None) -> set_options setOption l = (l, None).
Proof. intros H0. induction l as [|o l IH]; [done|]. cbn. by rewrite H0, IH. Qed.

Definition start_call : call := CCreate health_key health_value 0.
Definition start_env (env : startEnv) : callEnv := mkCallEnv _ (se_create env) (se_uuid env) [].

(** The health key is created when it is not there, atomically. *)
Lemma start_health_simulated env s h c :
  Repr dir s h c -> write_env dir health_key h c (start_env env) ->
  exists s2 kick h2 r, start_health f env s false = (Some (Ok f), s2, kick) /\ Repr dir s2 h2 c /\
    atomically (space_of h) start_call r (space_of h2).
Proof.
  intros HR Hw.
  destruct (write_create dir health_key health_value 0 (start_env env) s h c HR) as (r & s2 & h2 & He & HR2 & Hat).
  { split; [unfold is_int64, int64_min, int64_max; lia|]. split; [vm_compute; congruence|done]. }
  apply (takes_effect_atomically dir health_key _ _ _ s2 _ c) in Hat; [|done..].
  unfold exec, start_env in He. cbn [en_te en_uuid] in He. unfold start_health. rewrite Htest.
  destruct (Create _ _ _ _ _ _ s false) as [[[[z|e|]|] s3] kick]; try done; try (destruct e; done).
  - exists s3, kick, h2, r. split; [done|]. by injection He as _ <-.
  - exists s3, kick, h2, r. split; [done|]. destruct e; try done. by injection He as _ <-.
Qed.

(** C27: a start with a library that answers leaves a driver that serves: it
    opens the subspaces of its directory, over the history that was there, or
    over none when the directory is to be cleared, whatever it held before;
    the key of the health check is live, and nothing else was changed. *)
Theorem Start_serves clean tlsConfig env s h c :
  start_ok env -> (if clean : bool then h = [] /\ c = 0 else Repr dir s h c) ->
  write_env dir health_key h c (start_env env) ->
  exists s2 kick h2 r, Start clean tlsConfig env s false = (Some (Ok f), s2, kick) /\ Repr dir s2 h2 c /\
    atomically (space_of h) (CCreate health_key health_value 0) r (space_of h2) /\
    is_Some (sp_map (space_of h2) !! health_key).
Proof.
  intros [Hopt Hopen Htime Hdir Hclear] Hh Hw.
  assert (Hs : exists s1, start_clear clean dir (se_clear env) s = (Some (Ok tt), s1) /\ Repr dir s1 h c).
  { destruct clean; [|by exists s]. destruct Hh as [-> ->]. by apply clear_empties. }
  destruct Hs as (s1 & Hs1 & HR1).
  destruct (start_health_simulated env s1 h c HR1 Hw) as (s2 & kick & h2 & r & He & HR2 & Hat).
  exists s2, kick, h2, r. split; [|split; [done|split; [done|by eapply created_live]]].
  unfold Start, logFDBTraces, setTLSConfig.
  rewrite !set_options_ok, Hopen, Htime, Hdir by done. cbn [snd].
  destruct (se_debug env); cbn [snd]; by rewrite Hs1.
Qed.
End StartSpec.

(** * Runs *)

(** The sample's directory is cleared, by a commit that is unknown at first,
    and the health key created. *)
Definition start_sample : startEnv :=
  mkStartEnv _ true (fun _ => None) None None (Ok sample_dir)
    (mkTransactEnv None [mkAttempt id tt None 20 (CommitUnknown true) 20 0 false None;
                         mkAttempt id tt None 21 Committed 21 0 false None])
    (mkTransactEnv None [sample_attempt 50 Byte.x24 Committed]) (sample_uuid Byte.x23).

Lemma start_sample_write : write_env sample_dir health_key [] 0 (start_env start_sample).
Proof.
  split; [|split; [|constructor]].
  - split; [done|]. exists [], (sample_attempt 50 Byte.x24 Committed). split; [done|].
    split; [apply Forall_singleton, sample_attempt_ok; unfold int64_max; lia|].
    split; [repeat constructor|]. split; [|split; [constructor|done]]. apply Forall_singleton. constructor.
  - exists 40. split; [lia|]. split; [constructor|]. apply steady_quiet; [lia|done].
Qed.

Lemma Start_serves_witness :
  exists s2 kick h2 r,
    Start (CF := sample_config) true (mkTlsConfig (str "cert.pem") [] [] true) start_sample sample_store false =
      (Some (Ok (openSubspaces sample_dir)), s2, kick) /\ Repr sample_dir s2 h2 0 /\
    atomically (space_of []) (CCreate health_key health_value 0) r (space_of h2) /\
    is_Some (sp_map (space_of h2) !! health_key).
Proof.
  apply (Start_serves (KV := map_store) (CF := sample_config) sample_dir eq_refl true).
  - split; try done. split; [done|].
    exists [mkAttempt id tt None 20 (CommitUnknown true) 20 0 false None],
      (mkAttempt id tt None 21 Committed 21 0 false None).
    split; [done|]. split; [by apply Forall_singleton|done].
  - done.
  - exact start_sample_write.
Defined.
