(* ===== verification/Backend.v ===== *)
(** The driver as the backend that kine calls, and pkg/drivers/fdb/fdb_logger.go,
    the backend around it that logs every call.

    A backend is a record of its operations over a state; an operation also
    takes what it meets on its way (attempts, times), the [E] of the record. *)
From stdpp Require Import base strings list gmap.
From Stdlib Require Import Strings.Byte ZArith Lia.
From S2P Require Import Prelude FdbApi FdbInstance Util Subspaces Transact Samples Write WriteSpec Read ReadSpec Compaction Counts Watch Start.

(** An operation's result: none while it runs. *)
Abbreviation ret A := (option (res A)).

(** [server.Backend] of kine, as far as the driver implements it. *)
Record Backend (E S : Type) := mkBackend {
  be_Start : E -> S -> ret unit * S;
  be_Get : E -> bytes -> bytes -> Z -> Z -> bool -> S -> ret (Z * option KeyValue) * S;
  be_Create : E -> bytes -> bytes -> Z -> S -> ret Z * S;
  be_Update : E -> bytes -> bytes -> Z -> Z -> S -> ret (Z * option KeyValue * bool) * S;
  be_Delete : E -> bytes -> Z -> S -> ret (Z * option KeyValue * bool) * S;
  be_List : E -> bytes -> bytes -> Z -> Z -> bool -> S -> ret (Z * list KeyValue) * S;
  be_Count : E -> bytes -> bytes -> Z -> S -> ret (Z * Z) * S;
  be_Watch : E -> bytes -> Z -> S -> ret (WatchResult * list (list Event)) * S;
  be_DbSize : E -> S -> ret Z * S;
  be_CurrentRevision : E -> S -> ret Z * S;
  be_Compact : E -> Z -> S -> ret Z * S
}.
Arguments mkBackend {E S}.
Arguments be_Start {E S}.
Arguments be_Get {E S}.
Arguments be_Create {E S}.
Arguments be_Update {E S}.
Arguments be_Delete {E S}.
Arguments be_List {E S}.
Arguments be_Count {E S}.
Arguments be_Watch {E S}.
Arguments be_DbSize {E S}.
Arguments be_CurrentRevision {E S}.
Arguments be_Compact {E S}.

(** * The driver *)

Section Driver.
Context `{FB : FdbBindings, KV : KVStore, CF : Config}.
Context (CleanDirOnStart : bool) (tlsConfig : tls_Config).
Context (GetEstimatedRangeSizeBytes : Transaction -> bytes * bytes -> res Z).

(** What the operations share: the database, the directory once it is open,
    the wake-up of the poll loop, its cursor and the count tracker. *)
Record driverState := mkDriverState {
  ds_store : store;
  ds_dir : bytes;
  ds_pollKick : bool;
  ds_lastWatchRev : Z;
  ds_pollActive : bool;
  ds_counts : countTracker
}.

Definition ds_set (d : driverState) (s : store) (pollKick : bool) : driverState :=
  mkDriverState s (ds_dir d) pollKick (ds_lastWatchRev d) (ds_pollActive d) (ds_counts d).

(** What an operation meets: each one uses its own part. *)
Record opEnv := mkOpEnv {
  oe_start : startEnv;
  oe_write : TransactEnv bytes;
  oe_uuid : bytes;
  oe_read : TransactEnv unit;
  oe_scan : list (TransactEnv BatchEnv);
  oe_meanwhile : countTracker -> countTracker;
  oe_values : list (list Event);
  oe_version : Z
}.

Definition driver_f (d : driverState) : FDB := openSubspaces (ds_dir d).

(** The result and the state of an operation that changes the store and may
    wake the poll loop. *)
Definition wrote {A} (d : driverState) (x : ret A * store * bool) : ret A * driverState :=
  (x.1.1, ds_set d x.1.2 x.2).
Definition did_read {A} (d : driverState) (x : ret A * store) : ret A * driverState :=
  (x.1, ds_set d x.2 (ds_pollKick d)).

Definition driver_Start (e : opEnv) (d : driverState) : ret unit * driverState :=
  match Start CleanDirOnStart tlsConfig (oe_start e) (ds_store d) (ds_pollKick d) with
  | (Some (Ok _), s, kick) =>
      (Some (Ok tt),
       mkDriverState s (match se_directory (oe_start e) with Ok dir => dir | _ => ds_dir d end) kick
         (ds_lastWatchRev d) (ds_pollActive d) (ds_counts d))
  | (Some (Err err), s, kick) => (Some (Err err), ds_set d s kick)
  | (Some Panic, s, kick) => (Some Panic, ds_set d s kick)
  | (None, s, kick) => (None, ds_set d s kick)
  end.

Definition driver_Count (e : opEnv) (prefix startKey : bytes) (revision : Z) (d : driverState)
    : ret (Z * Z) * driverState :=
  let '(r, s, t) := Count (driver_f d) (oe_scan e) prefix startKey revision (ds_pollActive d)
                      (ds_lastWatchRev d) (oe_meanwhile e) (ds_counts d) (ds_store d) in
  (r, mkDriverState s (ds_dir d) (ds_pollKick d) (ds_lastWatchRev d) (ds_pollActive d) t).

(** [FDB] is a [server.Backend]. *)
Definition FDB_Backend : Backend opEnv driverState := {|
  be_Start := driver_Start;
  be_Get e key rangeEnd _ revision keysOnly d :=
    did_read d (Get (driver_f d) (oe_scan e) key rangeEnd revision keysOnly (ds_store d));
  be_Create e key value lease d :=
    wrote d (Create (driver_f d) (oe_write e) (oe_uuid e) key value lease (ds_store d) (ds_pollKick d));
  be_Update e key value revision lease d :=
    wrote d (Update (driver_f d) (oe_write e) (oe_uuid e) key value revision lease (ds_store d) (ds_pollKick d));
  be_Delete e key revision d :=
    wrote d (Delete (driver_f d) (oe_write e) (oe_uuid e) key revision (ds_store d) (ds_pollKick d));
  be_List e prefix startKey limit revision keysOnly d :=
    did_read d (List (driver_f d) (oe_scan e) prefix startKey limit revision keysOnly (ds_store d));
  be_Count := driver_Count;
  be_Watch e prefix revision d :=
    did_read d (Watch (driver_f d) (oe_scan e) prefix revision (oe_values e) (ds_store d));
  be_DbSize e d := did_read d (DbSize GetEstimatedRangeSizeBytes (ds_dir d) (oe_read e) (ds_store d));
  be_CurrentRevision e d :=
    did_read d (CurrentRevision (driver_f d) (oe_read e) (ds_lastWatchRev d) (ds_store d));
  be_Compact e revision d :=
    did_read d (Compact (driver_f d) (oe_scan e) (oe_version e) revision (ds_store d))
|}.
End Driver.

(** * The logger *)

Inductive Level := LevelInfo | LevelWarn | LevelTrace.

(** A line of the log: its level and its format; the arguments are those of
    the call and its results. *)
Record logLine := mkLogLine { ll_level : Level; ll_format : string }.

Record FdbLogger (E S : Type) := mkFdbLogger {
  fl_backend : Backend E S;
  fl_threshold : Z
}.
Arguments mkFdbLogger {E S}.
Arguments fl_backend {E S}.
Arguments fl_threshold {E S}.

Section Logger.
Context {E S : Type} (b : FdbLogger E S).

(** [logMethod] *)
Definition logMethod (dur : Z) (format : string) : logLine :=
  mkLogLine (if fl_threshold b <? dur then LevelWarn else LevelTrace) format.

(** A call of the backend between what is logged before it and, once it
    returns or panics, after it; [dur] is the time it takes. *)
Definition logged {A} (before after : list logLine) (call : S -> ret A * S) (st : S * list logLine)
    : ret A * (S * list logLine) :=
  let '(r, s) := call st.1 in
  (r, (s, st.2 ++ before ++ match r with Some _ => after | None => [] end)).

(** [Start] logs its end only when it returns. *)
Definition logger_Start (e : E) (st : S * list logLine) : ret unit * (S * list logLine) :=
  let '(r, s) := be_Start (fl_backend b) e st.1 in
  (r, (s, st.2 ++ mkLogLine LevelInfo "Starting backend" ::
          match r with
          | Some (Ok _) | Some (Err _) => [mkLogLine LevelInfo "Started backend. Err: %v"]
          | Some Panic | None => []
          end)).

(** [FdbLogger] is a [server.Backend]. *)
Definition FdbLogger_Backend : Backend (E * Z) (S * list logLine) := {|
  be_Start '(e, dur) := logger_Start e;
  be_Get '(e, dur) key rangeEnd limit revision keysOnly :=
    logged [logMethod 0 "GET start %s, rangeEnd=%s rev=%d"]
      [logMethod dur "GET end %s, rangeEnd=%s rev=%d => revRet=%d, kv=%v, size=%d, err=%v, duration=%s"]
      (be_Get (fl_backend b) e key rangeEnd limit revision keysOnly);
  be_Create '(e, dur) key value lease :=
    logged [logMethod 0 "CREATE start %s, size=%d, lease=%d"]
      [logMethod dur "CREATE end %s, size=%d, lease=%d => rev=%d, err=%v, duration=%s"]
      (be_Create (fl_backend b) e key value lease);
  be_Update '(e, dur) key value revision lease :=
    logged [logMethod 0 "UPDATE start %s, value=%d, rev=%d, lease=%v"]
      [logMethod dur "UPDATE end %s, value=%d, rev=%d, lease=%v => rev=%d, kv=%v, updated=%v, err=%v, duration=%s"]
      (be_Update (fl_backend b) e key value revision lease);
  be_Delete '(e, dur) key revision :=
    logged [logMethod 0 "DELETE start %s, rev=%d"]
      [logMethod dur "DELETE end %s, rev=%d => rev=%d, kv=%v, deleted=%v, err=%v, duration=%s"]
      (be_Delete (fl_backend b) e key revision);
  be_List '(e, dur) prefix startKey limit revision keysOnly :=
    logged [logMethod 0 "LIST start %s, start=%s, limit=%d, rev=%d"]
      [logMethod dur "LIST end %s, start=%s, limit=%d, rev=%d => rev=%d, kvs=%d, err=%v, duration=%s"]
      (be_List (fl_backend b) e prefix startKey limit revision keysOnly);
  be_Count '(e, dur) prefix startKey revision :=
    logged [logMethod 0 "COUNT start %s, start=%s, rev=%d"]
      [logMethod dur "COUNT end %s, start=%s, rev=%d => rev=%d, count=%d, err=%v, duration=%s"]
      (be_Count (fl_backend b) e prefix startKey revision);
  be_Watch '(e, dur) prefix revision :=
    logged [] [logMethod dur "WATCH prefix=%s rev=%s => rev=%d, compactRev=%v, duration=%s"]
      (be_Watch (fl_backend b) e prefix revision);
  be_DbSize '(e, dur) := logged [] [] (be_DbSize (fl_backend b) e);
  be_CurrentRevision '(e, dur) :=
    logged [] [logMethod dur "CURRENT_REV => revRet=%d, err=%v, duration=%s"] (be_CurrentRevision (fl_backend b) e);
  be_Compact '(e, dur) revision :=
    logged [] [logMethod dur "COMPACT rev=%d => rev=%d, err=%v, duration=%s"] (be_Compact (fl_backend b) e revision)
|}.
End Logger.

(** [NewFDB]: the driver behind the logger, with half a second as threshold. *)
Definition NewFDB `{FB : FdbBindings, KV : KVStore, CF : Config} (CleanDirOnStart : bool) (tlsConfig : tls_Config)
    (GetEstimatedRangeSizeBytes : Transaction -> bytes * bytes -> res Z) : FdbLogger opEnv driverState :=
  mkFdbLogger (FDB_Backend CleanDirOnStart tlsConfig GetEstimatedRangeSizeBytes) (500 * 1000000).

(** * Sequences of calls *)

Inductive request :=
| QStart
| QGet (key rangeEnd : bytes) (limit revision : Z) (keysOnly : bool)
| QCreate (key value : bytes) (lease : Z)
| QUpdate (key value : bytes) (revision lease : Z)
| QDelete (key : bytes) (revision : Z)
| QList (prefix startKey : bytes) (limit revision : Z) (keysOnly : bool)
| QCount (prefix startKey : bytes) (revision : Z)
| QWatch (prefix : bytes) (revision : Z)
| QDbSize
| QCurrentRevision
| QCompact (revision : Z).

Inductive response :=
| AStart (r : ret unit)
| AGet (r : ret (Z * option KeyValue))
| ARev (r : ret Z)
| AWrite (r : ret (Z * option KeyValue * bool))
| AList (r : ret (Z * list KeyValue))
| ACount (r : ret (Z * Z))
| AWatch (r : ret (WatchResult * list (list Event))).

Definition answer {A S : Type} (k : A -> response) (x : A * S) : response * S := (k x.1, x.2).

Definition serve {E S} (b : Backend E S) (q : request) (e : E) (s : S) : response * S :=
  match q with
  | QStart => answer AStart (be_Start b e s)
  | QGet key rangeEnd limit revision keysOnly => answer AGet (be_Get b e key rangeEnd limit revision keysOnly s)
  | QCreate key value lease => answer ARev (be_Create b e key value lease s)
  | QUpdate key value revision lease => answer AWrite (be_Update b e key value revision lease s)
  | QDelete key revision => answer AWrite (be_Delete b e key revision s)
  | QList prefix startKey limit revision keysOnly =>
      answer AList (be_List b e prefix startKey limit revision keysOnly s)
  | QCount prefix startKey revision => answer ACount (be_Count b e prefix startKey revision s)
  | QWatch prefix revision => answer AWatch (be_Watch b e prefix revision s)
  | QDbSize => answer ARev (be_DbSize b e s)
  | QCurrentRevision => answer ARev (be_CurrentRevision b e s)
  | QCompact revision => answer ARev (be_Compact b e revision s)
  end.

Fixpoint serve_all {E S} (b : Backend E S) (l : list (request * E)) (s : S) : list response * S :=
  match l with
  | [] => ([], s)
  | (q, e) :: l =>
      let '(r, s) := serve b q e s in
      let '(rs, s) := serve_all b l s in
      (r :: rs, s)
  end.

(** * The logger does not change what the backend does *)

(** The calls that are logged with their time, and whether a response is one. *)
Definition timed (q : request) : bool := match q with QStart | QDbSize => false | _ => true end.
Definition is_ret {A} (r : ret A) : bool := match r with Some _ => true | None => false end.
Definition returned (a : response) : bool :=
  match a with
  | AStart r => is_ret r | AGet r => is_ret r | ARev r => is_ret r | AWrite r => is_ret r
  | AList r => is_ret r | ACount r => is_ret r | AWatch r => is_ret r
  end.


#[global] Instance Level_eq_dec : EqDecision Level.
Proof. solve_decision. Defined.

Definition warnings (l : list logLine) : nat := length (filter (fun x => ll_level x = LevelWarn) l).

(** The calls that took longer than the threshold. *)
Definition slow {E} (threshold : Z) (x : request * (E * Z) * response) : bool :=
  timed x.1.1 && returned x.2 && (threshold <? x.1.2.2).
Definition slow_calls {E} (threshold : Z) (l : list (request * (E * Z))) (rs : list response) : nat :=
  length (filter (fun x => slow threshold x = true) (zip l rs)).

Section Transparent.
Context {E S : Type} (b : Backend E S) (threshold : Z) (Hthr : 0 <= threshold).
Abbreviation lg := (FdbLogger_Backend (mkFdbLogger b threshold)).

Lemma warnings_app l k : warnings (l ++ k) = (warnings l + warnings k)%nat.
Proof. unfold warnings. by rewrite filter_app, length_app. Qed.

Lemma warn_line dur format :
  warnings [logMethod (mkFdbLogger b threshold) dur format] = if (threshold <? dur)%Z then 1%nat else 0%nat.
Proof. unfold warnings, logMethod. cbn [fl_threshold]. by destruct (threshold <? dur). Qed.

(** One call: the same result and state, and a warning when it is slow. *)
Lemma serve_logged q e dur s log :
  exists new, serve lg q (e, dur) (s, log) = ((serve b q e s).1, ((serve b q e s).2, log ++ new)) /\
    warnings new = if slow threshold (q, (e, dur), (serve b q e s).1) then 1%nat else 0%nat.
Proof.
  pose proof (proj2 (Z.ltb_ge threshold 0) Hthr) as H0. unfold slow. cbn [fst snd].
  destruct q; cbn [serve FdbLogger_Backend be_Start be_Get be_Create be_Update be_Delete be_List be_Count
    be_Watch be_DbSize be_CurrentRevision be_Compact]; unfold logger_Start, logged, answer; cbn [fl_backend fst snd];
    match goal with |- context [let '(_, _) := ?c in _] => destruct c as [[r|] s2] end;
    cbn [fst snd returned is_ret timed andb]; eexists; split; try reflexivity;
    rewrite ?app_nil_l, ?app_nil_r, ?warnings_app, ?warn_line, ?H0; try reflexivity.
  by destruct r.
Qed.

(** C26: the logger is transparent: a sequence of calls returns the same
    results through it as without it and leaves the backend in the same
    state; and it warns once of every call that takes longer than the
    threshold, and of nothing else. *)
Theorem FdbLogger_transparent l s log :
  let '(rs, s2) := serve_all b ((fun x => (x.1, x.2.1)) <$> l) s in
  exists new, serve_all lg l (s, log) = (rs, (s2, log ++ new)) /\ warnings new = slow_calls threshold l rs.
Proof.
  revert s log. induction l as [|[q [e dur]] l IH]; intros s log; cbn [fmap list_fmap serve_all fst snd].
  - exists []. by rewrite app_nil_r.
  - destruct (serve_logged q e dur s log) as (new & Hq & Hw).
    destruct (serve b q e s) as [r s1]. cbn [fst snd] in Hq, Hw. specialize (IH s1 (log ++ new)).
    destruct (serve_all b _ s1) as [rs s2]. destruct IH as (more & Hall & Hmore).
    exists (new ++ more). rewrite Hq, Hall, app_assoc. split; [done|].
    rewrite warnings_app, Hw, Hmore. unfold slow_calls. cbn [zip zip_with]. rewrite filter_cons.
    destruct (slow threshold _); [by rewrite decide_True|by rewrite decide_False].
Qed.
End Transparent.

(** * A run *)

Definition sample_driver : FdbLogger opEnv driverState :=
  NewFDB (CF := sample_config) false (mkTlsConfig [] [] [] false) (fun _ _ => Ok 0).

Definition sample_state : driverState := mkDriverState sample_store sample_dir false 0 false newCountTracker.

Definition sample_env : opEnv :=
  mkOpEnv start_sample (mkTransactEnv None [sample_attempt 50 Byte.x24 Committed]) (sample_uuid Byte.x23)
    (mkTransactEnv None []) (quiet_scan_at 60 9) id [] 0.

(** A slow create and a get of the key. *)
Definition sample_calls : list (request * (opEnv * Z)) :=
  [(QCreate (str "/d") (str "new") 0, (sample_env, 600 * 1000000));
   (QGet (str "/d") [] 0 0 false, (sample_env, 1000000))].

Lemma FdbLogger_transparent_witness :
  let '(rs, s2) := serve_all (fl_backend sample_driver) ((fun x => (x.1, x.2.1)) <$> sample_calls) sample_state in
  exists new, serve_all (FdbLogger_Backend sample_driver) sample_calls (sample_state, []) = (rs, (s2, [] ++ new)) /\
    warnings new = slow_calls (fl_threshold sample_driver) sample_calls rs.
Proof. apply (FdbLogger_transparent (fl_backend sample_driver) (fl_threshold sample_driver)). cbn. lia. Defined.

Lemma sample_calls_run :
  (serve_all (fl_backend sample_driver) ((fun x => (x.1, x.2.1)) <$> sample_calls) sample_state).1 =
    [ARev (Some (Ok 50)); AGet (Some (Ok (60, Some (mkKeyValue (str "/d") 50 50 (str "new") 0))))] /\
  warnings (serve_all (FdbLogger_Backend sample_driver) sample_calls (sample_state, [])).2.2 = 1%nat.
Proof. vm_compute. split; reflexivity. Qed.
