(* ===== verification/Hints.v ===== *)
(** How a batch reads: the streaming mode and the snapshot reads that
    [processBatch] (fdb_util.go) takes from its collector, by the methods
    [streamingMode] and [snapshotReads] of the record collector (fdb_read.go).

    A snapshot read does not add to what the commit is checked against, so a
    transaction that also writes would no longer be serializable; the file
    shows that none does.  Both kinds of reads see the same data, so
    [batch_body] does not depend on the flag; whether a commit meets a
    conflict is an input of the attempt. *)
From stdpp Require Import base strings list gmap sorting.
From Stdlib Require Import Strings.Byte ZArith Lia.
From S2P Require Import Prelude FdbApi FdbInstance Util Subspaces Transact History Samples Read ReadFacts Compaction Watch WatchSpec Wal WalSpec.

Inductive StreamingMode := StreamingModeIterator | StreamingModeWantAll.

Section Hints.
Context `{FB : FdbBindings, KV : KVStore, CF : Config}.

(** The collectors that are given to [processBatch], by their Go types. *)
Inductive collector :=
| RecordsOfList (c : recordCollector listCollector)
| RecordsOfCount (c : recordCollector countCollector)
| Compacting (c : compactProcessor)
| Collecting (c : afterCollector)
| Exporting (c : walCollector).

(** [None]: the collector has no such method. *)
Definition streamingMode (c : collector) : option StreamingMode :=
  match c with
  | RecordsOfList c => Some (if lc_limit (rc_inner c) =? 0 then StreamingModeWantAll else StreamingModeIterator)
  | RecordsOfCount _ => Some StreamingModeIterator
  | _ => None
  end.

Definition snapshotReads (c : collector) : option bool :=
  match c with
  | RecordsOfList _ | RecordsOfCount _ => Some true
  | _ => None
  end.

(** The choice of [processBatch]. *)
Definition batch_mode (c : collector) : StreamingMode := default StreamingModeIterator (streamingMode c).
Definition batch_snapshot (c : collector) : bool := default false (snapshotReads c).

(** What the transaction of a batch is to write, if its body succeeds. *)
Definition body_log {C} (result : res (batchResult * Transaction) * C) : list mutation :=
  match result with (Ok (_, tr), _) => tr_log tr | _ => [] end.

Definition batch_log (c : collector) (selector : SelectorRange) (env : BatchEnv) (tr : Transaction) : list mutation :=
  match c with
  | RecordsOfList c => body_log (batch_body selector env tr c)
  | RecordsOfCount c => body_log (batch_body selector env tr c)
  | Compacting c => body_log (batch_body selector env tr c)
  | Collecting c => body_log (batch_body selector env tr c)
  | Exporting c => body_log (batch_body selector env tr c)
  end.

Lemma body_log_ro {C} `{!Processor RangeIterator C, !ReadOnly RangeIterator C} sel env s rv (c : C) :
  body_log (batch_body sel env (begin_tr s rv) c) = [].
Proof.
  unfold body_log. destruct (batch_body sel env (begin_tr s rv) c) as [[[res tr]|e|] c2] eqn:Eb; [|done..].
  by apply batch_body_ro in Eb as ->.
Qed.

(** C40: a batch that reads without conflict tracking writes nothing, whatever
    it reads and however far it gets: no commit depends on reads that the
    database does not check. *)
Theorem snapshot_reads_only c sel env s rv :
  batch_snapshot c = true -> batch_log c sel env (begin_tr s rv) = [].
Proof. destruct c; try done; intros _; apply body_log_ro. Qed.
End Hints.

(** * Runs *)

(** A compaction of the sample store does write, with regular reads. *)
Definition compaction_batch : collector := Compacting (newCompactProcessor (openSubspaces sample_dir)).
Definition all_revisions : SelectorRange :=
  let '(b, e) := FDBRangeKeys (byRevision (openSubspaces sample_dir)) in
  mkSelectorRange (FirstGreaterOrEqual b) (FirstGreaterOrEqual e).

Example compaction_writes :
  batch_snapshot compaction_batch = false /\
  batch_log compaction_batch all_revisions (mkBatchEnv 9 None) (begin_tr sample_store 12) <> [].
Proof. vm_compute. by split. Qed.

Definition count_batch : collector := RecordsOfCount (newRecordCollector (openSubspaces sample_dir) 0 (mkCountCollector 0 0)).

Lemma snapshot_reads_only_witness :
  batch_log count_batch all_revisions (mkBatchEnv 9 None) (begin_tr sample_store 12) = [].
Proof. apply (snapshot_reads_only (KV := map_store) (CF := sample_config) count_batch). reflexivity. Defined.
