(* ===== verification/EtcdModel.v ===== *)
(** test/robustness/model/deterministic.go: the model of etcd that the
    robustness tests hold the driver against.

    The types of requests and responses are those of etcd's own package
    go.etcd.io/etcd/tests/v3/robustness/model, with the fields that the code
    uses; its functions and constants are the parameters [EtcdTypes] and
    [EtcdMatch].  A request or an operation is a constructor with its options,
    for the code's [Type] and the option field that goes with it.  Revisions
    are integers without a bound: the int64 of the code is increased by one
    for a request, and its overflow is not modelled. *)
From stdpp Require Import base strings list gmap sorting.
From Stdlib Require Import Strings.Byte ZArith Lia.
From S2P Require Import Prelude.

(** What the package defines of values, errors and revisions: [noValue] is the
    zero value of [ValueOrHash]. *)
Class EtcdTypes := {
  ValueOrHash : Type;
  ValueOrHash_eq_dec :: EqDecision ValueOrHash;
  noValue : ValueOrHash;
  ToValueOrHash : bytes -> ValueOrHash;
  ErrEtcdFutureRev : String.string;
  mvcc_ErrCompacted : String.string;
  mvcc_ErrFutureRev : String.string;
  RevisionForNonLinearizableResponse : Z;
  ErrEtcdFutureRev_message : ErrEtcdFutureRev <> ""%string
}.

Section Types.
Context `{ET : EtcdTypes}.

Record ValueRevision := mkValueRevision {
  vr_Value : ValueOrHash;
  vr_ModRevision : Z;
  vr_Version : Z
}.

Definition zeroValueRevision : ValueRevision := mkValueRevision noValue 0 0.

(** [model.KeyValue], which embeds a [ValueRevision]. *)
Record EtcdKeyValue := mkEtcdKeyValue {
  ek_Key : bytes;
  ek_ValueRevision : ValueRevision
}.

Record EtcdLease := mkEtcdLease {
  el_LeaseID : Z;
  el_Keys : gset bytes
}.

Record EtcdState := mkEtcdState {
  es_Revision : Z;
  es_CompactRevision : Z;
  es_KeyValues : gmap bytes ValueRevision;
  es_KeyLeases : gmap bytes Z;
  es_Leases : gmap Z EtcdLease
}.

Record EtcdCondition := mkEtcdCondition {
  ec_Key : bytes;
  ec_ExpectedRevision : Z;
  ec_ExpectedVersion : Z
}.

Record RangeOptions := mkRangeOptions {
  ro_Start : bytes;
  ro_End : bytes;
  ro_Limit : Z
}.

Record PutOptions := mkPutOptions {
  po_Key : bytes;
  po_Value : ValueOrHash;
  po_LeaseID : Z
}.

Inductive EtcdOperation :=
| RangeOperation (range : RangeOptions)
| PutOperation (put : PutOptions)
| DeleteOperation (key : bytes).

Record TxnRequest := mkTxnRequest {
  tx_Conditions : list EtcdCondition;
  tx_OperationsOnSuccess : list EtcdOperation;
  tx_OperationsOnFailure : list EtcdOperation
}.

Inductive EtcdRequest :=
| RangeRequest (options : RangeOptions) (revision : Z)
| Txn (request : TxnRequest)
| LeaseGrant (leaseID : Z)
| LeaseRevoke (leaseID : Z)
| Defragment
| CompactRequest (revision : Z).

Record RangeResponse := mkRangeResponse {
  rs_KVs : list EtcdKeyValue;
  rs_Count : Z
}.

Record EtcdOperationResult := mkEtcdOperationResult {
  or_RangeResponse : RangeResponse;
  or_Deleted : Z
}.

Definition zeroOperationResult : EtcdOperationResult := mkEtcdOperationResult (mkRangeResponse [] 0) 0.

Record TxnResponse := mkTxnResponse {
  tr_Failure : bool;
  tr_Results : list EtcdOperationResult
}.

(** The kind of answer that a response carries; the answers of leases,
    compactions and defragmentations are empty. *)
Inductive ResponseBody :=
| NoBody
| RangeBody (range : RangeResponse)
| TxnBody (txn : TxnResponse)
| LeaseGrantBody
| LeaseRevokeBody
| CompactBody
| DefragmentBody.

Record EtcdResponse := mkEtcdResponse {
  er_Body : ResponseBody;
  er_ClientError : String.string;
  er_Revision : Z
}.

Record MaybeEtcdResponse := mkMaybeEtcdResponse {
  mr_EtcdResponse : EtcdResponse;
  mr_Persisted : bool;
  mr_PersistedRevision : Z;
  mr_Error : String.string
}.

Definition zeroEtcdResponse : EtcdResponse := mkEtcdResponse NoBody "" 0.

(** [model.MaybeEtcdResponse{EtcdResponse: r}], [{Error: e}] and
    [{Persisted: true, PersistedRevision: n}]. *)
Definition answered (r : EtcdResponse) : MaybeEtcdResponse := mkMaybeEtcdResponse r false 0 "".
Definition failed (e : String.string) : MaybeEtcdResponse := mkMaybeEtcdResponse zeroEtcdResponse false 0 e.
Definition persisted (n : Z) : MaybeEtcdResponse := mkMaybeEtcdResponse zeroEtcdResponse true n "".

#[global] Instance ValueRevision_eq_dec : EqDecision ValueRevision.
Proof. solve_decision. Defined.
#[global] Instance EtcdLease_eq_dec : EqDecision EtcdLease.
Proof. solve_decision. Defined.
#[global] Instance EtcdState_eq_dec : EqDecision EtcdState.
Proof. solve_decision. Defined.
#[global] Instance EtcdKeyValue_eq_dec : EqDecision EtcdKeyValue.
Proof. solve_decision. Defined.
#[global] Instance RangeResponse_eq_dec : EqDecision RangeResponse.
Proof. solve_decision. Defined.
End Types.

(** [model.Match]: whether two responses agree; a response agrees with
    itself. *)
Class EtcdMatch `{ET : EtcdTypes} := {
  Match : MaybeEtcdResponse -> MaybeEtcdResponse -> bool;
  Match_refl r : Match r r = true
}.

Section Model.
Context `{ET : EtcdTypes}.

(** [Equal] compares field by field, maps by content. *)
Definition EtcdState_Equal (s other : EtcdState) : bool :=
  if negb (es_Revision s =? es_Revision other) then false
  else if negb (es_CompactRevision s =? es_CompactRevision other) then false
  else if negb (bool_decide (es_KeyValues s = es_KeyValues other)) then false
  else if negb (bool_decide (es_KeyLeases s = es_KeyLeases other)) then false
  else bool_decide (es_Leases s = es_Leases other).

Definition freshEtcdState : EtcdState := mkEtcdState 1 (-1) ∅ ∅ ∅.

(** Updates of single fields. *)
Definition with_KeyValues (s : EtcdState) (m : gmap bytes ValueRevision) : EtcdState :=
  mkEtcdState (es_Revision s) (es_CompactRevision s) m (es_KeyLeases s) (es_Leases s).
Definition with_Revision (s : EtcdState) (r : Z) : EtcdState :=
  mkEtcdState r (es_CompactRevision s) (es_KeyValues s) (es_KeyLeases s) (es_Leases s).
Definition with_leases (s : EtcdState) (kl : gmap bytes Z) (l : gmap Z EtcdLease) : EtcdState :=
  mkEtcdState (es_Revision s) (es_CompactRevision s) (es_KeyValues s) kl l.

Definition ek_le (a b : EtcdKeyValue) : Prop := ek_Key a <=b ek_Key b.
#[global] Instance ek_le_dec : RelDecision ek_le.
Proof. intros a b. unfold ek_le. apply _. Defined.

(** [getRange]: the map is iterated in any order and the result sorted; a
    slice [KVs[:Limit]] with a negative limit panics. *)
Definition getRange (s : EtcdState) (options : RangeOptions) : res RangeResponse :=
  if negb (bool_decide (ro_End options = [])) then
    let kvs := filter (fun kv => ro_Start options <=b ek_Key kv /\ ek_Key kv <b ro_End options)
                 ((fun kv => mkEtcdKeyValue kv.1 kv.2) <$> map_to_list (es_KeyValues s)) in
    let count := Z.of_nat (length kvs) in
    let sorted := merge_sort ek_le kvs in
    if negb (ro_Limit options =? 0) && (ro_Limit options <? count) then
      if ro_Limit options <? 0 then Panic
      else Ok (mkRangeResponse (take (Z.to_nat (ro_Limit options)) sorted) count)
    else Ok (mkRangeResponse sorted count)
  else
    match es_KeyValues s !! ro_Start options with
    | Some value => Ok (mkRangeResponse [mkEtcdKeyValue (ro_Start options) value] 1)
    | None => Ok (mkRangeResponse [] 0)
    end.

(** Deleting from the keys of a lease that is not there does nothing; adding
    to them panics. *)
Definition detachFromOldLease (s : EtcdState) (key : bytes) : EtcdState :=
  match es_KeyLeases s !! key with
  | Some oldLeaseID =>
      with_leases s (delete key (es_KeyLeases s))
        (alter (fun l => mkEtcdLease (el_LeaseID l) (el_Keys l ∖ {[key]})) oldLeaseID (es_Leases s))
  | None => s
  end.

Definition attachToNewLease (s : EtcdState) (leaseID : Z) (key : bytes) : res EtcdState :=
  match es_Leases s !! leaseID with
  | Some l =>
      Ok (with_leases s (<[key := leaseID]> (es_KeyLeases s))
            (<[leaseID := mkEtcdLease (el_LeaseID l) (el_Keys l ∪ {[key]})]> (es_Leases s)))
  | None => Panic
  end.

Definition stepRange (s : EtcdState) (options : RangeOptions) (revision : Z)
    : res (EtcdState * MaybeEtcdResponse) :=
  if (revision =? 0) || (revision =? es_Revision s) then
    let? resp := getRange s options in
    Ok (s, answered (mkEtcdResponse (RangeBody resp) "" (es_Revision s)))
  else if es_Revision s <? revision then Ok (s, failed ErrEtcdFutureRev)
  else if revision <? es_CompactRevision s then
    Ok (s, answered (mkEtcdResponse NoBody mvcc_ErrCompacted 0))
  else Ok (s, persisted (es_Revision s)).

(** The conditions of a transaction: the first that does not hold ends the
    loop. *)
Definition condition_holds (s : EtcdState) (cond : EtcdCondition) : bool :=
  let val := default zeroValueRevision (es_KeyValues s !! ec_Key cond) in
  if 0 <? ec_ExpectedVersion cond then vr_Version val =? ec_ExpectedVersion cond
  else vr_ModRevision val =? ec_ExpectedRevision cond.

Fixpoint conditions_fail (s : EtcdState) (conds : list EtcdCondition) : bool :=
  match conds with
  | [] => false
  | cond :: conds => if condition_holds s cond then conditions_fail s conds else true
  end.

(** One operation: the new state, its result, and whether the revision is to
    be increased. *)
Definition stepOperation (newState : EtcdState) (op : EtcdOperation)
    : res (EtcdState * EtcdOperationResult * bool) :=
  match op with
  | RangeOperation range =>
      let? resp := getRange newState range in
      Ok (newState, mkEtcdOperationResult resp 0, false)
  | PutOperation put =>
      let leaseExists := bool_decide (is_Some (es_Leases newState !! po_LeaseID put)) in
      if negb (po_LeaseID put =? 0) && negb leaseExists then Ok (newState, zeroOperationResult, false)
      else
        let newState := with_KeyValues newState
          (<[po_Key put := mkValueRevision (po_Value put) (es_Revision newState + 1) 0]> (es_KeyValues newState)) in
        let newState := detachFromOldLease newState (po_Key put) in
        let? newState := if leaseExists then attachToNewLease newState (po_LeaseID put) (po_Key put) else Ok newState in
        Ok (newState, zeroOperationResult, true)
  | DeleteOperation key =>
      match es_KeyValues newState !! key with
      | Some _ =>
          let newState := with_KeyValues newState (delete key (es_KeyValues newState)) in
          Ok (detachFromOldLease newState key, mkEtcdOperationResult (mkRangeResponse [] 0) 1, true)
      | None => Ok (newState, zeroOperationResult, false)
      end
  end.

Fixpoint stepOperations (newState : EtcdState) (ops : list EtcdOperation) (increaseRevision : bool)
    : res (EtcdState * list EtcdOperationResult * bool) :=
  match ops with
  | [] => Ok (newState, [], increaseRevision)
  | op :: ops =>
      let? '(newState, result, increase) := stepOperation newState op in
      let? '(newState, results, increaseRevision) := stepOperations newState ops (increaseRevision || increase) in
      Ok (newState, result :: results, increaseRevision)
  end.

Definition stepTxn (s : EtcdState) (request : TxnRequest) : res (EtcdState * MaybeEtcdResponse) :=
  let failure := conditions_fail s (tx_Conditions request) in
  let operations := if failure then tx_OperationsOnFailure request else tx_OperationsOnSuccess request in
  let? '(newState, opResp, increaseRevision) := stepOperations s operations false in
  let newState := if increaseRevision : bool then with_Revision newState (es_Revision newState + 1) else newState in
  Ok (newState, answered (mkEtcdResponse (TxnBody (mkTxnResponse failure opResp)) "" (es_Revision newState))).

Definition stepLeaseGrant (s : EtcdState) (leaseID : Z) : EtcdState * MaybeEtcdResponse :=
  let resp := answered (mkEtcdResponse LeaseGrantBody "" (es_Revision s)) in
  if leaseID =? 0 then (s, resp)
  else (with_leases s (es_KeyLeases s) (<[leaseID := mkEtcdLease leaseID ∅]> (es_Leases s)), resp).

(** One key of a revoked lease. *)
Definition revoke_key (st : EtcdState * bool) (key : bytes) : EtcdState * bool :=
  let '(newState, keyDeleted) := st in
  match es_KeyValues newState !! key with
  | Some _ =>
      (with_leases (with_KeyValues newState (delete key (es_KeyValues newState)))
         (delete key (es_KeyLeases newState)) (es_Leases newState), true)
  | None => st
  end.

(** The keys of a lease are iterated in any order; those of one that is not
    there are none. *)
Definition stepLeaseRevoke (s : EtcdState) (leaseID : Z) : EtcdState * MaybeEtcdResponse :=
  let keys := match es_Leases s !! leaseID with Some l => elements (el_Keys l) | None => [] end in
  let '(newState, keyDeleted) := fold_left revoke_key keys (s, false) in
  let newState := with_leases newState (es_KeyLeases newState) (delete leaseID (es_Leases newState)) in
  let newState := if keyDeleted : bool then with_Revision newState (es_Revision newState + 1) else newState in
  (newState, answered (mkEtcdResponse LeaseRevokeBody "" (es_Revision newState))).

Definition stepDefragment (s : EtcdState) : EtcdState * MaybeEtcdResponse :=
  (s, answered (mkEtcdResponse DefragmentBody "" RevisionForNonLinearizableResponse)).

Definition stepCompact (s : EtcdState) (revision : Z) : EtcdState * MaybeEtcdResponse :=
  if revision <=? es_CompactRevision s then (s, answered (mkEtcdResponse NoBody mvcc_ErrCompacted 0))
  else if es_Revision s <? revision then (s, answered (mkEtcdResponse NoBody mvcc_ErrFutureRev 0))
  else (mkEtcdState (es_Revision s) revision (es_KeyValues s) (es_KeyLeases s) (es_Leases s),
        answered (mkEtcdResponse CompactBody "" RevisionForNonLinearizableResponse)).

Definition Step (s : EtcdState) (request : EtcdRequest) : res (EtcdState * MaybeEtcdResponse) :=
  match request with
  | RangeRequest options revision => stepRange s options revision
  | Txn request => stepTxn s request
  | LeaseGrant leaseID => Ok (stepLeaseGrant s leaseID)
  | LeaseRevoke leaseID => Ok (stepLeaseRevoke s leaseID)
  | Defragment => Ok (stepDefragment s)
  | CompactRequest revision => Ok (stepCompact s revision)
  end.

(** The step of the deterministic model. *)
Definition EtcdState_apply `{!EtcdMatch} (s : EtcdState) (request : EtcdRequest) (response : EtcdResponse)
    : res (bool * EtcdState) :=
  let? '(newState, modelResponse) := Step s request in
  Ok (Match (answered response) modelResponse, newState).
End Model.
