(* ===== verification/EtcdModelSpec.v ===== *)
(** What the model of deterministic.go keeps: its states are well formed,
    every request with limits that are not negative has an answer, and the
    revision tells apart states with different key-values. *)
From stdpp Require Import base strings list gmap sorting.
From Stdlib Require Import Strings.Byte ZArith Lia.
From S2P Require Import Prelude EtcdModel.

Section ModelSpec.
Context `{ET : EtcdTypes}.

(** * Well-formed states *)

(** Leases and keys: a key with a lease has a value, a lease is under its id,
    and the keys of a lease are attached to it. *)
Record leases_ok (kv : gmap bytes ValueRevision) (kl : gmap bytes Z) (ls : gmap Z EtcdLease) : Prop := mkLeasesOk {
  lo_valued k l : kl !! k = Some l -> is_Some (kv !! k);
  lo_id l L : ls !! l = Some L -> el_LeaseID L = l /\ l <> 0;
  lo_keys l L k : ls !! l = Some L -> k ∈ el_Keys L -> kl !! k = Some l
}.

(** Revisions of values are between 2 and a bound, and versions are not
    tracked. *)
Definition values_ok (bound : Z) (kv : gmap bytes ValueRevision) : Prop :=
  map_Forall (fun _ v => 1 < vr_ModRevision v <= bound /\ vr_Version v = 0) kv.

Record state_ok (bound : Z) (s : EtcdState) : Prop := mkStateOk {
  so_rev : 1 <= es_Revision s;
  so_compact : es_CompactRevision s <= es_Revision s;
  so_values : values_ok bound (es_KeyValues s);
  so_leases : leases_ok (es_KeyValues s) (es_KeyLeases s) (es_Leases s)
}.

Definition well_formed (s : EtcdState) : Prop := state_ok (es_Revision s) s.

Lemma fresh_well_formed : well_formed freshEtcdState.
Proof.
  split; [done|done|apply map_Forall_empty|].
  split; intros *; cbn; by rewrite ?lookup_empty.
Qed.

Lemma values_ok_le b b2 kv : b <= b2 -> values_ok b kv -> values_ok b2 kv.
Proof. intros Hb Hv k v Hk. destruct (Hv k v Hk). split; [lia|done]. Qed.

Lemma values_ok_insert b k v kv :
  1 < vr_ModRevision v <= b -> vr_Version v = 0 -> values_ok b kv -> values_ok b (<[k := v]> kv).
Proof. intros Hv Hver Hkv. by apply map_Forall_insert_2. Qed.

Lemma values_ok_delete b k kv : values_ok b kv -> values_ok b (delete k kv).
Proof. intros Hkv. by apply map_Forall_delete. Qed.

(** ** Leases *)

(** The leases after a key was detached. *)
Lemma detach_lookup s key l :
  es_Leases (detachFromOldLease s key) !! l =
  (fun L => if decide (es_KeyLeases s !! key = Some l) then mkEtcdLease (el_LeaseID L) (el_Keys L ∖ {[key]}) else L)
    <$> es_Leases s !! l.
Proof.
  unfold detachFromOldLease. destruct (es_KeyLeases s !! key) as [old|] eqn:E; cbn.
  - destruct (decide (old = l)) as [->|Hne].
    + rewrite lookup_alter_eq. destruct (es_Leases s !! l); cbn; [by rewrite decide_True|done].
    + rewrite lookup_alter_ne by done. destruct (es_Leases s !! l); cbn; [by rewrite decide_False by congruence|done].
  - destruct (es_Leases s !! l); cbn; [by rewrite decide_False|done].
Qed.

Lemma detach_same s key :
  es_KeyValues (detachFromOldLease s key) = es_KeyValues s /\
  es_Revision (detachFromOldLease s key) = es_Revision s /\
  es_CompactRevision (detachFromOldLease s key) = es_CompactRevision s /\
  es_KeyLeases (detachFromOldLease s key) = delete key (es_KeyLeases s).
Proof.
  unfold detachFromOldLease. destruct (es_KeyLeases s !! key) eqn:E; cbn; split_and!; try done.
  by rewrite delete_id.
Qed.

(** A key that is detached is in no lease. *)
Lemma detach_leases s key kv :
  (forall k, k <> key -> is_Some (es_KeyValues s !! k) -> is_Some (kv !! k)) ->
  leases_ok (es_KeyValues s) (es_KeyLeases s) (es_Leases s) ->
  leases_ok kv (es_KeyLeases (detachFromOldLease s key)) (es_Leases (detachFromOldLease s key)) /\
  (forall l L, es_Leases (detachFromOldLease s key) !! l = Some L -> key ∉ el_Keys L).
Proof.
  intros Hkv [Hv Hid Hk]. destruct (detach_same s key) as (_ & _ & _ & ->). split.
  - split.
    + intros k l [Hne Hl]%lookup_delete_Some. eauto.
    + intros l L. rewrite detach_lookup. intros (L0 & HL & ->)%fmap_Some. apply Hid in HL. by case_decide.
    + intros l L k. rewrite detach_lookup. intros (L0 & HL & ->)%fmap_Some Hin.
      assert (Hin0 : k ∈ el_Keys L0) by (case_decide; set_solver). pose proof (Hk l L0 k HL Hin0) as Hl.
      rewrite lookup_delete_ne; [done|]. intros <-. rewrite decide_True in Hin by done. set_solver.
  - intros l L. rewrite detach_lookup. intros (L0 & HL & ->)%fmap_Some Hin.
    assert (Hin0 : key ∈ el_Keys L0) by (case_decide; set_solver). pose proof (Hk l L0 key HL Hin0) as Hl.
    rewrite decide_True in Hin by done. set_solver.
Qed.

Lemma attach_leases kv kl ls key l L :
  leases_ok kv kl ls -> (forall l2 L2, ls !! l2 = Some L2 -> key ∉ el_Keys L2) -> is_Some (kv !! key) ->
  ls !! l = Some L ->
  leases_ok kv (<[key := l]> kl) (<[l := mkEtcdLease (el_LeaseID L) (el_Keys L ∪ {[key]})]> ls).
Proof.
  intros [Hv Hid Hk] Hfree Hkey HL. split.
  - intros k l2. rewrite lookup_insert_Some. intros [[<- <-]|[_ Hl]]; eauto.
  - intros l2 L2. rewrite lookup_insert_Some. intros [[<- <-]|[_ Hl]]; [exact (Hid l L HL)|by apply Hid].
  - intros l2 L2 k. rewrite lookup_insert_Some. intros [[<- <-]|[Hne Hl]] Hin; cbn in *.
    + destruct (decide (k = key)) as [->|Hk2]; [by rewrite lookup_insert_eq|].
      rewrite lookup_insert_ne by done. apply (Hk l L); [done|set_solver].
    + rewrite lookup_insert_ne; [by eapply Hk|]. intros <-. by apply (Hfree l2 L2).
Qed.

(** * Requests that have an answer *)

Definition range_ok (o : RangeOptions) : Prop := 0 <= ro_Limit o.

Definition operation_ok (op : EtcdOperation) : Prop :=
  match op with RangeOperation o => range_ok o | _ => True end.

Definition request_ok (r : EtcdRequest) : Prop :=
  match r with
  | RangeRequest o _ => range_ok o
  | Txn t => Forall operation_ok (tx_OperationsOnSuccess t) /\ Forall operation_ok (tx_OperationsOnFailure t)
  | _ => True
  end.

Lemma getRange_total s o : range_ok o -> exists r, getRange s o = Ok r.
Proof.
  intros Ho. unfold getRange. destruct (negb (bool_decide (ro_End o = []))).
  - destruct (_ && _); [|eauto]. rewrite (proj2 (Z.ltb_ge _ _)) by done. eauto.
  - destruct (es_KeyValues s !! ro_Start o); eauto.
Qed.

(** What an operation may do to a state: nothing, or a change that counts. *)
Definition op_effect (s s2 : EtcdState) (increase : bool) : Prop :=
  es_Revision s2 = es_Revision s /\ es_CompactRevision s2 = es_CompactRevision s /\
  (increase = false -> s2 = s).

Lemma stepOperation_ok s op :
  state_ok (es_Revision s + 1) s -> operation_ok op ->
  exists s2 r i, stepOperation s op = Ok (s2, r, i) /\ state_ok (es_Revision s2 + 1) s2 /\ op_effect s s2 i.
Proof.
  intros Hs Hop. destruct op as [o|[key value id]|key]; cbn [stepOperation].
  - destruct (getRange_total s o Hop) as [r ->]. cbn. by eexists _, _, _.
  - cbn [po_LeaseID po_Key po_Value].
    destruct (negb (id =? 0) && negb _); [by eexists _, _, _|].
    set (s1 := with_KeyValues s _). destruct (detach_same s1 key) as (Ekv & Er & Ec & Ekl).
    pose proof Hs as [Hrev Hcomp Hvals Hleases].
    assert (Hvals1 : values_ok (es_Revision s + 1) (es_KeyValues s1)).
    { apply values_ok_insert; cbn; [lia|done|done]. }
    destruct (detach_leases s key (es_KeyValues s1)) as [Hl Hfree]; [|done|].
    { intros k Hne Hk. cbn. by rewrite lookup_insert_ne. }
    assert (Hd : es_KeyLeases (detachFromOldLease s key) = es_KeyLeases (detachFromOldLease s1 key) /\
                 es_Leases (detachFromOldLease s key) = es_Leases (detachFromOldLease s1 key)).
    { unfold detachFromOldLease. cbn. by destruct (es_KeyLeases s !! key). }
    destruct Hd as [Hd1 Hd2]. rewrite Hd1, Hd2 in Hl. rewrite Hd2 in Hfree.
    destruct (bool_decide (is_Some (es_Leases s !! id))) eqn:Eb.
    + apply bool_decide_eq_true in Eb as [L HL].
      assert (exists L2, es_Leases (detachFromOldLease s1 key) !! id = Some L2) as [L2 HL2].
      { rewrite detach_lookup. cbn. rewrite HL. eauto. }
      unfold attachToNewLease. rewrite HL2. cbn [rbind]. eexists _, _, _. split; [done|]. split.
      * split; cbn [with_leases es_Revision es_CompactRevision es_KeyValues es_KeyLeases es_Leases];
          rewrite ?Er, ?Ec, ?Ekv; [done..|].
        apply attach_leases; [done|done| |done]. cbn. by rewrite lookup_insert_eq.
      * split_and!; cbn; [by rewrite Er|by rewrite Ec|done].
    + cbn [rbind]. eexists _, _, _. split; [done|]. split.
      * split; rewrite ?Er, ?Ec, ?Ekv; done.
      * split_and!; [by rewrite Er|by rewrite Ec|done].
  - destruct (es_KeyValues s !! key) eqn:Ek; [|by eexists _, _, _].
    set (s1 := with_KeyValues s _). destruct (detach_same s1 key) as (Ekv & Er & Ec & Ekl).
    pose proof Hs as [Hrev Hcomp Hvals Hleases].
    destruct (detach_leases s key (es_KeyValues s1)) as [Hl _]; [|done|].
    { intros k Hne Hk. cbn. by rewrite lookup_delete_ne. }
    eexists _, _, _. split; [done|]. split.
    + split; rewrite ?Er, ?Ec, ?Ekv; [done|done|by apply values_ok_delete|].
      unfold detachFromOldLease in *. cbn in *. by destruct (es_KeyLeases s !! key).
    + split_and!; [by rewrite Er|by rewrite Ec|done].
Qed.

Lemma stepOperations_ok ops : forall s inc,
  state_ok (es_Revision s + 1) s -> Forall operation_ok ops ->
  exists s2 rs i, stepOperations s ops inc = Ok (s2, rs, i) /\ state_ok (es_Revision s2 + 1) s2 /\
    length rs = length ops /\ op_effect s s2 i /\ (inc = true -> i = true).
Proof.
  induction ops as [|op ops IH]; intros s inc Hs Hops; cbn [stepOperations].
  - eexists _, _, _. split; [done|]. by split_and!.
  - apply Forall_cons in Hops as [Hop Hops].
    destruct (stepOperation_ok s op Hs Hop) as (s1 & r & i & -> & Hs1 & He1 & He2 & He3). cbn [rbind].
    destruct (IH s1 (inc || i) Hs1 Hops) as (s2 & rs & i2 & -> & Hs2 & Hlen & (Hf1 & Hf2 & Hf3) & Hi). cbn [rbind].
    eexists _, _, _. split; [done|]. split; [done|]. split; [cbn; by rewrite Hlen|]. split.
    + split_and!; [congruence..|]. intros ->. rewrite Hf3 by done. apply He3.
      destruct i; [|done]. by rewrite orb_true_r in Hi; specialize (Hi eq_refl).
    + intros ->. by apply Hi.
Qed.

(** * Steps *)

(** What a request may do: the revision stays, with the key-values, or grows
    by one; the compaction revision does not go back. *)
Definition step_effect (s s2 : EtcdState) : Prop :=
  (es_Revision s2 = es_Revision s /\ es_KeyValues s2 = es_KeyValues s \/ es_Revision s2 = es_Revision s + 1) /\
  es_CompactRevision s <= es_CompactRevision s2.

Lemma step_effect_refl s : step_effect s s.
Proof. split; [by left|lia]. Qed.

Lemma stepTxn_ok s t :
  well_formed s -> request_ok (Txn t) ->
  exists s2 failure rs, stepTxn s t =
    Ok (s2, answered (mkEtcdResponse (TxnBody (mkTxnResponse failure rs)) "" (es_Revision s2))) /\
    well_formed s2 /\ step_effect s s2.
Proof.
  intros Hs [H1 H2]. unfold stepTxn. set (ops := if conditions_fail _ _ then _ else _).
  assert (Hops : Forall operation_ok ops) by (unfold ops; by destruct (conditions_fail _ _)).
  destruct (stepOperations_ok ops s false) as (s2 & rs & i & -> & [Hr Hc Hv Hl] & _ & (He1 & He2 & He3) & _);
    [|done|].
  { destruct Hs. split; try done. eapply values_ok_le; [|done]. lia. }
  cbn [rbind]. eexists _, _, _. split; [done|]. destruct i; cbn.
  - split; [split; cbn; try done; lia|]. split; cbn; [right; lia|lia].
  - rewrite He3 by done. split; [done|apply step_effect_refl].
Qed.

(** Revoked keys are gone; the rest is as it was. *)
Lemma revoke_keys keys : forall s d,
  let s2 := (fold_left revoke_key keys (s, d)).1 in
  es_Revision s2 = es_Revision s /\ es_CompactRevision s2 = es_CompactRevision s /\ es_Leases s2 = es_Leases s /\
  (forall k, es_KeyValues s2 !! k = if decide (k ∈ keys) then None else es_KeyValues s !! k) /\
  (forall k, es_KeyLeases s2 !! k =
     if decide (k ∈ keys /\ is_Some (es_KeyValues s !! k)) then None else es_KeyLeases s !! k) /\
  ((fold_left revoke_key keys (s, d)).2 = false -> d = false /\ s2 = s).
Proof.
  induction keys as [|key keys IH]; intros s d; cbn zeta; cbn [fold_left].
  - split_and!; try done; intros k; rewrite decide_False; try done; set_solver.
  - destruct (es_KeyValues s !! key) as [v|] eqn:Ek.
    + set (s1 := with_leases (with_KeyValues s (delete key (es_KeyValues s))) (delete key (es_KeyLeases s)) (es_Leases s)).
      assert (revoke_key (s, d) key = (s1, true)) as -> by (unfold revoke_key; by rewrite Ek).
      destruct (IH s1 true) as (H1 & H2 & H3 & H4 & H5 & H6).
      split_and!; try done.
      * intros k. rewrite H4. cbn. destruct (decide (k = key)) as [->|Hne].
        -- rewrite lookup_delete_eq. by repeat case_decide; set_solver.
        -- rewrite lookup_delete_ne by done. repeat case_decide; set_solver.
      * intros k. rewrite H5. cbn. destruct (decide (k = key)) as [->|Hne].
        -- rewrite !lookup_delete_eq, Ek. rewrite (decide_True (P := key ∈ key :: keys /\ _)); [by case_decide|].
           split; [left|done].
        -- rewrite !lookup_delete_ne by done. repeat case_decide; set_solver.
      * intros Hf. by destruct (H6 Hf).
    + assert (revoke_key (s, d) key = (s, d)) as -> by (unfold revoke_key; by rewrite Ek).
      destruct (IH s d) as (H1 & H2 & H3 & H4 & H5 & H6). split_and!; try done.
      * intros k. rewrite H4. destruct (decide (k = key)) as [->|Hne]; repeat case_decide; set_solver.
      * intros k. rewrite H5. destruct (decide (k = key)) as [->|Hne]; [|repeat case_decide; set_solver].
        rewrite Ek. rewrite !decide_False; [done|by intros [_ [? ?]]..].
Qed.

Lemma stepLeaseRevoke_ok s id :
  well_formed s -> well_formed (stepLeaseRevoke s id).1 /\ step_effect s (stepLeaseRevoke s id).1.
Proof.
  intros [Hr Hc Hv [Lv Lid Lk]]. unfold stepLeaseRevoke. set (keys := match _ with Some l => _ | None => [] end).
  pose proof (revoke_keys keys s false) as Hrev. cbn zeta in Hrev.
  destruct (fold_left revoke_key keys (s, false)) as [s2 d]. cbn [fst snd] in Hrev.
  destruct Hrev as (E1 & E2 & E3 & E4 & E5 & E6).
  assert (Hvals : forall b, es_Revision s <= b -> values_ok b (es_KeyValues s2)).
  { intros b Hb k v Hk. rewrite E4 in Hk. case_decide; [done|]. destruct (Hv k v Hk). split; [lia|done]. }
  assert (Hleases : leases_ok (es_KeyValues s2) (es_KeyLeases s2) (delete id (es_Leases s2))).
  { split.
    - intros k l. rewrite E5, E4. case_decide as Hd; [done|]. intros Hl. pose proof (Lv k l Hl) as Hs.
      rewrite decide_False; [done|]. by intros Hin; apply Hd.
    - intros l L. rewrite E3. intros [_ HL]%lookup_delete_Some. by apply Lid.
    - intros l L k. rewrite E3. intros [Hne HL]%lookup_delete_Some Hin. rewrite E5.
      pose proof (Lk l L k HL Hin) as Hkl. rewrite decide_False; [done|]. intros [Hk _]. unfold keys in Hk.
      destruct (es_Leases s !! id) as [L0|] eqn:E0; [|by apply not_elem_of_nil in Hk].
      apply elem_of_elements in Hk. pose proof (Lk id L0 k E0 Hk). congruence. }
  destruct d; cbn.
  - split; [split; cbn; try done; [lia|lia|apply Hvals; lia]|]. split; cbn; [right; lia|lia].
  - split; [split; cbn; rewrite ?E1, ?E2; try done; apply Hvals; lia|].
    destruct (E6 eq_refl) as [_ ->]. split; cbn; [by left|lia].
Qed.

(** A request that leaves the state. *)
Ltac stay := eexists _, _; split; [reflexivity|]; split; [done|apply step_effect_refl].

Lemma Step_ok s request :
  well_formed s -> request_ok request ->
  exists s2 response, Step s request = Ok (s2, response) /\ well_formed s2 /\ step_effect s s2.
Proof.
  intros Hs Hreq. destruct request as [o r|t|id|id| |r]; cbn [Step].
  - unfold stepRange. destruct (_ || _).
    { destruct (getRange_total s o Hreq) as [resp ->]. cbn. stay. }
    destruct (_ <? _); [|destruct (_ <? _)]; stay.
  - destruct (stepTxn_ok s t Hs Hreq) as (s2 & failure & rs & -> & ?). by eexists _, _.
  - unfold stepLeaseGrant. destruct (Z.eqb_spec id 0) as [|Hid]; [stay|].
    eexists _, _. split; [done|]. split; [|by split; [left|cbn; lia]].
    destruct Hs as [Hr Hc Hv [Lv Lid Lk]]. split; cbn; try done. split; [done|..].
    + intros l L. rewrite lookup_insert_Some. intros [[<- <-]|[_ HL]]; [done|by apply Lid].
    + intros l L k. rewrite lookup_insert_Some. intros [[<- <-]|[_ HL]]; [set_solver|by apply Lk].
  - destruct (stepLeaseRevoke_ok s id Hs) as [? ?]. destruct (stepLeaseRevoke s id) as [s2 resp]. by eexists _, _.
  - stay.
  - unfold stepCompact. destruct (Z.leb_spec r (es_CompactRevision s)); [stay|].
    destruct (Z.ltb_spec (es_Revision s) r); [stay|].
    eexists _, _. split; [done|]. split; [|split; cbn; [by left|lia]]. destruct Hs. by split; cbn.
Qed.
(** C35: the model is type safe: from a well-formed state every request whose
    limits are not negative is answered without a panic and leaves a
    well-formed state (keys and leases point at each other, every value has a
    revision up to the current one); the revision grows by at most one, and
    the key-values do not change unless it grows. *)
Theorem Step_well_formed s request :
  well_formed s -> request_ok request ->
  exists s2 response, Step s request = Ok (s2, response) /\ well_formed s2 /\ step_effect s s2.
Proof. apply Step_ok. Qed.
End ModelSpec.

(** * Runs *)

(** Values as they are, and some messages. *)
Lemma sample_message : "future"%string <> ""%string.
Proof. done. Qed.

#[global] Instance sample_etcd : EtcdTypes := {|
  ValueOrHash := bytes;
  noValue := [];
  ToValueOrHash := id;
  ErrEtcdFutureRev := "future";
  mvcc_ErrCompacted := "compacted";
  mvcc_ErrFutureRev := "future";
  RevisionForNonLinearizableResponse := -1;
  ErrEtcdFutureRev_message := sample_message
|}.

Lemma reached_well_formed `{ET : EtcdTypes} s request s2 response :
  well_formed s -> request_ok request -> Step s request = Ok (s2, response) -> well_formed s2.
Proof. intros Hs Hr Hstep. destruct (Step_ok s request Hs Hr) as (s3 & r3 & H3 & Hwf & _). congruence. Qed.

(** Lease 7 with the key [/a]. *)
Definition leased_state : EtcdState :=
  mkEtcdState 2 (-1) {[str "/a" := mkValueRevision (str "one") 2 0]} {[str "/a" := 7]}
    {[7 := mkEtcdLease 7 {[str "/a"]}]}.

Definition put_leased (key value : bytes) (id : Z) : EtcdRequest :=
  Txn (mkTxnRequest [] [PutOperation (mkPutOptions key value id)] []).

Lemma leased_well_formed : well_formed leased_state.
Proof.
  destruct (Step_ok freshEtcdState (LeaseGrant 7)) as (s1 & r1 & H1 & Hs1 & _);
    [apply fresh_well_formed|done|].
  apply (reached_well_formed s1 (put_leased (str "/a") (str "one") 7) _
    (answered (mkEtcdResponse (TxnBody (mkTxnResponse false [zeroOperationResult])) "" 2))); [done| |].
  - split; cbn; [|constructor]. apply Forall_singleton. exact I.
  - injection H1 as <- _. vm_compute. reflexivity.
Qed.

(** The key moves from lease 7 to none, and is read. *)
Definition unlease_request : EtcdRequest :=
  Txn (mkTxnRequest [mkEtcdCondition (str "/a") 2 0]
         [PutOperation (mkPutOptions (str "/a") (str "two") 0); RangeOperation (mkRangeOptions (str "/") (str "0") 1)] []).

Lemma Step_well_formed_witness :
  exists s2 response, Step leased_state unlease_request = Ok (s2, response) /\ well_formed s2 /\ step_effect leased_state s2.
Proof.
  apply (Step_well_formed leased_state unlease_request).
  - exact leased_well_formed.
  - split; cbn; [|constructor]. repeat apply Forall_cons_2; cbn; [exact I|unfold range_ok; cbn; lia|constructor].
Defined.
