(* ===== verification/NonDeterministic.v ===== *)
(** test/robustness/model/non_deterministic.go: the model with which the tests
    check linearizability.  A client does not know what became of a request
    whose answer it did not get, so the model keeps all states that are
    possible; and this file shows that it keeps exactly these. *)
From stdpp Require Import base strings list gmap sorting.
From Stdlib Require Import Strings.Byte ZArith Lia.
From S2P Require Import Prelude EtcdModel EtcdModelSpec.

Section NonDet.
Context `{ET : EtcdTypes, EM : !EtcdMatch}.

Abbreviation nonDeterministicState := (list EtcdState).

(** [Equal]: the same states in any order.  The first unmatched state of
    [other] that is equal is marked. *)
Fixpoint mark_match (s : EtcdState) (other : nonDeterministicState) (matched : list bool) : option (list bool) :=
  match other, matched with
  | o :: other, m :: matched =>
      if negb m && EtcdState_Equal s o then Some (true :: matched)
      else (cons m) <$> mark_match s other matched
  | _, _ => None
  end.

Fixpoint match_all (states other : nonDeterministicState) (matched : list bool) : bool :=
  match states with
  | [] => true
  | s :: states =>
      match mark_match s other matched with
      | Some matched => match_all states other matched
      | None => false
      end
  end.

Definition nonDeterministicState_Equal (states other : nonDeterministicState) : bool :=
  if negb (length states =? length other)%nat then false
  else match_all states other (replicate (length other) false).

Fixpoint applyFailedRequest (states : nonDeterministicState) (request : EtcdRequest) : res nonDeterministicState :=
  match states with
  | [] => Ok []
  | s :: states =>
      let? '(newState, _) := Step s request in
      let? rest := applyFailedRequest states request in
      Ok (if negb (bool_decide (newState = s)) then s :: newState :: rest else s :: rest)
  end.

Fixpoint applyPersistedRequest (states : nonDeterministicState) (request : EtcdRequest) : res nonDeterministicState :=
  match states with
  | [] => Ok []
  | s :: states =>
      let? '(newState, _) := Step s request in
      let? rest := applyPersistedRequest states request in
      Ok (newState :: rest)
  end.

Fixpoint applyPersistedRequestWithRevision (states : nonDeterministicState) (request : EtcdRequest)
    (responseRevision : Z) : res nonDeterministicState :=
  match states with
  | [] => Ok []
  | s :: states =>
      let? '(newState, modelResponse) := Step s request in
      let? rest := applyPersistedRequestWithRevision states request responseRevision in
      Ok (if er_Revision (mr_EtcdResponse modelResponse) =? responseRevision then newState :: rest else rest)
  end.

(** A mismatch is printed and the state dropped. *)
Fixpoint applyRequestWithResponse (states : nonDeterministicState) (request : EtcdRequest)
    (response : EtcdResponse) : res nonDeterministicState :=
  match states with
  | [] => Ok []
  | s :: states =>
      let? '(newState, modelResponse) := Step s request in
      let? rest := applyRequestWithResponse states request response in
      Ok (if Match modelResponse (answered response) then newState :: rest else rest)
  end.

Definition nonDeterministicState_apply (states : nonDeterministicState) (request : EtcdRequest)
    (response : MaybeEtcdResponse) : res (bool * nonDeterministicState) :=
  let? newStates :=
    if negb (bool_decide (mr_Error response = ""%string)) then applyFailedRequest states request
    else if mr_Persisted response && (mr_PersistedRevision response =? 0) then applyPersistedRequest states request
    else if mr_Persisted response && negb (mr_PersistedRevision response =? 0)
    then applyPersistedRequestWithRevision states request (mr_PersistedRevision response)
    else applyRequestWithResponse states request (mr_EtcdResponse response) in
  Ok ((0 <? length newStates)%nat, newStates).

(** Porcupine's search calls the model along a candidate order of the
    operations, from its initial state, as long as the steps are legal. *)
Fixpoint nonDeterministic_run (states : nonDeterministicState) (ops : list (EtcdRequest * MaybeEtcdResponse))
    : res (bool * nonDeterministicState) :=
  match ops with
  | [] => Ok (true, states)
  | (request, response) :: ops =>
      let? '(legal, newStates) := nonDeterministicState_apply states request response in
      if legal : bool then nonDeterministic_run newStates ops else Ok (false, newStates)
  end.

(** * Equality of possible states *)

Lemma EtcdState_Equal_eq s other : EtcdState_Equal s other = true <-> s = other.
Proof.
  unfold EtcdState_Equal. destruct s as [r c kv kl ls], other as [r2 c2 kv2 kl2 ls2]. cbn. split.
  - destruct (Z.eqb_spec r r2) as [->|]; cbn [negb]; [|done].
    destruct (Z.eqb_spec c c2) as [->|]; cbn [negb]; [|done].
    repeat case_bool_decide; cbn [negb]; try done. by subst.
  - intros [= -> -> -> -> ->]. rewrite !Z.eqb_refl. cbn. by rewrite !bool_decide_eq_true_2.
Qed.

Fixpoint unmatched (other : nonDeterministicState) (matched : list bool) : nonDeterministicState :=
  match other, matched with
  | o :: other, m :: matched => if m then unmatched other matched else o :: unmatched other matched
  | _, _ => []
  end.

Lemma mark_match_spec s other : forall matched,
  match mark_match s other matched with
  | Some m2 => unmatched other matched ≡ₚ s :: unmatched other m2
  | None => s ∉ unmatched other matched
  end.
Proof.
  induction other as [|o other IH]; intros [|m matched]; cbn; try apply not_elem_of_nil.
  destruct (negb m && EtcdState_Equal s o) eqn:Em.
  - apply andb_true_iff in Em as [Hm ->%EtcdState_Equal_eq]. by destruct m.
  - specialize (IH matched). destruct (mark_match s other matched) as [m2|]; cbn; destruct m; cbn in *; try done.
    + rewrite IH. constructor.
    + rewrite not_elem_of_cons. split; [|done]. intros ->.
      by rewrite (proj2 (EtcdState_Equal_eq o o)) in Em.
Qed.

Lemma match_all_spec states : forall other matched,
  match_all states other matched = true <-> states ⊆+ unmatched other matched.
Proof.
  induction states as [|s states IH]; intros other matched; cbn [match_all].
  - split; [intros _; apply submseteq_nil_l|done].
  - pose proof (mark_match_spec s other matched) as Hm. destruct (mark_match s other matched) as [m2|].
    + rewrite IH, Hm. split; [apply submseteq_skip|]. intros H.
      apply (submseteq_app_inv_l states (unmatched other m2) [s]). exact H.
    + split; [done|]. intros H. exfalso. apply Hm. eapply elem_of_submseteq; [|exact H]. left.
Qed.

(** Two possible states are equal when they are the same up to the order. *)
Lemma nonDeterministicState_Equal_spec states other :
  nonDeterministicState_Equal states other = true <-> states ≡ₚ other.
Proof.
  unfold nonDeterministicState_Equal.
  assert (Hall : unmatched other (replicate (length other) false) = other).
  { induction other as [|o other IH]; [done|]. cbn. by rewrite IH. }
  destruct (Nat.eqb_spec (length states) (length other)) as [Hl|Hl]; cbn [negb].
  - rewrite match_all_spec, Hall. split; [intros H; by apply submseteq_length_Permutation; [|lia]|by intros ->].
  - split; [done|]. by intros H%Permutation_length.
Qed.

(** * The states that are possible *)

(** What a client can have observed of a request that took [s] to [s2]: an
    error tells nothing, the request was lost or carried out; a persisted
    request was carried out, with the revision if one is known; and an answer
    agrees with the model's. *)
Inductive observed (request : EtcdRequest) (response : MaybeEtcdResponse) (s : EtcdState) : EtcdState -> Prop :=
| observed_lost : mr_Error response <> ""%string -> observed request response s s
| observed_error s2 r : mr_Error response <> ""%string -> Step s request = Ok (s2, r) -> observed request response s s2
| observed_persisted s2 r :
    mr_Error response = ""%string -> mr_Persisted response = true -> mr_PersistedRevision response = 0 ->
    Step s request = Ok (s2, r) -> observed request response s s2
| observed_revision s2 r :
    mr_Error response = ""%string -> mr_Persisted response = true -> mr_PersistedRevision response <> 0 ->
    Step s request = Ok (s2, r) -> er_Revision (mr_EtcdResponse r) = mr_PersistedRevision response ->
    observed request response s s2
| observed_answer s2 r :
    mr_Error response = ""%string -> mr_Persisted response = false ->
    Step s request = Ok (s2, r) -> Match r (answered (mr_EtcdResponse response)) = true ->
    observed request response s s2.

(** An execution that explains what the clients saw. *)
Inductive explains : EtcdState -> list (EtcdRequest * MaybeEtcdResponse) -> EtcdState -> Prop :=
| explains_nil s : explains s [] s
| explains_cons s request response s1 ops s2 :
    observed request response s s1 -> explains s1 ops s2 -> explains s ((request, response) :: ops) s2.

(** ** One request *)

Section Loops.
Context (request : EtcdRequest) (Hreq : request_ok request).

(** The loops over the states: each gives every state its successors. *)
Lemma loop_ok (loop : nonDeterministicState -> res nonDeterministicState)
    (keep : EtcdState -> EtcdState -> MaybeEtcdResponse -> list EtcdState) (R : EtcdState -> EtcdState -> Prop) :
  loop [] = Ok [] ->
  (forall s l, loop (s :: l) =
     let? '(s2, r) := Step s request in let? rest := loop l in Ok (keep s s2 r ++ rest)) ->
  (forall s s2 r, well_formed s -> well_formed s2 -> Step s request = Ok (s2, r) ->
     Forall well_formed (keep s s2 r) /\ forall x, x ∈ keep s s2 r <-> R s x) ->
  forall l, Forall well_formed l -> exists l2, loop l = Ok l2 /\ Forall well_formed l2 /\
    forall x, x ∈ l2 <-> exists s, s ∈ l /\ R s x.
Proof.
  intros Hnil Hcons Hkeep. induction l as [|s l IH]; intros Hl.
  - exists []. split; [done|]. split; [done|]. set_solver.
  - apply Forall_cons in Hl as [Hs Hl]. destruct (IH Hl) as (rest & Hrest & Hwf & Hin).
    destruct (Step_ok s request Hs Hreq) as (s2 & r & Hstep & Hs2 & _).
    destruct (Hkeep s s2 r Hs Hs2 Hstep) as [Hk1 Hk2].
    exists (keep s s2 r ++ rest). rewrite Hcons, Hstep. cbn [rbind]. rewrite Hrest. split; [done|].
    split; [by apply Forall_app|]. intros x. rewrite elem_of_app, Hin, Hk2. set_solver.
Qed.
End Loops.

Lemma apply_exact states request response :
  Forall well_formed states -> request_ok request ->
  exists l, nonDeterministicState_apply states request response = Ok ((0 <? length l)%nat, l) /\
    Forall well_formed l /\ forall x, x ∈ l <-> exists s, s ∈ states /\ observed request response s x.
Proof.
  intros Hst Hreq. unfold nonDeterministicState_apply.
  destruct (bool_decide_reflect (mr_Error response = ""%string)) as [He|He]; cbn [negb].
  - destruct (mr_Persisted response) eqn:Hp; cbn [andb].
    + destruct (Z.eqb_spec (mr_PersistedRevision response) 0) as [Hz|Hz]; cbn [negb].
      * destruct (loop_ok request Hreq (fun l => applyPersistedRequest l request) (fun _ s2 _ => [s2])
          (observed request response)) with (l := states) as (l & -> & Hl & Hin); [done|done| |done|by exists l].
        intros s s2 r Hs Hs2 Hstep. split; [by constructor|]. intros x. rewrite list_elem_of_singleton. split.
        -- intros ->. by eapply observed_persisted.
        -- inversion 1; congruence.
      * destruct (loop_ok request Hreq
          (fun l => applyPersistedRequestWithRevision l request (mr_PersistedRevision response))
          (fun _ s2 r => if er_Revision (mr_EtcdResponse r) =? mr_PersistedRevision response then [s2] else [])
          (observed request response)) with (l := states) as (l & -> & Hl & Hin); [done| | |done|by exists l].
        { intros s l. cbn. destruct (Step s request) as [[s2 r]|e|]; cbn; [|done..].
          destruct (applyPersistedRequestWithRevision _ _ _); cbn; [|done..]. by destruct (_ =? _). }
        intros s s2 r Hs Hs2 Hstep. destruct (Z.eqb_spec (er_Revision (mr_EtcdResponse r)) (mr_PersistedRevision response)).
        -- split; [by constructor|]. intros x. rewrite list_elem_of_singleton. split.
           ++ intros ->. by eapply observed_revision.
           ++ inversion 1; congruence.
        -- split; [done|]. intros x. split; [by intros ?%not_elem_of_nil|]. inversion 1; congruence.
    + destruct (loop_ok request Hreq (fun l => applyRequestWithResponse l request (mr_EtcdResponse response))
          (fun _ s2 r => if Match r (answered (mr_EtcdResponse response)) then [s2] else [])
          (observed request response)) with (l := states) as (l & -> & Hl & Hin); [done| | |done|by exists l].
      { intros s l. cbn. destruct (Step s request) as [[s2 r]|e|]; cbn; [|done..].
        destruct (applyRequestWithResponse _ _ _); cbn; [|done..]. by destruct (Match _ _). }
      intros s s2 r Hs Hs2 Hstep. destruct (Match r _) eqn:Em.
      * split; [by constructor|]. intros x. rewrite list_elem_of_singleton. split.
        -- intros ->. by eapply observed_answer.
        -- inversion 1; congruence.
      * split; [done|]. intros x. split; [by intros ?%not_elem_of_nil|]. inversion 1; congruence.
  - destruct (loop_ok request Hreq (fun l => applyFailedRequest l request)
        (fun s s2 _ => if negb (bool_decide (s2 = s)) then [s; s2] else [s])
        (observed request response)) with (l := states) as (l & -> & Hl & Hin); [done| | |done|by exists l].
    { intros s l. cbn. destruct (Step s request) as [[s2 r]|e|]; cbn; [|done..].
      destruct (applyFailedRequest _ _); cbn; [|done..]. by destruct (negb _). }
    intros s s2 r Hs Hs2 Hstep. case_bool_decide as Heq; cbn [negb].
    + subst s2. split; [by constructor|]. intros x. rewrite list_elem_of_singleton. split.
      * intros ->. by apply observed_lost.
      * inversion 1; congruence.
    + split; [by rewrite !Forall_cons|]. intros x. rewrite elem_of_cons, list_elem_of_singleton. split.
      * intros [->| ->]; [by apply observed_lost|by eapply observed_error].
      * inversion 1; (by left) || (right; congruence).
Qed.

(** C36: the model of the linearizability check is exact: along any sequence of
    requests, it accepts the clients' observations if and only if there is an
    execution of the deterministic model that explains them, and the states it
    keeps are those in which such an execution can end. *)
Theorem nonDeterministic_exact ops :
  Forall (fun op => request_ok op.1) ops ->
  exists legal states, nonDeterministic_run [freshEtcdState] ops = Ok (legal, states) /\
    (legal = true <-> exists s, explains freshEtcdState ops s) /\
    (legal = true -> forall s, s ∈ states <-> explains freshEtcdState ops s).
Proof.
  intros Hops.
  enough (Hrun : forall l, Forall well_formed l -> l <> [] -> exists legal states,
    nonDeterministic_run l ops = Ok (legal, states) /\
    (legal = true <-> exists s x, s ∈ l /\ explains s ops x) /\
    (legal = true -> forall x, x ∈ states <-> exists s, s ∈ l /\ explains s ops x)).
  { destruct (Hrun [freshEtcdState]) as (legal & states & Hr & Hl & Hs);
      [apply Forall_singleton, fresh_well_formed|done|].
    exists legal, states. split; [done|]. split; [|intros Hlegal x; rewrite (Hs Hlegal x)]; set_solver. }
  induction Hops as [|[request response] ops Hreq Hops IH]; intros l Hl Hne.
  - exists true, l. split; [done|]. split; [|intros _ x].
    + split; [intros _|done]. destruct l as [|s l]; [done|]. exists s, s. split; [left|constructor].
    + split; [intros Hx; exists x; split; [done|constructor]|]. intros (s & Hs & He). by inversion He; subst.
  - cbn [nonDeterministic_run]. destruct (apply_exact l request response Hl Hreq) as (l2 & -> & Hl2 & Hin).
    assert (Hcons : forall s x, explains s ((request, response) :: ops) x <->
      exists s1, observed request response s s1 /\ explains s1 ops x).
    { intros s x. split; [inversion 1; subst; eauto|]. intros (s1 & ? & ?). by econstructor. }
    cbn [rbind]. destruct l2 as [|s2 l2]; cbn.
    + exists false, []. split; [done|]. split; [|done]. split; [done|].
      intros (s & x & Hs & (s1 & Hobs & _)%Hcons). exfalso. apply (not_elem_of_nil s1), Hin. eauto.
    + destruct (IH (s2 :: l2) Hl2 ltac:(done)) as (legal & states & Hr & Hlegal & Hstates).
      exists legal, states. split; [done|]. setoid_rewrite Hcons. setoid_rewrite Hin in Hlegal.
      split; [rewrite Hlegal; naive_solver|]. intros Ht x. rewrite (Hstates Ht x). setoid_rewrite Hin. naive_solver.
Qed.
End NonDet.

(** * Runs *)

#[global] Instance MaybeEtcdResponse_eq_dec `{ET : EtcdTypes} : EqDecision MaybeEtcdResponse.
Proof.
  assert (EqDecision EtcdOperationResult) by solve_decision.
  assert (EqDecision TxnResponse) by solve_decision.
  assert (EqDecision ResponseBody) by solve_decision.
  assert (EqDecision EtcdResponse) by solve_decision.
  solve_decision.
Defined.

(** Responses that agree when they are equal. *)
#[global] Instance sample_match : EtcdMatch (ET := sample_etcd) :=
  {| Match r r2 := bool_decide (r = r2); Match_refl r := bool_decide_eq_true_2 (r = r) eq_refl |}.

(** A create whose answer is lost, and a read that finds it carried out. *)
Definition sample_ops : list (EtcdRequest * MaybeEtcdResponse) :=
  [(put_leased (str "/a") (str "one") 0, failed "connection lost");
   (RangeRequest (mkRangeOptions (str "/a") [] 0) 0,
    answered (mkEtcdResponse (RangeBody (mkRangeResponse [mkEtcdKeyValue (str "/a") (mkValueRevision (str "one") 2 0)] 1)) "" 2))].

Lemma nonDeterministic_exact_witness :
  exists legal states, nonDeterministic_run [freshEtcdState] sample_ops = Ok (legal, states) /\
    (legal = true <-> exists s, explains freshEtcdState sample_ops s) /\
    (legal = true -> forall s, s ∈ states <-> explains freshEtcdState sample_ops s).
Proof.
  apply (nonDeterministic_exact sample_ops). repeat apply Forall_cons_2; [..|constructor].
  - split; cbn; [|constructor]. apply Forall_singleton. exact I.
  - unfold request_ok, range_ok. cbn. lia.
Defined.

(** The run is legal and one state is left. *)
Example sample_ops_legal :
  nonDeterministic_run [freshEtcdState] sample_ops =
  Ok (true, [mkEtcdState 2 (-1) {[str "/a" := mkValueRevision (str "one") 2 0]} ∅ ∅]).
Proof. vm_compute. reflexivity. Qed.
