(* ===== verification/Replay.v ===== *)
(** test/robustness/model/replay.go: the states and the events that a sequence
    of persisted requests leads through. *)
From stdpp Require Import base strings list gmap sorting.
From Stdlib Require Import Strings.Byte ZArith Lia.
From S2P Require Import Prelude EtcdModel.

Inductive OperationType := RangeType | PutType | DeleteType.
#[global] Instance OperationType_eq_dec : EqDecision OperationType.
Proof. solve_decision. Defined.

Section ReplayTypes.
Context `{ET : EtcdTypes}.

(** [model.Event] and [model.PersistedEvent]. *)
Record EtcdEvent := mkEtcdEvent {
  ee_Type : OperationType;
  ee_Key : bytes;
  ee_Value : ValueOrHash
}.

Record PersistedEvent := mkPersistedEvent {
  pe_Event : EtcdEvent;
  pe_Revision : Z;
  pe_IsCreate : bool
}.

Record WatchRequest := mkWatchRequest {
  wq_Key : bytes;
  wq_Revision : Z;
  wq_WithPrefix : bool;
  wq_WithProgressNotify : bool;
  wq_WithPrevKV : bool
}.

#[global] Instance EtcdEvent_eq_dec : EqDecision EtcdEvent.
Proof. solve_decision. Defined.
#[global] Instance PersistedEvent_eq_dec : EqDecision PersistedEvent.
Proof. solve_decision. Defined.

Record EtcdReplay := mkEtcdReplay {
  rp_revisionToEtcdState : list EtcdState;
  rp_Events : list PersistedEvent;
  rp_PersistedRequests : list EtcdRequest
}.
End ReplayTypes.

(** [Event.Match] of etcd's package: whether a watch asks for an event. *)
Class EtcdWatch `{ET : EtcdTypes} := {
  Event_Match : EtcdEvent -> WatchRequest -> bool
}.

Section Replay.
Context `{ET : EtcdTypes}.

(** The events of the operations of a transaction, [i] the number of the next
    one. *)
Fixpoint toWatchEvents_ops (prevState : EtcdState) (revision : Z) (results : list EtcdOperationResult)
    (i : nat) (ops : list EtcdOperation) : res (list PersistedEvent) :=
  match ops with
  | [] => Ok []
  | op :: ops =>
      let? events :=
        match op with
        | RangeOperation _ => Ok []
        | DeleteOperation key =>
            let e := mkPersistedEvent (mkEtcdEvent DeleteType key noValue) revision false in
            let? result := assert_some (results !! i) in
            Ok (if negb (or_Deleted result =? 0) then [e] else [])
        | PutOperation put =>
            let leaseExists := bool_decide (is_Some (es_Leases prevState !! po_LeaseID put)) in
            if negb (po_LeaseID put =? 0) && negb leaseExists then Ok []
            else Ok [mkPersistedEvent (mkEtcdEvent PutType (po_Key put) (po_Value put)) revision
                       (bool_decide (es_KeyValues prevState !! po_Key put = None))]
        end in
      let? rest := toWatchEvents_ops prevState revision results (S i) ops in
      Ok (events ++ rest)
  end.

(** A response to a transaction without an answer to it would be a nil
    pointer. *)
Definition toWatchEvents (prevState : EtcdState) (request : EtcdRequest) (response : MaybeEtcdResponse)
    : res (list PersistedEvent) :=
  if negb (bool_decide (mr_Error response = ""%string)) then Ok []
  else
    let revision := er_Revision (mr_EtcdResponse response) in
    match request with
    | Txn txn =>
        match er_Body (mr_EtcdResponse response) with
        | TxnBody answer =>
            let ops := if tr_Failure answer then tx_OperationsOnFailure txn else tx_OperationsOnSuccess txn in
            toWatchEvents_ops prevState revision (tr_Results answer) 0 ops
        | _ => Panic
        end
    | LeaseRevoke leaseID =>
        let keys := match es_Leases prevState !! leaseID with Some l => elements (el_Keys l) | None => [] end in
        let deletedKeys := merge_sort ble (filter (fun key => is_Some (es_KeyValues prevState !! key)) keys) in
        Ok ((fun key => mkPersistedEvent (mkEtcdEvent DeleteType key noValue) revision false) <$> deletedKeys)
    | _ => Ok []
    end.

(** The loop of [NewReplay]. *)
Fixpoint replay_requests (state : EtcdState) (requests : list EtcdRequest)
    : res (list EtcdState * list PersistedEvent) :=
  match requests with
  | [] => Ok ([], [])
  | request :: requests =>
      let? '(newState, response) := Step state request in
      let? events := toWatchEvents state request response in
      let? '(states, moreEvents) := replay_requests newState requests in
      Ok ((if negb (es_Revision state =? es_Revision newState) then newState :: states else states),
          events ++ moreEvents)
  end.

(** Indices 0 and 1 are padding, so that the index is the revision. *)
Definition NewReplay (persistedRequests : list EtcdRequest) : res EtcdReplay :=
  let? '(states, events) := replay_requests freshEtcdState persistedRequests in
  Ok (mkEtcdReplay (freshEtcdState :: freshEtcdState :: states) events persistedRequests).

(** A negative index panics. *)
Definition StateForRevision (r : EtcdReplay) (revision : Z) : res EtcdState :=
  if Z.of_nat (length (rp_revisionToEtcdState r)) <=? revision
  then Err (ErrMessage "requested revision, higher than observed in replay")
  else if revision <? 0 then Panic
  else assert_some (rp_revisionToEtcdState r !! Z.to_nat revision).

Definition EventsForWatch `{!EtcdWatch} (r : EtcdReplay) (watch : WatchRequest) : list PersistedEvent :=
  filter (fun e => (pe_Revision e <? wq_Revision watch) || negb (Event_Match (pe_Event e) watch) = false) (rp_Events r).
End Replay.
