(* ===== verification/RobustnessWal.v ===== *)
(** test/robustness/fdb/wal.go: the requests that the driver's write-ahead log
    stands for. *)
From stdpp Require Import base strings list gmap sorting.
From Stdlib Require Import Strings.Byte ZArith Lia.
From S2P Require Import Prelude FdbApi Util Subspaces Transact Wal EtcdModel.

Section RobustnessWal.
Context `{FB : FdbBindings, KV : KVStore, CF : Config, ET : EtcdTypes}.

Record WalDump := mkWalDump {
  wd_PrevRev : Z;
  wd_Rev : Z;
  wd_Key : bytes;
  wd_IsCreate : bool;
  wd_IsDelete : bool;
  wd_Req : EtcdRequest
}.

(** Reading one key. *)
Definition read_key (key : bytes) : EtcdOperation := RangeOperation (mkRangeOptions key [] 0).

Definition CreateRequest (key value : bytes) : EtcdRequest :=
  Txn (mkTxnRequest [mkEtcdCondition key 0 0] [PutOperation (mkPutOptions key (ToValueOrHash value) 0)] []).

Definition UpdateRequest (key value : bytes) (prevRevision : Z) : EtcdRequest :=
  Txn (mkTxnRequest [mkEtcdCondition key prevRevision 0]
         [PutOperation (mkPutOptions key (ToValueOrHash value) 0)] [read_key key]).

Definition DeleteRequest (key : bytes) (prevRev : Z) : EtcdRequest :=
  if negb (prevRev =? 0)
  then Txn (mkTxnRequest [mkEtcdCondition key prevRev 0] [DeleteOperation key] [read_key key])
  else Txn (mkTxnRequest [] [read_key key; DeleteOperation key] []).

Definition wal_request (walReq : RevRecord) : res (EtcdRequest * WalDump) :=
  let record := rr_Record walReq in
  let? req :=
    if IsCreate record then Ok (CreateRequest (Key record) (Value record))
    else if IsDelete record then
      let? prev := VersionstampToInt64 (PrevRevision record) in Ok (DeleteRequest (Key record) prev)
    else
      let? prev := VersionstampToInt64 (PrevRevision record) in Ok (UpdateRequest (Key record) (Value record) prev) in
  let? rev := VersionstampToInt64 (rr_Rev walReq) in
  let? prev := VersionstampToInt64 (PrevRevision record) in
  Ok (req, mkWalDump prev rev (Key record) (IsCreate record) (IsDelete record) req).

Fixpoint wal_requests (wal : list RevRecord) : res (list EtcdRequest * list WalDump) :=
  match wal with
  | [] => Ok ([], [])
  | walReq :: wal =>
      let? '(req, dump) := wal_request walReq in
      let? '(requests, walDumps) := wal_requests wal in
      Ok (req :: requests, dump :: walDumps)
  end.

(** The log is read with [ReadWAL]; an error is passed on. *)
Definition WALToEtcdRequests (f : FDB) (envs : list (TransactEnv BatchEnv)) (s : store)
    : option (res (list EtcdRequest * list WalDump)) * store :=
  match ReadWAL f envs s with
  | (Some (wal, Ok _), s) => (Some (wal_requests wal), s)
  | (Some (_, Err e), s) => (Some (Err e), s)
  | (Some (_, Panic), s) => (Some Panic, s)
  | (None, s) => (None, s)
  end.
End RobustnessWal.
