(* ===== verification/RobustnessSpec.v ===== *)
(** The driver and the model of the robustness tests agree, with sequential
    revisions as in the tests: replaying the driver's log gives the key space
    and the events of its history, and a write does to the model what it does
    to the database. *)
From stdpp Require Import base strings list gmap sorting.
From Stdlib Require Import Strings.Byte ZArith Lia.
From S2P Require Import Prelude FdbApi KeyOrder FdbInstance Util Subspaces SubspaceFacts Transact History Samples Write WriteSpec Read Scan ReadFacts ListValues ScanSpec ReadSpec RevScan Wal WalSpec CountSpec KeySpace Refine EtcdModel EtcdModelSpec Replay RobustnessWal.

(** Every record continues its key. *)
Definition linked (h : history) : Prop := forall h1 e h2, h = h1 ++ e :: h2 -> linked_entry h1 e.

Lemma linked_prefix h l : linked (h ++ l) -> linked h.
Proof. intros Hl h1 e h2 ->. apply (Hl h1 e (h2 ++ l)). by rewrite <-app_assoc. Qed.

Section StateOf.
Context `{FB : FdbBindings, CF : Config, ET : EtcdTypes}.

(** * The model's state of a history *)

Definition model_value (kv : KeyValue) : ValueRevision :=
  mkValueRevision (ToValueOrHash (kv_Value kv)) (kv_ModRevision kv) 0.

Definition model_state (h : history) : EtcdState :=
  mkEtcdState (1 + Z.of_nat (length h)) (-1) (model_value <$> sp_map (space_of h)) ∅ ∅.

Lemma model_lookup h key :
  es_KeyValues (model_state h) !! key = (fun e => model_value (entry_kv e)) <$> live (latest h key).
Proof. unfold model_state. cbn. rewrite lookup_fmap, space_lookup. by destruct (live (latest h key)). Qed.

Lemma entry_kv_value e : IsDelete e.2 = false -> kv_Value (entry_kv e) = Value e.2.
Proof. intros Hd. unfold entry_kv, event_of. cbn. by rewrite Hd, andb_false_r. Qed.

(** States without leases. *)
Definition lease_free (n : Z) (m : gmap bytes ValueRevision) : EtcdState := mkEtcdState n (-1) m ∅ ∅.

Lemma put_lease_free n m key v :
  stepOperation (lease_free n m) (PutOperation (mkPutOptions key v 0)) =
  Ok (lease_free n (<[key := mkValueRevision v (n + 1) 0]> m), zeroOperationResult, true).
Proof. done. Qed.

Definition deleted_answer (n : Z) : EtcdOperationResult := mkEtcdOperationResult (mkRangeResponse [] 0) n.

Lemma delete_lease_free n m key :
  stepOperation (lease_free n m) (DeleteOperation key) =
  if decide (is_Some (m !! key)) then Ok (lease_free n (delete key m), deleted_answer 1, true)
  else Ok (lease_free n m, deleted_answer 0, false).
Proof.
  cbn. destruct (m !! key) as [v|] eqn:Em; [rewrite decide_True by done|by rewrite decide_False by (by intros [? ?])].
  done.
Qed.

(** A transaction with one condition. *)
Lemma condition_lease_free n m key r :
  conditions_fail (lease_free n m) [mkEtcdCondition key r 0] =
  negb (match m !! key with Some v => vr_ModRevision v | None => 0 end =? r).
Proof.
  cbn. unfold condition_holds. cbn. destruct (m !! key) as [v|]; cbn; [by destruct (vr_ModRevision v =? r)|].
  by destruct (0 =? r).
Qed.

(** What the model answers to a transaction. *)
Definition txn_answer (failure : bool) (results : list EtcdOperationResult) (r : Z) : MaybeEtcdResponse :=
  answered (mkEtcdResponse (TxnBody (mkTxnResponse failure results)) "" r).

Lemma txn_lease_free failure i n m conds ops onFailure m2 results :
  conditions_fail (lease_free n m) conds = failure ->
  stepOperations (lease_free n m) (if failure then onFailure else ops) false = Ok (lease_free n m2, results, i) ->
  let n2 := if i then n + 1 else n in
  Step (lease_free n m) (Txn (mkTxnRequest conds ops onFailure)) = Ok (lease_free n2 m2, txn_answer failure results n2).
Proof. intros Hc Hops n2. cbn [Step]. unfold stepTxn. cbn. rewrite Hc, Hops. by destruct i. Qed.

Lemma model_state_free h : model_state h = lease_free (1 + Z.of_nat (length h)) (model_value <$> sp_map (space_of h)).
Proof. done. Qed.

(** * A record replayed *)

(** The request of a record, and the event that watches see. *)
Definition request_of (e : entry) : EtcdRequest :=
  if IsCreate e.2 then CreateRequest (Key e.2) (Value e.2)
  else if IsDelete e.2 then DeleteRequest (Key e.2) (link_rev (PrevRevision e.2))
  else UpdateRequest (Key e.2) (Value e.2) (link_rev (PrevRevision e.2)).

Definition dump_of (e : entry) : WalDump :=
  mkWalDump (link_rev (PrevRevision e.2)) e.1 (Key e.2) (IsCreate e.2) (IsDelete e.2) (request_of e).

Definition event_for (e : entry) : PersistedEvent :=
  mkPersistedEvent
    (if IsDelete e.2 then mkEtcdEvent DeleteType (Key e.2) noValue
     else mkEtcdEvent PutType (Key e.2) (ToValueOrHash (Value e.2))) e.1 (IsCreate e.2).

Lemma wal_request_spec e : entry_ok e -> wal_request (exported e) = Ok (request_of e, dump_of e).
Proof.
  intros He. pose proof (entry_ok_stamp e He) as [_ Hr]. destruct He as (_ & _ & _ & _ & _ & Hp).
  unfold wal_request, exported, dump_of, request_of.
  cbn [rr_Record rr_Rev byRevision_view Key Value IsCreate IsDelete PrevRevision].
  rewrite (link_rev_Ok _ Hp), (VersionstampToInt64_int64ToVersionstamp _ Hr). cbn [rbind].
  by destruct (IsCreate e.2), (IsDelete e.2).
Qed.

Lemma wal_requests_spec h :
  Forall entry_ok h -> wal_requests (exported <$> h) = Ok (request_of <$> h, dump_of <$> h).
Proof.
  induction 1 as [|e h He _ IH]; [done|]. rewrite !fmap_cons. cbn [wal_requests].
  by rewrite (wal_request_spec e He), IH.
Qed.

(** A put and a delete add their record. *)
Lemma model_put h e :
  IsDelete e.2 = false -> e.1 = 2 + Z.of_nat (length h) ->
  lease_free (1 + Z.of_nat (length h) + 1)
    (<[Key e.2 := mkValueRevision (ToValueOrHash (Value e.2)) (1 + Z.of_nat (length h) + 1) 0]>
       (model_value <$> sp_map (space_of h))) = model_state (h ++ [e]).
Proof.
  intros Hd He. rewrite model_state_free, space_of_app, length_app. cbn [space_add sp_map length]. rewrite Hd, fmap_insert.
  assert (model_value (entry_kv e) = mkValueRevision (ToValueOrHash (Value e.2)) e.1 0) as ->.
  { unfold model_value. by rewrite entry_kv_value. }
  f_equal; [lia|]. do 2 f_equal. lia.
Qed.

Lemma model_delete h e :
  IsDelete e.2 = true ->
  lease_free (1 + Z.of_nat (length h) + 1) (delete (Key e.2) (model_value <$> sp_map (space_of h))) = model_state (h ++ [e]).
Proof.
  intros Hd. rewrite model_state_free, space_of_app, length_app. cbn [space_add sp_map length]. rewrite Hd, fmap_delete.
  f_equal. lia.
Qed.

Lemma single_condition h key r :
  conditions_fail (model_state h) [mkEtcdCondition key r 0] =
  negb (match live (latest h key) with Some e => e.1 | None => 0 end =? r).
Proof.
  rewrite model_state_free, condition_lease_free.
  change (model_value <$> sp_map (space_of h)) with (es_KeyValues (model_state h)). rewrite model_lookup.
  by destruct (live (latest h key)).
Qed.

Lemma replay_step h e :
  linked_entry h e -> entry_ok e -> Forall entry_ok h -> e.1 = 2 + Z.of_nat (length h) ->
  exists response, Step (model_state h) (request_of e) = Ok (model_state (h ++ [e]), response) /\
    toWatchEvents (model_state h) (request_of e) response = Ok [event_for e].
Proof.
  intros Hlink He Hh Hr. unfold linked_entry in Hlink. unfold request_of, event_for.
  assert (Hput : forall conds onFailure, conditions_fail (model_state h) conds = false -> IsDelete e.2 = false ->
    let req := Txn (mkTxnRequest conds [PutOperation (mkPutOptions (Key e.2) (ToValueOrHash (Value e.2)) 0)] onFailure) in
    exists response, Step (model_state h) req = Ok (model_state (h ++ [e]), response) /\
      toWatchEvents (model_state h) req response =
        Ok [mkPersistedEvent (mkEtcdEvent PutType (Key e.2) (ToValueOrHash (Value e.2))) e.1
              (bool_decide (live (latest h (Key e.2)) = None))]).
  { intros conds onFailure Hc Hd req. eexists. split.
    { unfold req. rewrite model_state_free in Hc |- *. eapply eq_trans.
      - apply (txn_lease_free false true); [exact Hc|]. cbn [stepOperations]. by rewrite put_lease_free.
      - by rewrite model_put. }
    change (toWatchEvents _ _ _) with (toWatchEvents_ops (model_state h) (1 + Z.of_nat (length h) + 1) [zeroOperationResult] 0
      [PutOperation (mkPutOptions (Key e.2) (ToValueOrHash (Value e.2)) 0)]).
    cbn [toWatchEvents_ops po_LeaseID po_Key po_Value rbind Z.eqb negb andb app].
    replace (1 + Z.of_nat (length h) + 1) with e.1 by lia. rewrite model_lookup.
    by destruct (live (latest h (Key e.2))). }
  destruct (IsCreate e.2) eqn:Ec.
  - assert (Hd : IsDelete e.2 = false).
    { destruct He as (_ & _ & _ & Hx & _). rewrite Ec, andb_true_r in Hx. done. }
    destruct (Hput [mkEtcdCondition (Key e.2) 0 0] []) as (r & H1 & H2); [|done|].
    { by rewrite single_condition, Hlink. }
    exists r. split; [exact H1|]. unfold CreateRequest. rewrite H2, Hlink, Hd. done.
  - destruct Hlink as (x & Hx & ->). pose proof Hx as Hlive. apply live_Some in Hlive as [Hlast _].
    pose proof (latest_Some _ _ _ Hlast) as [Hin _]. rewrite Forall_forall in Hh. specialize (Hh x Hin).
    pose proof (entry_ok_stamp x Hh) as [_ Hxr]. rewrite (link_rev_stamp _ Hxr).
    assert (Hc : conditions_fail (model_state h) [mkEtcdCondition (Key e.2) x.1 0] = false).
    { by rewrite single_condition, Hx, Z.eqb_refl. }
    destruct (IsDelete e.2) eqn:Hd.
    + unfold DeleteRequest. destruct Hh as [Hpos _]. rewrite (proj2 (Z.eqb_neq x.1 0)) by lia. cbn [negb].
      eexists. split.
      { rewrite model_state_free in Hc |- *. eapply eq_trans.
        - apply (txn_lease_free false true); [exact Hc|]. cbn [stepOperations].
          rewrite delete_lease_free, decide_True; [done|].
          change (model_value <$> sp_map (space_of h)) with (es_KeyValues (model_state h)). by rewrite model_lookup, Hx.
        - by rewrite model_delete. }
      change (toWatchEvents _ _ _) with
        (Ok (A := list PersistedEvent) [mkPersistedEvent (mkEtcdEvent DeleteType (Key e.2) noValue) (1 + Z.of_nat (length h) + 1) false]).
      by replace (1 + Z.of_nat (length h) + 1) with e.1 by lia.
    + destruct (Hput [mkEtcdCondition (Key e.2) x.1 0] [read_key (Key e.2)]) as (r & H1 & H2); [done..|].
      exists r. split; [exact H1|]. unfold UpdateRequest. by rewrite H2, Hx.
Qed.

(** * A history replayed *)

Fixpoint states_after (h l : history) : list EtcdState :=
  match l with
  | [] => []
  | e :: l => model_state (h ++ [e]) :: states_after (h ++ [e]) l
  end.

Lemma states_after_lookup l : forall h i,
  (i < length l)%nat -> states_after h l !! i = Some (model_state (h ++ take (S i) l)).
Proof.
  induction l as [|e l IH]; intros h i Hi; [cbn in Hi; lia|]. destruct i as [|i]; cbn.
  - by rewrite take_0.
  - cbn in Hi. rewrite IH by lia. rewrite <-app_assoc. done.
Qed.

Lemma length_states_after l : forall h, length (states_after h l) = length l.
Proof. induction l as [|e l IH]; intros h; cbn; [done|]. by rewrite IH. Qed.

Lemma replay_spec l : forall h,
  linked (h ++ l) -> numbered (h ++ l) -> Forall entry_ok (h ++ l) ->
  replay_requests (model_state h) (request_of <$> l) = Ok (states_after h l, event_for <$> l).
Proof.
  induction l as [|e l IH]; intros h Hl Hn Hok; [done|]. rewrite fmap_cons. cbn [replay_requests].
  pose proof (Forall_app entry_ok h (e :: l)) as [Hsplit _]. destruct (Hsplit Hok) as [Hh [He _]%Forall_cons].
  assert (Heq : h ++ e :: l = (h ++ [e]) ++ l) by (by rewrite <-app_assoc). rewrite Heq in Hn, Hok.
  destruct (replay_step h e) as (response & -> & Hev); [by apply (Hl h e l)|done|done| |].
  { apply numbered_prefix in Hn. destruct e as [r record]. by apply numbered_snoc in Hn as [_ ?]. }
  cbn [rbind]. rewrite Hev. cbn [rbind]. rewrite Heq in Hl. rewrite (IH (h ++ [e]) Hl Hn Hok). cbn [rbind].
  rewrite (proj2 (Z.eqb_neq _ _)); [done|]. cbn. rewrite length_app. cbn. lia.
Qed.

Lemma numbered_take h n : numbered h -> (n <= length h)%nat -> take n h = upto (1 + Z.of_nat n) h.
Proof.
  revert n. induction h as [|[r record] h IH] using rev_ind; intros n Hnum Hn; [by rewrite take_nil|].
  pose proof Hnum as Hall. apply numbered_snoc in Hnum as [Hnum Hr]. rewrite length_app in Hn. cbn in Hn.
  unfold upto in *. rewrite filter_app, filter_cons, filter_nil. cbn [fst].
  destruct (decide (n <= length h)%nat) as [Hle|Hgt].
  - rewrite take_app_le by done. rewrite decide_False by lia. rewrite app_nil_r. by apply IH.
  - rewrite decide_True by lia. rewrite take_ge by (rewrite length_app; cbn; lia). f_equal.
    symmetry. apply filter_every. intros x Hx. pose proof (numbered_le h x Hnum Hx). lia.
Qed.
End StateOf.

(** * The driver's log *)

Section Driver.
Context `{FB : FdbBindings, KV : KVStore, CF : Config, ET : EtcdTypes}.
Context (dir : bytes) (Hmode : UseSequentialId = true).
Abbreviation f := (openSubspaces dir).

Lemma replay_states h r :
  numbered h -> 1 <= r <= 1 + Z.of_nat (length h) ->
  StateForRevision (mkEtcdReplay (freshEtcdState :: freshEtcdState :: states_after [] h) (event_for <$> h) (request_of <$> h)) r
  = Ok (model_state (upto r h)).
Proof.
  intros Hn Hr. unfold StateForRevision. cbn [rp_revisionToEtcdState].
  rewrite (proj2 (Z.leb_gt _ _)) by (cbn [length]; rewrite length_states_after; lia).
  rewrite (proj2 (Z.ltb_ge _ _)) by lia.
  destruct (Z.to_nat r) as [|[|n]] eqn:En; [lia| |].
  - replace r with (1 + Z.of_nat 0) by lia. rewrite <-numbered_take by (done || lia). done.
  - change ((_ :: _ :: ?l) !! S (S n)) with (l !! n). rewrite states_after_lookup by lia. cbn [assert_some]. replace r with (1 + Z.of_nat (S n)) by lia.
    by rewrite <-numbered_take by (done || lia).
Qed.

(** C33: the driver's log is a log of etcd requests: the tests' replay of what
    [ReadWAL] exports gives, at every revision, the keys, values and revisions
    that were live in the history then, and as events the records of the
    history in order; a revision after the last is an error.  Records that
    other clients add during the export have higher revisions than were
    known. *)
Theorem WAL_replays grow comp p0 h0 s envs :
  read_run dir grow comp p0 h0 s envs -> 0 <= p0 ->
  exists s2 h2 p2 requests, since dir comp h0 p0 s2 h2 p2 /\
    WALToEtcdRequests f envs s = (Some (Ok (requests, dump_of <$> h2)), s2) /\
    (linked h2 -> exists replay, NewReplay requests = Ok replay /\ rp_Events replay = event_for <$> h2 /\
       (forall r, 1 <= r <= 1 + Z.of_nat (length h2) -> StateForRevision replay r = Ok (model_state (upto r h2))) /\
       (forall r, 1 + Z.of_nat (length h2) < r -> exists e, StateForRevision replay r = Err e)).
Proof.
  intros Hrun Hp. destruct (ReadWAL_spec dir comp grow p0 h0 s envs Hrun Hp) as (s2 & h2 & p2 & Hs & Hwal).
  pose proof (sn_repr _ _ _ _ _ _ _ Hs) as HR. pose proof (R_ok _ _ _ _ HR) as Hok.
  exists s2, h2, p2, (request_of <$> h2). split; [done|].
  split; [unfold WALToEtcdRequests; by rewrite Hwal, wal_requests_spec|].
  intros Hlink. destruct (R_seq _ _ _ _ HR Hmode) as [_ Hnum].
  eexists. split.
  { unfold NewReplay. change freshEtcdState with (model_state []). by rewrite (replay_spec h2 []). }
  split; [done|]. split; [intros r; by apply replay_states|]. intros r Hr. unfold StateForRevision.
  cbn [rp_revisionToEtcdState length]. rewrite length_states_after, (proj2 (Z.leb_le _ _)) by lia. eauto.
Qed.

(** * Writes *)

(** The request of etcd that a write stands for, and what etcd is to answer. *)
Definition model_request (cl : call) : EtcdRequest :=
  match cl with
  | CCreate key value _ => CreateRequest key value
  | CUpdate key value revision _ => UpdateRequest key value revision
  | CDelete key revision => DeleteRequest key revision
  | CGet key | CList key => RangeRequest (mkRangeOptions key [] 0) 0
  end.

Definition read_answer (kv : option KeyValue) : EtcdOperationResult :=
  mkEtcdOperationResult
    (match kv with
     | Some kv => mkRangeResponse [mkEtcdKeyValue (kv_Key kv) (model_value kv)] 1
     | None => mkRangeResponse [] 0
     end) 0.

(** The results of the operations, from the key's value before the call. *)
Definition model_results (cl : call) (before : option KeyValue) (applied : bool) : list EtcdOperationResult :=
  match cl, applied with
  | CCreate _ _ _, true | CUpdate _ _ _ _, true => [zeroOperationResult]
  | CCreate _ _ _, false => []
  | CDelete _ revision, _ =>
      if revision =? 0 then [read_answer before; deleted_answer (if applied then 1 else 0)]
      else if applied then [deleted_answer 1] else [read_answer before]
  | _, _ => [read_answer before]
  end.

(** An unconditional delete of an absent key is not a failure to etcd. *)
Definition model_failure (cl : call) (applied : bool) : bool :=
  match cl with
  | CDelete _ revision => negb (revision =? 0) && negb applied
  | _ => negb applied
  end.
(** The key-values of a key space are under their keys, with revisions that
    are positive. *)
Definition space_ok (sp : space) : Prop :=
  map_Forall (fun key kv => kv_Key kv = key /\ 0 < kv_ModRevision kv) (sp_map sp).

Lemma space_of_ok h : Forall (fun e => 0 < e.1) h -> space_ok (space_of h).
Proof.
  intros Hpos key kv. rewrite space_lookup. destruct (live (latest h key)) as [e|] eqn:El; [|done].
  intros [= <-]. apply live_Some in El as [El _]. apply latest_Some in El as [Hin Hk].
  rewrite Forall_forall in Hpos. split; [exact Hk|exact (Hpos e Hin)].
Qed.

Lemma read_key_spec n m key i :
  stepOperations (lease_free n (model_value <$> m)) [read_key key] i =
  Ok (lease_free n (model_value <$> m),
      [mkEtcdOperationResult
         (match m !! key with Some kv => mkRangeResponse [mkEtcdKeyValue key (model_value kv)] 1 | None => mkRangeResponse [] 0 end) 0], i).
Proof. cbn. rewrite lookup_fmap. destruct (m !! key); cbn; by rewrite orb_false_r. Qed.

Definition at_revision (cur : option KeyValue) : Z :=
  match cur with Some kv => kv_ModRevision kv | None => 0 end.

Lemma condition_space n m key r :
  conditions_fail (lease_free n (model_value <$> m)) [mkEtcdCondition key r 0] = negb (at_revision (m !! key) =? r).
Proof. rewrite condition_lease_free, lookup_fmap. by destruct (m !! key). Qed.

(** kine creates a key instead of updating it at revision 0. *)
Definition update_ok (cl : call) : Prop :=
  match cl with CUpdate _ _ revision _ => revision <> 0 | _ => True end.

(** A step of the key space is a step of the model, whose revision grows by
    one when the write applies. *)
Lemma spec_step_model sp cl key r sp2 n :
  spec_step sp cl r sp2 -> call_key cl = Some key -> space_ok sp -> update_ok cl ->
  let n2 := if reply_applied r then n + 1 else n in
  (forall z, reply_rev r = Some z -> z = n2) ->
  Step (lease_free n (model_value <$> sp_map sp)) (model_request cl) =
  Ok (lease_free n2 (model_value <$> sp_map sp2),
      txn_answer (model_failure cl (reply_applied r)) (model_results cl (sp_map sp !! key) (reply_applied r)) n2).
Proof.
  intros Hstep Hkey Hsp Hup n2 Hrev.
  assert (Hread : forall key, read_answer (sp_map sp !! key) = mkEtcdOperationResult
    (match sp_map sp !! key with Some kv => mkRangeResponse [mkEtcdKeyValue key (model_value kv)] 1 | None => mkRangeResponse [] 0 end) 0).
  { intros k. destruct (sp_map sp !! k) as [kv|] eqn:Ek; [|done]. destruct (Hsp k kv Ek) as [<- _]. done. }
  destruct Hstep as [sp k value lease r Hnone Hlt|sp k value lease kv Hsome|sp k value revision lease kv r Happ Hlt new
    |sp k value revision lease z Happ Hle|sp k revision kv r Happ Hlt|sp k revision z Happ Hle| |]; try done;
    injection Hkey as ->; cbn [reply_applied reply_rev model_request model_failure model_results update_ok] in *; subst n2.
  - specialize (Hrev r eq_refl) as ->. apply (txn_lease_free false true).
    + by rewrite condition_space, Hnone.
    + cbn [stepOperations]. rewrite put_lease_free. cbn [rbind orb sp_map]. by rewrite fmap_insert.
  - destruct (Hsp key kv Hsome) as [_ Hpos]. apply (txn_lease_free true false); [|done].
    rewrite condition_space, Hsome. cbn [at_revision]. by rewrite (proj2 (Z.eqb_neq _ 0)) by lia.
  - specialize (Hrev r eq_refl) as ->. apply (txn_lease_free false true).
    + rewrite condition_space. unfold update_applies in Happ. destruct (sp_map sp !! key) as [kv2|]; [|done].
      cbn [at_revision]. by destruct (kv_ModRevision kv2 =? revision).
    + cbn [stepOperations]. rewrite put_lease_free. cbn [rbind orb sp_map]. by rewrite fmap_insert.
  - apply (txn_lease_free true false); [|rewrite read_key_spec, Hread; done].
    rewrite condition_space. unfold update_applies in Happ. destruct (sp_map sp !! key) as [kv2|]; cbn [at_revision].
    + by destruct (kv_ModRevision kv2 =? revision).
    + by rewrite (proj2 (Z.eqb_neq 0 revision)) by auto.
  - specialize (Hrev r eq_refl) as ->. unfold delete_applies in Happ. unfold DeleteRequest.
    destruct (Z.eqb_spec revision 0) as [->|Hne]; cbn [negb andb].
    + apply (txn_lease_free false true); [done|]. cbn [stepOperations] in *.
      pose proof (read_key_spec n (sp_map sp) key false) as Hrk. cbn [stepOperations] in Hrk.
      destruct (stepOperation _ (read_key key)) as [[[s2 res] i]|e|]; cbn [rbind] in Hrk |- *; [|done..].
      injection Hrk as -> -> ->. rewrite delete_lease_free, decide_True by (by rewrite lookup_fmap, Happ).
      cbn [rbind orb sp_map]. by rewrite fmap_delete, Hread.
    + apply (txn_lease_free false true).
      * rewrite condition_space. unfold update_applies in Happ. destruct (sp_map sp !! key) as [kv2|]; [|done].
        cbn [at_revision]. by destruct (kv_ModRevision kv2 =? revision).
      * cbn [stepOperations]. rewrite delete_lease_free, decide_True.
        -- cbn [rbind orb sp_map]. by rewrite fmap_delete.
        -- rewrite lookup_fmap. unfold update_applies in Happ. by destruct (sp_map sp !! key).
  - unfold delete_applies in Happ. unfold DeleteRequest. destruct (Z.eqb_spec revision 0) as [->|Hne]; cbn [negb andb].
    + apply (txn_lease_free false false); [done|].
      pose proof (read_key_spec n (sp_map sp) key false) as Hrk. cbn [stepOperations] in *.
      destruct (stepOperation _ (read_key key)) as [[[s2 res] i]|e|]; cbn [rbind] in Hrk |- *; [|done..].
      injection Hrk as -> -> ->. rewrite delete_lease_free, decide_False by (rewrite lookup_fmap, Happ; by intros [? ?]).
      cbn [rbind orb sp_map]. by rewrite Hread.
    + apply (txn_lease_free true false); [|rewrite read_key_spec, Hread; done].
      rewrite condition_space. unfold update_applies in Happ. destruct (sp_map sp !! key) as [kv2|]; cbn [at_revision].
      * by destruct (kv_ModRevision kv2 =? revision).
      * by rewrite (proj2 (Z.eqb_neq 0 revision)) by auto.
Qed.
End Driver.

(** * Writes keep the links *)

Definition key_linked (key : bytes) (h : history) : Prop :=
  forall h1 e h2, key_part key h = h1 ++ e :: h2 -> linked_entry h1 e.

Lemma latest_key_part_same key h : latest (key_part key h) key = latest h key.
Proof. unfold latest, key_part. rewrite list_filter_filter. by rewrite (list_filter_iff _ (of_key key)) by tauto. Qed.

Lemma linked_entry_key h e : linked_entry (key_part (Key e.2) h) e <-> linked_entry h e.
Proof. unfold linked_entry. by rewrite latest_key_part_same. Qed.

(** It is the keys' own. *)
Lemma linked_keys h : linked h <-> forall key, key_linked key h.
Proof.
  split.
  - intros Hl key h1 e h2 Hh. pose proof Hh as Hk. apply key_part_split in Hh as (g1 & g2 & -> & <-).
    assert (Key e.2 = key) as <-.
    { assert (e ∈ key_part key (g1 ++ e :: g2)) as Hin by (rewrite Hk; apply elem_of_app; right; left).
      by apply list_elem_of_filter in Hin as [? _]. }
    rewrite linked_entry_key. by apply (Hl g1 e g2).
  - intros Hk h1 e h2 ->. rewrite <-linked_entry_key.
    apply (Hk (Key e.2) (key_part (Key e.2) h1) e (key_part (Key e.2) h2)).
    rewrite key_part_app. f_equal. unfold key_part. by rewrite filter_cons, decide_True.
Qed.

(** The links make the life cycle of CountSpec.v. *)
Lemma key_linked_lifecycle `{FB : FdbBindings, CF : Config} R key h :
  Forall entry_ok h -> key_linked key h -> key_lifecycle R key h.
Proof.
  intros Hok Hl h1 e h2 Hh _. specialize (Hl h1 e h2 Hh).
  assert (He : entry_ok e).
  { rewrite Forall_forall in Hok. apply Hok. assert (e ∈ key_part key h) as Hin by (rewrite Hh; apply elem_of_app; right; left).
    by apply list_elem_of_filter in Hin as [_ ?]. }
  unfold linked_entry in Hl. destruct He as (_ & _ & _ & Hx & _). split; [by rewrite andb_comm|].
  destruct (IsCreate e.2); [done|]. destruct Hl as (x & -> & _). done.
Qed.

Lemma key_linked_effect `{CF : Config} key cl h r h2 :
  key_linked key h -> takes_effect key cl h r h2 -> key_linked key h2.
Proof.
  intros Hl (pre & mid & post & -> & H1 & H2 & Hmid & _ & Hlink & _).
  assert (Hk : key_part key (h ++ pre ++ mid ++ post) = key_part key h ++ key_part key mid).
  { by rewrite !key_part_app, (key_part_avoids key pre), (key_part_avoids key post), app_nil_r. }
  assert (Hcase : key_part key mid = [] \/ exists x, mid = [x] /\ key_part key mid = [x] /\ Key x.2 = key).
  { destruct mid as [|x mid]; [by left|]. destruct mid as [|]; [|by destruct (reply_applied r)].
    unfold key_part. rewrite filter_cons, filter_nil. case_decide; [right|left]; eauto. }
  intros h1 e h2. rewrite Hk. destruct Hcase as [-> |(x & -> & -> & Hx)]; [rewrite app_nil_r; apply Hl|].
  intros Hh. destruct h2 as [|y h2 _] using rev_ind.
  - apply app_inj_tail in Hh as [<- <-]. rewrite Forall_singleton in Hlink. rewrite <-Hx. apply linked_entry_key.
    unfold linked_entry in *. rewrite Hx in *. rewrite <-(latest_same key (h ++ pre) h); [done|].
    by rewrite key_part_app, (key_part_avoids key pre), app_nil_r.
  - rewrite app_comm_cons, app_assoc in Hh. apply app_inj_tail in Hh as [Hh _]. by apply (Hl h1 e h2).
Qed.

(** C34: every create, update and delete keeps the chain of its key's records
    linked, whatever attempts fail and whatever is written to other keys
    meanwhile: a create follows a deleted or absent key, an update or delete
    links to the live record it replaces, so that counts, the log and the
    model can rely on it. *)
Theorem writes_keep_linked `{FB : FdbBindings, KV : KVStore, CF : Config} dir cl key en s h c :
  call_key cl = Some key -> Repr dir s h c -> env_ok dir s h c cl en -> key_linked key h ->
  exists r s2 h2, exec dir cl en s = (Some r, s2) /\ Repr dir s2 h2 c /\
    key_linked key h2 /\ forall R, key_lifecycle R key h2.
Proof.
  intros Hkey HR Henv Hl.
  destruct (write_takes_effect dir cl key en s h c Hkey HR Henv) as (r & s2 & h2 & He & HR2 & Ht).
  exists r, s2, h2. split; [done|]. split; [done|]. pose proof (key_linked_effect _ _ _ _ _ Hl Ht) as Hl2.
  split; [done|]. intros R. by apply key_linked_lifecycle; [apply HR2|].
Qed.

(** * Runs *)

Lemma seq_linked : linked seq_history.
Proof.
  intros h1 e h2 Hh.
  assert (Hcases : forall i x, seq_history !! i = Some x -> linked_entry (take i seq_history) x).
  { intros i x Hi. unfold linked_entry.
    do 2 (destruct i as [|i]; [apply (inj Some) in Hi; subst x; cbn [IsCreate snd sample_rec]; vm_compute; reflexivity|]).
    do 2 (destruct i as [|i]; [apply (inj Some) in Hi; subst x; cbn [IsCreate snd sample_rec]; eexists; split; [vm_compute; reflexivity|reflexivity]|]).
    done. }
  assert (Hl : seq_history !! length h1 = Some e) by (rewrite Hh; by apply list_lookup_middle).
  pose proof (Hcases _ _ Hl) as H. rewrite Hh in H. by rewrite take_app_length in H.
Qed.

Lemma seq_upto : Forall (fun e => e.1 <= 12) seq_history.
Proof. by apply (bool_decide_eq_true_1 (Forall (fun e : entry => e.1 <= 12) seq_history)). Qed.

Lemma WAL_replays_witness :
  exists s2 h2 p2 requests, since (CF := seq_config) sample_dir 0 seq_history 12 s2 h2 p2 /\
    WALToEtcdRequests (openSubspaces (CF := seq_config) sample_dir) (quiet_scan_at 12 4) seq_store
      = (Some (Ok (requests, dump_of <$> h2)), s2) /\
    (linked h2 -> exists replay, NewReplay requests = Ok replay /\ rp_Events replay = event_for <$> h2 /\
       (forall r, 1 <= r <= 1 + Z.of_nat (length h2) ->
          StateForRevision replay r = Ok (model_state (CF := seq_config) (upto r h2))) /\
       (forall r, 1 + Z.of_nat (length h2) < r -> exists e, StateForRevision replay r = Err e)).
Proof.
  apply (WAL_replays (KV := map_store) (CF := seq_config) sample_dir eq_refl 0 0 12 seq_history seq_store (quiet_scan_at 12 4)).
  - apply (quiet_scan_run (CF := seq_config)); [lia|exact seq_repr|exact seq_upto|cbn; lia].
  - lia.
Defined.

(** An update of [/a] whose first commit is unknown but applied. *)
Definition seq_call : call := CUpdate (str "/a") (str "new") 4 0.
Definition seq_env : callEnv := mkCallEnv _ (sample_run true) (sample_uuid Byte.x22) [].

Lemma seq_env_ok : env_ok (CF := seq_config) sample_dir seq_store seq_history 0 seq_call seq_env.
Proof.
  split; [vm_compute; split; congruence|]. split; [vm_compute; congruence|]. split.
  - apply sample_run_good. by apply (bool_decide_eq_true_1 (Forall (fun e : entry => e.1 < 20) seq_history)).
  - split.
    + exists 12. split; [lia|]. split; [done|]. apply steady_quiet; [lia|]. by apply steady_quiet.
    + by apply (bool_decide_eq_true_1 (Forall (fun e : entry => WriteUUID e.2 <> sample_uuid Byte.x22) seq_history)).
Qed.


Lemma writes_keep_linked_witness :
  exists r s2 h2, exec (CF := seq_config) sample_dir seq_call seq_env seq_store = (Some r, s2) /\
    Repr (CF := seq_config) sample_dir s2 h2 0 /\ key_linked (str "/a") h2 /\ forall R, key_lifecycle R (str "/a") h2.
Proof.
  apply (writes_keep_linked (KV := map_store) (CF := seq_config) sample_dir seq_call (str "/a") seq_env seq_store seq_history 0).
  - reflexivity.
  - exact seq_repr.
  - exact seq_env_ok.
  - exact (proj1 (linked_keys seq_history) seq_linked (str "/a")).
Defined.
