(* ===== verification/Validate.v ===== *)
(** test/robustness/validate/watch.go and operations.go: the checks of what
    watches and reads of old revisions delivered, against the replay of the
    driver's log.  Log lines are left out; an error is the guarantee that was
    broken, and [Ok None] that none was.  Slices that are nil and slices that
    are empty are not told apart. *)
From stdpp Require Import base strings list gmap sorting.
From Stdlib Require Import Strings.Byte ZArith Lia.
From S2P Require Import Prelude EtcdModel Replay.

Inductive watch_error :=
| errBrokeBookmarkable
| errBrokeOrdered
| errBrokeUnique
| errBrokeAtomic
| errBrokeReliable
| errBrokeResumable
| errBrokePrevKV
| errBrokeIsCreate
| errBrokeFilter.

(** A check that failed. *)
Definition broke (e : watch_error) (broken : bool) : option watch_error := if broken then Some e else None.

Section Validate.
Context `{ET : EtcdTypes, EW : !EtcdWatch}.

(** The types of etcd's package, with the fields that the code uses. *)
Record WatchEvent := mkWatchEvent {
  we_PersistedEvent : PersistedEvent;
  we_PrevValue : option ValueRevision
}.

Record WatchResponse := mkWatchResponse {
  wp_Events : list WatchEvent;
  wp_IsProgressNotify : bool;
  wp_Revision : Z
}.

Record WatchOperation := mkWatchOperation {
  wo_Request : WatchRequest;
  wo_Responses : list WatchResponse
}.

Abbreviation ClientReport := (list WatchOperation).

Definition we_Revision (e : WatchEvent) : Z := pe_Revision (we_PersistedEvent e).
Definition we_Key (e : WatchEvent) : bytes := ee_Key (pe_Event (we_PersistedEvent e)).

(** All events of a watch, over its responses. *)
Definition wo_Events (op : WatchOperation) : list WatchEvent := wo_Responses op ≫= wp_Events.

Definition validateFilter (report : ClientReport) : option watch_error :=
  broke errBrokeFilter
    (existsb (fun watch => existsb (fun event => negb (Event_Match (pe_Event (we_PersistedEvent event)) (wo_Request watch)))
                             (wo_Events watch)) report).

Fixpoint ordered_broken (lastEventRevision : Z) (events : list WatchEvent) : bool :=
  match events with
  | [] => false
  | event :: events => (we_Revision event <? lastEventRevision) || ordered_broken (we_Revision event) events
  end.

Definition validateOrdered (report : ClientReport) : option watch_error :=
  broke errBrokeOrdered (existsb (fun op => ordered_broken 1 (wo_Events op)) report).

(** The key of an event is its revision, or its revision and key. *)
Definition unique_key (expectUniqueRevision : bool) (event : WatchEvent) : Z * option bytes :=
  (we_Revision event, if expectUniqueRevision then None else Some (we_Key event)).

Fixpoint unique_broken (expectUniqueRevision : bool) (uniqueOperations : gset (Z * option bytes))
    (events : list WatchEvent) : bool :=
  match events with
  | [] => false
  | event :: events =>
      let key := unique_key expectUniqueRevision event in
      bool_decide (key ∈ uniqueOperations) || unique_broken expectUniqueRevision ({[key]} ∪ uniqueOperations) events
  end.

Definition validateUnique (expectUniqueRevision : bool) (report : ClientReport) : option watch_error :=
  broke errBrokeUnique (existsb (fun op => unique_broken expectUniqueRevision ∅ (wo_Events op)) report).

Fixpoint atomic_broken (lastEventRevision : Z) (responses : list WatchResponse) : bool :=
  match responses with
  | [] => false
  | resp :: responses =>
      match wp_Events resp with
      | [] => atomic_broken lastEventRevision responses
      | first :: _ =>
          (we_Revision first =? lastEventRevision) ||
          atomic_broken (match last (wp_Events resp) with Some e => we_Revision e | None => lastEventRevision end) responses
      end
  end.

Definition validateAtomic (report : ClientReport) : option watch_error :=
  broke errBrokeAtomic (existsb (fun op => atomic_broken 1 (wo_Responses op)) report).

(** [lastEvent] starts as the zero event, at revision 0. *)
Fixpoint bookmarkable_broken (lastProgressNotifyRevision lastEventRevision : Z) (responses : list WatchResponse) : bool :=
  match responses with
  | [] => false
  | resp :: responses =>
      let lastEventRevision := match last (wp_Events resp) with Some e => we_Revision e | None => lastEventRevision end in
      existsb (fun event => we_Revision event <=? lastProgressNotifyRevision) (wp_Events resp) ||
      (if wp_IsProgressNotify resp then
         (wp_Revision resp <? lastProgressNotifyRevision) || (wp_Revision resp <? lastEventRevision) ||
         bookmarkable_broken (wp_Revision resp) lastEventRevision responses
       else bookmarkable_broken lastProgressNotifyRevision lastEventRevision responses)
  end.

Definition validateBookmarkable (report : ClientReport) : option watch_error :=
  broke errBrokeBookmarkable (existsb (fun op => bookmarkable_broken 0 0 (wo_Responses op)) report).

Definition firstExpectedRevision (op : WatchOperation) : Z :=
  if negb (wq_Revision (wo_Request op) =? 0) then wq_Revision (wo_Request op)
  else
    match wo_Responses op with
    | [] => 0
    | firstResp :: _ =>
        if wp_IsProgressNotify firstResp then wp_Revision firstResp + 1
        else match wp_Events firstResp with e :: _ => we_Revision e | [] => 0 end
    end.

(** The responses are searched from the last one. *)
Fixpoint lastRevision_in (reversed : list WatchResponse) : Z :=
  match reversed with
  | [] => 0
  | resp :: reversed =>
      if wp_IsProgressNotify resp then wp_Revision resp
      else match last (wp_Events resp) with Some e => we_Revision e | None => lastRevision_in reversed end
  end.

Definition lastRevision (op : WatchOperation) : Z := lastRevision_in (reverse (wo_Responses op)).

Definition firstWatchEvent (op : WatchOperation) : option WatchEvent := head (wo_Events op).

(** The events that a watch is to have: up to the first one after the last
    revision. *)
Fixpoint want_events (request : WatchRequest) (firstRev lastRev : Z) (events : list PersistedEvent) : list PersistedEvent :=
  match events with
  | [] => []
  | e :: events =>
      if pe_Revision e <? firstRev then want_events request firstRev lastRev events
      else if lastRev <? pe_Revision e then []
      else if Event_Match (pe_Event e) request then e :: want_events request firstRev lastRev events
      else want_events request firstRev lastRev events
  end.

Definition reliable_broken (replay : EtcdReplay) (watch : WatchOperation) : bool :=
  let firstRev := firstExpectedRevision watch in
  let lastRev := lastRevision watch in
  let events := EventsForWatch replay (wo_Request watch) in
  let wantEvents := if negb (firstRev =? 0) then want_events (wo_Request watch) firstRev lastRev events else [] in
  let gotEvents := we_PersistedEvent <$> wo_Events watch in
  negb (bool_decide (wantEvents = gotEvents)).

Definition validateReliable (replay : EtcdReplay) (report : ClientReport) : option watch_error :=
  broke errBrokeReliable (existsb (reliable_broken replay) report).

(** The first event at or after the requested revision that matches. *)
Definition resumable_broken (replay : EtcdReplay) (watch : WatchOperation) : bool :=
  if wq_Revision (wo_Request watch) =? 0 then false
  else
    match list_find (fun e => (pe_Revision e <? wq_Revision (wo_Request watch)) ||
                              negb (Event_Match (pe_Event e) (wo_Request watch)) = false)
            (EventsForWatch replay (wo_Request watch)) with
    | None => false
    | Some (_, want) =>
        match firstWatchEvent watch with
        | Some firstEvent => negb (bool_decide (want = we_PersistedEvent firstEvent))
        | None => false
        end
    end.

Definition validateResumable (replay : EtcdReplay) (report : ClientReport) : option watch_error :=
  broke errBrokeResumable (existsb (resumable_broken replay) report).

(** A state that is not in the replay panics. *)
Definition state_before (replay : EtcdReplay) (event : WatchEvent) : res EtcdState :=
  match StateForRevision replay (we_Revision event - 1) with Ok s => Ok s | _ => Panic end.

(** A loop over events that each break the guarantee or not. *)
Fixpoint any_broken (check : WatchEvent -> res bool) (events : list WatchEvent) : res bool :=
  match events with
  | [] => Ok false
  | event :: events =>
      let? broken := check event in
      let? rest := any_broken check events in
      Ok (broken || rest)
  end.

Definition prevKV_broken (replay : EtcdReplay) (event : WatchEvent) : res bool :=
  let? state := state_before replay event in
  match we_PrevValue event with
  | Some prev =>
      let statePrevValue := default zeroValueRevision (es_KeyValues state !! we_Key event) in
      let statePrevValue := mkValueRevision (vr_Value statePrevValue) (vr_ModRevision statePrevValue) 0 in
      Ok (negb (bool_decide (prev = statePrevValue)))
  | None => Ok false
  end.

Definition validatePrevKV (replay : EtcdReplay) (report : ClientReport) : res (option watch_error) :=
  let? broken := any_broken (prevKV_broken replay)
                   (filter (fun op => wq_WithPrevKV (wo_Request op) = true) report ≫= wo_Events) in
  Ok (broke errBrokePrevKV broken).

Definition isCreate_broken (replay : EtcdReplay) (event : WatchEvent) : res bool :=
  let? state := state_before replay event in
  let prevKeyExists := bool_decide (is_Some (es_KeyValues state !! we_Key event)) in
  Ok (Bool.eqb (pe_IsCreate (we_PersistedEvent event)) prevKeyExists).

Definition validateIsCreate (replay : EtcdReplay) (report : ClientReport) : res (option watch_error) :=
  let? broken := any_broken (isCreate_broken replay) (report ≫= wo_Events) in
  Ok (broke errBrokeIsCreate broken).

(** The checks one after the other; the first error is returned. *)
Definition and_then (err : option watch_error) (next : res (option watch_error)) : res (option watch_error) :=
  match err with Some e => Ok (Some e) | None => next end.

Definition validateReport (expectRevisionUnique : bool) (replay : EtcdReplay) (r : ClientReport) : res (option watch_error) :=
  and_then (validateFilter r) (
  and_then (validateOrdered r) (
  and_then (validateUnique expectRevisionUnique r) (
  and_then (validateAtomic r) (
  and_then (validateBookmarkable r) (
  and_then (validateResumable replay r) (
  let? err := validateIsCreate replay r in
  and_then err (
  and_then (validateReliable replay r) (validatePrevKV replay r)))))))).

Fixpoint validateWatchError (expectRevisionUnique : bool) (reports : list ClientReport) (replay : EtcdReplay)
    : res (option watch_error) :=
  match reports with
  | [] => Ok None
  | r :: reports =>
      let? err := validateReport expectRevisionUnique replay r in
      and_then err (validateWatchError expectRevisionUnique reports replay)
  end.

(** * Reads of old revisions: operations.go *)

Inductive serializable_error :=
| errRespNotMatched
| errFutureRevRespRequested.

Definition without_version (kv : EtcdKeyValue) : EtcdKeyValue :=
  let v := ek_ValueRevision kv in mkEtcdKeyValue (ek_Key kv) (mkValueRevision (vr_Value v) (vr_ModRevision v) 0).

(** Requests that are not ranges, and states that do not answer with one,
    would be nil pointers. *)
Definition validateSerializableRead (replay : EtcdReplay) (request : EtcdRequest) (response : MaybeEtcdResponse)
    : res (option serializable_error) :=
  if mr_Persisted response || negb (bool_decide (mr_Error response = ""%string)) then Ok None
  else
    match request with
    | RangeRequest _ revision =>
        match StateForRevision replay revision with
        | Err _ =>
            if bool_decide (mr_Error response = ErrEtcdFutureRev) then Ok None else Ok (Some errFutureRevRespRequested)
        | Panic => Panic
        | Ok state =>
            let? '(_, expectResp) := Step state request in
            match er_Body (mr_EtcdResponse expectResp) with
            | RangeBody range =>
                let expected := mkRangeResponse (without_version <$> rs_KVs range) (rs_Count range) in
                match er_Body (mr_EtcdResponse response) with
                | RangeBody got => Ok (if negb (bool_decide (got = expected)) then Some errRespNotMatched else None)
                | _ => Ok (Some errRespNotMatched)
                end
            | _ => Panic
            end
        end
    | _ => Panic
    end.

(** All reads are checked; the last error is returned. *)
Fixpoint validateSerializableOperationsError (replay : EtcdReplay) (operations : list (EtcdRequest * MaybeEtcdResponse))
    (lastErr : option serializable_error) : res (option serializable_error) :=
  match operations with
  | [] => Ok lastErr
  | (request, response) :: operations =>
      let? err := validateSerializableRead replay request response in
      validateSerializableOperationsError replay operations (match err with Some e => Some e | None => lastErr end)
  end.
End Validate.
