(* ===== verification/ValidateSpec.v ===== *)
(** What the checks of watch.go accept: exactly the watches that deliver, in
    order and once, every matching record of the history between their first
    and last revision, with true notifications of progress and previous
    values. *)
From stdpp Require Import base strings list gmap sorting.
From Stdlib Require Import Strings.Byte ZArith Lia.
From S2P Require Import Prelude FdbApi FdbInstance Util Subspaces Transact History Samples Scan RevScan KeySpace Refine EtcdModel EtcdModelSpec Replay RobustnessSpec Validate.

Section ValidateSpec.
Context `{FB : FdbBindings, CF : Config, ET : EtcdTypes, EW : !EtcdWatch}.
Context (h : history) (replay : EtcdReplay).
Context (Hnum : numbered h) (Hlink : linked h).
Context (Hevents : rp_Events replay = event_for <$> h).
Context (Hstates : forall r, 1 <= r <= 1 + Z.of_nat (length h) -> StateForRevision replay r = Ok (model_state (upto r h))).

(** * Watches that are correct *)

Definition wanted (op : WatchOperation) (e : entry) : Prop :=
  firstExpectedRevision op <> 0 /\ firstExpectedRevision op <= e.1 <= lastRevision op /\
  Event_Match (pe_Event (event_for e)) (wo_Request op) = true.

#[local] Instance wanted_dec op e : Decision (wanted op e).
Proof. unfold wanted. apply _. Defined.

(** A notification of progress comes after all events up to its revision. *)
Fixpoint bookmarks_ok (responses : list WatchResponse) : Prop :=
  match responses with
  | [] => True
  | resp :: responses =>
      (forall n event, n ∈ responses -> wp_IsProgressNotify n = true -> event ∈ wp_Events resp ->
         we_Revision event <= wp_Revision n) /\
      (wp_IsProgressNotify resp = true ->
         (forall event, event ∈ wp_Events resp -> we_Revision event <= wp_Revision resp) /\
         (forall event, event ∈ responses ≫= wp_Events -> wp_Revision resp < we_Revision event) /\
         (forall n, n ∈ responses -> wp_IsProgressNotify n = true -> wp_Revision resp <= wp_Revision n)) /\
      bookmarks_ok responses
  end.

(** The value that a key had before an event. *)
Definition previous_value (event : WatchEvent) : ValueRevision :=
  default zeroValueRevision
    ((fun e => model_value (entry_kv e)) <$> live (latest (upto (we_Revision event - 1) h) (we_Key event))).

Record watch_correct (op : WatchOperation) : Prop := mkWatchCorrect {
  wt_delivered : we_PersistedEvent <$> wo_Events op = event_for <$> filter (wanted op) h;
  wt_bookmarks : bookmarks_ok (wo_Responses op);
  wt_progress n : n ∈ wo_Responses op -> wp_IsProgressNotify n = true -> 0 <= wp_Revision n;
  wt_previous event : wq_WithPrevKV (wo_Request op) = true -> event ∈ wo_Events op ->
    we_PrevValue event = None \/ we_PrevValue event = Some (previous_value event)
}.

(** * The loops *)

Lemma broke_None e b : broke e b = None <-> b = false.
Proof. by destruct b. Qed.

Lemma existsb_false {A} (p : A -> bool) l : existsb p l = false <-> Forall (fun x => p x = false) l.
Proof.
  induction l as [|x l IH]; [by split|]. cbn [existsb]. rewrite orb_false_iff, Forall_cons. by rewrite IH.
Qed.

Lemma any_broken_false check l : any_broken check l = Ok false <-> Forall (fun e => check e = Ok false) l.
Proof.
  induction l as [|e l IH]; [by split|]. cbn [any_broken]. rewrite Forall_cons, <-IH, !rbind_Ok. split.
  - intros (b & Hb & Hr). rewrite rbind_Ok in Hr. destruct Hr as (r & Hr & [= Hor]).
    apply orb_false_iff in Hor as [-> ->]. by split.
  - intros [Hc Hl]. exists false. split; [done|]. by rewrite Hl.
Qed.

Lemma ordered_false l : forall r, ordered_broken r l = false <-> Forall (fun e => r <= we_Revision e) l /\ StronglySorted (fun a b => we_Revision a <= we_Revision b) l.
Proof.
  induction l as [|e l IH]; intros r; cbn [ordered_broken]; [by repeat split; constructor|].
  rewrite orb_false_iff, IH, Forall_cons, Z.ltb_ge. split.
  - intros (Hr & Hl & Hs). split; [split; [done|]|by constructor].
    eapply Forall_impl; [exact Hl|]. cbn. lia.
  - intros [[Hr _] Hs]. apply StronglySorted_inv in Hs as [Hs Hl]. by split_and!.
Qed.

Lemma unique_false b l : forall seen,
  NoDup (unique_key b <$> l) -> (forall e, e ∈ l -> unique_key b e ∉ seen) -> unique_broken b seen l = false.
Proof.
  induction l as [|e l IH]; intros seen Hnd Hfresh; [done|]. cbn [unique_broken].
  rewrite fmap_cons, NoDup_cons in Hnd. destruct Hnd as [Hne Hnd].
  rewrite bool_decide_eq_false_2 by (apply Hfresh; left). apply IH; [done|]. intros e2 He2.
  rewrite not_elem_of_union, not_elem_of_singleton. split; [|apply Hfresh; by right].
  intros E. apply Hne. rewrite <-E. by apply list_elem_of_fmap_2.
Qed.

Lemma last_sorted {A} (f : A -> Z) (l : list A) x y :
  StronglySorted (fun a b => f a <= f b) l -> last l = Some y -> x ∈ l -> f x <= f y.
Proof.
  induction 1 as [|z l Hs IH Hz]; [by intros ?|]. intros Hl Hx. destruct l as [|z2 l].
  - injection Hl as ->. apply list_elem_of_singleton in Hx as ->. lia.
  - rewrite last_cons_cons in Hl. apply elem_of_cons in Hx as [->|Hx]; [|by apply IH].
    rewrite Forall_forall in Hz. apply Hz. by apply last_Some_elem_of.
Qed.

Lemma atomic_false rs : forall r,
  Forall (fun e => r < we_Revision e) (rs ≫= wp_Events) ->
  StronglySorted (fun a b => we_Revision a < we_Revision b) (rs ≫= wp_Events) -> atomic_broken r rs = false.
Proof.
  induction rs as [|resp rs IH]; intros r Hr Hs; [done|]. rewrite bind_cons in Hr, Hs. cbn [atomic_broken].
  apply Forall_app in Hr as [Hr1 Hr2]. apply StronglySorted_app in Hs as (Hcross & Hs1 & Hs2).
  destruct (wp_Events resp) as [|e es] eqn:Ee; [by apply IH|].
  apply orb_false_iff. split; [apply Forall_cons in Hr1 as [? _]; lia|].
  apply IH; [|done]. destruct (last (e :: es)) as [x|] eqn:El; [|by apply last_None in El].
  rewrite Forall_forall. intros y Hy. apply Hcross; [by apply last_Some_elem_of|done].
Qed.

Lemma bookmarkable_false rs : forall p l,
  StronglySorted (fun a b => we_Revision a <= we_Revision b) (rs ≫= wp_Events) ->
  Forall (fun e => l <= we_Revision e) (rs ≫= wp_Events) ->
  bookmarkable_broken p l rs = false <->
  (forall e, e ∈ rs ≫= wp_Events -> p < we_Revision e) /\
  (forall n, n ∈ rs -> wp_IsProgressNotify n = true -> p <= wp_Revision n /\ l <= wp_Revision n) /\ bookmarks_ok rs.
Proof.
  induction rs as [|resp rs IH]; intros p l Hs Hl; cbn [bookmarkable_broken bookmarks_ok].
  { split; [|done]. intros _. split_and!; try done; intros ? ?%not_elem_of_nil; done. }
  rewrite bind_cons in Hs, Hl |- *. apply StronglySorted_app in Hs as (Hcross & Hs1 & Hs2).
  apply Forall_app in Hl as [Hl1 Hl2]. rewrite Forall_forall in Hl1.
  set (l2 := match last (wp_Events resp) with Some e => we_Revision e | None => l end).
  assert (Hmax : forall n, l2 <= n <-> l <= n /\ forall e, e ∈ wp_Events resp -> we_Revision e <= n).
  { intros n. unfold l2. destruct (last (wp_Events resp)) as [x|] eqn:Ex.
    - pose proof (last_Some_elem_of _ _ Ex) as Hx. pose proof (Hl1 x Hx). split.
      + intros Hn. split; [lia|]. intros e He. pose proof (last_sorted we_Revision _ e x Hs1 Ex He). lia.
      + intros [_ He]. by apply He.
    - apply last_None in Ex. rewrite Ex. split; [|tauto]. intros Hn. split; [done|]. by intros e ?%not_elem_of_nil. }
  assert (Hl3 : Forall (fun e => l2 <= we_Revision e) (rs ≫= wp_Events)).
  { rewrite Forall_forall in Hl2 |- *. intros y Hy. apply Hmax. split; [by apply Hl2|]. intros e He. by apply Hcross. }
  rewrite orb_false_iff, existsb_false, Forall_forall. setoid_rewrite elem_of_app. setoid_rewrite elem_of_cons.
  assert (Hp : (forall x, x ∈ wp_Events resp -> (we_Revision x <=? p) = false) <->
               forall x, x ∈ wp_Events resp -> p < we_Revision x).
  { split; intros Hx x He; specialize (Hx x He); lia. }
  rewrite Hp. destruct (wp_IsProgressNotify resp) eqn:En.
  - rewrite !orb_false_iff, !Z.ltb_ge, (IH _ _ Hs2 Hl3). setoid_rewrite Hmax. split.
    + intros (H1 & [[H2 H3] (H4 & H5 & H6)]). split_and!; try done.
      * intros e [He|He]; [by apply H1|]. specialize (H4 e He). lia.
      * intros n [->|Hn] Hnn; [by split; [|apply H3]|]. destruct (H5 n Hn Hnn) as [? [? _]]. split; [lia|done].
      * intros n e Hn Hnn He. destruct (H5 n Hn Hnn) as [_ [_ ?]]. auto.
      * intros _. split_and!; [by intros e He; apply H3|done|]. intros n Hn Hnn. by destruct (H5 n Hn Hnn).
    + intros (H1 & H2 & H3 & H4 & H5). destruct (H4 eq_refl) as (H6 & H7 & H8).
      destruct (H2 resp (or_introl eq_refl) En) as [H9 H10]. split_and!; try done; [by auto|].
      intros n Hn Hnn. split; [by apply H8|]. split; [by apply H2; [right|]|]. intros e He. by apply (H3 n e).
  - rewrite (IH _ _ Hs2 Hl3). setoid_rewrite Hmax. split.
    + intros (H1 & H2 & H3 & H4). split_and!; try done.
      * intros e [He|He]; auto.
      * intros n [->|Hn] Hnn; [congruence|]. destruct (H3 n Hn Hnn) as [? [? _]]. done.
      * intros n e Hn Hnn He. destruct (H3 n Hn Hnn) as [_ [_ ?]]. auto.
    + intros (H1 & H2 & H3 & _ & H5). split_and!; try done; [by auto..|].
      intros n Hn Hnn. destruct (H2 n (or_intror Hn) Hnn). split; [done|]. split; [done|]. intros e He. by apply (H3 n e).
Qed.

(** * What the replay gives *)

Lemma numbered_sorted (l : history) : numbered l -> StronglySorted rev_lt l /\ forall e, e ∈ l -> 2 <= e.1 <= 1 + Z.of_nat (length l).
Proof.
  induction l as [|[r record] l IH] using rev_ind; intros Hn; [split; [constructor|by intros e ?%not_elem_of_nil]|].
  apply numbered_snoc in Hn as [Hn ->]. destruct (IH Hn) as [Hs Hb]. rewrite length_app. cbn [length]. split.
  - apply StronglySorted_app_2; [|done|repeat constructor]. intros x y Hx ->%list_elem_of_singleton.
    specialize (Hb x Hx). unfold rev_lt. cbn. lia.
  - intros e [He| ->%list_elem_of_singleton]%elem_of_app; [specialize (Hb e He); lia|cbn; lia].
Qed.

Lemma want_events_filter req a b l :
  StronglySorted rev_lt l ->
  want_events req a b (event_for <$> l) =
  event_for <$> filter (fun e => a <= e.1 <= b /\ Event_Match (pe_Event (event_for e)) req = true) l.
Proof.
  induction 1 as [|e l Hs IH He]; [done|]. rewrite fmap_cons, filter_cons. cbn [want_events].
  change (pe_Revision (event_for e)) with e.1. destruct (Z.ltb_spec e.1 a).
  { rewrite decide_False by lia. exact IH. }
  destruct (Z.ltb_spec b e.1).
  { rewrite decide_False by lia. rewrite filter_none; [done|]. intros x Hx [Hab _]. rewrite Forall_forall in He.
    specialize (He x Hx). unfold rev_lt in He. lia. }
  destruct (Event_Match (pe_Event (event_for e)) req) eqn:Em.
  - rewrite decide_True by (split; [lia|done]). rewrite fmap_cons. by f_equal.
  - rewrite decide_False by (intros [_ ?]; congruence). exact IH.
Qed.

Lemma EventsForWatch_spec req :
  EventsForWatch replay req = event_for <$>
    filter (fun e => wq_Revision req <= e.1 /\ Event_Match (pe_Event (event_for e)) req = true) h.
Proof.
  unfold EventsForWatch. rewrite Hevents. clear. induction h as [|e l IH]; [done|].
  rewrite fmap_cons, !filter_cons. change (pe_Revision (event_for e)) with e.1.
  destruct (Z.ltb_spec e.1 (wq_Revision req)), (Event_Match (pe_Event (event_for e)) req) eqn:Em; cbn [orb negb].
  - rewrite decide_False, decide_False by (lia || done). exact IH.
  - rewrite decide_False, decide_False by (lia || done). exact IH.
  - rewrite decide_True, decide_True by (done || lia). rewrite fmap_cons. by f_equal.
  - rewrite decide_False, decide_False by (done || intros [_ ?]; done). exact IH.
Qed.

(** The check of reliability says what is delivered. *)
Lemma reliable_false op :
  reliable_broken replay op = false <-> we_PersistedEvent <$> wo_Events op = event_for <$> filter (wanted op) h.
Proof.
  destruct (numbered_sorted h Hnum) as [Hs Hb]. unfold reliable_broken. rewrite EventsForWatch_spec.
  set (a := firstExpectedRevision op). set (b := lastRevision op).
  assert (Hreq : a <> 0 -> wq_Revision (wo_Request op) <= a \/ wq_Revision (wo_Request op) = 0).
  { unfold a, firstExpectedRevision. destruct (Z.eqb_spec (wq_Revision (wo_Request op)) 0); cbn [negb]; [by right|left; lia]. }
  destruct (Z.eqb_spec a 0) as [Ha|Ha]; cbn [negb].
  - rewrite negb_false_iff, bool_decide_eq_true. rewrite (filter_none (wanted op)); [by split|]. by intros x _ [? _].
  - rewrite want_events_filter by (by apply (ssorted_filter rev_lt)).
    rewrite negb_false_iff, bool_decide_eq_true, list_filter_filter.
    match goal with |- event_for <$> ?F = _ <-> _ => assert (F = filter (wanted op) h) as -> end.
    { apply filter_same. intros e He. specialize (Hb e He). unfold wanted. fold a b. specialize (Hreq Ha). split; [tauto|].
      intros (_ & ? & ?). split; [done|]. split; [lia|done]. }
    by split.
Qed.
(** ** A watch that delivers what is wanted *)

Section Delivered.
Context (op : WatchOperation).
Context (Hdel : we_PersistedEvent <$> wo_Events op = event_for <$> filter (wanted op) h).

Lemma delivered_event event :
  event ∈ wo_Events op -> exists e, e ∈ h /\ wanted op e /\ we_PersistedEvent event = event_for e.
Proof.
  intros Hin. apply (list_elem_of_fmap_2 we_PersistedEvent) in Hin. rewrite Hdel in Hin.
  apply list_elem_of_fmap in Hin as (e & He & [Hw Hh]%list_elem_of_filter). by exists e.
Qed.

Lemma delivered_sorted : StronglySorted (fun a b => we_Revision a < we_Revision b) (wo_Events op).
Proof.
  apply (ssorted_fmap_inv (fun a b => pe_Revision a < pe_Revision b) we_PersistedEvent). rewrite Hdel.
  apply (ssorted_fmap_on rev_lt); [done|]. apply (ssorted_filter rev_lt), (numbered_sorted h Hnum).
Qed.

Lemma delivered_ordered r : r <= 2 ->
  Forall (fun e => r <= we_Revision e) (wo_Events op) /\ StronglySorted (fun a b => we_Revision a <= we_Revision b) (wo_Events op).
Proof.
  intros Hr. split.
  - rewrite Forall_forall. intros event (e & He & _ & E)%delivered_event. unfold we_Revision. rewrite E.
    destruct (numbered_sorted h Hnum) as [_ Hb]. specialize (Hb e He). change (pe_Revision (event_for e)) with e.1. lia.
  - pose proof delivered_sorted as Hs. clear Hdel. induction Hs as [|x l _ IH Hx]; constructor; [exact IH|].
    eapply Forall_impl; [exact Hx|]. cbn. lia.
Qed.

(** The state before an event. *)
Lemma delivered_state event :
  event ∈ wo_Events op -> exists h1 e h2, h = h1 ++ e :: h2 /\ we_PersistedEvent event = event_for e /\
    upto (we_Revision event - 1) h = h1 /\ state_before replay event = Ok (model_state h1).
Proof.
  intros (e & He & _ & E)%delivered_event. apply list_elem_of_split in He as (h1 & h2 & Hh).
  assert (Hr : we_Revision event = e.1) by (unfold we_Revision; by rewrite E).
  assert (He : e.1 = 2 + Z.of_nat (length h1)).
  { pose proof Hnum as Hn. rewrite Hh in Hn. replace (h1 ++ e :: h2) with ((h1 ++ [e]) ++ h2) in Hn by (by rewrite <-app_assoc).
    apply numbered_prefix in Hn. destruct e as [r record]. by apply numbered_snoc in Hn as [_ ?]. }
  assert (Hlen : (length h1 <= length h)%nat) by (rewrite Hh, length_app; lia).
  assert (Hup : upto (we_Revision event - 1) h = h1).
  { rewrite Hr. replace (e.1 - 1) with (1 + Z.of_nat (length h1)) by lia. rewrite <-numbered_take by done.
    rewrite Hh. apply take_app_length. }
  exists h1, e, h2. split; [done|]. split; [done|]. split; [done|].
  unfold state_before. rewrite Hstates by (rewrite Hr; lia). by rewrite Hup.
Qed.

Lemma event_for_key e event : we_PersistedEvent event = event_for e -> we_Key event = Key e.2.
Proof. intros E. unfold we_Key. rewrite E. unfold event_for. cbn. by destruct (IsDelete e.2). Qed.

Lemma delivered_isCreate : Forall (fun event => isCreate_broken replay event = Ok false) (wo_Events op).
Proof.
  rewrite Forall_forall. intros event Hev. destruct (delivered_state event Hev) as (h1 & e & h2 & Hh & E & _ & Hs).
  unfold isCreate_broken. rewrite Hs. cbn [rbind]. rewrite model_lookup, (event_for_key e event E), E.
  change (pe_IsCreate (event_for e)) with (IsCreate e.2). pose proof (Hlink h1 e h2 Hh) as Hl.
  unfold linked_entry in Hl. destruct (IsCreate e.2).
  - rewrite Hl. done.
  - destruct Hl as (x & -> & _). done.
Qed.

Lemma delivered_prevKV event :
  event ∈ wo_Events op -> prevKV_broken replay event = Ok false <->
  we_PrevValue event = None \/ we_PrevValue event = Some (previous_value event).
Proof.
  intros Hev. destruct (delivered_state event Hev) as (h1 & e & h2 & Hh & E & Hup & Hs).
  unfold prevKV_broken, previous_value. rewrite Hs, Hup. cbn [rbind]. rewrite model_lookup.
  destruct (we_PrevValue event) as [prev|]; [|by split; [left|]].
  set (v := default zeroValueRevision _). assert (Hv : mkValueRevision (vr_Value v) (vr_ModRevision v) 0 = v).
  { unfold v. by destruct (live (latest h1 (we_Key event))). }
  rewrite Hv. split.
  - intros [= Hb]. apply negb_false_iff, bool_decide_eq_true in Hb. right. by rewrite Hb.
  - intros [|[= ->]]; [done|]. by rewrite bool_decide_eq_true_2.
Qed.

Lemma delivered_resumable : resumable_broken replay op = false.
Proof.
  unfold resumable_broken. destruct (Z.eqb_spec (wq_Revision (wo_Request op)) 0) as [|Hreq]; [done|].
  destruct (list_find _ _) as [[i want]|] eqn:Ef; [|done].
  unfold firstWatchEvent. destruct (head (wo_Events op)) as [event|] eqn:Ehead; [|done].
  assert (exists rest, wo_Events op = event :: rest) as [rest Eev].
  { clear Hdel. destruct (wo_Events op) as [|x rest]; [done|]. injection Ehead as ->. by exists rest. }
  apply negb_false_iff, bool_decide_eq_true.
  apply list_find_Some in Ef as (Hi & _ & Hfirst).
  destruct (delivered_event event) as (e & He & Hw & E); [rewrite Eev; left|].
  pose proof Hw as (_ & Hab & Hmatch). unfold firstExpectedRevision in Hab.
  rewrite (proj2 (Z.eqb_neq _ 0)) in Hab by done. cbn [negb] in Hab.
  rewrite EventsForWatch_spec in Hi, Hfirst.
  set (G := filter (fun e => wq_Revision (wo_Request op) <= e.1 /\ Event_Match (pe_Event (event_for e)) (wo_Request op) = true) h) in *.
  destruct (numbered_sorted h Hnum) as [Hs _].
  assert (HG : StronglySorted rev_lt G) by (by apply (ssorted_filter rev_lt)).
  assert (HeG : e ∈ G) by (apply list_elem_of_filter; split; [split; [lia|done]|done]).
  (* the first match is the first of G *)
  destruct G as [|g G2] eqn:EG; [by apply not_elem_of_nil in HeG|].
  assert (i = 0%nat) as ->.
  { destruct i as [|i]; [done|]. exfalso. apply (Hfirst 0%nat (event_for g)); [done|lia|].
    assert (Hg : g ∈ G) by (rewrite EG; left). unfold G in Hg.
    apply list_elem_of_filter in Hg as [[Hg1 Hg2] _]. change (pe_Revision (event_for g)) with g.1.
    rewrite (proj2 (Z.ltb_ge _ _)) by lia. by rewrite Hg2. }
  injection Hi as <-. rewrite E. f_equal.
  (* it is wanted, so it is not after the first event *)
  assert (Hge : g.1 <= e.1).
  { apply elem_of_cons in HeG as [->|Hin]; [lia|]. apply StronglySorted_inv in HG as [_ Hg].
    rewrite Forall_forall in Hg. specialize (Hg e Hin). unfold rev_lt in Hg. lia. }
  assert (Hgh : g ∈ h /\ wanted op g).
  { assert (Hg : g ∈ G) by (rewrite EG; left). unfold G in Hg. apply list_elem_of_filter in Hg as [[Hg1 Hg2] Hgh].
    split; [done|]. destruct Hw as (Hw1 & Hw2 & _). split; [done|]. split; [|done].
    unfold firstExpectedRevision. rewrite (proj2 (Z.eqb_neq _ 0)) by done. cbn [negb]. lia. }
  (* and the first event is the first of those that are wanted *)
  assert (Hle : e.1 <= g.1).
  { pose proof Hdel as Hd. rewrite Eev in Hd. destruct Hgh as [Hgh Hgw].
    assert (Hg : g ∈ filter (wanted op) h) by (by apply list_elem_of_filter).
    pose proof (ssorted_filter rev_lt (wanted op) h Hs) as HF. destruct (filter (wanted op) h) as [|x F]; [by apply not_elem_of_nil in Hg|].
    rewrite !fmap_cons in Hd. injection Hd as Hx _. rewrite E in Hx. apply (f_equal pe_Revision) in Hx.
    change (e.1 = x.1) in Hx. apply elem_of_cons in Hg as [->|Hg]; [lia|].
    apply StronglySorted_inv in HF as [_ HF]. rewrite Forall_forall in HF. specialize (HF g Hg). unfold rev_lt in HF. lia. }
  apply (ssorted_rev_inj h); [done|apply Hgh|done|lia].
Qed.
End Delivered.
(** * The checks together *)

Lemma and_then_None err next : and_then err next = Ok None <-> err = None /\ next = Ok None.
Proof. destruct err; cbn; [by split; [|intros []]|tauto]. Qed.

Lemma check_None e (p : WatchOperation -> bool) r : broke e (existsb p r) = None <-> Forall (fun op => p op = false) r.
Proof. by rewrite broke_None, existsb_false. Qed.

Lemma any_None e check l :
  (let? broken := any_broken check l in Ok (broke e broken)) = Ok None <-> Forall (fun x => check x = Ok false) l.
Proof.
  rewrite <-any_broken_false, rbind_Ok. split.
  - intros (b & Hb & [= Hn]). apply broke_None in Hn. by subst b.
  - intros Hb. by exists false.
Qed.

Lemma Forall_bind_iff {A B} (P : B -> Prop) (f : A -> list B) l : Forall P (l ≫= f) <-> Forall (fun x => Forall P (f x)) l.
Proof. induction l as [|x l IH]; [by split|]. by rewrite bind_cons, Forall_app, Forall_cons, IH. Qed.

(** The check of one report. *)
Lemma validateReport_None unique r :
  validateReport unique replay r = Ok None <->
  Forall (fun op => Forall (fun e => Event_Match (pe_Event (we_PersistedEvent e)) (wo_Request op) = true) (wo_Events op)) r /\
  Forall (fun op => ordered_broken 1 (wo_Events op) = false) r /\
  Forall (fun op => unique_broken unique ∅ (wo_Events op) = false) r /\
  Forall (fun op => atomic_broken 1 (wo_Responses op) = false) r /\
  Forall (fun op => bookmarkable_broken 0 0 (wo_Responses op) = false) r /\
  Forall (fun op => resumable_broken replay op = false) r /\
  Forall (fun op => Forall (fun e => isCreate_broken replay e = Ok false) (wo_Events op)) r /\
  Forall (fun op => reliable_broken replay op = false) r /\
  Forall (fun op => wq_WithPrevKV (wo_Request op) = true -> Forall (fun e => prevKV_broken replay e = Ok false) (wo_Events op)) r.
Proof.
  unfold validateReport. rewrite !and_then_None.
  unfold validateFilter, validateOrdered, validateUnique, validateAtomic, validateBookmarkable, validateResumable.
  rewrite !check_None, rbind_Ok.
  assert (Hfilter : Forall (fun op => existsb (fun event => negb (Event_Match (pe_Event (we_PersistedEvent event)) (wo_Request op)))
      (wo_Events op) = false) r <->
    Forall (fun op => Forall (fun e => Event_Match (pe_Event (we_PersistedEvent e)) (wo_Request op) = true) (wo_Events op)) r).
  { apply Forall_iff. intros op. rewrite existsb_false. apply Forall_iff. intros e. apply negb_false_iff. }
  rewrite Hfilter. unfold validateIsCreate.
  assert (Hlast : (exists err, (let? broken := any_broken (isCreate_broken replay) (r ≫= wo_Events) in
        Ok (broke errBrokeIsCreate broken)) = Ok err /\
      and_then err (and_then (validateReliable replay r) (validatePrevKV replay r)) = Ok None) <->
    Forall (fun op => Forall (fun e => isCreate_broken replay e = Ok false) (wo_Events op)) r /\
    Forall (fun op => reliable_broken replay op = false) r /\
    Forall (fun op => wq_WithPrevKV (wo_Request op) = true -> Forall (fun e => prevKV_broken replay e = Ok false) (wo_Events op)) r).
  { rewrite <-Forall_bind_iff, <-(any_None errBrokeIsCreate). unfold validateReliable, validatePrevKV.
    assert (Hprev : Forall (fun x => prevKV_broken replay x = Ok false)
        (filter (fun op => wq_WithPrevKV (wo_Request op) = true) r ≫= wo_Events) <->
      Forall (fun op => wq_WithPrevKV (wo_Request op) = true -> Forall (fun e => prevKV_broken replay e = Ok false) (wo_Events op)) r).
    { rewrite Forall_bind_iff, !Forall_forall. setoid_rewrite list_elem_of_filter. naive_solver. }
    rewrite <-Hprev, <-(any_None errBrokePrevKV), <-check_None. split.
    - intros (err & He & Hn). rewrite !and_then_None in Hn. destruct Hn as (-> & Hr & Hp). by split_and!.
    - intros (Hc & Hr & Hp). exists None. split; [done|]. rewrite !and_then_None. by split_and!. }
  rewrite Hlast. tauto.
Qed.

Lemma watch_correct_report unique r : validateReport unique replay r = Ok None <-> Forall watch_correct r.
Proof.
  rewrite validateReport_None, !Forall_forall. split.
  - intros (_ & Hord & _ & _ & Hbook & _ & _ & Hrel & Hprev) op Hop.
    pose proof (proj1 (reliable_false op) (Hrel op Hop)) as Hdel.
    destruct (proj1 (ordered_false _ _) (Hord op Hop)) as [Hge Hs].
    specialize (Hbook op Hop). rewrite bookmarkable_false in Hbook;
      [|exact Hs|eapply Forall_impl; [exact Hge|]; cbn; lia].
    destruct Hbook as (_ & Hn & Hmarks). split; [done|done| |].
    + intros n Hin Hnn. by destruct (Hn n Hin Hnn).
    + intros event Hw Hev. apply (delivered_prevKV op Hdel event Hev).
      specialize (Hprev op Hop Hw). rewrite Forall_forall in Hprev. by apply Hprev.
  - intros Hall. split_and!; intros op Hop; destruct (Hall op Hop) as [Hdel Hmarks Hn Hprev];
      pose proof (delivered_sorted op Hdel) as Hlt; destruct (delivered_ordered op Hdel 1 ltac:(lia)) as [Hge Hs].
    + rewrite Forall_forall. intros event (e & _ & (_ & _ & Hm) & E)%(delivered_event op Hdel). by rewrite E.
    + by apply ordered_false.
    + apply unique_false; [|intros; apply not_elem_of_empty]. apply (NoDup_fmap_1 fst). rewrite <-list_fmap_compose.
      apply (ssorted_NoDup Z.lt). by apply (ssorted_fmap_on (fun a b => we_Revision a < we_Revision b)).
    + apply atomic_false; [|exact Hlt]. destruct (delivered_ordered op Hdel 2 ltac:(lia)) as [H2 _].
      eapply Forall_impl; [exact H2|]. cbn. lia.
    + apply bookmarkable_false; [exact Hs|eapply Forall_impl; [exact Hge|]; cbn; lia|]. split_and!; [|intros n H1 H2|done].
      * intros e He. rewrite Forall_forall in Hge. specialize (Hge e He). lia.
      * by split; apply Hn.
    + by apply delivered_resumable.
    + by apply delivered_isCreate.
    + by apply reliable_false.
    + intros Hw. rewrite Forall_forall. intros event Hev. apply (delivered_prevKV op Hdel event Hev). by apply Hprev.
Qed.

(** C38: the checks of the watches are exact: over the replay of a log, no
    guarantee is found broken if and only if every watch delivered, in order
    and once, exactly the matching records between its first and its last
    revision, its notifications of progress came after all events up to their
    revision, and the previous values it gave are those of the history. *)
Theorem validateWatch_exact unique reports :
  validateWatchError unique reports replay = Ok None <-> Forall (Forall watch_correct) reports.
Proof.
  induction reports as [|r reports IH]; [by split|]. cbn [validateWatchError].
  rewrite rbind_Ok, Forall_cons, <-IH, <-(watch_correct_report unique r). split.
  - intros (err & He & Hn). rewrite and_then_None in Hn. destruct Hn as [-> Hn]. by split.
  - intros [Hr Hn]. exists None. by rewrite and_then_None.
Qed.

(** * Reads of old revisions *)

(** What a read of a range is to answer: the live keys in it, by key. *)
Definition range_answer (g : history) (o : RangeOptions) (answer : RangeResponse) : Prop :=
  StronglySorted (fun a b => ek_Key a <b ek_Key b) (rs_KVs answer) /\
  rs_Count answer = Z.of_nat (length (rs_KVs answer)) /\
  forall kv, kv ∈ rs_KVs answer <-> exists e, live (latest g (ek_Key kv)) = Some e /\
    ek_ValueRevision kv = model_value (entry_kv e) /\
    if decide (ro_End o = []) then ek_Key kv = ro_Start o else ro_Start o <=b ek_Key kv /\ ek_Key kv <b ro_End o.

Lemma sorted_keys_lt (l : list EtcdKeyValue) :
  NoDup (ek_Key <$> l) -> StronglySorted ek_le l -> StronglySorted (fun a b => ek_Key a <b ek_Key b) l.
Proof.
  induction 2 as [|x l Hs IH Hx]; constructor.
  - apply IH. by apply NoDup_cons_1_2 in H.
  - rewrite fmap_cons, NoDup_cons in H. destruct H as [Hn _]. rewrite Forall_forall in Hx |- *. intros y Hy.
    specialize (Hx y Hy). unfold ek_le in Hx. apply ble_lteq in Hx as [?|E]; [done|]. exfalso. apply Hn.
    rewrite E. by apply list_elem_of_fmap_2.
Qed.

Lemma NoDup_fmap_filter {A B} (f : A -> B) (P : A -> Prop) `{!forall x, Decision (P x)} (l : list A) :
  NoDup (f <$> l) -> NoDup (f <$> filter P l).
Proof.
  induction l as [|x l IH]; [done|]. rewrite fmap_cons, NoDup_cons, filter_cons. intros [Hx Hl].
  case_decide; [|by apply IH]. rewrite fmap_cons, NoDup_cons. split; [|by apply IH].
  intros (y & E & [_ Hy]%list_elem_of_filter)%list_elem_of_fmap. apply Hx. rewrite E. by apply list_elem_of_fmap_2.
Qed.

Lemma getRange_answer g o :
  ro_Limit o = 0 -> exists answer, getRange (model_state g) o = Ok answer /\ range_answer g o answer.
Proof.
  intros Hlim. unfold getRange, range_answer. destruct (bool_decide_reflect (ro_End o = [])) as [He|He]; cbn [negb].
  - rewrite model_lookup. destruct (live (latest g (ro_Start o))) as [e|] eqn:El; cbn [fmap option_fmap option_map].
    + eexists. split; [done|]. cbn [rs_KVs rs_Count]. split_and!; [repeat constructor|done|]. intros [k v].
      rewrite list_elem_of_singleton. cbn [ek_Key ek_ValueRevision]. rewrite decide_True by done. split.
      * intros [= -> ->]. by exists e.
      * intros (e2 & Hl & -> & ->). rewrite El in Hl. by injection Hl as <-.
    + eexists. split; [done|]. cbn [rs_KVs rs_Count]. split_and!; [constructor|done|]. intros [k v].
      cbn [ek_Key ek_ValueRevision]. rewrite decide_True by done. split; [by intros ?%not_elem_of_nil|].
      intros (e2 & Hl & _ & ->). congruence.
  - rewrite Hlim. cbn [Z.eqb negb andb]. set (kvs := filter _ _). eexists. split; [done|]. cbn [rs_KVs rs_Count].
    assert (Hperm : merge_sort ek_le kvs ≡ₚ kvs) by apply merge_sort_Permutation.
    split_and!.
    + apply sorted_keys_lt.
      * rewrite Hperm. unfold kvs. apply NoDup_fmap_filter. rewrite <-list_fmap_compose. apply NoDup_fst_map_to_list.
      * apply StronglySorted_merge_sort; [intros x y z; apply ble_trans|intros x y; apply ble_total].
    + by rewrite Hperm.
    + intros [k v]. rewrite Hperm. unfold kvs. rewrite list_elem_of_filter, list_elem_of_fmap. cbn [ek_Key ek_ValueRevision].
      rewrite decide_False by done. setoid_rewrite elem_of_map_to_list'. split.
      * intros [Hr ([k2 v2] & [= -> ->] & Hm)]. cbn [fst snd] in Hm. rewrite model_lookup in Hm.
        destruct (live (latest g k2)) as [e|]; [|done]. injection Hm as <-. by exists e.
      * intros (e & Hl & -> & Hr). split; [done|]. exists (k, model_value (entry_kv e)). split; [done|].
        cbn [fst snd]. by rewrite model_lookup, Hl.
Qed.

(** C39: the check of a read at an old revision accepts exactly one answer: the
    keys of the range that were live at the revision, in order of the keys,
    with the values and revisions they had then. *)
Theorem serializable_exact o r response :
  1 <= r <= 1 + Z.of_nat (length h) -> ro_Limit o = 0 ->
  exists answer, range_answer (upto r h) o answer /\
    (validateSerializableRead replay (RangeRequest o r) (answered response) = Ok None <->
     er_Body response = RangeBody answer).
Proof.
  intros Hr Hlim. destruct (getRange_answer (upto r h) o Hlim) as (answer & Hget & Hans).
  exists answer. split; [done|]. unfold validateSerializableRead. cbn [answered mr_Persisted mr_Error mr_EtcdResponse orb].
  rewrite bool_decide_eq_true_2 by done. cbn [negb]. rewrite Hstates by done. cbn [Step]. unfold stepRange.
  assert (Hrev : es_Revision (model_state (upto r h)) = r).
  { cbn. replace r with (1 + Z.of_nat (Z.to_nat (r - 1))) at 1 by lia. rewrite <-numbered_take by (done || lia).
    rewrite length_take_le by lia. lia. }
  rewrite Hrev, Z.eqb_refl, orb_true_r, Hget. cbn [rbind answered mr_EtcdResponse er_Body].
  assert (Hver : mkRangeResponse (without_version <$> rs_KVs answer) (rs_Count answer) = answer).
  { destruct answer as [kvs n]. cbn. f_equal. rewrite <-(list_fmap_id kvs) at 2. apply list_fmap_ext.
    intros i kv Hi. apply list_elem_of_lookup_2, Hans in Hi as (e & _ & E & _). destruct kv as [k v].
    cbn in E. subst v. done. }
  rewrite Hver. destruct (er_Body response) as [|got| | | | |]; try (by split).
  case_bool_decide as Hb; cbn [negb]; split; try done; [by intros _; rewrite Hb|]. by intros [= ->].
Qed.
End ValidateSpec.

(** * Runs *)

(** A watch of a key, or of all keys with it as prefix. *)
#[global] Instance sample_watch : EtcdWatch (ET := sample_etcd) := {|
  Event_Match e w := if wq_WithPrefix w then bool_decide (wq_Key w `prefix_of` ee_Key e) else bool_decide (wq_Key w = ee_Key e)
|}.

Definition sample_replay : EtcdReplay :=
  mkEtcdReplay (freshEtcdState :: freshEtcdState :: states_after (CF := seq_config) [] seq_history)
    (event_for <$> seq_history) (request_of <$> seq_history).

Example sample_replay_new : NewReplay (request_of <$> seq_history) = Ok sample_replay.
Proof. vm_compute. reflexivity. Qed.

(** A watch from revision 3 on, with the previous values of updates, in two
    responses and a notification of progress. *)
Definition sample_report : list WatchOperation :=
  let event r prev := mkWatchEvent (event_for (default (0, sample_rec [] [] false false dummyVersionstamp dummyVersionstamp Byte.x00)
                                     (seq_history !! Z.to_nat (r - 2)))) prev in
  [mkWatchOperation (mkWatchRequest (str "/") 3 true true true)
     [mkWatchResponse [event 3 None; event 4 (Some (mkValueRevision (str "one") 2 0))] false 4;
      mkWatchResponse [event 5 (Some (mkValueRevision (str "two") 3 0))] false 5;
      mkWatchResponse [] true 5]].

Example sample_report_valid : validateWatchError true [sample_report] sample_replay = Ok None.
Proof. vm_compute. reflexivity. Qed.

Lemma validateWatch_exact_witness :
  validateWatchError true [sample_report] sample_replay = Ok None <->
  Forall (Forall (watch_correct (CF := seq_config) seq_history)) [sample_report].
Proof.
  apply (validateWatch_exact (CF := seq_config) seq_history sample_replay).
  - vm_compute. reflexivity.
  - exact seq_linked.
  - reflexivity.
  - intros r Hr. apply (replay_states (CF := seq_config)); [vm_compute; reflexivity|exact Hr].
Defined.

(** A read of all keys at revision 3. *)
Definition sample_read_response : EtcdResponse :=
  mkEtcdResponse (RangeBody (mkRangeResponse
    [mkEtcdKeyValue (str "/a") (mkValueRevision (str "one") 2 0); mkEtcdKeyValue (str "/b") (mkValueRevision (str "two") 3 0)] 2)) "" 3.

Example sample_read_valid :
  validateSerializableRead sample_replay (RangeRequest (mkRangeOptions (str "/") (str "0") 0) 3) (answered sample_read_response) = Ok None.
Proof. vm_compute. reflexivity. Qed.

Lemma serializable_exact_witness :
  exists answer, range_answer (CF := seq_config) (upto 3 seq_history) (mkRangeOptions (str "/") (str "0") 0) answer /\
    (validateSerializableRead sample_replay (RangeRequest (mkRangeOptions (str "/") (str "0") 0) 3) (answered sample_read_response) = Ok None <->
     er_Body sample_read_response = RangeBody answer).
Proof.
  apply (serializable_exact (CF := seq_config) seq_history sample_replay).
  - vm_compute. reflexivity.
  - intros r Hr. apply (replay_states (CF := seq_config)); [vm_compute; reflexivity|exact Hr].
  - cbn. lia.
  - reflexivity.
Defined.
