(* ===== verification/PatchHistory.v ===== *)
(** test/robustness/validate/validate.go and patch_history.go: how the recorded
    operations of the clients are prepared for the check of linearizability,
    and how those that failed are completed from the driver's log.

    The checker itself is a library and a parameter.  Unknown types of requests
    and operations, for which the code panics, do not exist here. *)
From stdpp Require Import base strings list gmap sorting.
From Stdlib Require Import Strings.Byte ZArith Lia.
From S2P Require Import Prelude EtcdModel Replay Validate.

(** [EtcdRequest.IsRead] of etcd's package. *)
Class EtcdRead `{ET : EtcdTypes} := { IsRead : EtcdRequest -> bool }.

Section Patch.
Context `{ET : EtcdTypes, EW : !EtcdWatch, ER : !EtcdRead, !Countable ValueOrHash}.

(** [porcupine.Operation] with the types that the tests put into it, and
    [report.ClientReport]. *)
Record Operation := mkOperation {
  op_ClientId : Z;
  op_Input : EtcdRequest;
  op_Call : Z;
  op_Output : MaybeEtcdResponse;
  op_Return : Z
}.

Record Report := mkReport {
  rep_KeyValue : list Operation;
  rep_Watch : list WatchOperation
}.

Definition set_Return (op : Operation) (t : Z) : Operation :=
  mkOperation (op_ClientId op) (op_Input op) (op_Call op) (op_Output op) t.
Definition set_Output (op : Operation) (r : MaybeEtcdResponse) : Operation :=
  mkOperation (op_ClientId op) (op_Input op) (op_Call op) r (op_Return op).

Definition has_error (r : MaybeEtcdResponse) : bool := negb (bool_decide (mr_Error r = ""%string)).

(** * validate.go *)

Definition isLinearizable (request : EtcdRequest) (response : MaybeEtcdResponse) : bool :=
  if IsRead request && has_error response then false
  else match request with Defragment => false | _ => true end.

Definition isSerializable (request : EtcdRequest) (response : MaybeEtcdResponse) : bool :=
  if IsRead request && has_error response then false
  else match request with RangeRequest _ revision => negb (revision =? 0) | _ => false end.

(** An operation that failed may take effect at any time after its call. *)
Definition prepared (op : Operation) : Operation :=
  if has_error (op_Output op) then set_Return op int64_max else op.

(** The loop of [prepareAndCategorizeOperations] over the operations of all
    reports: linearizable, serializable and visualized ones. *)
Fixpoint categorize (ops : list Operation) : list Operation * list Operation * list Operation :=
  match ops with
  | [] => ([], [], [])
  | op :: ops =>
      let '(linearizable, serializable, forVisualization) := categorize ops in
      let serializable := if isSerializable (op_Input op) (op_Output op) then op :: serializable else serializable in
      if negb (isLinearizable (op_Input op) (op_Output op)) then (linearizable, serializable, op :: forVisualization)
      else (prepared op :: linearizable, serializable, forVisualization)
  end.

Definition report_operations (reports : list Report) : list Operation := reports ≫= rep_KeyValue.

Definition prepareAndCategorizeOperations (reports : list Report)
    : list Operation * list Operation * list Operation :=
  categorize (report_operations reports).

Inductive assumption_error :=
| ErrNotEmptyDatabase
| errConcurrentRequest (client : Z)
| errEndsBeforeStart (op : Operation).

Definition validateEmptyDatabaseAtStart (reports : list Report) : option assumption_error :=
  match reports with
  | [] => None
  | _ =>
      if existsb (fun op => (er_Revision (mr_EtcdResponse (op_Output op)) =? 1) && IsRead (op_Input op))
           (report_operations reports) then None
      else Some ErrNotEmptyDatabase
  end.

(** The loop of [validateNonConcurrentClientRequests]. *)
Fixpoint non_concurrent (lastClientRequestReturn : gmap Z Z) (ops : list Operation) : option assumption_error :=
  match ops with
  | [] => None
  | op :: ops =>
      let lastRequest := default 0 (lastClientRequestReturn !! op_ClientId op) in
      if op_Call op <=? lastRequest then Some (errConcurrentRequest (op_ClientId op))
      else if op_Return op <=? op_Call op then Some (errEndsBeforeStart op)
      else non_concurrent (<[op_ClientId op := op_Return op]> lastClientRequestReturn) ops
  end.

Definition validateNonConcurrentClientRequests (reports : list Report) : option assumption_error :=
  non_concurrent ∅ (report_operations reports).

Definition checkValidationAssumptions (reports : list Report) : option assumption_error :=
  match validateEmptyDatabaseAtStart reports with
  | Some err => Some err
  | None => validateNonConcurrentClientRequests reports
  end.

(** * patch_history.go *)

(** The key and the value of a put. *)
Definition keyValue : Type := bytes * ValueOrHash.

Definition put_kv (put : PutOptions) : keyValue := (po_Key put, po_Value put).

Definition txn_operations (request : TxnRequest) : list EtcdOperation :=
  tx_OperationsOnSuccess request ++ tx_OperationsOnFailure request.

(** [putRevision]: the revision at which a watch saw a put. *)
Definition event_revision (requestRevision : gmap keyValue Z) (event : WatchEvent) : gmap keyValue Z :=
  match ee_Type (pe_Event (we_PersistedEvent event)) with
  | PutType =>
      <[(we_Key event, ee_Value (pe_Event (we_PersistedEvent event))) := we_Revision event]> requestRevision
  | RangeType | DeleteType => requestRevision
  end.

Definition putRevision (reports : list Report) : gmap keyValue Z :=
  fold_left event_revision ((reports ≫= rep_Watch) ≫= wo_Events) ∅.

Definition count_put (counter : gmap keyValue Z) (op : EtcdOperation) : gmap keyValue Z :=
  match op with
  | PutOperation put => <[put_kv put := default 0 (counter !! put_kv put) + 1]> counter
  | DeleteOperation _ | RangeOperation _ => counter
  end.

Definition countPuts (counter : gmap keyValue Z) (request : EtcdRequest) : gmap keyValue Z :=
  match request with
  | Txn request => fold_left count_put (txn_operations request) counter
  | _ => counter
  end.

Definition countClientPuts (reports : list Report) : gmap keyValue Z :=
  fold_left (fun counter op => countPuts counter (op_Input op)) (report_operations reports) ∅.

Definition countPersistedPuts (requests : list EtcdRequest) : gmap keyValue Z :=
  fold_left countPuts requests ∅.

Section Counted.
Context (clientPutCount : gmap keyValue Z).

Definition put_count (kv : keyValue) : Z := default 0 (clientPutCount !! kv).

(** [uniquePutReturnTime], the first loop: an operation. *)
Definition put_return (ret : Z) (earliestReturnTime : gmap keyValue Z) (op : EtcdOperation) : gmap keyValue Z :=
  match op with
  | PutOperation put =>
      let kv := put_kv put in
      if 1 <? put_count kv then earliestReturnTime
      else
        let earliestReturnTime :=
          match earliestReturnTime !! kv with
          | Some returnTime => if ret <? returnTime then <[kv := ret]> earliestReturnTime else earliestReturnTime
          | None => <[kv := ret]> earliestReturnTime
          end in
        <[kv := ret]> earliestReturnTime
  | _ => earliestReturnTime
  end.

Definition operation_return (st : gmap keyValue Z * Z) (op : Operation) : gmap keyValue Z * Z :=
  let '(earliestReturnTime, lastReturnTime) := st in
  (match op_Input op with
   | Txn request => fold_left (put_return (op_Return op)) (txn_operations request) earliestReturnTime
   | _ => earliestReturnTime
   end,
   if lastReturnTime <? op_Return op then op_Return op else lastReturnTime).

(** The second loop, from the last persisted request to the first: a put ... *)
Definition persisted_put (st : gmap keyValue Z * Z) (op : EtcdOperation) : gmap keyValue Z * Z :=
  let '(earliestReturnTime, lastReturnTime) := st in
  match op with
  | PutOperation put =>
      let kv := put_kv put in
      if 1 <? put_count kv then (earliestReturnTime, lastReturnTime)
      else
        match earliestReturnTime !! kv with
        | Some returnTime =>
            let lastReturnTime := Z.min returnTime lastReturnTime in
            (<[kv := lastReturnTime]> earliestReturnTime, lastReturnTime)
        | None => (earliestReturnTime, lastReturnTime)
        end
  | _ => (earliestReturnTime, lastReturnTime)
  end.

(** ... and a request: a range or a defragmentation is not persisted. *)
Definition persisted_return (st : gmap keyValue Z * Z) (request : EtcdRequest) : res (gmap keyValue Z * Z) :=
  let '(earliestReturnTime, lastReturnTime) := st in
  match request with
  | Txn request =>
      let lastReturnTime :=
        if negb (lastReturnTime =? int64_max) then to_int64 (lastReturnTime - 1) else lastReturnTime in
      Ok (fold_left persisted_put (tx_OperationsOnSuccess request) (earliestReturnTime, lastReturnTime))
  | LeaseGrant _ | LeaseRevoke _ | CompactRequest _ => Ok (earliestReturnTime, lastReturnTime)
  | RangeRequest _ _ | Defragment => Panic
  end.

Fixpoint persisted_returns (st : gmap keyValue Z * Z) (reversed : list EtcdRequest) : res (gmap keyValue Z * Z) :=
  match reversed with
  | [] => Ok st
  | request :: reversed => let? st := persisted_return st request in persisted_returns st reversed
  end.

Definition uniquePutReturnTime (allOperations : list Operation) (persistedRequests : list EtcdRequest)
    : res (gmap keyValue Z) :=
  let? '(earliestReturnTime, _) :=
    persisted_returns (fold_left operation_return allOperations (∅, 0)) (reverse persistedRequests) in
  Ok earliestReturnTime.

Definition hasWriteOperation (ops : list EtcdOperation) : bool :=
  existsb (fun op => match op with PutOperation _ | DeleteOperation _ => true | RangeOperation _ => false end) ops.

Definition hasUniqueWriteOperation (ops : list EtcdOperation) : bool :=
  existsb (fun op => match op with
                     | PutOperation put => put_count (put_kv put) =? 1
                     | DeleteOperation _ | RangeOperation _ => false
                     end) ops.

Definition isUniqueOps (ops : list EtcdOperation) : bool :=
  hasUniqueWriteOperation ops || negb (hasWriteOperation ops).

Definition isUniqueTxn (request : TxnRequest) : bool :=
  isUniqueOps (tx_OperationsOnSuccess request) && isUniqueOps (tx_OperationsOnFailure request).

(** [patchOperations]: what is known of a failed transaction, after one of its
    operations. *)
Record patch := mkPatch {
  pt_txnRevision : Z;
  pt_persisted : bool;
  pt_Return : Z
}.

Definition patch_put (watchRevision putReturnTime persistedPutCount : gmap keyValue Z) (p : patch) (op : EtcdOperation)
    : patch :=
  match op with
  | PutOperation put =>
      let kv := put_kv put in
      let persisted := match persistedPutCount !! kv with Some _ => true | None => pt_persisted p end in
      if negb (put_count kv =? 1) then mkPatch (pt_txnRevision p) persisted (pt_Return p)
      else
        mkPatch (match watchRevision !! kv with Some revision => revision | None => pt_txnRevision p end) persisted
          (match putReturnTime !! kv with Some returnTime => Z.min (pt_Return p) returnTime | None => pt_Return p end)
  | DeleteOperation _ | RangeOperation _ => p
  end.

(** An operation after patching, or none when it is removed. *)
Definition patch_operation (watchRevision putReturnTime persistedPutCount : gmap keyValue Z) (op : Operation)
    : option Operation :=
  match op_Input op with
  | Txn request =>
      if negb (has_error (op_Output op)) then Some op
      else
        let p := fold_left (patch_put watchRevision putReturnTime persistedPutCount) (txn_operations request)
                   (mkPatch 0 false (op_Return op)) in
        let op := set_Return op (pt_Return p) in
        if isUniqueTxn request then
          if negb (pt_persisted p) then None
          else if negb (pt_txnRevision p =? 0) then Some (set_Output op (persisted (pt_txnRevision p)))
          else Some (set_Output op (persisted 0))
        else Some op
  | _ => Some op
  end.

Definition patchOperations (operations : list Operation)
    (watchRevision putReturnTime persistedPutCount : gmap keyValue Z) : list Operation :=
  omap (patch_operation watchRevision putReturnTime persistedPutCount) operations.
End Counted.

Definition patchLinearizableOperations (operations : list Operation) (reports : list Report)
    (persistedRequests : list EtcdRequest) : res (list Operation) :=
  let putRevision := putRevision reports in
  let persistedPutCount := countPersistedPuts persistedRequests in
  let clientPutCount := countClientPuts reports in
  let? putReturnTime := uniquePutReturnTime clientPutCount operations persistedRequests in
  Ok (patchOperations clientPutCount operations putRevision putReturnTime persistedPutCount).

(** * The whole validation *)

(** [porcupine.CheckResult] and [validate.RobustnessResult]; [NotRun] is a
    part that is skipped. *)
Inductive CheckResult := CheckOk | CheckUnknown | CheckIllegal.

Inductive verdict (E : Type) := NotRun | Success | Failure (e : E).
Arguments NotRun {E}.
Arguments Success {E}.
Arguments Failure {E} e.

Definition ResultFromError {E} (err : option E) : verdict E :=
  match err with Some e => Failure e | None => Success end.

Record RobustnessResult := mkRobustnessResult {
  rr_Assumptions : verdict assumption_error;
  rr_Linearization : verdict String.string;
  rr_Watch : verdict watch_error;
  rr_Serializable : verdict serializable_error
}.

(** [validateLinearizableOperationsAndVisualize]: the answer of the checker. *)
Definition validateLinearizableOperations (CheckOperations : list Operation -> CheckResult) (operations : list Operation)
    : verdict String.string :=
  match CheckOperations operations with
  | CheckOk => Success
  | CheckUnknown => Failure "timed out"%string
  | CheckIllegal => Failure "illegal"%string
  end.

(** [ValidateAndReturnVisualize]; a broken linearization does not stop the
    other checks. *)
Definition ValidateAndReturnVisualize (CheckOperations : list Operation -> CheckResult) (ExpectRevisionUnique : bool)
    (reports : list Report) (persistedRequests : list EtcdRequest) : res RobustnessResult :=
  match checkValidationAssumptions reports with
  | Some err => Ok (mkRobustnessResult (Failure err) NotRun NotRun NotRun)
  | None =>
      let '(linearizableOperations, serializableOperations, _) := prepareAndCategorizeOperations reports in
      match persistedRequests with
      | [] =>
          Ok (mkRobustnessResult Success (validateLinearizableOperations CheckOperations linearizableOperations)
                NotRun NotRun)
      | _ =>
          let? linearizableOperations := patchLinearizableOperations linearizableOperations reports persistedRequests in
          let linearization := validateLinearizableOperations CheckOperations linearizableOperations in
          let? replay := NewReplay persistedRequests in
          let? watch := validateWatchError ExpectRevisionUnique (rep_Watch <$> reports) replay in
          let? serializable :=
            validateSerializableOperationsError replay
              ((fun op => (op_Input op, op_Output op)) <$> serializableOperations) None in
          Ok (mkRobustnessResult Success linearization (ResultFromError watch) (ResultFromError serializable))
      end
  end.
End Patch.
