(* ===== verification/PatchSpec.v ===== *)
(** What the preparation of recorded operations keeps: an operation that took
    effect can still be placed where it did after patching. *)
From stdpp Require Import base strings list gmap sorting.
From Stdlib Require Import Strings.Byte ZArith Lia.
From S2P Require Import Prelude EtcdModel EtcdModelSpec Replay Validate PatchHistory.

Lemma StronglySorted_reverse {A} (R : relation A) l :
  StronglySorted R l -> StronglySorted (flip R) (reverse l).
Proof.
  induction 1 as [|x l Hl IH Hx]; [constructor|]. rewrite reverse_cons. apply StronglySorted_app_2; [|done|].
  - intros a b Ha ->%list_elem_of_singleton. apply (proj1 (Forall_forall _ _) Hx). by apply elem_of_reverse.
  - repeat constructor.
Qed.

Section PatchSpec.
Context `{ET : EtcdTypes, EW : !EtcdWatch, ER : !EtcdRead, !Countable ValueOrHash}.

(** * Counting puts *)

Definition op_puts (op : EtcdOperation) : list keyValue :=
  match op with PutOperation put => [put_kv put] | _ => [] end.

Definition request_puts (request : EtcdRequest) : list keyValue :=
  match request with Txn request => txn_operations request ≫= op_puts | _ => [] end.

Definition occurrences (kv : keyValue) (l : list keyValue) : Z := Z.of_nat (length (filter (kv =.) l)).

Lemma occurrences_app kv l k : occurrences kv (l ++ k) = occurrences kv l + occurrences kv k.
Proof. unfold occurrences. rewrite filter_app, length_app. lia. Qed.

Lemma occurrences_nonneg kv l : 0 <= occurrences kv l.
Proof. unfold occurrences. lia. Qed.

Lemma occurrences_elem kv l : kv ∈ l -> 1 <= occurrences kv l.
Proof.
  unfold occurrences. intros Hin. assert (Hf : kv ∈ filter (kv =.) l) by (by apply list_elem_of_filter).
  destruct (filter (kv =.) l); [by apply not_elem_of_nil in Hf|cbn; lia].
Qed.

(** A value that occurs once comes from one element. *)
Lemma occurrences_unique {A} kv (g : A -> list keyValue) l x y :
  occurrences kv (l ≫= g) <= 1 -> x ∈ l -> y ∈ l -> kv ∈ g x -> kv ∈ g y -> x = y.
Proof.
  induction l as [|z l IH]; [by intros _ ?%not_elem_of_nil|].
  cbn [mbind list_bind]. rewrite occurrences_app. intros Hocc Hx Hy Hgx Hgy.
  pose proof (occurrences_nonneg kv (g z)). pose proof (occurrences_nonneg kv (l ≫= g)).
  assert (Hin : forall w, w ∈ l -> kv ∈ g w -> 1 <= occurrences kv (l ≫= g)).
  { intros w Hw Hg. apply occurrences_elem, list_elem_of_bind. eauto. }
  apply elem_of_cons in Hx as [->|Hx], Hy as [->|Hy]; [done|..].
  - specialize (Hin y Hy Hgy). apply occurrences_elem in Hgx. lia.
  - specialize (Hin x Hx Hgx). apply occurrences_elem in Hgy. lia.
  - apply IH; try done. lia.
Qed.

Lemma count_put_fold (kv : keyValue) (ops : list EtcdOperation) (m : gmap keyValue Z) :
  default 0 (fold_left count_put ops m !! kv) = default 0 (m !! kv) + occurrences kv (ops ≫= op_puts).
Proof.
  revert m; induction ops as [|op ops IH]; intros m; cbn [fold_left mbind list_bind]; [unfold occurrences; cbn; lia|].
  rewrite occurrences_app, IH. destruct op as [r|put|k]; cbn [count_put op_puts]; [unfold occurrences at 2; cbn; lia| |unfold occurrences at 2; cbn; lia].
  unfold occurrences at 2. rewrite filter_cons, filter_nil. destruct (decide (kv = put_kv put)) as [->|Hne].
  - rewrite lookup_insert_eq. cbn. lia.
  - rewrite lookup_insert_ne by done. cbn. lia.
Qed.

Lemma countPuts_count (kv : keyValue) (m : gmap keyValue Z) (request : EtcdRequest) :
  default 0 (countPuts m request !! kv) = default 0 (m !! kv) + occurrences kv (request_puts request).
Proof. destruct request; cbn [countPuts request_puts]; rewrite ?count_put_fold; unfold occurrences; cbn; lia. Qed.

Lemma count_fold {A} (g : A -> EtcdRequest) (kv : keyValue) (l : list A) (m : gmap keyValue Z) :
  default 0 (fold_left (fun c x => countPuts c (g x)) l m !! kv) =
  default 0 (m !! kv) + occurrences kv (l ≫= request_puts ∘ g).
Proof.
  revert m; induction l as [|x l IH]; intros m; cbn [fold_left mbind list_bind]; [unfold occurrences; cbn; lia|].
  rewrite IH, countPuts_count, occurrences_app. cbn [compose]. unfold compose. lia.
Qed.

Lemma persisted_counted (kv : keyValue) (requests : list EtcdRequest) (request : EtcdRequest) :
  request ∈ requests -> kv ∈ request_puts request -> is_Some (countPersistedPuts requests !! kv).
Proof.
  intros Hr Hkv. pose proof (count_fold id kv requests ∅) as H. unfold id in H.
  change (fold_left (fun c x => countPuts c x) requests ∅) with (countPersistedPuts requests) in H.
  assert (1 <= occurrences kv (requests ≫= request_puts ∘ (fun x => x))).
  { apply occurrences_elem, list_elem_of_bind. eauto. }
  destruct (countPersistedPuts requests !! kv); [eauto|]. rewrite lookup_empty in H. cbn in *. lia.
Qed.

(** * Prepared operations *)

Lemma prepared_Input op : op_Input (prepared op) = op_Input op.
Proof. unfold prepared. by destruct (has_error _). Qed.

Lemma categorize_linearizable ops op :
  op ∈ (categorize ops).1.1 -> exists o, o ∈ ops /\ op = prepared o.
Proof.
  induction ops as [|o ops IH]; cbn [categorize]; [by intros ?%not_elem_of_nil|].
  destruct (categorize ops) as [[lin ser] vis]. cbn [fst] in IH.
  destruct (isLinearizable (op_Input o) (op_Output o)); cbn [negb fst].
  - intros [->|Hin]%elem_of_cons; [exists o; split; [by left|done]|].
    destruct (IH Hin) as (o2 & H2 & ->). exists o2. split; [by right|done].
  - intros Hin. destruct (IH Hin) as (o2 & H2 & ->). exists o2. split; [by right|done].
Qed.

Section Reports.
Context (reports : list Report).

Definition linearizable : list Operation := (prepareAndCategorizeOperations reports).1.1.

Abbreviation counts := (countClientPuts reports).

Lemma put_count_occurrences kv :
  put_count counts kv = occurrences kv (report_operations reports ≫= request_puts ∘ op_Input).
Proof. unfold put_count, countClientPuts. rewrite count_fold. by rewrite lookup_empty. Qed.

Lemma put_count_pos op kv : op ∈ linearizable -> kv ∈ request_puts (op_Input op) -> 1 <= put_count counts kv.
Proof.
  intros (o & Ho & ->)%categorize_linearizable. rewrite prepared_Input. intros Hkv.
  rewrite put_count_occurrences. apply occurrences_elem, list_elem_of_bind. eauto.
Qed.

(** A put that the clients sent once belongs to one operation. *)
Lemma unique_operation kv op1 op2 :
  put_count counts kv = 1 -> op1 ∈ linearizable -> op2 ∈ linearizable ->
  kv ∈ request_puts (op_Input op1) -> kv ∈ request_puts (op_Input op2) -> op1 = op2.
Proof.
  intros Hc (o1 & Ho1 & ->)%categorize_linearizable (o2 & Ho2 & ->)%categorize_linearizable.
  rewrite !prepared_Input. intros H1 H2. f_equal.
  eapply (occurrences_unique kv (request_puts ∘ op_Input)); try done. rewrite <-put_count_occurrences. lia.
Qed.

(** * Return times *)

(** The first loop keeps return times of operations only, and bounds them. *)
Lemma put_return_fold (ret : Z) (ops : list EtcdOperation) (m : gmap keyValue Z) (P : keyValue -> Z -> Prop) :
  (forall kv v, m !! kv = Some v -> P kv v) ->
  (forall kv, kv ∈ (ops ≫= op_puts) -> put_count counts kv <= 1 -> P kv ret) ->
  forall kv v, fold_left (put_return counts ret) ops m !! kv = Some v -> P kv v.
Proof.
  revert m; induction ops as [|op ops IH]; intros m Hm Hops kv v; cbn [fold_left]; [apply Hm|].
  apply IH; [|intros kv2 Hin; apply Hops; cbn [mbind list_bind]; apply elem_of_app; by right].
  clear kv v. intros kv v. destruct op as [r|put|k]; cbn [put_return]; [apply Hm| |apply Hm].
  destruct (Z.ltb_spec 1 (put_count counts (put_kv put))); [apply Hm|].
  assert (HP : P (put_kv put) ret) by (apply Hops; [cbn [mbind list_bind op_puts]; apply elem_of_app; left; by left|lia]).
  destruct (decide (kv = put_kv put)) as [->|Hne]; [rewrite lookup_insert_eq; by intros [= <-]|].
  rewrite lookup_insert_ne by done.
  destruct (m !! put_kv put); [destruct (ret <? z)|]; rewrite ?lookup_insert_ne by done; apply Hm.
Qed.

Definition returned (ops : list Operation) (kv : keyValue) (v : Z) : Prop :=
  put_count counts kv <= 1 /\ exists op, op ∈ ops /\ kv ∈ request_puts (op_Input op) /\ v = op_Return op.

Lemma operation_return_fold (ops all : list Operation) (m : gmap keyValue Z) (L B : Z) :
  ops ⊆ all -> (forall kv v, m !! kv = Some v -> returned all kv v) ->
  L <= B -> Forall (fun op => op_Return op <= B) ops ->
  let '(m2, L2) := fold_left (operation_return counts) ops (m, L) in
  (forall kv v, m2 !! kv = Some v -> returned all kv v) /\ L <= L2 <= B /\ Forall (fun op => op_Return op <= L2) ops.
Proof.
  revert m L; induction ops as [|op ops IH]; intros m L Hsub Hm HL Hall; cbn [fold_left]; [split_and!; done|].
  apply Forall_cons in Hall as [Hop Hall]. cbn [operation_return].
  set (m1 := match op_Input op with Txn _ => _ | _ => m end).
  set (L1 := if L <? op_Return op then op_Return op else L).
  assert (HL1 : L <= L1 /\ op_Return op <= L1 /\ L1 <= B).
  { unfold L1. destruct (Z.ltb_spec L (op_Return op)); lia. }
  assert (Hm1 : forall kv v, m1 !! kv = Some v -> returned all kv v).
  { unfold m1. destruct (op_Input op) as [| request | | | |] eqn:Hin; try apply Hm.
    intros kv v. apply (put_return_fold (op_Return op) _ m (returned all)); [apply Hm|].
    intros kv2 Hkv2 Hc. split; [done|]. exists op. rewrite Hin. split_and!; [apply Hsub; by left|done..]. }
  specialize (IH m1 L1). destruct (fold_left (operation_return counts) ops (m1, L1)) as [m2 L2].
  destruct IH as (H1 & H2 & H3); [set_solver|done|lia|done|]. split_and!; [done|lia|lia|]. constructor; [lia|done].
Qed.

(** * The log *)

(** A request that writes. *)
Definition writes (request : EtcdRequest) : Prop :=
  exists q, request = Txn q /\ hasWriteOperation (txn_operations q) = true.

(** The log with the times at which its requests took effect: each is the
    request of a client between the call and the return of its operation, and
    one with a put that was sent once is in the log once. *)
Record took_effect (log : list (EtcdRequest * Z)) : Prop := mkTookEffect {
  te_order : StronglySorted (fun a b => a.2 < b.2) log;
  te_client r t : (r, t) ∈ log -> 0 <= t /\ writes r /\
    exists op, op ∈ linearizable /\ op_Input op = r /\ op_Call op < t < op_Return op;
  te_once r t t2 kv : (r, t) ∈ log -> (r, t2) ∈ log -> kv ∈ request_puts r -> put_count counts kv = 1 -> t = t2
}.

Section Log.
Context (log : list (EtcdRequest * Z)) (Hlog : took_effect log)
        (Hreturns : Forall (fun op => op_Return op <= int64_max) linearizable).

(** A return time that is not before the effect of the request that has the
    put. *)
Definition late (kv : keyValue) (v : Z) : Prop :=
  put_count counts kv = 1 /\ forall r t, (r, t) ∈ log -> kv ∈ request_puts r -> t <= v.

Lemma returned_late kv v : returned linearizable kv v -> late kv v.
Proof.
  intros (Hc & op & Hop & Hkv & ->).
  assert (Hone : put_count counts kv = 1) by (pose proof (put_count_pos op kv Hop Hkv); lia).
  split; [done|]. intros r t Hin Hr. destruct (te_client _ Hlog r t Hin) as (_ & _ & op2 & Hop2 & <- & Ht).
  rewrite (unique_operation kv op op2) by done. lia.
Qed.

(** The time of the one request of the log that has a put. *)
Lemma late_request r t kv v :
  (r, t) ∈ log -> kv ∈ request_puts r -> put_count counts kv = 1 -> t <= v -> late kv v.
Proof.
  intros Hin Hkv Hc Hle. split; [done|]. intros r2 t2 Hin2 Hkv2.
  destruct (te_client _ Hlog r t Hin) as (_ & _ & op & Hop & Hr & _).
  destruct (te_client _ Hlog r2 t2 Hin2) as (_ & _ & op2 & Hop2 & Hr2 & _).
  assert (Heq : r = r2).
  { rewrite <-Hr, <-Hr2. f_equal. apply (unique_operation kv); try done; congruence. }
  rewrite <-Heq in Hin2. by rewrite <-(te_once _ Hlog r t t2 kv Hin Hin2 Hkv Hc).
Qed.

Lemma persisted_put_fold (r : EtcdRequest) (t : Z) (ops : list EtcdOperation) (m : gmap keyValue Z) (L : Z) :
  (r, t) ∈ log -> (forall kv, kv ∈ (ops ≫= op_puts) -> kv ∈ request_puts r) ->
  (forall kv v, m !! kv = Some v -> late kv v) -> t <= L ->
  let '(m2, L2) := fold_left (persisted_put counts) ops (m, L) in
  (forall kv v, m2 !! kv = Some v -> late kv v) /\ t <= L2 <= L.
Proof.
  intros Hin. revert m L; induction ops as [|op ops IH]; intros m L Hops Hm HL; cbn [fold_left]; [done|].
  assert (Hrest : forall kv, kv ∈ (ops ≫= op_puts) -> kv ∈ request_puts r).
  { intros kv Hkv. apply Hops. cbn [mbind list_bind]. apply elem_of_app. by right. }
  destruct op as [o|put|k]; cbn [persisted_put]; [by apply IH| |by apply IH].
  destruct (1 <? put_count counts (put_kv put)); [by apply IH|].
  destruct (m !! put_kv put) as [v|] eqn:Hv; [|by apply IH].
  destruct (Hm _ _ Hv) as [Hc Hlate].
  assert (Hkv : put_kv put ∈ request_puts r) by (apply Hops; cbn [mbind list_bind op_puts]; apply elem_of_app; left; by left).
  specialize (Hlate r t Hin Hkv).
  specialize (IH (<[put_kv put := Z.min v L]> m) (Z.min v L) Hrest).
  destruct (fold_left (persisted_put counts) ops _) as [m2 L2]. destruct IH as (H1 & H2); [|lia|split; [done|lia]].
  intros kv w. destruct (decide (kv = put_kv put)) as [->|Hne].
  - rewrite lookup_insert_eq. intros [= <-]. eapply late_request; try done. lia.
  - rewrite lookup_insert_ne by done. apply Hm.
Qed.

(** The second loop, over what is left of the log, its last request first. *)
Lemma persisted_returns_late (todo : list (EtcdRequest * Z)) (m : gmap keyValue Z) (L : Z) :
  StronglySorted (fun a b => b.2 < a.2) todo -> todo ⊆ log ->
  (forall kv v, m !! kv = Some v -> late kv v) ->
  L <= int64_max -> Forall (fun e => e.2 < L) todo ->
  exists m2 L2, persisted_returns counts (m, L) todo.*1 = Ok (m2, L2) /\ forall kv v, m2 !! kv = Some v -> late kv v.
Proof.
  revert m L; induction todo as [|[r t] todo IH]; intros m L Hsort Hsub Hm HL Hlt; [by exists m, L|].
  apply StronglySorted_inv in Hsort as [Hsort Hhead]. apply Forall_cons in Hlt as [Ht Hlt]. cbn [snd] in Ht.
  assert (Hin : (r, t) ∈ log) by (apply Hsub; by left).
  destruct (te_client _ Hlog r t Hin) as (H0 & (q & -> & _) & _).
  cbn [fmap list_fmap fst persisted_returns persisted_return].
  set (L1 := if negb (L =? int64_max) then to_int64 (L - 1) else L).
  assert (HL1 : t <= L1 <= int64_max).
  { unfold L1. destruct (Z.eqb_spec L int64_max); cbn [negb]; [lia|].
    rewrite to_int64_id by (unfold is_int64, int64_min in *; lia). lia. }
  pose proof (persisted_put_fold (Txn q) t (tx_OperationsOnSuccess q) m L1 Hin) as Hfold.
  destruct (fold_left (persisted_put counts) (tx_OperationsOnSuccess q) (m, L1)) as [m2 L2].
  destruct Hfold as (Hm2 & HL2); [|done|lia|].
  { intros kv Hkv. cbn [request_puts]. unfold txn_operations. rewrite bind_app. apply elem_of_app. by left. }
  cbn [rbind]. apply IH; [done|set_solver|done|lia|].
  eapply Forall_impl; [exact Hhead|]. cbn. lia.
Qed.

Lemma uniquePutReturnTime_late :
  exists times, uniquePutReturnTime counts linearizable log.*1 = Ok times /\
    forall kv v, times !! kv = Some v -> late kv v.
Proof.
  unfold uniquePutReturnTime.
  pose proof (operation_return_fold linearizable linearizable ∅ 0 int64_max) as Hfold.
  destruct (fold_left (operation_return counts) linearizable (∅, 0)) as [m L].
  destruct Hfold as (Hm & HL & Hall); [done|by intros kv v ?%lookup_empty_Some|done|done|].
  rewrite <-fmap_reverse.
  destruct (persisted_returns_late (reverse log) m L) as (m2 & L2 & -> & Hm2).
  - exact (StronglySorted_reverse _ _ (te_order _ Hlog)).
  - intros x. by rewrite elem_of_reverse.
  - intros kv v Hv. by apply returned_late, Hm.
  - lia.
  - apply Forall_forall. intros [r t] Hin. rewrite elem_of_reverse in Hin.
    destruct (te_client _ Hlog r t Hin) as (_ & _ & op & Hop & _ & Ht).
    eapply (proj1 (Forall_forall _ _)) in Hall; [|exact Hop]. cbn in *. lia.
  - by exists m2.
Qed.

(** * Patching *)

Lemma patch_put_fold (w times pc : gmap keyValue Z) (t : Z) (ops : list EtcdOperation) (p : patch) :
  (forall kv v, kv ∈ (ops ≫= op_puts) -> put_count counts kv = 1 -> times !! kv = Some v -> t <= v) ->
  t <= pt_Return p ->
  let p2 := fold_left (patch_put counts w times pc) ops p in
  t <= pt_Return p2 <= pt_Return p /\
  (pt_persisted p2 = true <->
    pt_persisted p = true \/ exists kv, kv ∈ (ops ≫= op_puts) /\ is_Some (pc !! kv)).
Proof.
  revert p; induction ops as [|op ops IH]; intros p Hops Hp; cbn [fold_left].
  { cbn. split; [done|]. split; [by left|]. intros [?|(kv & []%not_elem_of_nil & _)]; done. }
  assert (Hrest : forall kv v, kv ∈ (ops ≫= op_puts) -> put_count counts kv = 1 -> times !! kv = Some v -> t <= v).
  { intros kv v Hkv. apply Hops. cbn [mbind list_bind]. apply elem_of_app. by right. }
  destruct op as [o|put|k]; [by apply IH| |by apply IH]. cbn [mbind list_bind op_puts].
  set (p1 := patch_put counts w times pc p (PutOperation put)).
  assert (Hp1 : t <= pt_Return p1 <= pt_Return p /\
    (pt_persisted p1 = true <-> pt_persisted p = true \/ is_Some (pc !! put_kv put))).
  { assert (Hput : forall v, put_count counts (put_kv put) = 1 -> times !! put_kv put = Some v -> t <= v).
    { intros v. apply Hops. cbn [mbind list_bind op_puts]. apply elem_of_app. left. by left. }
    assert (Hflag : (match pc !! put_kv put with Some _ => true | None => pt_persisted p end) = true <->
      pt_persisted p = true \/ is_Some (pc !! put_kv put)).
    { destruct (pc !! put_kv put); [naive_solver|]. split; [by left|]. by intros [?|[? [=]]]. }
    unfold p1. cbn [patch_put].
    destruct (Z.eqb_spec (put_count counts (put_kv put)) 1) as [Hc|Hc]; cbn [negb pt_Return pt_persisted];
      [|split; [lia|done]].
    split; [|done]. destruct (times !! put_kv put) as [v|]; [|lia]. specialize (Hput v Hc eq_refl). lia. }
  destruct Hp1 as [Hr1 Hf1]. destruct (IH p1 Hrest) as [Hr2 Hf2]; [lia|]. split; [lia|].
  rewrite Hf2, Hf1. split.
  - intros [[?|?]|(kv & Hkv & ?)]; [by left|right; exists (put_kv put); split; [by left|done]|].
    right. exists kv. split; [by right|done].
  - intros [?|(kv & [->|Hkv]%elem_of_cons & ?)]; [by left; left|by left; right|right; eauto].
Qed.

(** An operation after patching: its answer is what it was, or that it was
    persisted, and it returns no later. *)
Record patched (op op2 : Operation) : Prop := mkPatched {
  pd_client : op_ClientId op2 = op_ClientId op;
  pd_input : op_Input op2 = op_Input op;
  pd_call : op_Call op2 = op_Call op;
  pd_return : op_Return op2 <= op_Return op;
  pd_output : op_Output op2 = op_Output op \/ has_error (op_Output op) = true /\ exists n, op_Output op2 = persisted n
}.

Lemma patch_put_le (w times pc : gmap keyValue Z) (ops : list EtcdOperation) (p : patch) :
  pt_Return (fold_left (patch_put counts w times pc) ops p) <= pt_Return p.
Proof.
  revert p; induction ops as [|op ops IH]; intros p; cbn [fold_left]; [done|].
  etransitivity; [apply IH|]. destruct op as [|put|]; cbn [patch_put]; [done| |done].
  destruct (negb _); [done|]. cbn. destruct (times !! put_kv put); lia.
Qed.

Lemma patch_operation_patched (w times pc : gmap keyValue Z) op op2 :
  patch_operation counts w times pc op = Some op2 -> patched op op2.
Proof.
  assert (Hid : patched op op) by (split; (done || by left)).
  unfold patch_operation. destruct (op_Input op) as [|q| | | |]; try by intros [= <-].
  destruct (has_error (op_Output op)) eqn:Herr; cbn [negb]; [|by intros [= <-]].
  pose proof (patch_put_le w times pc (txn_operations q) (mkPatch 0 false (op_Return op))) as Hle.
  set (p := fold_left _ _ _) in *. cbn [pt_Return] in Hle.
  destruct (isUniqueTxn counts q); [destruct (pt_persisted p); [destruct (pt_txnRevision p =? 0)|]|]; cbn [negb];
    intros [= <-]; split; cbn; eauto.
Qed.

(** A write that is unique has a put that was sent once. *)
Lemma unique_write q :
  isUniqueTxn counts q = true -> hasWriteOperation (txn_operations q) = true ->
  exists kv, kv ∈ request_puts (Txn q).
Proof.
  assert (Hops : forall ops, hasUniqueWriteOperation counts ops = true -> exists kv, kv ∈ (ops ≫= op_puts)).
  { intros ops (op & Hop & Hu)%existsb_exists. destruct op as [|put|]; try done.
    exists (put_kv put). apply list_elem_of_bind. exists (PutOperation put). split; [by left|by apply list_elem_of_In]. }
  unfold isUniqueTxn, isUniqueOps. cbn [request_puts]. unfold txn_operations. intros [H1 H2]%andb_true_iff Hw.
  unfold hasWriteOperation in Hw. rewrite existsb_app in Hw. rewrite bind_app.
  apply orb_true_iff in Hw as [Hw|Hw].
  - apply orb_true_iff in H1 as [H1|H1]; [|unfold hasWriteOperation in H1; by rewrite Hw in H1].
    destruct (Hops _ H1) as [kv Hkv]. exists kv. apply elem_of_app. by left.
  - apply orb_true_iff in H2 as [H2|H2]; [|unfold hasWriteOperation in H2; by rewrite Hw in H2].
    destruct (Hops _ H2) as [kv Hkv]. exists kv. apply elem_of_app. by right.
Qed.

Lemma patch_operation_kept (w times : gmap keyValue Z) op t :
  (forall kv v, times !! kv = Some v -> late kv v) -> (op_Input op, t) ∈ log -> t <= op_Return op ->
  exists op2, patch_operation counts w times (countPersistedPuts log.*1) op = Some op2 /\ t <= op_Return op2.
Proof.
  intros Htimes Hin Ht. destruct (te_client _ Hlog _ t Hin) as (_ & (q & Hq & Hw) & _).
  unfold patch_operation. rewrite Hq. destruct (has_error (op_Output op)); cbn [negb]; [|by exists op].
  destruct (patch_put_fold w times (countPersistedPuts log.*1) t (txn_operations q) (mkPatch 0 false (op_Return op)))
    as [[Hr1 _] Hf]; [|done|].
  { intros kv v Hkv _ Hv. eapply (proj2 (Htimes kv v Hv)); [exact Hin|]. by rewrite Hq. }
  set (p := fold_left _ _ _) in *. cbn [pt_persisted] in Hf.
  destruct (isUniqueTxn counts q) eqn:Hu; [|by eexists].
  assert (Hp : pt_persisted p = true).
  { apply Hf. right. destruct (unique_write q Hu Hw) as [kv Hkv]. exists kv. split; [done|].
    apply (persisted_counted kv _ (Txn q)); [|done].
    apply list_elem_of_fmap. exists (op_Input op, t). by split; [rewrite Hq|]. }
  rewrite Hp. cbn [negb]. destruct (pt_txnRevision p =? 0); by eexists.
Qed.

(** C37: completing the recorded operations from the driver's log keeps every
    effect.  Let each request of the log, in its order, have taken effect at a
    time between the call and the return of the client's operation, where an
    operation that failed may return at any time.  Then patching ends without
    a panic; it leaves an operation that did not fail as it is; what it does to
    another is to bring its return forward and to mark it as persisted; and
    every request of the log still has an operation with its call before and
    its return not before the time of the effect, so a history that is
    linearizable in the order of the log remains so. *)
Theorem patch_keeps_effects :
  exists ops2, patchLinearizableOperations linearizable reports log.*1 = Ok ops2 /\
    (forall op, op ∈ linearizable -> has_error (op_Output op) = false -> op ∈ ops2) /\
    (forall op2, op2 ∈ ops2 -> exists op, op ∈ linearizable /\ patched op op2) /\
    (forall r t, (r, t) ∈ log -> exists op2, op2 ∈ ops2 /\ op_Input op2 = r /\ op_Call op2 < t <= op_Return op2).
Proof.
  destruct uniquePutReturnTime_late as (times & Htimes & Hlate).
  unfold patchLinearizableOperations. rewrite Htimes. eexists. split; [done|]. unfold patchOperations. split_and!.
  - intros op Hop Herr. apply list_elem_of_omap. exists op. split; [done|]. unfold patch_operation. rewrite Herr.
    by destruct (op_Input op).
  - intros op2 (op & Hop & Hp)%list_elem_of_omap. exists op. split; [done|]. by eapply patch_operation_patched.
  - intros r t Hin. destruct (te_client _ Hlog r t Hin) as (_ & _ & op & Hop & <- & Hc).
    destruct (patch_operation_kept (putRevision reports) times op t Hlate Hin) as (op2 & Hp & Ht); [lia|].
    exists op2. apply patch_operation_patched in Hp as Hpd. destruct Hpd as [_ Hi Hcall _ _].
    split; [apply list_elem_of_omap; eauto|]. split; [done|lia].
Qed.
End Log.
End Reports.
End PatchSpec.

(** * Clients that wait for their answers *)

Section Sequential.
Context `{ET : EtcdTypes, EW : !EtcdWatch, ER : !EtcdRead}.

(** The operations of one client, after its last return. *)
Fixpoint sequential (lastReturn : Z) (ops : list Operation) : Prop :=
  match ops with
  | [] => True
  | op :: ops => lastReturn < op_Call op < op_Return op /\ sequential (op_Return op) ops
  end.

Definition client_operations (client : Z) (ops : list Operation) : list Operation :=
  filter (fun op => op_ClientId op = client) ops.

(** The check passes exactly when the operations of every client follow each
    other. *)
Lemma non_concurrent_exact m (ops : list Operation) :
  non_concurrent m ops = None <-> forall client, sequential (default 0 (m !! client)) (client_operations client ops).
Proof.
  revert m; induction ops as [|op ops IH]; intros m; cbn [non_concurrent]; [done|].
  unfold client_operations. setoid_rewrite filter_cons.
  destruct (Z.leb_spec (op_Call op) (default 0 (m !! op_ClientId op))) as [Hle|Hgt].
  { split; [done|]. intros H. specialize (H (op_ClientId op)). rewrite decide_True in H by done. cbn in H. lia. }
  destruct (Z.leb_spec (op_Return op) (op_Call op)) as [Hle|Hgt2].
  { split; [done|]. intros H. specialize (H (op_ClientId op)). rewrite decide_True in H by done. cbn in H. lia. }
  rewrite IH. apply forall_proper. intros client. unfold client_operations.
  destruct (decide (op_ClientId op = client)) as [<-|Hne].
  - rewrite lookup_insert_eq. cbn [sequential default]. unfold default, id. intuition lia.
  - by rewrite lookup_insert_ne.
Qed.
End Sequential.

(** * A run *)

#[global] Instance sample_read : EtcdRead (ET := sample_etcd) :=
  {| IsRead r := match r with RangeRequest _ _ => true | _ => false end |}.

Definition sample_answer : MaybeEtcdResponse (ET := sample_etcd) :=
  answered (mkEtcdResponse (TxnBody (mkTxnResponse false [zeroOperationResult])) "" 2).

(** A put that was answered and one that failed; both are in the log. *)
Definition sample_reports : list (Report (ET := sample_etcd)) :=
  [mkReport [mkOperation 1 (put_leased (str "/a") (str "x") 0) 1 sample_answer 5] [];
   mkReport [mkOperation 2 (put_leased (str "/b") (str "y") 0) 2 (failed "timeout") 6] []].

Definition sample_log : list (EtcdRequest (ET := sample_etcd) * Z) :=
  [(put_leased (str "/b") (str "y") 0, 3); (put_leased (str "/a") (str "x") 0, 4)].

(** The operation that failed is in the log before one that returned at 5. *)
Example sample_patched :
  patchLinearizableOperations (linearizable sample_reports) sample_reports sample_log.*1 =
  Ok [mkOperation 1 (put_leased (str "/a") (str "x") 0) 1 sample_answer 5;
      mkOperation 2 (put_leased (str "/b") (str "y") 0) 2 (persisted 0) 4].
Proof. vm_compute. reflexivity. Qed.

Lemma sample_took_effect : took_effect sample_reports sample_log.
Proof.
  split.
  - repeat constructor.
  - intros r t [[= -> ->]|[[= -> ->]|[]%not_elem_of_nil]%elem_of_cons]%elem_of_cons;
      (split; [done|]; split; [eexists; split; reflexivity|]).
    + eexists. split; [right; left|]. by split.
    + eexists. split; [left|]. by split.
  - intros r t t2 kv [[= -> ->]|[[= -> ->]|[]%not_elem_of_nil]%elem_of_cons]%elem_of_cons;
      intros [[= ->]|[[= ->]|[]%not_elem_of_nil]%elem_of_cons]%elem_of_cons; done.
Qed.

Lemma patch_keeps_effects_witness :
  exists ops2, patchLinearizableOperations (linearizable sample_reports) sample_reports sample_log.*1 = Ok ops2 /\
    (forall op, op ∈ linearizable sample_reports -> has_error (op_Output op) = false -> op ∈ ops2) /\
    (forall op2, op2 ∈ ops2 -> exists op, op ∈ linearizable sample_reports /\ patched op op2) /\
    (forall r t, (r, t) ∈ sample_log ->
       exists op2, op2 ∈ ops2 /\ op_Input op2 = r /\ op_Call op2 < t <= op_Return op2).
Proof.
  apply (patch_keeps_effects sample_reports sample_log).
  - exact sample_took_effect.
  - repeat constructor; vm_compute; discriminate.
Defined.
