(* ===== verification/Traces.v ===== *)
(** pkg/drivers/fdb/fdb_log_util.go: the goroutine that copies the trace file
    of the client library to the log.

    The file system is an input: the files that the pattern matches, the time
    each was modified, and what a file holds when it is read. *)
From stdpp Require Import base strings list sorting.
From Stdlib Require Import Strings.Byte ZArith Lia.
From S2P Require Import Prelude FdbApi.

(** [sort.Slice] of Go orders a slice by [less]; elements that are equal in
    the order may end up in any order. *)
Class SortSlice := {
  sort_Slice : forall A : Type, (A -> A -> bool) -> list A -> list A;
  sort_Slice_Permutation A less (l : list A) : sort_Slice A less l ≡ₚ l;
  sort_Slice_head A less (l : list A) x rest :
    (forall a b c, less b a = false -> less c b = false -> less c a = false) ->
    (forall a b, less a b = false \/ less b a = false) ->
    sort_Slice A less l = x :: rest -> Forall (fun y => less y x = false) l
}.

(** Stdpp's merge sort is one. *)
#[global] Instance not_less_dec {A} (less : A -> A -> bool) : RelDecision (fun x y => less y x = false).
Proof. intros x y. apply _. Defined.

#[global] Program Instance merge_SortSlice : SortSlice := {|
  sort_Slice A less l := merge_sort (fun x y => less y x = false) l
|}.
Next Obligation. intros. apply merge_sort_Permutation. Qed.
Next Obligation.
  intros A less l x rest Htrans Htotal Hsort.
  assert (Transitive (fun x y => less y x = false)) by (intros a b c; apply Htrans).
  assert (Total (fun x y => less y x = false)) by (intros a b; destruct (Htotal a b); [by right|by left]).
  pose proof (StronglySorted_merge_sort (fun x y => less y x = false) l) as Hs.
  rewrite <-(merge_sort_Permutation (fun x y => less y x = false) l). rewrite Hsort in Hs |- *.
  apply StronglySorted_inv in Hs as [_ Hle]. constructor; [|done]. by destruct (Htotal x x).
Qed.

Section Traces.
Context `{SortSlice}.

(** * The newest trace *)

Section Newest.
(** [os.Stat]: the time a file was modified. *)
Context (Stat : bytes -> option Z).

Definition ModTime (file : bytes) : Z := default 0 (Stat file).

Definition newer (i j : bytes) : bool := ModTime j <? ModTime i.

(** [newestTrace].  The error of [os.Stat] is dropped, so that comparing a
    file that is gone is a use of nil; one file is not compared. *)
Definition newestTrace (files : list bytes) : res bytes :=
  match files with
  | [] => Err (ErrMessage "no files found")
  | _ =>
      if (1 <? length files)%nat && existsb (fun file => bool_decide (Stat file = None)) files then Panic
      else
        match sort_Slice bytes newer files with
        | file :: _ => Ok file
        | [] => Panic
        end
  end.

(** With files that are there, the newest one is found; it is never out of
    range. *)
Lemma newestTrace_newest files :
  files <> [] -> Forall (fun file => is_Some (Stat file)) files ->
  exists file, newestTrace files = Ok file /\ file ∈ files /\
    Forall (fun other => ModTime other <= ModTime file) files.
Proof.
  intros Hne Hall. unfold newestTrace.
  assert (Hstat : existsb (fun file => bool_decide (Stat file = None)) files = false).
  { apply not_true_is_false. intros (x & Hx & Hn)%existsb_exists. apply bool_decide_eq_true in Hn.
    eapply (proj1 (Forall_forall _ _)) in Hall; [|by apply list_elem_of_In].
    rewrite Hn in Hall. by destruct Hall. }
  destruct files as [|f0 l] eqn:Hfiles; [done|]. rewrite <-Hfiles in *. rewrite Hstat, andb_false_r.
  pose proof (sort_Slice_Permutation bytes newer files) as Hperm.
  destruct (sort_Slice bytes newer files) as [|file rest] eqn:Hsort.
  { apply Permutation_nil_l in Hperm. by rewrite Hfiles in Hperm. }
  exists file. split; [done|]. split; [rewrite <-Hperm; by left|].
  eapply Forall_impl; [eapply (sort_Slice_head bytes newer files file rest); [..|exact Hsort]|];
    unfold newer; intros *; rewrite ?Z.ltb_ge; lia.
Qed.
End Newest.

(** * The lines of a file *)

(** The loop of [followFile]: [ReadString] returns the bytes up to a newline,
    and an error when there is none left, which drops an unfinished line. *)
Fixpoint lines_from (line contents : bytes) : list bytes :=
  match contents with
  | [] => []
  | b :: contents =>
      if decide (b = Byte.x0a) then line :: lines_from [] contents
      else lines_from (line ++ [b]) contents
  end.

(** [followFile]: what is logged of a file, whose opening may fail. *)
Definition followFile (contents : option bytes) (seek : option error) : res (list bytes) :=
  match contents, seek with
  | None, _ => Panic
  | Some _, Some _ => Ok []
  | Some contents, None => Ok (lines_from [] contents)
  end.

Definition newline (line : bytes) : bytes := line ++ [Byte.x0a].

(** The lines and what is left unfinished are the file. *)
Lemma lines_from_split line contents :
  Byte.x0a ∉ line ->
  exists rest, line ++ contents = (mjoin (newline <$> lines_from line contents)) ++ rest /\
    (Byte.x0a ∉ rest) /\ Forall (fun l => Byte.x0a ∉ l) (lines_from line contents).
Proof.
  revert line; induction contents as [|b contents IH]; intros line Hline; cbn [lines_from].
  - exists line. rewrite app_nil_r. by split_and!.
  - case_decide as Hb.
    + subst b. destruct (IH []) as (rest & Heq & Hrest & Hall); [by apply not_elem_of_nil|].
      exists rest. split_and!; [|done|by constructor]. cbn [fmap list_fmap mjoin list_join]. unfold newline at 1.
      rewrite <-!app_assoc. f_equal. cbn [app]. f_equal. exact Heq.
    + destruct (IH (line ++ [b])) as (rest & Heq & Hrest & Hall); [by rewrite elem_of_app, list_elem_of_singleton; intros [?| <-]|].
      exists rest. split_and!; [|done..]. rewrite <-Heq. by rewrite <-app_assoc.
Qed.

Lemma followFile_lines contents :
  exists lines rest, followFile (Some contents) None = Ok lines /\
    contents = (mjoin (newline <$> lines)) ++ rest /\ (Byte.x0a ∉ rest) /\ Forall (fun l => Byte.x0a ∉ l) lines.
Proof.
  destruct (lines_from_split [] contents) as (rest & Hl); [by apply not_elem_of_nil|].
  by exists (lines_from [] contents), rest.
Qed.

(** * The goroutine *)

(** What one pass of the loop meets. *)
Record traceEnv := mkTraceEnv {
  te_files : list bytes;
  te_Stat : bytes -> option Z;
  te_open : bytes -> option bytes;
  te_seek : option error
}.

(** The file copied last and the lines logged. *)
Record traceState := mkTraceState { ts_prevFile : bytes; ts_log : list bytes }.

(** A pass of the loop of [logFDBTraces]. *)
Definition trace_step (env : traceEnv) (st : traceState) : res traceState :=
  match newestTrace (te_Stat env) (te_files env) with
  | Ok nextFile =>
      if decide (nextFile <> ts_prevFile st) then
        let? lines := followFile (te_open env nextFile) (te_seek env) in
        Ok (mkTraceState nextFile (ts_log st ++ lines))
      else Ok st
  | Err _ => Ok st
  | Panic => Panic
  end.

Fixpoint trace_loop (envs : list traceEnv) (st : traceState) : res traceState :=
  match envs with
  | [] => Ok st
  | env :: envs => let? st := trace_step env st in trace_loop envs st
  end.

Definition trace_start : traceState := mkTraceState [] [].

(** Once a file is copied, nothing that is added to it is, as long as it is
    the newest. *)
Lemma trace_added_lost envs st :
  Forall (fun env => newestTrace (te_Stat env) (te_files env) = Ok (ts_prevFile st)) envs ->
  trace_loop envs st = Ok st.
Proof.
  induction 1 as [|env envs Henv _ IH]; [done|]. cbn [trace_loop]. unfold trace_step. rewrite Henv.
  by rewrite decide_False by naive_solver.
Qed.
End Traces.

(** Two passes: the line that is added between them is not logged, and
    neither is the line that was unfinished at the first. *)
Definition trace_pass (contents : bytes) : traceEnv :=
  mkTraceEnv [str "/tmp/trace.1.json"; str "/tmp/trace.2.json"]
    (fun file => Some (if decide (file = str "/tmp/trace.2.json") then 20 else 10)) (fun _ => Some contents) None.

Example trace_line_lost :
  trace_loop [mkTraceEnv [] (fun _ => None) (fun _ => None) None;
              mkTraceEnv [str "/tmp/trace.2.json"] (fun _ => None) (fun _ => Some (str "a" ++ [Byte.x0a] ++ str "b")) None;
              trace_pass (str "a" ++ [Byte.x0a] ++ str "bc" ++ [Byte.x0a])] trace_start =
  Ok (mkTraceState (str "/tmp/trace.2.json") [str "a"]).
Proof. vm_compute. reflexivity. Qed.
