(* ===== verification/CommandLine.v ===== *)
(** The settings of the driver and the command: pkg/drivers/fdb/fdb_config.go,
    [New] of pkg/drivers/fdb/fdb.go and cmd/kube-foundationdb/main.go.

    Flags are parsed by the command-line library and the application is
    kine's: [main] takes what the application returns as an argument. *)
From stdpp Require Import base strings list gmap.
From Stdlib Require Import Strings.Byte ZArith Lia.
From S2P Require Import Prelude FdbApi Util Subspaces Transact Read Start Backend.

(** * fdb_config.go *)

(** The variables that flags set; durations are in nanoseconds. *)
Record settings := mkSettings {
  Directory : bytes;
  CleanDirOnStart : bool;
  LogConflictingKeys : bool;
  PollIntervalFloor : Z
}.

Definition millisecond : Z := 1000000.

Definition initial_settings : settings := mkSettings (str "etcd") false false (5 * millisecond).

(** A flag: its name, its default and the variable it sets. *)
Inductive Flag :=
| StringFlag (Name Value : bytes) (Destination : bytes -> settings -> settings)
| BoolFlag (Name : bytes) (Destination : bool -> settings -> settings)
| DurationFlag (Name : bytes) (Value : Z) (Destination : Z -> settings -> settings).

Definition ConfigFlags : list Flag :=
  [StringFlag (str "fdb-directory") (str "etcd")
     (fun v st => mkSettings v (CleanDirOnStart st) (LogConflictingKeys st) (PollIntervalFloor st));
   BoolFlag (str "fdb-clean-directory-on-start")
     (fun v st => mkSettings (Directory st) v (LogConflictingKeys st) (PollIntervalFloor st));
   DurationFlag (str "fdb-poll-interval") (5 * millisecond)
     (fun v st => mkSettings (Directory st) (CleanDirOnStart st) (LogConflictingKeys st) v);
   BoolFlag (str "fdb-log-conflicting-keys")
     (fun v st => mkSettings (Directory st) (CleanDirOnStart st) v (PollIntervalFloor st))].

Definition flag_name (fl : Flag) : bytes :=
  match fl with StringFlag n _ _ | BoolFlag n _ | DurationFlag n _ _ => n end.

(** The variable of a flag with the flag's default. *)
Definition set_default (st : settings) (fl : Flag) : settings :=
  match fl with
  | StringFlag _ v d => d v st
  | BoolFlag _ d => d false st
  | DurationFlag _ v d => d v st
  end.

(** The defaults of the flags are the values of the variables without flags:
    the driver behaves the same under the command as when it is embedded. *)
Lemma ConfigFlags_defaults st : fold_left set_default ConfigFlags st = initial_settings.
Proof. by destruct st. Qed.

Lemma ConfigFlags_distinct : NoDup (flag_name <$> ConfigFlags).
Proof. by apply (bool_decide_eq_true_1 (NoDup (flag_name <$> ConfigFlags))); vm_compute. Qed.

(** * main.go *)

(** [setFDBEndpointIfNotConfigured]: kine chooses its driver by the
    endpoint. *)
Definition setFDBEndpointIfNotConfigured (args : list bytes) : list bytes :=
  if decide (str "--endpoint" ∈ args) then args else args ++ [str "--endpoint"; str "fdb://"].

(** Kine finds an endpoint afterwards, with a value when the user gave none. *)
Lemma setFDBEndpoint_idempotent args :
  setFDBEndpointIfNotConfigured (setFDBEndpointIfNotConfigured args) = setFDBEndpointIfNotConfigured args.
Proof.
  unfold setFDBEndpointIfNotConfigured. destruct (decide (str "--endpoint" ∈ args)) as [H|H].
  - by rewrite decide_True.
  - rewrite decide_True; [done|]. apply elem_of_app. right. by left.
Qed.

(** An endpoint that is given as one argument is not recognised. *)
Example endpoint_given_twice :
  setFDBEndpointIfNotConfigured [str "kube-foundationdb"; str "--endpoint=sqlite://db"] =
  [str "kube-foundationdb"; str "--endpoint=sqlite://db"; str "--endpoint"; str "fdb://"].
Proof. vm_compute. reflexivity. Qed.

(** How the process ends: normally, or with a fatal log line. *)
Inductive exit := Exit | Fatal (e : error).

(** [main], with the flags of kine and its application; [canceled] are the
    errors that are [context.Canceled]. *)
Definition main (flags : list Flag) (run : list Flag -> list bytes -> option error) (canceled : error -> bool)
    (args : list bytes) : exit :=
  match run (flags ++ ConfigFlags) (setFDBEndpointIfNotConfigured args) with
  | Some err => if negb (canceled err) then Fatal err else Exit
  | None => Exit
  end.

(** * fdb.go *)

(** [New]: the driver that kine creates for the endpoint; the flag says that
    it does not elect a leader. *)
Definition New `{FB : FdbBindings, KV : KVStore, CF : Config} (st : settings) (BackendTLSConfig : tls_Config)
    (GetEstimatedRangeSizeBytes : Transaction -> bytes * bytes -> res Z) : bool * FdbLogger opEnv driverState :=
  (false, NewFDB (CleanDirOnStart st) BackendTLSConfig GetEstimatedRangeSizeBytes).
